(* ===== verification/_CoqProject ===== *)
-Q . S2P
Prelude.v
Crypto.v
Trie.v
KeyBits.v
TrieTree.v
TrieRefine.v
TrieProofs.v
TrieBinding.v
Keyed.v
AxonIndex.v
Types.v
Cards.v
State.v
StateSpec.v
Position.v
StateRoot.v
Prune.v
Ledger.v
Facade.v
Records.v
Undo.v
UndoSpec.v
Transition.v
TransitionSpec.v
NativeBatch.v
Persist.v
Access.v
Buffer.v
Shard.v
Tiered.v
Engine.v
Database.v
Application.v
Journal.v
Fences.v
JournalReads.v
Archive.v
Transfer.v
ArchiveSpec.v
Inspection.v
TransferSpec.v
LinksSpec.v
Staging.v
Certificate.v
Query.v
QueryAuth.v
QuerySpec.v
QueryProofs.v
QueryComplete.v
FreshSpec.v
Looks.v
Wire.v
WireSpec.v
Disk.v
Unimem.v
Cells.v
UnimemSpec.v
Importer.v
ImporterSpec.v
Frame.v
Cli.v
CliSpec.v
