(* ===== verification/Prelude.v ===== *)
(** * bbg: a verification library

    bbg is the state of a cyberlink graph: particles, axons, neurons, cards, private commitments
    and nullifiers, each in an authenticated dimension, folded into one root; around it, stores of
    shard rows and a durable database. This library models the Rust crate under rs/src and proves
    what its parts promise.

    ** The program and where it is modelled

    - Crypto.v: rs/src/root.rs (compression, the 14-leaf fold) and rs/src/dim.rs (field encodings,
      v1 tables). The crates nebu (Goldilocks), hemera (hash, permutation) and lens (Brakedown) are
      the classes [Nebu], [Hemera], [Lens] with their documented laws in [NebuLaws], [HemeraLaws].
      No collision resistance is assumed: binding theorems end in "or these two inputs collide".
    - Trie.v: rs/src/trie.rs, the crit-bit arena as it is (node vector, free list, dirty flags).
      KeyBits.v, TrieTree.v and TrieRefine.v relate the arena to trees and trees to finite maps;
      TrieProofs.v and TrieBinding.v state what set, remove, get, root, prove and verify do.
    - Keyed.v and AxonIndex.v: rs/src/keyed.rs, the committed maps over a trie that lags behind,
      and the adjacency lists with a member trie per particle.
    - Types.v: rs/src/types.rs, signal.rs, stats.rs and the v2 leaf layouts of state/commits.rs.
    - Cards.v and Position.v: rs/src/position.rs, card positions, side sums and snapshots.
    - State.v: rs/src/state.rs, state/commits.rs, [dim_entries] of proof.rs. StateSpec.v presents a
      state as a record of maps ([View]); StateRoot.v shows the root determines the view.
    - Prune.v: rs/src/prune.rs. Ledger.v: histories of signals and what insertion accounts for.
    - Facade.v: rs/src/lib.rs and checkpoint.rs, the block-level interface with its root chain.
    - Records.v: rs/src/transition/records.rs, the persisted form of a state. Undo.v:
      transition/undo.rs, the bounded log with its decoder. Transition.v: transition/mod.rs, the
      preparation of a batch. UndoSpec.v, TransitionSpec.v and NativeBatch.v carry the invariant of
      a preparation (its log holds whatever may have changed); Persist.v is about the records.
    - Access.v, Buffer.v, Shard.v: rs/src/storage/access.rs, buffer.rs, mod.rs and mem.rs: bounded
      scans, the write buffer, the store interface [ShardStore] and its laws [StoreLaws].
    - Tiered.v: rs/src/storage/tiered.rs and network.rs, over any stores with the laws.
    - Engine.v: rs/src/storage/database/backend*.rs, over the calls of fjall and redb (classes
      [Fjall] and [Redb] with their laws).
    - Database.v: rs/src/storage/database/{mod,transaction,records,generation}.rs, the transaction
      owner. Disk.v: rs/src/storage/disk.rs over that owner, proved to have the store laws.
    - Unimem.v: rs/src/storage/unimem.rs, the shared-memory store with its arena and its pool, on the
      accelerated-hash view of dim.rs. Cells.v: what a write leaves of the other cells.
      UnimemSpec.v: when the store presents the committed rows, and when it does not.
    - Application.v: rs/src/storage/application.rs, a history of commits per namespace over the
      transaction owner, with receipts and fences. Journal.v, Fences.v and JournalReads.v: the logs
      its rows stand for, and what its writes and reads do to them.
    - Archive.v: rs/src/storage/application/validation.rs and archive.rs, the links between the
      application tables and the bounded inspection of a locked store. ArchiveSpec.v and Inspection.v
      show what an inspection finds.
    - Transfer.v: rs/src/storage/application/transfer.rs, the seal of a source and its restartable
      copy into a target. TransferSpec.v and Staging.v carry the invariant of its cursor; LinksSpec.v
      shows what a validation of the links finds.
    - Importer.v: rs/src/storage/application/migration.rs, the import of a redb file into a new
      directory under a guard. ImporterSpec.v: whatever fails, the target is complete or sealed.
    - Certificate.v: rs/src/certificate.rs. Query.v: rs/src/proof.rs and query.rs, the openings of the
      polynomial commitment, their recorded look-ups and their verifier. QueryAuth.v:
      rs/src/query_auth.rs. QuerySpec.v, QueryProofs.v and QueryComplete.v: soundness and
      completeness; FreshSpec.v: the caches they rest on, along the histories of a facade; Looks.v: the look providers of lib.rs and query.rs. Wire.v: rs/src/query_wire.rs
      and the serde modules of proof.rs and certificate.rs; WireSpec.v: what they accept.
    - Frame.v: cli/src/frame.rs, the log of the command line with its decoder. Cli.v:
      cli/src/main.rs, its commands over a world with a log. CliSpec.v: a log is a state.

    ** How the model corresponds to the code

    A [&mut self] method is a function to the new state; a [Result] is a sum, an [Option] an
    option; a place where the source panics (an index, [expect], an overflow check, an underflow)
    answers [None], and the refinement theorems show that a well-formed state never reaches one.
    Integers are [uint w], a number below [2 ^ w] with its proof, so wrapping and saturation are
    written where the source has them; byte arrays are [bytes n]. Hash maps and B-tree maps are
    [gmap]s; where the source iterates one in order, the model sorts the keys. A mutex serializes
    its calls, so one owner's calls are a sequence.

    ** What the theorems show

    - Refinement: the arena trie, the committed maps, the adjacency lists, the state, the facade
      and every store present finite maps, and their operations are the operations on those maps.
    - Binding: equal roots mean equal records in every dimension; a verified inclusion proof says
      what the map holds; batch and change ids determine the batch.
    - Invariants and accounting: reachable states are well formed, a nullifier is spent once,
      insertion adds exactly the conviction of its links, card sums are what positions enumerate.
    - Pruning: the policy as a function, and what the rank floor protects.
    - Storage: a failed commit leaves what was committed, an unknown outcome poisons, a committed
      batch is read back from the engine, a bounded scan enumerates its rows. The shared-memory store
      is a table of rows in histories that respect its pools.
    - Journal and transfer: a write appends one entry after the expected head or leaves the logs, a
      retried request is applied once, a fenced log never changes, an inspection that succeeds found
      well-formed logs, enough pages of a transfer copy every row, and an import is complete or sealed.
    - Queries: an accepted query carries the records of the committed state, or exhibits a collision
      or an opening that the commitment scheme excludes; after any history of a v1 facade an honest
      prover's query is accepted and carries the record; a recorded look-up checks against its query;
      the wire form of a proof is exact within its bounds.
    - Command line: a log decodes to the events that were written, payload lengths are bounded, and
      a session of commands is the run of its events on a fresh state.
    - Transitions: a failed or dropped preparation restores the state exactly, a published one is the
      facade's operations, its changes are the difference of the persisted records, and those
      determine the state.
    - Defects of the code, as theorems: a non-inclusion proof can be forged, a malformed proof
      panics the verifier, one nullifier can carry two commitments; in the shared-memory store an
      overlong value reads into the next cell, a full pool panics, a row put before its pool
      survives its removal; a command whose append fails reports success, and a proof is never
      found under the v2 derivation of the console; the proof of a private commitment among more than
      [2 ^ 20] fields is refused by its own decoder.

    ** Bounds and fuel

    Recursion that is not structural carries fuel. Walks over a trie use one step more than the arena
    has nodes: a path visits a node once. Scans and merges use the length of what they consume. In
    each case a refinement theorem shows the fuel is enough on well-formed states.
    Arena indices are [u32], cut by the source's casts: a state presents its view within [w] cells
    per arena, every operation adds a known number, and the theorems ask that [w] stay within
    [2 ^ 32]. Restoring an undo log adds at most [undo_room] cells.

    ** Not modelled

    - The polynomial commitment scheme, the hash, the proof system's traces, the log container and
      the engines are other crates: classes ([Lens], [Openings], [Traces], [Tape], [Fjall],
      [Redb] and so on) with their documented laws ([LensLaws], [OpeningLaws], [TapeLaws], ...).
    - The formats of serde and its derived code (a decoder is given what they read), and the
      conversion of a certificate to the evidence type of the zheng crate.
    - File-system work: how directories, lock files and paths are opened, created and synced. Where
      the outcome matters (a store of the command line, the destination of an import) the calls are
      steps whose failures are an argument.
    - Argument parsing and standard error of the command line.
    - Concurrency below a mutex, and the time a call takes. *)

From Stdlib Require Export ZArith Lia.
From stdpp Require Export base list gmap sorting option strings.

Create HintDb bbg discriminated.
Create Rewrite HintDb bbg.

Declare Scope bbg_scope.
Delimit Scope bbg_scope with bbg.

Local Open Scope Z_scope.

(** ** Proof-carrying booleans that compute to [eq_refl] *)

Definition certify {b : bool} : b = true -> b = true :=
  match b with
  | true => fun _ => eq_refl
  | false => fun H => H
  end.

(** ** Machine integers: a [uint w] is a number below [2 ^ w] *)

Definition in_width (w : N) (z : Z) : bool := (0 <=? z) && (z <? 2 ^ Z.of_N w).

Record uint (w : N) := UInt { uval : Z; uval_ok : in_width w uval = true }.

Arguments UInt w%_N _%_Z _.
Arguments uval {w} !_ : simpl nomatch.
Coercion uval : uint >-> Z.

Abbreviation u8 := (uint 8).
Abbreviation u16 := (uint 16).
Abbreviation u32 := (uint 32).
Abbreviation u64 := (uint 64).
Abbreviation u128 := (uint 128).

(** Signed integers of [w] bits. *)
Definition in_swidth (w : N) (z : Z) : bool :=
  (- 2 ^ (Z.of_N w - 1) <=? z) && (z <? 2 ^ (Z.of_N w - 1)).

Record sint (w : N) := SInt { sval : Z; sval_ok : in_swidth w sval = true }.
Arguments SInt w%_N _%_Z _.
Arguments sval {w} !_ : simpl nomatch.

Abbreviation i8 := (sint 8).
Abbreviation i32 := (sint 32).

Lemma mod_in_width (w : N) (z : Z) : in_width w (z mod 2 ^ Z.of_N w) = true.
Proof.
  unfold in_width. pose proof (Z.mod_pos_bound z (2 ^ Z.of_N w)) as H.
  assert (0 < 2 ^ Z.of_N w) by (apply Z.pow_pos_nonneg; lia).
  apply andb_true_intro; split; [apply Z.leb_le | apply Z.ltb_lt]; lia.
Qed.

(** The wrapping conversion ([as] casts to an unsigned type). *)
Definition of_Z (w : N) (z : Z) : uint w :=
  UInt w (z mod 2 ^ Z.of_N w) (certify (mod_in_width w z)).
Arguments of_Z w%_N z%_Z : simpl never.

(** The largest value of the type ([uN::MAX]). *)
Definition umax (w : N) : uint w := of_Z w (2 ^ Z.of_N w - 1).
Arguments umax w%_N.

Definition saturating_add {w} (a b : uint w) : uint w :=
  if a + b <? 2 ^ Z.of_N w then of_Z w (a + b) else umax w.

Definition saturating_sub {w} (a b : uint w) : uint w :=
  if b <=? a then of_Z w (a - b) else of_Z w 0.

Definition checked_add {w} (a b : uint w) : option (uint w) :=
  if a + b <? 2 ^ Z.of_N w then Some (of_Z w (a + b)) else None.

(** ** Fixed-size byte arrays [[u8; n]] *)

Record bytes (n : nat) := Bytes { blist : list u8; blen : (length blist =? n)%nat = true }.
Arguments Bytes n%_nat _ _.
Arguments blist {n} _.
Coercion blist : bytes >-> list.

(** [slice.try_into()]: succeeds exactly on a slice of the right length. *)
Definition try_into (n : nat) (l : list u8) : option (bytes n) :=
  match Bool.bool_dec (length l =? n)%nat true with
  | left H => Some (Bytes n l H)
  | right _ => None
  end.

Lemma resize_len (n : nat) (l : list u8) :
  (length (resize n (of_Z 8 0) l) =? n)%nat = true.
Proof. apply Nat.eqb_eq, length_resize. Qed.

(** A buffer of [n] zero bytes with [l] copied to its front. *)
Definition buffer (n : nat) (l : list u8) : bytes n :=
  Bytes n (resize n (of_Z 8 0) l) (certify (resize_len n l)).

(** ** Little- and big-endian encodings *)

Fixpoint le_bytes (n : nat) (z : Z) : list u8 :=
  match n with
  | O => []
  | S n' => of_Z 8 z :: le_bytes n' (z / 256)
  end.

Fixpoint le_val (l : list u8) : Z :=
  match l with
  | [] => 0
  | b :: r => uval b + 256 * le_val r
  end.

Lemma length_le_bytes (n : nat) (z : Z) : length (le_bytes n z) = n.
Proof. revert z; induction n; intros z; simpl; [done | by rewrite IHn]. Qed.

Lemma le_bytes_len (n : nat) (z : Z) : (length (le_bytes n z) =? n)%nat = true.
Proof. apply Nat.eqb_eq, length_le_bytes. Qed.

(** [x.to_le_bytes()] and [uN::from_le_bytes]. *)
Definition to_le_bytes (n : nat) {w} (x : uint w) : bytes n :=
  Bytes n (le_bytes n (uval x)) (certify (le_bytes_len n (uval x))).
Definition from_le_bytes (w : N) (l : list u8) : uint w := of_Z w (le_val l).

Definition to_be_bytes (n : nat) {w} (x : uint w) : list u8 := rev (le_bytes n (uval x)).
Definition from_be_bytes (w : N) (l : list u8) : uint w := of_Z w (le_val (rev l)).

(** ASCII literals [b"..."]. *)
Definition ascii_bytes (s : string) : list u8 :=
  map (fun a => of_Z 8 (Z.of_N (Ascii.N_of_ascii a))) (String.list_ascii_of_string s).

(** ** Ordered keys and ordered iteration ([BTreeMap], [BTreeSet]) *)

Class Ordered (K : Type) := {
  ord_leb : K -> K -> bool;
  ord_leb_total : forall a b, ord_leb a b = true \/ ord_leb b a = true;
  ord_leb_trans : forall a b c, ord_leb a b = true -> ord_leb b c = true -> ord_leb a c = true;
  ord_leb_antisym : forall a b, ord_leb a b = true -> ord_leb b a = true -> a = b;
}.

Definition ord_ltb {K} `{Ordered K} (a b : K) : bool := negb (ord_leb b a).

Fixpoint list_leb {K} `{EqDecision K, Ordered K} (l1 l2 : list K) : bool :=
  match l1, l2 with
  | [], _ => true
  | _ :: _, [] => false
  | x :: xs, y :: ys => if decide (x = y) then list_leb xs ys else ord_leb x y
  end.

Definition entry_le {K V} `{Ordered K} (p q : K * V) : Prop := ord_leb p.1 q.1 = true.
#[export] Instance entry_le_dec {K V} `{Ordered K} : RelDecision (@entry_le K V _).
Proof. intros p q. unfold entry_le. apply _. Defined.

Definition key_le {K} `{Ordered K} (p q : K) : Prop := ord_leb p q = true.
#[export] Instance key_le_dec {K} `{Ordered K} : RelDecision (@key_le K _).
Proof. intros p q. unfold key_le. apply _. Defined.

(** A map or set is iterated in ascending key order. *)
Definition btree_iter {K V} `{Countable K, Ordered K} (m : gmap K V) : list (K * V) :=
  merge_sort entry_le (map_to_list m).
Definition btree_keys {K} `{Countable K, Ordered K} (s : gset K) : list K :=
  merge_sort key_le (elements s).

(** ** Results *)

Inductive result (E A : Type) := Ok (a : A) | Err (e : E).
Arguments Ok {E A} _.
Arguments Err {E A} _.

#[export] Instance result_ret E : MRet (result E) := fun A a => Ok a.
#[export] Instance result_bind E : MBind (result E) :=
  fun A B f m => match m with Ok a => f a | Err e => Err e end.
#[export] Instance result_fmap E : FMap (result E) :=
  fun A B f m => match m with Ok a => Ok (f a) | Err e => Err e end.

Definition ok_or {E A} (o : option A) (e : E) : result E A :=
  match o with Some a => Ok a | None => Err e end.

Definition map_err {E F A} (f : E -> F) (r : result E A) : result F A :=
  match r with Ok a => Ok a | Err e => Err (f e) end.

(** [iter().try_for_each]: run a state-passing step over a list, stopping at the first error. *)
Fixpoint try_fold {E S A} (f : S -> A -> result E S) (s : S) (l : list A) : result E S :=
  match l with
  | [] => Ok s
  | x :: r => match f s x with Ok s' => try_fold f s' r | Err e => Err e end
  end.

(** The same over a step that can panic ([None]). *)
Fixpoint fold_m {S A} (f : S -> A -> option S) (s : S) (l : list A) : option S :=
  match l with
  | [] => Some s
  | x :: r => s' ← f s x; fold_m f s' r
  end.

(** ** Facts: integers *)

Lemma uval_range {w} (a : uint w) : 0 <= a < 2 ^ Z.of_N w.
Proof. destruct a as [z H]; simpl. unfold in_width in H. lia. Qed.

Lemma bool_true_irrel (b : bool) (p q : b = true) : p = q.
Proof. apply Eqdep_dec.UIP_dec, Bool.bool_dec. Qed.

Lemma uint_eq {w} (a b : uint w) : uval a = uval b -> a = b.
Proof.
  destruct a as [x Hx], b as [y Hy]; simpl; intros ->.
  by rewrite (bool_true_irrel _ Hx Hy).
Qed.

#[export] Instance uval_inj w : Inj (=) (=) (@uval w).
Proof. intros a b. apply uint_eq. Qed.

Lemma uval_of_Z w z : uval (of_Z w z) = z mod 2 ^ Z.of_N w.
Proof. done. Qed.

Lemma uval_of_Z_small w z : 0 <= z < 2 ^ Z.of_N w -> uval (of_Z w z) = z.
Proof. intros H. rewrite uval_of_Z. by apply Z.mod_small. Qed.

Lemma of_Z_uval {w} (a : uint w) : of_Z w a = a.
Proof. apply uint_eq, uval_of_Z_small, uval_range. Qed.

Lemma sval_range {w} (a : sint w) : - 2 ^ (Z.of_N w - 1) <= sval a < 2 ^ (Z.of_N w - 1).
Proof. destruct a as [z H]; simpl. unfold in_swidth in H. lia. Qed.

Lemma sint_eq {w} (a b : sint w) : sval a = sval b -> a = b.
Proof.
  destruct a as [x Hx], b as [y Hy]; simpl; intros ->. by rewrite (bool_true_irrel _ Hx Hy).
Qed.

#[export] Instance sint_eq_dec w : EqDecision (sint w).
Proof.
  refine (fun a b => cast_if (decide (sval a = sval b))); abstract (by intuition (auto using sint_eq; congruence)).
Defined.

(** The cast [as uN] keeps the bits. *)
Lemma sval_cast_inj {w} (a b : sint w) :
  (0 < w)%N -> of_Z w (sval a) = of_Z w (sval b) -> a = b.
Proof.
  intros Hw E. apply sint_eq. apply (f_equal uval) in E. rewrite !uval_of_Z in E.
  pose proof (sval_range a). pose proof (sval_range b).
  assert (2 ^ Z.of_N w = 2 * 2 ^ (Z.of_N w - 1)) as Hp
    by (replace (Z.of_N w) with (Z.succ (Z.of_N w - 1)) at 1 by lia; apply Z.pow_succ_r; lia).
  rewrite Hp in E. set (h := 2 ^ (Z.of_N w - 1)) in *.
  assert (0 < h) by (apply Z.pow_pos_nonneg; lia).
  assert (forall x y, - h <= x < h -> - h <= y < h -> x mod (2 * h) = y mod (2 * h) -> x = y) as Hm;
    [|by apply Hm].
  intros x y Hx Hy Em. pose proof (Z.div_mod x (2 * h)). pose proof (Z.div_mod y (2 * h)).
  assert (x / (2 * h) = y / (2 * h) \/ x / (2 * h) <> y / (2 * h)) as [Eq|Hq] by lia; [nia|].
  assert (x - y = 2 * h * (x / (2 * h) - y / (2 * h))) by lia. nia.
Qed.

#[export] Instance uint_eq_dec w : EqDecision (uint w).
Proof.
  refine (fun a b => cast_if (decide (uval a = uval b))); abstract (by intuition (auto using uint_eq; congruence)).
Defined.

#[export] Instance uint_countable w : Countable (uint w) :=
  inj_countable' uval (of_Z w) of_Z_uval.

#[export] Instance uint_inhabited w : Inhabited (uint w) := populate (of_Z w 0).

#[export] Program Instance uint_ordered w : Ordered (uint w) :=
  {| ord_leb a b := uval a <=? uval b |}.
Next Obligation. intros w a b; simpl. rewrite !Z.leb_le. lia. Qed.
Next Obligation. intros w a b c; simpl. rewrite !Z.leb_le. lia. Qed.
Next Obligation. intros w a b; simpl. rewrite !Z.leb_le. intros. apply uint_eq. lia. Qed.

(** [u_lia]: linear arithmetic that knows the range of every machine integer in sight. *)
Ltac pose_uint_ranges :=
  repeat match goal with
  | |- context [ @uval ?w ?a ] =>
      lazymatch goal with
      | _ : 0 <= @uval w a < _ |- _ => fail
      | _ => let H := fresh "Hrange" in pose proof (uval_range a) as H; simpl Z.of_N in H
      end
  | _ : context [ @uval ?w ?a ] |- _ =>
      lazymatch goal with
      | _ : 0 <= @uval w a < _ |- _ => fail
      | _ => let H := fresh "Hrange" in pose proof (uval_range a) as H; simpl Z.of_N in H
      end
  end.
Ltac u_lia := pose_uint_ranges; lia.

Lemma uval_umax w : uval (umax w) = 2 ^ Z.of_N w - 1.
Proof.
  apply uval_of_Z_small. assert (0 < 2 ^ Z.of_N w) by (apply Z.pow_pos_nonneg; lia). lia.
Qed.

Lemma uval_saturating_add {w} (a b : uint w) :
  uval (saturating_add a b) = Z.min (a + b) (2 ^ Z.of_N w - 1).
Proof.
  unfold saturating_add. pose proof (uval_range a). pose proof (uval_range b).
  case_match eqn:E; [rewrite uval_of_Z_small by lia | rewrite uval_umax]; lia.
Qed.

Lemma uval_saturating_sub {w} (a b : uint w) :
  uval (saturating_sub a b) = Z.max (a - b) 0.
Proof.
  unfold saturating_sub. pose proof (uval_range a). pose proof (uval_range b).
  case_match eqn:E; rewrite uval_of_Z_small; lia.
Qed.

Lemma checked_add_Some {w} (a b c : uint w) :
  checked_add a b = Some c <-> uval c = a + b.
Proof.
  unfold checked_add. pose proof (uval_range a). pose proof (uval_range b).
  pose proof (uval_range c). case_match eqn:E; split; intros H'.
  - injection H' as <-. apply uval_of_Z_small. lia.
  - f_equal. apply uint_eq. rewrite uval_of_Z_small; lia.
  - done.
  - lia.
Qed.

Lemma checked_add_None {w} (a b : uint w) :
  checked_add a b = None <-> 2 ^ Z.of_N w <= a + b.
Proof. unfold checked_add. case_match eqn:E; split; intros; (done || lia). Qed.

(** ** Facts: byte arrays *)

Lemma length_blist {n} (b : bytes n) : length (blist b) = n.
Proof. destruct b as [l H]; simpl. by apply Nat.eqb_eq. Qed.

Lemma bytes_eq {n} (a b : bytes n) : blist a = blist b -> a = b.
Proof.
  destruct a as [x Hx], b as [y Hy]; simpl; intros ->.
  by rewrite (bool_true_irrel _ Hx Hy).
Qed.

#[export] Instance blist_inj n : Inj (=) (=) (@blist n).
Proof. intros a b. apply bytes_eq. Qed.

Lemma blist_buffer n l : length l = n -> blist (buffer n l) = l.
Proof. intros <-. simpl. apply resize_all. Qed.

Lemma buffer_blist {n} (b : bytes n) : buffer n (blist b) = b.
Proof. apply bytes_eq, blist_buffer, length_blist. Qed.

#[export] Instance bytes_eq_dec n : EqDecision (bytes n).
Proof.
  refine (fun a b => cast_if (decide (blist a = blist b))); abstract (by intuition (auto using bytes_eq; congruence)).
Defined.

#[export] Instance bytes_countable n : Countable (bytes n) :=
  inj_countable' blist (buffer n) buffer_blist.

#[export] Instance bytes_inhabited n : Inhabited (bytes n) := populate (buffer n []).

Lemma try_into_Some n l b : try_into n l = Some b <-> blist b = l.
Proof.
  unfold try_into. destruct (Bool.bool_dec _ _) as [H|H]; split; intros H'.
  - by injection H' as <-.
  - f_equal. by apply bytes_eq.
  - done.
  - exfalso. apply H, Nat.eqb_eq. rewrite <- H'. apply length_blist.
Qed.

Lemma try_into_blist {n} (b : bytes n) : try_into n (blist b) = Some b.
Proof. by apply try_into_Some. Qed.

Lemma try_into_None n l : try_into n l = None <-> length l <> n.
Proof.
  unfold try_into. destruct (Bool.bool_dec _ _) as [H|H]; split; intros H'; try done.
  - by destruct H'; apply Nat.eqb_eq.
  - intros E. apply H, Nat.eqb_eq, E.
Qed.

(** ** Facts: encodings *)

Lemma pow_256 (n : nat) : 2 ^ (8 * Z.of_nat (S n)) = 256 * 2 ^ (8 * Z.of_nat n).
Proof. rewrite Nat2Z.inj_succ, Z.mul_succ_r, Z.pow_add_r by lia. lia. Qed.

Lemma le_val_bound (l : list u8) : 0 <= le_val l < 2 ^ (8 * Z.of_nat (length l)).
Proof.
  induction l as [|b l IH]; [simpl; lia|].
  change (length (b :: l)) with (S (length l)). rewrite pow_256. simpl. u_lia.
Qed.

Lemma le_val_le_bytes n z : le_val (le_bytes n z) = z mod 2 ^ (8 * Z.of_nat n).
Proof.
  revert z. induction n as [|n IH]; intros z; [simpl; by rewrite Z.mod_1_r|].
  rewrite pow_256. cbn [le_bytes le_val]. rewrite IH, uval_of_Z. simpl Z.of_N.
  assert (0 < 2 ^ (8 * Z.of_nat n)) by (apply Z.pow_pos_nonneg; lia).
  change (2 ^ 8) with 256. rewrite Z.rem_mul_r by lia. done.
Qed.

Lemma le_bytes_le_val (l : list u8) : le_bytes (length l) (le_val l) = l.
Proof.
  induction l as [|b l IH]; [done|]. cbn [length le_bytes le_val]. f_equal.
  - apply uint_eq. rewrite uval_of_Z. simpl Z.of_N. change (2 ^ 8) with 256.
    rewrite (Z.mul_comm 256), Z.mod_add, Z.mod_small by u_lia. done.
  - rewrite (Z.mul_comm 256), Z.div_add, Z.div_small by u_lia. apply IH.
Qed.

Lemma le_bytes_inj n a b :
  0 <= a < 2 ^ (8 * Z.of_nat n) -> 0 <= b < 2 ^ (8 * Z.of_nat n) ->
  le_bytes n a = le_bytes n b -> a = b.
Proof.
  intros Ha Hb H. apply (f_equal le_val) in H.
  by rewrite !le_val_le_bytes, !Z.mod_small in H.
Qed.

Lemma from_to_le_bytes n w (x : uint w) :
  Z.of_N w <= 8 * Z.of_nat n -> from_le_bytes w (to_le_bytes n x) = x.
Proof.
  intros Hw. unfold from_le_bytes. simpl. rewrite le_val_le_bytes.
  pose proof (uval_range x).
  assert (2 ^ Z.of_N w <= 2 ^ (8 * Z.of_nat n)) by (apply Z.pow_le_mono_r; lia).
  rewrite Z.mod_small by lia. apply of_Z_uval.
Qed.

Lemma from_to_be_bytes n w (x : uint w) :
  Z.of_N w <= 8 * Z.of_nat n -> from_be_bytes w (to_be_bytes n x) = x.
Proof.
  intros Hw. unfold from_be_bytes, to_be_bytes. rewrite rev_involutive.
  by apply (from_to_le_bytes n).
Qed.

Lemma to_from_le_bytes n w (b : bytes n) :
  Z.of_N w = 8 * Z.of_nat n -> to_le_bytes n (from_le_bytes w b) = b.
Proof.
  intros Hw. apply bytes_eq. simpl. rewrite Hw.
  pose proof (le_val_bound b) as Hb. rewrite length_blist in Hb.
  rewrite Z.mod_small by done. rewrite <- (length_blist b) at 1. apply le_bytes_le_val.
Qed.

Lemma to_le_bytes_inj n w (x y : uint w) :
  Z.of_N w <= 8 * Z.of_nat n -> to_le_bytes n x = to_le_bytes n y -> x = y.
Proof.
  intros Hw H. rewrite <- (from_to_le_bytes n w x), <- (from_to_le_bytes n w y) by done.
  by rewrite H.
Qed.

Lemma length_to_be_bytes n w (x : uint w) : length (to_be_bytes n x) = n.
Proof. unfold to_be_bytes. rewrite length_rev. apply length_le_bytes. Qed.

(** ** Facts: ordered iteration *)

Section ListOrder.
  Context {K : Type} `{EqDecision K, Ordered K}.

Lemma ord_leb_refl (a : K) : ord_leb a a = true.
Proof. by destruct (ord_leb_total a a). Qed.

Lemma list_leb_total (l1 l2 : list K) : list_leb l1 l2 = true \/ list_leb l2 l1 = true.
Proof.
  revert l2. induction l1 as [|x xs IH]; intros [|y ys]; simpl; auto.
  destruct (decide (x = y)) as [->|Hne].
  - rewrite decide_True by done. apply IH.
  - rewrite decide_False by congruence. apply ord_leb_total.
Qed.

Lemma list_leb_antisym (l1 l2 : list K) :
  list_leb l1 l2 = true -> list_leb l2 l1 = true -> l1 = l2.
Proof.
  revert l2. induction l1 as [|x xs IH]; intros [|y ys]; simpl; try done.
  destruct (decide (x = y)) as [->|Hne].
  - rewrite decide_True by done. intros. f_equal. by apply IH.
  - rewrite decide_False by congruence. intros. by destruct Hne; apply ord_leb_antisym.
Qed.

Lemma list_leb_trans (l1 l2 l3 : list K) :
  list_leb l1 l2 = true -> list_leb l2 l3 = true -> list_leb l1 l3 = true.
Proof.
  revert l2 l3. induction l1 as [|x xs IH]; intros [|y ys] [|z zs]; simpl; try done.
  destruct (decide (x = y)) as [->|Hxy].
  - destruct (decide (y = z)); eauto.
  - destruct (decide (y = z)) as [->|Hyz]; [by rewrite decide_False|].
    intros H1 H2. rewrite decide_False; [by eapply ord_leb_trans|].
    intros ->. by destruct Hxy; apply ord_leb_antisym.
Qed.

#[export] Instance list_ordered : Ordered (list K) :=
  {| ord_leb := list_leb; ord_leb_total := list_leb_total;
     ord_leb_trans := list_leb_trans; ord_leb_antisym := list_leb_antisym |}.

End ListOrder.

#[export] Program Instance bytes_ordered n : Ordered (bytes n) :=
  {| ord_leb a b := ord_leb (blist a) (blist b) |}.
Next Obligation. intros n a b. apply ord_leb_total. Qed.
Next Obligation. intros n a b c. apply ord_leb_trans. Qed.
Next Obligation. intros n a b H1 H2. apply bytes_eq. by apply ord_leb_antisym. Qed.

#[export] Program Instance nat_ordered : Ordered nat := {| ord_leb := Nat.leb |}.
Next Obligation. intros a b. rewrite !Nat.leb_le. lia. Qed.
Next Obligation. intros a b c. rewrite !Nat.leb_le. lia. Qed.
Next Obligation. intros a b. rewrite !Nat.leb_le. lia. Qed.

(** Pairs are ordered lexicographically. *)
#[export] Program Instance prod_ordered {A B} `{EqDecision A, Ordered A, Ordered B} :
  Ordered (A * B) :=
  {| ord_leb p q := if decide (p.1 = q.1) then ord_leb p.2 q.2 else ord_leb p.1 q.1 |}.
Next Obligation.
  intros A B ??? [a b] [c d]; simpl. destruct (decide (a = c)) as [->|Hn].
  - rewrite decide_True by done. apply ord_leb_total.
  - rewrite decide_False by congruence. apply ord_leb_total.
Qed.
Next Obligation.
  intros A B ??? [a b] [c d] [e f]; simpl.
  destruct (decide (a = c)) as [->|Hac].
  - destruct (decide (c = e)); [apply ord_leb_trans | done].
  - destruct (decide (c = e)) as [->|Hce]; [by rewrite decide_False|].
    intros H1 H2. rewrite decide_False; [by eapply ord_leb_trans|].
    intros ->. by destruct Hac; apply ord_leb_antisym.
Qed.
Next Obligation.
  intros A B ??? [a b] [c d]; simpl. destruct (decide (a = c)) as [->|Hac].
  - rewrite decide_True by done. intros. f_equal. by apply ord_leb_antisym.
  - rewrite decide_False by congruence. intros. by destruct Hac; apply ord_leb_antisym.
Qed.

Lemma ord_ltb_irrefl {K} `{Ordered K} (a : K) : ord_ltb a a = false.
Proof. unfold ord_ltb. by destruct (ord_leb_total a a) as [-> | ->]. Qed.

Lemma ord_ltb_leb {K} `{Ordered K} (a b : K) : ord_ltb a b = true -> ord_leb a b = true.
Proof. unfold ord_ltb. destruct (ord_leb_total a b) as [|E]; [done|]. by rewrite E. Qed.

#[export] Instance entry_le_total {K V} `{Ordered K} : Total (@entry_le K V _).
Proof. intros p q. apply ord_leb_total. Qed.
#[export] Instance entry_le_trans {K V} `{Ordered K} : Transitive (@entry_le K V _).
Proof. intros p q r. apply ord_leb_trans. Qed.
#[export] Instance key_le_total {K} `{Ordered K} : Total (@key_le K _).
Proof. intros p q. apply ord_leb_total. Qed.
#[export] Instance key_le_trans {K} `{Ordered K} : Transitive (@key_le K _).
Proof. intros p q r. apply ord_leb_trans. Qed.

Section OrderedIteration.
  Context {K V : Type} `{Countable K, Ordered K}.
  Implicit Types (m : gmap K V) (s : gset K).

Lemma btree_iter_perm m : btree_iter m ≡ₚ map_to_list m.
Proof. apply merge_sort_Permutation. Qed.

Lemma btree_keys_perm s : btree_keys s ≡ₚ elements s.
Proof. apply merge_sort_Permutation. Qed.

Lemma elem_of_btree_iter m k v : (k, v) ∈ btree_iter m <-> m !! k = Some v.
Proof. rewrite btree_iter_perm. apply elem_of_map_to_list. Qed.

Lemma elem_of_btree_keys s k : k ∈ btree_keys s <-> k ∈ s.
Proof. rewrite btree_keys_perm. apply elem_of_elements. Qed.

Lemma NoDup_btree_iter m : NoDup (btree_iter m).*1.
Proof. rewrite btree_iter_perm. apply NoDup_fst_map_to_list. Qed.

Lemma NoDup_btree_keys s : NoDup (btree_keys s).
Proof. rewrite btree_keys_perm. apply NoDup_elements. Qed.

Lemma length_btree_iter m : length (btree_iter m) = size m.
Proof. rewrite btree_iter_perm. apply length_map_to_list. Qed.

Lemma btree_iter_sorted m : StronglySorted entry_le (btree_iter m).
Proof. apply Sorted_StronglySorted; [apply _ | apply Sorted_merge_sort, _]. Qed.

Lemma btree_keys_sorted m : StronglySorted key_le (btree_iter m).*1.
Proof.
  induction (btree_iter_sorted m) as [|x l Hs IH Hx]; [constructor|]. rewrite fmap_cons.
  constructor; [done|]. by apply Forall_fmap.
Qed.

Lemma last_sorted (l : list (K * V)) p q :
  StronglySorted entry_le l -> last l = Some p -> q ∈ l -> entry_le q p.
Proof.
  intros Hs Hl Hq. apply last_Some in Hl as [l' ->]. apply StronglySorted_app in Hs as (Hs & _ & _).
  apply elem_of_app in Hq as [Hq | ->%list_elem_of_singleton].
  - apply Hs; [done|]. by apply list_elem_of_singleton.
  - apply ord_leb_refl.
Qed.

(** [last_key_value]. *)
Lemma btree_iter_last m k v :
  last (btree_iter m) = Some (k, v) ->
  m !! k = Some v /\ forall k' v', m !! k' = Some v' -> ord_leb k' k = true.
Proof.
  intros Hl. split.
  - apply elem_of_btree_iter. apply last_Some in Hl as [l' ->].
    apply elem_of_app. right. by apply list_elem_of_singleton.
  - intros k' v' Hk. apply elem_of_btree_iter in Hk.
    apply (last_sorted _ _ _ (btree_iter_sorted m) Hl Hk).
Qed.

Lemma btree_iter_last_None m : last (btree_iter m) = None -> m = ∅.
Proof.
  rewrite last_None. intros E. apply map_eq. intros k. rewrite lookup_empty.
  destruct (m !! k) as [v|] eqn:Ek; [|done]. apply elem_of_btree_iter in Ek.
  rewrite E in Ek. by apply not_elem_of_nil in Ek.
Qed.

Lemma list_to_map_btree_iter m : list_to_map (btree_iter m) = m.
Proof.
  rewrite <- (list_to_map_to_list m) at 2. apply list_to_map_proper;
    [apply NoDup_btree_iter | apply btree_iter_perm].
Qed.

End OrderedIteration.

Lemma sublist_sorted {A} (R : A -> A -> Prop) (l k : list A) : sublist l k -> StronglySorted R k -> StronglySorted R l.
Proof.
  induction 1 as [|x l k Hs IH|x l k Hs IH]; intros Hk; [done|..]; inversion_clear Hk as [|? ? Hk' Hx].
  - constructor; [by apply IH|]. apply Forall_forall. intros y Hy. apply (proj1 (Forall_forall _ _) Hx).
    eapply elem_of_submseteq, sublist_submseteq; done.
  - by apply IH.
Qed.

#[export] Hint Rewrite @elem_of_btree_iter @elem_of_btree_keys : bbg.

(** A list sorted by key that holds the entries of a map once is its iteration. *)
Lemma btree_iter_unique {K V} `{Countable K, Ordered K} (m : gmap K V) (l : list (K * V)) :
  StronglySorted entry_le l -> NoDup l.*1 -> (forall k v, (k, v) ∈ l <-> m !! k = Some v) ->
  l = btree_iter m.
Proof.
  intros Hs Hn Hl. apply (StronglySorted_unique_strong entry_le); [|done|apply btree_iter_sorted|].
  - intros [k v] [k' v'] Hk Hk' H1 H2. apply Hl in Hk. apply elem_of_btree_iter in Hk'.
    assert (k = k') as <- by (by apply ord_leb_antisym). congruence.
  - apply NoDup_Permutation; [by eapply NoDup_fmap_1|eapply NoDup_fmap_1, NoDup_btree_iter|].
    intros [k v]. by rewrite Hl, elem_of_btree_iter.
Qed.

Lemma sorted_keys {K V W} `{Ordered K} (l : list (K * V)) (l' : list (K * W)) :
  l.*1 = l'.*1 -> StronglySorted entry_le l -> StronglySorted entry_le l'.
Proof.
  revert l'. induction l as [|[k v] l IH]; intros [|[k' v'] l'] E Hs; try done; [constructor|].
  rewrite !fmap_cons in E. injection E as -> E. inversion_clear Hs as [|? ? Hs' Hf].
  constructor; [by apply IH|]. clear IH Hs'. revert l' E. induction Hf as [|[k1 v1] l Hk _ IH];
    intros [|[k2 v2] l'] E; try done. rewrite !fmap_cons in E. injection E as -> E.
  constructor; [exact Hk|by apply IH].
Qed.

(** Looking up the keys of an iteration. *)
Lemma mapM_lookup_iter {K V W} `{Countable K, Ordered K} (ix : gmap K V) (m m' : gmap K W) :
  (forall k, k ∈ dom ix <-> k ∈ dom m') -> m' ⊆ m ->
  mapM (fun e => r ← m !! e.1; Some (e.1, r)) (btree_iter ix) = Some (btree_iter m').
Proof.
  intros Hd Hsub.
  assert (forall k v, (k, v) ∈ btree_iter ix -> exists r, m' !! k = Some r) as Hin.
  { intros k v Hk%elem_of_btree_iter. apply elem_of_dom, Hd, elem_of_dom. eauto. }
  assert (is_Some (mapM (fun e => r ← m !! e.1; Some (e.1, r)) (btree_iter ix))) as [L HL].
  { apply mapM_is_Some_2, Forall_forall. intros [k v] Hk. destruct (Hin k v Hk) as [r Hr].
    simpl. by rewrite (lookup_weaken _ _ _ _ Hr Hsub). }
  rewrite HL. f_equal. apply mapM_Some_1 in HL.
  assert ((btree_iter ix).*1 = L.*1 /\ Forall (fun e => m' !! e.1 = Some e.2) L) as [Ek Ef].
  { pose proof Hin as Hin'. revert Hin'. clear Hin. induction HL as [|[k v] [k' r] l L Hx _ IH];
      intros Hin; [done|]. destruct IH as [E IH].
    - intros k1 v1 Hk1. apply (Hin k1 v1), elem_of_cons. by right.
    - destruct (Hin k v) as [r' Hr]; [apply elem_of_cons; by left|]. simpl in Hx.
      rewrite (lookup_weaken _ _ _ _ Hr Hsub) in Hx. injection Hx as <- <-.
      split; [rewrite !fmap_cons; simpl; by rewrite E|]. by constructor. }
  apply btree_iter_unique.
  - eapply sorted_keys, btree_iter_sorted. exact Ek.
  - rewrite <- Ek. apply NoDup_btree_iter.
  - intros k r. split; [intros Hk; by apply (proj1 (Forall_forall _ _) Ef) in Hk|]. intros Hr.
    assert (k ∈ (btree_iter ix).*1) as Hk.
    { apply list_elem_of_fmap. assert (k ∈ dom ix) as [v Hv]%elem_of_dom by (apply Hd, elem_of_dom; eauto).
      exists (k, v). split; [done|]. by apply elem_of_btree_iter. }
    rewrite Ek in Hk. apply list_elem_of_fmap in Hk as ([k' r'] & -> & Hk).
    pose proof (proj1 (Forall_forall _ _) Ef _ Hk) as Hr'. simpl in *. congruence.
Qed.

(** A fact about every entry, unless something else holds. *)
Lemma map_forall_or {K V} `{Countable K} (P : K -> V -> Prop) (Q : Prop) (m : gmap K V) :
  (forall k v, m !! k = Some v -> P k v \/ Q) -> map_Forall P m \/ Q.
Proof.
  induction m as [|k v m Hk IH] using map_ind; intros HP; [left; apply map_Forall_empty|].
  destruct (HP k v) as [Hkv|]; [apply lookup_insert_eq| |by right].
  destruct IH as [Hm|]; [|left|by right].
  - intros k' v' Hk'. apply HP. rewrite lookup_insert_ne; [done|]. intros ->. congruence.
  - by apply map_Forall_insert_2.
Qed.

(** ** Facts: concatenated fields *)

Lemma le_val_app l k : le_val (l ++ k) = le_val l + 2 ^ (8 * Z.of_nat (length l)) * le_val k.
Proof.
  induction l as [|x l IH]; [simpl; lia|]. cbn [app length]. rewrite pow_256. cbn [le_val]. rewrite IH. lia.
Qed.

(** Strings of one length are ordered as the numbers they spell, big end first. *)
Lemma be_ordered (l k : list u8) : length l = length k -> le_val (rev l) <= le_val (rev k) -> list_leb l k = true.
Proof.
  revert k. induction l as [|x l IH]; intros [|y k] Hlen Hle; try done. cbn [rev list_leb] in *.
  rewrite !le_val_app, !length_rev in Hle. cbn [le_val] in Hle. injection Hlen as Hlen. rewrite <- Hlen in Hle.
  pose proof (le_val_bound (rev l)) as Bl. pose proof (le_val_bound (rev k)) as Bk.
  rewrite length_rev in Bl, Bk. rewrite <- Hlen in Bk. set (p := 2 ^ (8 * Z.of_nat (length l))) in *.
  case_decide as Hxy; [subst; apply IH; [done|lia]|]. simpl. apply Z.leb_le.
  assert (uval x <> uval y) by (intros E; by apply Hxy, uint_eq). nia.
Qed.

Lemma to_be_bytes_mono (a b : u64) : ord_leb a b = true -> list_leb (to_be_bytes 8 a) (to_be_bytes 8 b) = true.
Proof.
  intros Hab. assert (uval a <= uval b) as Hle by (by apply Z.leb_le). apply be_ordered; [by rewrite !length_to_be_bytes|].
  unfold to_be_bytes. rewrite !rev_involutive, !le_val_le_bytes.
  pose proof (uval_range a). pose proof (uval_range b). simpl Z.of_N in *.
  rewrite !Z.mod_small by (simpl Z.of_nat; lia). exact Hle.
Qed.

Lemma app_fields {n} (a b : bytes n) r r' : blist a ++ r = blist b ++ r' -> a = b /\ r = r'.
Proof.
  intros E. apply app_inj_1 in E as [E E']; [|by rewrite !length_blist]. split; [by apply bytes_eq|done].
Qed.

Lemma cons_fields {A} (a b : A) l k : a :: l = b :: k -> a = b /\ l = k.
Proof. by intros [= -> ->]. Qed.

Lemma word_eq n w (a b : uint w) :
  Z.of_N w <= 8 * Z.of_nat n -> blist (to_le_bytes n a) = blist (to_le_bytes n b) -> a = b.
Proof. intros Hw E. apply bytes_eq in E. by apply (to_le_bytes_inj n w). Qed.

Lemma word_fields n w (a b : uint w) r r' :
  Z.of_N w <= 8 * Z.of_nat n -> blist (to_le_bytes n a) ++ r = blist (to_le_bytes n b) ++ r' -> a = b /\ r = r'.
Proof. intros Hw [E Er]%app_fields. split; [by apply (to_le_bytes_inj n w)|done]. Qed.

(** ** Facts: folds over lists of operations *)

Lemma fold_m_app {S A} (f : S -> A -> option S) s l1 l2 :
  fold_m f s (l1 ++ l2) = s' ← fold_m f s l1; fold_m f s' l2.
Proof.
  revert s. induction l1 as [|x l IH]; intros s; simpl; [done|].
  destruct (f s x) as [s'|]; simpl; [apply IH | done].
Qed.

(** An invariant [I] over (state, remaining operations) carries a fold to its end. *)
Lemma fold_m_ind {S A} (f : S -> A -> option S) (I : S -> list A -> Prop) :
  (forall s x l, I s (x :: l) -> exists s', f s x = Some s' /\ I s' l) ->
  forall l s, I s l -> exists s', fold_m f s l = Some s' /\ I s' [].
Proof.
  intros Hstep l. induction l as [|x l IH]; intros s Hs; simpl; [eauto|].
  destruct (Hstep s x l Hs) as (s' & -> & Hs'). simpl. by apply IH.
Qed.

Lemma try_fold_app {E S A} (f : S -> A -> result E S) s l1 l2 :
  try_fold f s (l1 ++ l2) =
  match try_fold f s l1 with Ok s' => try_fold f s' l2 | Err e => Err e end.
Proof.
  revert s. induction l1 as [|x l IH]; intros s; simpl; [done|].
  destruct (f s x) as [s'|]; [apply IH | done].
Qed.

(** An invariant of every successful step holds at the end of a successful fold. *)
Lemma try_fold_inv {E S A} (f : S -> A -> result E S) (I : S -> Prop) :
  (forall s x s', I s -> f s x = Ok s' -> I s') ->
  forall l s s', I s -> try_fold f s l = Ok s' -> I s'.
Proof.
  intros Hstep l. induction l as [|x l IH]; intros s s' Hs H; simpl in H.
  - by injection H as <-.
  - destruct (f s x) as [s1|] eqn:EQ; [|done]. eauto.
Qed.

Lemma bind_Ok {E A B} (m : result E A) (k : A -> result E B) b :
  (m ≫= k) = Ok b -> exists a, m = Ok a /\ k a = Ok b.
Proof. destruct m as [a|e]; simpl; [eauto | done]. Qed.

(** Decompose the successful binds and guards of a hypothesis. *)
Ltac destruct_bind :=
  repeat match goal with
  | H : mbind _ _ = Ok _ |- _ => apply bind_Ok in H as (? & ? & H)
  | H : mbind _ _ = Some _ |- _ => apply bind_Some in H as (? & ? & H)
  | H : Ok _ = Ok _ |- _ => injection H as H; subst
  | H : Some _ = Some _ |- _ => injection H as H; subst
  | H : Err _ = Ok _ |- _ => discriminate H
  | H : None = Some _ |- _ => discriminate H
  end.

(** A list of lists is inside what its concatenation is inside of. *)
Lemma flat_map_subset {A B} (f : A -> list B) (l : list A) (Q : list B) x :
  flat_map f l ⊆ Q -> x ∈ l -> f x ⊆ Q.
Proof.
  intros Hl Hx y Hy. apply Hl. apply list_elem_of_In, in_flat_map. exists x.
  by split; apply list_elem_of_In.
Qed.

(** ** Facts: sums over lists *)

Definition zsum {A} (f : A -> Z) (l : list A) : Z := foldr (fun x z => f x + z) 0 l.

Lemma zsum_app {A} (f : A -> Z) l1 l2 : zsum f (l1 ++ l2) = zsum f l1 + zsum f l2.
Proof. induction l1 as [|x l IH]; simpl; [done|]. rewrite IH. lia. Qed.

#[export] Instance zsum_perm {A} (f : A -> Z) : Proper ((≡ₚ) ==> (=)) (zsum f).
Proof. induction 1; simpl; lia. Qed.

Lemma zsum_bounds {A} (f : A -> Z) l b :
  (forall x, 0 <= f x <= b) -> 0 <= zsum f l <= b * Z.of_nat (length l).
Proof.
  intros Hf. induction l as [|x l IH]; cbn [zsum foldr length]; [lia|].
  fold (zsum f l). rewrite Nat2Z.inj_succ, Z.mul_succ_r. specialize (Hf x). lia.
Qed.

Lemma zsum_add {A} (f g : A -> Z) l : zsum f l + zsum g l = zsum (fun x => f x + g x) l.
Proof. unfold zsum. induction l as [|x l IH]; simpl; [done|]. rewrite <- IH. lia. Qed.

Lemma zsum_ext {A} (f g : A -> Z) l : (forall x, f x = g x) -> zsum f l = zsum g l.
Proof. intros Hf. induction l as [|x l IH]; simpl; [done|]. by rewrite Hf, IH. Qed.

Lemma zsum_nonneg {A} (f : A -> Z) l : (forall x, 0 <= f x) -> 0 <= zsum f l.
Proof.
  intros Hf. induction l as [|x l IH]; [done|]. cbn [zsum foldr]. fold (zsum f l). specialize (Hf x). lia.
Qed.

(** Sums over the entries of a map. *)
Lemma map_sum_delete {K V} `{Countable K} (f : K * V -> Z) (m : gmap K V) k :
  zsum f (map_to_list (delete k m)) = zsum f (map_to_list m) - from_option (fun v => f (k, v)) 0 (m !! k).
Proof.
  destruct (m !! k) as [v|] eqn:E.
  - rewrite <- (map_to_list_delete m k v E). cbn [zsum foldr from_option]. fold (zsum f (map_to_list (delete k m))). lia.
  - rewrite delete_id by done. cbn. lia.
Qed.

Lemma map_sum_insert {K V} `{Countable K} (f : K * V -> Z) (m : gmap K V) k v :
  zsum f (map_to_list (<[k := v]> m)) = zsum f (map_to_list m) - from_option (fun v => f (k, v)) 0 (m !! k) + f (k, v).
Proof.
  rewrite <- map_sum_delete, <- insert_delete_eq, map_to_list_insert by apply lookup_delete_eq.
  cbn [zsum foldr]. fold (zsum f (map_to_list (delete k m))). lia.
Qed.

Lemma map_sum_lookup {K V} `{Countable K} (f : K * V -> Z) (m : gmap K V) k v :
  (forall x, 0 <= f x) -> m !! k = Some v -> f (k, v) <= zsum f (map_to_list m).
Proof.
  intros Hf E. pose proof (map_sum_delete f m k) as Hd. rewrite E in Hd. cbn in Hd.
  pose proof (zsum_nonneg f (map_to_list (delete k m)) Hf). lia.
Qed.

Lemma checked_add_of_Z w a b :
  0 <= a -> 0 <= b -> a + b < 2 ^ Z.of_N w ->
  checked_add (of_Z w a) (of_Z w b) = Some (of_Z w (a + b)).
Proof.
  intros Ha Hb Hab. unfold checked_add. rewrite !uval_of_Z_small by lia.
  by rewrite (proj2 (Z.ltb_lt _ _) Hab).
Qed.

(** Filtering keeps keys distinct. *)
Lemma NoDup_fst_filter {K V} (P : K * V -> Prop) `{!forall x, Decision (P x)} (l : list (K * V)) :
  NoDup l.*1 -> NoDup (filter P l).*1.
Proof.
  induction l as [|e l IH]; [done|]. rewrite fmap_cons. intros [Hn Hl]%NoDup_cons.
  rewrite filter_cons. case_decide; [|by apply IH]. rewrite fmap_cons. constructor; [|by apply IH].
  intros (e' & Ee & [_ He]%list_elem_of_filter)%list_elem_of_fmap. apply Hn, list_elem_of_fmap. eauto.
Qed.

Lemma length_filter_map {A B} (f : A -> B) (P : B -> Prop) `{!forall x, Decision (P x)} (l : list A) :
  length (filter P (map f l)) = length (filter (fun x => P (f x)) l).
Proof.
  induction l as [|x l IH]; [done|]. cbn [map]. rewrite !filter_cons. case_decide; simpl; by rewrite IH.
Qed.

Lemma size_filter_iter {K V} `{Countable K, Ordered K} (P : K * V -> Prop) `{!forall x, Decision (P x)} (m : gmap K V) :
  size (filter P m) = length (filter P (btree_iter m)).
Proof.
  rewrite <- length_map_to_list. apply Permutation_length, NoDup_Permutation.
  - apply NoDup_map_to_list.
  - eapply NoDup_fmap_1, NoDup_fst_filter, NoDup_btree_iter.
  - intros [k v]. rewrite elem_of_map_to_list, map_lookup_filter_Some, list_elem_of_filter, elem_of_btree_iter. tauto.
Qed.

Lemma filter_all_list {A} (P : A -> Prop) `{!forall x, Decision (P x)} (l : list A) :
  Forall P l -> filter P l = l.
Proof. induction 1 as [|x l Hx _ IH]; [done|]. rewrite filter_cons, decide_True by done. by rewrite IH. Qed.

(** ** State, errors and panics

    A call on a mutable object that may fail and may panic: [None] is a panic, an error keeps the
    state the call had reached. *)

Definition SM (E S A : Type) : Type := S -> option (result E A * S).

#[export] Instance sm_ret E S : MRet (SM E S) := fun A a s => Some (Ok a, s).
#[export] Instance sm_bind E S : MBind (SM E S) :=
  fun A B f m s =>
    match m s with
    | Some (Ok a, s') => f a s'
    | Some (Err e, s') => Some (Err e, s')
    | None => None
    end.

Definition sm_get {E S} : SM E S S := fun s => Some (Ok s, s).
Definition sm_modify {E S} (f : S -> S) : SM E S unit := fun s => Some (Ok tt, f s).
Definition sm_throw {E S A} (e : E) : SM E S A := fun s => Some (Err e, s).
Definition sm_lift {E S A} (r : result E A) : SM E S A := fun s => Some (r, s).
(** An indexing, a subtraction or an [expect]: [None] panics. *)
Definition sm_some {E S A} (o : option A) : SM E S A := fun s => a ← o; Some (Ok a, s).
Definition sm_require {E S} (b : bool) (e : E) : SM E S unit := if b then mret tt else sm_throw e.

(** [for x in l { .. }]. *)
Fixpoint sm_for {E S A} (l : list A) (f : A -> SM E S unit) : SM E S unit :=
  match l with
  | [] => mret tt
  | x :: l => _ ← f x; sm_for l f
  end.

(** Subtraction of unsigned integers, which panics below zero. *)
Definition usize_sub (a b : Z) : option Z := if a <? b then None else Some (a - b).

Lemma sm_bind_eq {E S A B} (m : SM E S A) (f : A -> SM E S B) s :
  (m ≫= f) s = match m s with
               | Some (Ok a, s') => f a s'
               | Some (Err e, s') => Some (Err e, s')
               | None => None
               end.
Proof. done. Qed.

Lemma sm_bind_ok {E S A B} (m : SM E S A) (f : A -> SM E S B) s a s' :
  m s = Some (Ok a, s') -> (m ≫= f) s = f a s'.
Proof. intros E'. by rewrite sm_bind_eq, E'. Qed.

Lemma sm_bind_err {E S A B} (m : SM E S A) (f : A -> SM E S B) s e s' :
  m s = Some (Err e, s') -> (m ≫= f) s = Some (Err e, s').
Proof. intros E'. by rewrite sm_bind_eq, E'. Qed.

(** Evaluates the leading steps of a call. *)
Ltac sm_run :=
  repeat first
    [ rewrite sm_bind_eq
    | progress cbn [mret sm_ret sm_get sm_modify sm_lift sm_throw sm_some mbind option_bind fst snd] ].

Lemma usize_sub_ok a b : b <= a -> usize_sub a b = Some (a - b).
Proof. intros Hab. unfold usize_sub. by rewrite (proj2 (Z.ltb_ge _ _)). Qed.

(** A call on a part of the state. *)
Definition sm_zoom {E S T A} (get : T -> S) (set : T -> S -> T) (m : SM E S A) : SM E T A :=
  fun t => '(r, s) ← m (get t); Some (r, set t s).
