(* ===== verification/Crypto.v ===== *)
(** * Fields, hashing and the root fold

    The interfaces of the crates bbg builds on (nebu's Goldilocks field, hemera's permutation and
    hash, lens' Brakedown commitment), the definitions of rs/src/root.rs (the compression and the
    14-leaf fold) and of rs/src/dim.rs (the injective field encodings and the v1 table layout),
    and a concrete instance of the interfaces on which examples evaluate. *)

From S2P Require Import Prelude.
From stdpp Require Import vector.

Local Open Scope Z_scope.

(** ** External crates *)

(** The Goldilocks modulus [nebu::field::P]. *)
Definition field_P : Z := 2 ^ 64 - 2 ^ 32 + 1.

(** nebu: a field element, its constructor and its representative as a [u64]. *)
Class Nebu := {
  Goldilocks : Type;
  goldilocks_eq_dec :: EqDecision Goldilocks;
  g_new : u64 -> Goldilocks;
  g_as_u64 : Goldilocks -> u64;
  g_canonicalize : Goldilocks -> Goldilocks;
  g_zero : Goldilocks;
  g_one : Goldilocks;
}.

(** hemera: its own field type, the permutation of a 16-element state and the byte hash. *)
Class Hemera := {
  HGold : Type;
  hg_zero : HGold;
  hg_new : u64 -> HGold;
  hg_as_canonical_u64 : HGold -> u64;
  permute : vec HGold 16 -> vec HGold 16;
  hemera_hash : list u8 -> bytes 32;
}.

(** lens: the Brakedown commitment of a padded evaluation table. *)
Class Lens `{Nebu} := {
  brakedown_commit : list Goldilocks -> bytes 32;
  COMMITMENT_VERSION : u32;
}.

(** The limbs of 32 bytes, and whether all four are below the modulus. *)
Definition limb64 (b : bytes 32) (i : nat) : u64 := from_le_bytes 64 (take 8 (drop (i * 8) b)).
Definition canonical_digest (b : bytes 32) : bool :=
  forallb (fun i => uval (limb64 b i) <? field_P) (seq 0 4).

(** What bbg relies on: a value below the modulus is its own canonical representative, the
    canonical representative determines the element, and hemera's outputs are canonical. *)
Class CryptoLaws `{Nebu, Hemera} : Prop := {
  g_as_u64_new v : uval v < field_P -> g_as_u64 (g_new v) = v;
  g_canonicalize_new v : uval v < field_P -> g_canonicalize (g_new v) = g_new v;
  g_canonical_inj x y : g_as_u64 (g_canonicalize x) = g_as_u64 (g_canonicalize y) -> x = y;
  g_zero_new : g_zero = g_new (of_Z 64 0);
  hg_canonical x : uval (hg_as_canonical_u64 x) < field_P;
  hemera_hash_canonical l : canonical_digest (hemera_hash l) = true;
}.

(** Brakedown commitments are hemera digests. *)
Class LensLaws `{Lens} : Prop := {
  brakedown_canonical l : canonical_digest (brakedown_commit l) = true;
}.

(** ** Digests: arrays of four field elements *)

Record quad (A : Type) := Quad { q0 : A; q1 : A; q2 : A; q3 : A }.
Arguments Quad {A} _ _ _ _.
Arguments q0 {A} _.
Arguments q1 {A} _.
Arguments q2 {A} _.
Arguments q3 {A} _.

#[export] Instance quad_eq_dec A `{EqDecision A} : EqDecision (quad A).
Proof. solve_decision. Defined.

Definition quad_list {A} (d : quad A) : list A := [q0 d; q1 d; q2 d; q3 d].
Definition quad_map {A B} (f : A -> B) (d : quad A) : quad B :=
  Quad (f (q0 d)) (f (q1 d)) (f (q2 d)) (f (q3 d)).

Lemma quad_list_inj {A} (d e : quad A) : quad_list d = quad_list e -> d = e.
Proof. destruct d, e. by intros [= -> -> -> ->]. Qed.

Section Root.
  Context `{Nebu, Hemera}.

(** ** root.rs *)

Definition Digest : Type := quad Goldilocks.

(** [compress4]: the first four elements of the permutation over [a ‖ b ‖ 0⁸]. *)
Definition compress4 (a b : Digest) : Digest :=
  let load x := hg_new (g_as_u64 (g_canonicalize x)) in
  let state := [# load (q0 a); load (q1 a); load (q2 a); load (q3 a);
                  load (q0 b); load (q1 b); load (q2 b); load (q3 b);
                  hg_zero; hg_zero; hg_zero; hg_zero;
                  hg_zero; hg_zero; hg_zero; hg_zero] in
  let state := permute state in
  let out i := g_new (hg_as_canonical_u64 (state !!! i)) in
  Quad (out 0%fin) (out 1%fin) (out 2%fin) (out 3%fin).

(** The 14 leaves of the root preimage. *)
Record RootLeaves := mkRootLeaves {
  dims : vec Digest 11;
  leaf_a : Digest;
  leaf_n : Digest;
  leaf_stats : Digest;
}.

Definition ordered (l : RootLeaves) : list Digest :=
  vec_to_list (dims l) ++ [leaf_a l; leaf_n l; leaf_stats l].

Definition ROOT_TAG : u64 := from_le_bytes 64 (ascii_bytes "bbg-root").

Definition root_iv : Digest := Quad (g_new ROOT_TAG) g_zero g_zero g_zero.

Definition root_from_leaves (l : RootLeaves) : Digest :=
  foldl (fun acc leaf => compress4 acc leaf) root_iv (ordered l).

(** Limb [i] little-endian at bytes [8i .. 8i + 8]. *)
Definition root_to_bytes (root : Digest) : bytes 32 :=
  buffer 32 (flat_map (fun limb => blist (to_le_bytes 8 (g_as_u64 limb))) (quad_list root)).

(** ** dim.rs *)

Definition DIMENSION_VERSION : u64 := of_Z 64 4.
Definition TABLE_VERSION : u64 := of_Z 64 2.
Definition HEADER_FIELDS : nat := 3.
Definition KEY_FIELDS : nat := 8.

(** A [u64] as two little-endian 32-bit limbs. *)
Definition u64_limbs (v : u64) : list Goldilocks :=
  [g_new (of_Z 64 (Z.land v 0xffffffff)); g_new (of_Z 64 (Z.shiftr v 32))].

Definition scalar_fields (values : list u64) : list Goldilocks := flat_map u64_limbs values.

(** 32 bytes as eight little-endian 32-bit limbs. *)
Definition bytes32_limbs (b : bytes 32) : list Goldilocks :=
  map (fun i => g_new (of_Z 64 (from_le_bytes 32 (take 4 (drop (i * 4) b))))) (seq 0 8).

(** 32 bytes as four little-endian 64-bit limbs (modulo the field). *)
Definition goldilocks_from_bytes32 (b : bytes 32) : Digest :=
  let limb i := g_new (limb64 b i) in
  Quad (limb 0%nat) (limb 1%nat) (limb 2%nat) (limb 3%nat).

Definition usize_u64 (n : nat) : u64 := of_Z 64 (Z.of_nat n).

Definition table_count (entries : list (bytes 32 * list Goldilocks)) : nat :=
  HEADER_FIELDS + sum_list (map (fun e => KEY_FIELDS + length e.2)%nat entries).

(** [version, length, entries, (key(8) ‖ fields)*]. *)
Definition dim_serialize (entries : list (bytes 32 * list Goldilocks)) : list Goldilocks :=
  [g_new TABLE_VERSION; g_new (usize_u64 (table_count entries)); g_new (usize_u64 (length entries))]
  ++ flat_map (fun e => bytes32_limbs e.1 ++ e.2) entries.

(** [usize::next_power_of_two]. *)
Definition next_power_of_two (n : nat) : nat := Nat.pow 2 (Nat.log2_up n).

Definition commit_fields `{!Lens} (fields : list Goldilocks) : bytes 32 :=
  brakedown_commit (resize (next_power_of_two (length fields)) g_zero fields).

Definition commit_dim `{!Lens} (entries : list (bytes 32 * list Goldilocks)) : bytes 32 :=
  commit_fields (dim_serialize entries).

(** The limbs of a canonical digest; the assertion panics on a noncanonical one. *)
Definition digest_limbs (b : bytes 32) : option Digest :=
  if canonical_digest b then Some (goldilocks_from_bytes32 b) else None.

End Root.

#[global] Arguments compress4 : simpl never.
#[global] Arguments root_to_bytes : simpl never.
#[global] Arguments dim_serialize : simpl never.

(** ** Injectivity of the encodings *)

(** ** Queries

    A collision of a compressing function always exists; what a binding theorem must say is that
    one occurs among the inputs that were evaluated. The binding theorems below are relative to a
    list of queries: the inputs of [compress4] behind the commitments they speak of. *)
Section Queries.
  Context `{Nebu, Hemera}.

Definition query : Type := Digest * Digest.

Definition compress (q : query) : Digest := compress4 q.1 q.2.

(** Two different queries with one answer. *)
Definition collision_in (Q : list query) : Prop :=
  exists p q, p ∈ Q /\ q ∈ Q /\ p <> q /\ compress p = compress q.

(** The queries of a chain over the blocks [l] started at [iv]. *)
Fixpoint chain_queries (iv : Digest) (l : list Digest) : list query :=
  match l with
  | [] => []
  | x :: l => (iv, x) :: chain_queries (compress4 iv x) l
  end.

(** The queries of the root chain. *)
Definition root_queries (l : RootLeaves) : list query := chain_queries root_iv (ordered l).

Lemma chain_queries_app iv l1 l2 :
  chain_queries iv (l1 ++ l2) = chain_queries iv l1 ++ chain_queries (foldl compress4 iv l1) l2.
Proof. revert iv. induction l1 as [|x l1 IH]; intros iv; simpl; [done|]. by rewrite IH. Qed.

Lemma cons_subset {A} (x : A) (l Q : list A) : x :: l ⊆ Q <-> x ∈ Q /\ l ⊆ Q.
Proof. set_solver. Qed.

Lemma app_subset {A} (k l Q : list A) : k ++ l ⊆ Q <-> k ⊆ Q /\ l ⊆ Q.
Proof. set_solver. Qed.

End Queries.

Section Injectivity.
  Context `{Nebu, Hemera, !CryptoLaws} (Q : list query).

Lemma g_new_inj (u v : u64) :
  uval u < field_P -> uval v < field_P -> g_new u = g_new v -> u = v.
Proof. intros Hu Hv E. rewrite <- (g_as_u64_new u), <- (g_as_u64_new v), E by done. done. Qed.

Lemma limb_canonical z : 0 <= z < 2 ^ 32 -> uval (of_Z 64 z) < field_P.
Proof. intros Hz. rewrite uval_of_Z_small; unfold field_P; simpl Z.of_N; lia. Qed.

Lemma g_new_limb_inj a b :
  0 <= a < 2 ^ 32 -> 0 <= b < 2 ^ 32 -> g_new (of_Z 64 a) = g_new (of_Z 64 b) -> a = b.
Proof.
  intros Ha Hb E. apply g_new_inj in E; try by apply limb_canonical.
  apply (f_equal uval) in E. by rewrite !uval_of_Z_small in E by (simpl Z.of_N; lia).
Qed.

Lemma u64_halves (v : u64) :
  let lo := Z.land v 0xffffffff in let hi := Z.shiftr v 32 in
  0 <= lo < 2 ^ 32 /\ 0 <= hi < 2 ^ 32 /\ uval v = lo + 2 ^ 32 * hi.
Proof.
  intros lo hi. subst lo hi. change 0xffffffff with (Z.ones 32).
  rewrite Z.land_ones, Z.shiftr_div_pow2 by lia. pose_uint_ranges.
  Z.to_euclidean_division_equations. lia.
Qed.

Lemma u64_limbs_inj (u v : u64) : u64_limbs u = u64_limbs v -> u = v.
Proof.
  unfold u64_limbs. intros [= Hlo Hhi].
  destruct (u64_halves u) as (Hu1 & Hu2 & Hu), (u64_halves v) as (Hv1 & Hv2 & Hv).
  apply g_new_limb_inj in Hlo, Hhi; try done. apply uint_eq. lia.
Qed.

Lemma length_bytes32_limbs b : length (bytes32_limbs b) = 8%nat.
Proof. done. Qed.

(** A chunk of [n] bytes at position [i * n] is determined by its little-endian value. *)
Lemma chunk_val_inj n (l m : list u8) i :
  length l = length m ->
  le_val (take n (drop i l)) = le_val (take n (drop i m)) ->
  take n (drop i l) = take n (drop i m).
Proof.
  intros Hlen E. set (a := take n (drop i l)) in *. set (b := take n (drop i m)) in *.
  assert (length a = length b) as Hab.
  { subst a b. rewrite !length_take, !length_drop. lia. }
  rewrite <- (le_bytes_le_val a), <- (le_bytes_le_val b), Hab, E. done.
Qed.

Lemma bytes32_limbs_inj (a b : bytes 32) : bytes32_limbs a = bytes32_limbs b -> a = b.
Proof.
  intros E. apply bytes_eq.
  assert (forall i, In i (seq 0 8) -> take 4 (drop (i * 4) a) = take 4 (drop (i * 4) b)) as Hc.
  { intros i Hi. apply chunk_val_inj; [by rewrite !length_blist|].
    unfold bytes32_limbs in E. apply ext_in_map with (a := i) in E; [|done].
    assert (forall l : list u8, 0 <= le_val (take 4 l) < 2 ^ 32) as Hb.
    { intros l. pose proof (le_val_bound (take 4 l)) as Hl.
      assert (2 ^ (8 * Z.of_nat (length (take 4 l))) <= 2 ^ 32); [|lia].
      apply Z.pow_le_mono_r; [lia|]. rewrite length_take. lia. }
    unfold from_le_bytes in E. rewrite !(uval_of_Z_small 32) in E by apply Hb.
    by apply g_new_limb_inj in E. }
  assert (forall l : list u8, length l = 32%nat ->
     l = flat_map (fun i => take 4 (drop (i * 4) l)) (seq 0 8)) as Hsplit.
  { intros l Hl. simpl. rewrite app_nil_r.
    do 32 (destruct l as [|? l]; [done|]). by destruct l. }
  rewrite (Hsplit a), (Hsplit b) by apply length_blist.
  rewrite !flat_map_concat_map. f_equal. by apply map_ext_in.
Qed.

(** ** Folding: equal results of equal-length chains come from equal chains, or collide *)

Lemma compress4_inj a b c d :
  (a, b) ∈ Q -> (c, d) ∈ Q -> compress4 a b = compress4 c d -> (a = c /\ b = d) \/ collision_in Q.
Proof.
  intros Q1 Q2 E. destruct (decide ((a, b) = (c, d))) as [[= -> ->]|Hn]; [by left|].
  right. by exists (a, b), (c, d).
Qed.

Lemma fold_compress_inj (l1 l2 : list Digest) iv1 iv2 :
  length l1 = length l2 -> chain_queries iv1 l1 ⊆ Q -> chain_queries iv2 l2 ⊆ Q ->
  foldl compress4 iv1 l1 = foldl compress4 iv2 l2 ->
  (iv1 = iv2 /\ l1 = l2) \/ collision_in Q.
Proof.
  revert l2 iv1 iv2. induction l1 as [|x l1 IH]; intros [|y l2] iv1 iv2 Hlen Q1 Q2 E;
    cbn [length foldl chain_queries] in *; try done; [by left|].
  injection Hlen as Hlen. apply cons_subset in Q1 as [Q1 Q1'], Q2 as [Q2 Q2'].
  destruct (IH _ _ _ Hlen Q1' Q2' E) as [[E' ->]|]; [|by right].
  destruct (compress4_inj _ _ _ _ Q1 Q2 E') as [[-> ->]|]; [by left | by right].
Qed.

Lemma RootLeaves_eq (l m : RootLeaves) : ordered l = ordered m -> l = m.
Proof.
  destruct l as [d a n s], m as [d' a' n' s']; unfold ordered; simpl. intros E.
  apply app_inj_1 in E as [Ed [= -> -> ->]]; [|by rewrite !length_vec_to_list].
  by apply vec_to_list_inj2 in Ed as ->.
Qed.

Lemma compress4_canonical a b :
  exists v0 v1 v2 v3, compress4 a b = Quad (g_new v0) (g_new v1) (g_new v2) (g_new v3)
    /\ uval v0 < field_P /\ uval v1 < field_P /\ uval v2 < field_P /\ uval v3 < field_P.
Proof. unfold compress4. do 4 eexists. split; [done|]. repeat split; apply hg_canonical. Qed.

Lemma root_canonical l :
  exists v0 v1 v2 v3, root_from_leaves l = Quad (g_new v0) (g_new v1) (g_new v2) (g_new v3)
    /\ uval v0 < field_P /\ uval v1 < field_P /\ uval v2 < field_P /\ uval v3 < field_P.
Proof.
  unfold root_from_leaves, ordered. rewrite foldl_app. simpl. apply compress4_canonical.
Qed.

Lemma root_to_bytes_list d :
  blist (root_to_bytes d) = flat_map (fun x => blist (to_le_bytes 8 (g_as_u64 x))) (quad_list d).
Proof. by apply blist_buffer. Qed.

Lemma root_to_bytes_inj d e :
  root_to_bytes d = root_to_bytes e -> quad_map g_as_u64 d = quad_map g_as_u64 e.
Proof.
  intros E. apply (f_equal blist) in E. rewrite !root_to_bytes_list in E.
  destruct d as [a b c d], e as [a' b' c' d'].
  cbn [quad_list q0 q1 q2 q3 flat_map] in E. rewrite !app_nil_r in E.
  do 3 (apply app_inj_1 in E as [?%bytes_eq E]; [|by rewrite !length_blist]).
  apply bytes_eq in E. unfold quad_map; simpl.
  f_equal; by apply (to_le_bytes_inj 8).
Qed.

(** Two states with the same 32-byte root have the same 14 leaves, or their root chains collide. *)
Lemma root_bytes_bind l m :
  root_queries l ⊆ Q -> root_queries m ⊆ Q ->
  root_to_bytes (root_from_leaves l) = root_to_bytes (root_from_leaves m) ->
  l = m \/ collision_in Q.
Proof.
  intros Ql Qm E. apply root_to_bytes_inj in E.
  destruct (root_canonical l) as (a & b & c & d & El & Ha & Hb & Hc & Hd).
  destruct (root_canonical m) as (a' & b' & c' & d' & Em & Ha' & Hb' & Hc' & Hd').
  rewrite El, Em in E. unfold quad_map in E; simpl in E.
  rewrite !g_as_u64_new in E by done. injection E as -> -> -> ->.
  rewrite <- Em in El. apply fold_compress_inj in El as [[_ El]|]; [|by right| |exact Ql|exact Qm].
  - left. by apply RootLeaves_eq.
  - unfold ordered. by rewrite !length_app, !length_vec_to_list.
Qed.

End Injectivity.

(** ** A concrete environment

    A small instance of the three crates, used to evaluate examples and to show that the
    hypotheses of the theorems can be met. It is not cryptography. *)
Module Toy.

#[export] Instance nebu : Nebu := {|
  Goldilocks := u64;
  g_new v := of_Z 64 (uval v mod field_P);
  g_as_u64 x := x;
  g_canonicalize x := x;
  g_zero := of_Z 64 0;
  g_one := of_Z 64 1;
|}.

Definition mix (l : list u64) : Z :=
  foldl (fun acc x => (acc * 1000003 + uval x + 1442695) mod 2 ^ 64) 7 l.

#[export] Instance hemera : Hemera := {|
  HGold := u64;
  hg_zero := of_Z 64 0;
  hg_new v := v;
  hg_as_canonical_u64 x := of_Z 64 (uval x mod field_P);
  permute v := let acc := mix (vec_to_list v) in vmap (fun x => of_Z 64 (acc + 31 * uval x)) v;
  hemera_hash l :=
    let acc := foldl (fun acc b => (acc * 263 + uval b + 1) mod field_P) 5 l in
    buffer 32 (flat_map (fun i => le_bytes 8 ((acc * i + acc) mod field_P)) [0; 1; 2; 3]);
|}.

#[export] Instance lens : Lens := {|
  brakedown_commit l :=
    let acc := foldl (fun acc (x : u64) => (acc * 1000003 + uval x + 1) mod field_P) 5 l in
    buffer 32 (flat_map (fun i => le_bytes 8 ((acc * i + acc) mod field_P)) [0; 1; 2; 3]);
  COMMITMENT_VERSION := of_Z 32 1;
|}.

(** Four words below the modulus make a canonical digest. *)
Lemma canonical_words (w : Z -> Z) :
  (forall i, 0 <= w i < field_P) ->
  canonical_digest (buffer 32 (flat_map (fun i => le_bytes 8 (w i)) [0; 1; 2; 3])) = true.
Proof.
  intros Hw. unfold canonical_digest. apply forallb_forall. intros i Hi. apply Z.ltb_lt.
  assert (forall z, 0 <= z < field_P -> uval (from_le_bytes 64 (le_bytes 8 z)) < field_P) as Hz.
  { intros z Hz. unfold from_le_bytes. rewrite le_val_le_bytes, uval_of_Z. unfold field_P in *.
    change (8 * Z.of_nat 8) with 64. simpl Z.of_N.
    rewrite (Z.mod_small z), Z.mod_small; lia. }
  unfold limb64. rewrite blist_buffer by done. simpl in Hi.
  destruct Hi as [<-|[<-|[<-|[<-|[]]]]]; apply (Hz (w _)), Hw.
Qed.

Lemma mod_P_range z : 0 <= z mod field_P < field_P.
Proof. apply Z.mod_pos_bound. unfold field_P. lia. Qed.

Lemma mod_P_u64 z : uval (of_Z 64 (z mod field_P)) = z mod field_P.
Proof.
  apply uval_of_Z_small. pose proof (Z.mod_pos_bound z field_P) as Hm.
  unfold field_P in *. simpl Z.of_N. lia.
Qed.

#[export] Instance laws : CryptoLaws.
Proof.
  split.
  - intros v Hv. apply uint_eq. etransitivity; [apply mod_P_u64|]. by apply Z.mod_small; u_lia.
  - done.
  - done.
  - done.
  - intros x. apply (Z.le_lt_trans _ (uval x mod field_P)); [apply Z.eq_le_incl, mod_P_u64|].
    apply mod_P_range.
  - intros l. apply canonical_words. intros i. apply mod_P_range.
Qed.

#[export] Instance lens_laws : LensLaws.
Proof. split. intros l. apply canonical_words. intros i. apply mod_P_range. Qed.

(** A 32-byte identifier with every byte equal to [n]. *)
Definition id32 (n : Z) : bytes 32 := buffer 32 (replicate 32 (of_Z 8 n)).

End Toy.
