(* ===== verification/Trie.v ===== *)
(** * The keyed trie (rs/src/trie.rs)

    The arena of nodes, its free list and lazy digests, and every operation of [Trie] and
    [TrieProof], written as the source writes them. An operation returns [None] where the source
    panics (index out of range, [expect], [unreachable!], underflow) and where a loop runs out of
    fuel; TrieRefine.v proves that neither happens on a well-formed trie. *)

From S2P Require Import Prelude.
From S2P Require Import Crypto.

Local Open Scope Z_scope.

Abbreviation key32 := (bytes 32).

(** [slice.chunks(4)] copied into zeroed blocks. *)
Fixpoint chunks4 {A} (l : list A) : list (list A) :=
  match l with
  | a :: b :: c :: d :: ((_ :: _) as r) => [a; b; c; d] :: chunks4 r
  | [] => []
  | _ => [l]
  end.

(** Bit [i] of a key, most significant first. *)
Definition key_bit (key : key32) (i : u16) : option bool :=
  b ← blist key !! Z.to_nat (i / 8);
  Some (Z.land (Z.shiftr (uval b) (7 - i mod 8)) 1 =? 1).

(** [u8::leading_zeros]. *)
Definition leading_zeros8 (d : Z) : Z := if d =? 0 then 8 else 7 - Z.log2 d.

Fixpoint first_diff_loop (i : Z) (a b : list u8) : option u16 :=
  match a, b with
  | x :: a', y :: b' =>
      let d := Z.lxor (uval x) (uval y) in
      if d =? 0 then first_diff_loop (i + 1) a' b'
      else Some (of_Z 16 (i * 8 + leading_zeros8 d))
  | _, _ => None
  end.

(** The first bit index on which two distinct keys differ. *)
Definition first_diff_bit (a b : key32) : option u16 := first_diff_loop 0 a b.

Section Trie.
  Context `{Nebu, Hemera}.

Definition LEAF_TAG : u64 := from_le_bytes 64 (ascii_bytes "bbg-leaf").
Definition BRANCH_TAG : u64 := from_le_bytes 64 (ascii_bytes "bbg-node").
Definition EMPTY : Digest := Quad g_zero g_zero g_zero g_zero.

Definition block (chunk : list Goldilocks) : Digest :=
  Quad (nth 0 chunk g_zero) (nth 1 chunk g_zero) (nth 2 chunk g_zero) (nth 3 chunk g_zero).

Definition leaf_iv (n : nat) : Digest :=
  Quad (g_new LEAF_TAG) (g_new (usize_u64 n)) (g_new DIMENSION_VERSION) g_zero.

(** [leaf(k, v)]: the digest of one entry. *)
Definition leaf_digest (key : key32) (vals : list Goldilocks) : Digest :=
  let acc := leaf_iv (length vals) in
  let acc := foldl (fun acc half => compress4 acc (block half)) acc (chunks4 (bytes32_limbs key)) in
  foldl (fun acc chunk => compress4 acc (block chunk)) acc (chunks4 vals).

Definition branch_iv (bit : u16) : Digest :=
  Quad (g_new BRANCH_TAG) (g_new (of_Z 64 bit)) g_zero g_zero.

(** [branch(i, l, r)]: the digest of a branch deciding on key bit [i]. *)
Definition branch_digest (bit : u16) (l r : Digest) : Digest :=
  compress4 (compress4 (branch_iv bit) l) r.

(** Arena nodes; children are arena indices. *)
Inductive Node :=
| Leaf (key : key32) (digest : Digest)
| Branch (bit : u16) (left right : nat) (digest : Digest) (dirty : bool).

Definition node_digest (n : Node) : Digest :=
  match n with Leaf _ d => d | Branch _ _ _ d _ => d end.

(** The free list is kept as a stack, its top first. *)
Record Trie := mkTrie { nodes : list Node; free : list nat; root : option nat; len : nat }.

Definition trie_new : Trie := mkTrie [] [] None 0.

Record TrieProof := mkTrieProof {
  steps : list (u16 * Digest);
  terminal : option (key32 * Digest);
}.

(** *** Verification *)

(** The loop over the steps in reverse: [cur] is the digest so far, [last] the previous bit. *)
Fixpoint verify_loop (key : key32) (rsteps : list (u16 * Digest)) (last : option u16)
    (cur : Digest) : option (option Digest) :=
  match rsteps with
  | [] => Some (Some cur)
  | (bit, sibling) :: rest =>
      if match last with Some l => uval l <=? bit | None => false end then Some None
      else
        goes_right ← key_bit key bit;
        verify_loop key rest (Some bit)
          (if goes_right : bool then branch_digest bit sibling cur else branch_digest bit cur sibling)
  end.

(** [TrieProof::verify]: [None] is a panic, [Some b] the answer. *)
Definition trie_verify (p : TrieProof) (rt : Digest) (key : key32) (expected : option Digest)
    : option bool :=
  match terminal p, expected with
  | None, None => Some (match steps p with [] => bool_decide (rt = EMPTY) | _ => false end)
  | None, Some _ => Some false
  | Some (k, d), _ =>
      let reject :=
        match expected with
        | Some e => negb (bool_decide (k = key)) || negb (bool_decide (d = e))
        | None => bool_decide (k = key)
        end in
      if reject : bool then Some false
      else
        res ← verify_loop key (rev (steps p)) None d;
        Some (match res with Some cur => bool_decide (cur = rt) | None => false end)
  end.

(** *** Reading and hashing *)

(** [hash]: bring the digest of node [idx] up to date. *)
Fixpoint hash_node (fuel : nat) (ns : list Node) (idx : nat) : option (Digest * list Node) :=
  match fuel with
  | O => None
  | S fuel =>
      n ← ns !! idx;
      match n with
      | Leaf _ d => Some (d, ns)
      | Branch _ _ _ d false => Some (d, ns)
      | Branch bit lhs rhs _ true =>
          '(l, ns) ← hash_node fuel ns lhs;
          '(r, ns) ← hash_node fuel ns rhs;
          let d := branch_digest bit l r in
          n' ← ns !! idx;
          match n' with
          | Branch b lt rt _ _ => Some (d, <[idx := Branch b lt rt d false]> ns)
          | Leaf _ _ => Some (d, ns)
          end
      end
  end.

(** A path visits each arena node at most once, so this much fuel suffices. *)
Definition trie_fuel (t : Trie) : nat := S (length (nodes t)).

(** [Trie::root]. *)
Definition trie_root (t : Trie) : option (Digest * Trie) :=
  match root t with
  | None => Some (EMPTY, t)
  | Some r =>
      '(d, ns) ← hash_node (trie_fuel t) (nodes t) r;
      Some (d, mkTrie ns (free t) (root t) (len t))
  end.

Definition is_dirty (t : Trie) : option bool :=
  match root t with
  | None => Some false
  | Some r =>
      n ← nodes t !! r;
      Some (match n with Branch _ _ _ _ true => true | _ => false end)
  end.

Fixpoint descend_loop (fuel : nat) (ns : list Node) (key : key32) (cur : nat)
    : option (list nat * nat) :=
  match fuel with
  | O => None
  | S fuel =>
      n ← ns !! cur;
      match n with
      | Branch bit lhs rhs _ _ =>
          b ← key_bit key bit;
          '(path, leaf) ← descend_loop fuel ns key (if b : bool then rhs else lhs);
          Some (cur :: path, leaf)
      | Leaf _ _ => Some ([], cur)
      end
  end.

(** [descend]: the branch indices passed, root first, and the leaf reached. *)
Definition descend (t : Trie) (key : key32) : option (list nat * nat) :=
  cur ← root t; descend_loop (trie_fuel t) (nodes t) key cur.

(** [Trie::get]: the outer option is the panic, the inner the answer. *)
Definition trie_get (t : Trie) (key : key32) : option (option Digest) :=
  match root t with
  | None => Some None
  | Some _ =>
      '(_, leaf) ← descend t key;
      n ← nodes t !! leaf;
      Some (match n with
            | Leaf k d => if bool_decide (k = key) then Some d else None
            | Branch _ _ _ _ _ => None
            end)
  end.

(** *** Allocation and in-place updates *)

(** The cast [usize as u32] of an arena index. *)
Definition as_u32 (n : nat) : nat := Z.to_nat (Z.of_nat n mod 2 ^ 32).

Definition alloc (t : Trie) (n : Node) : option (nat * Trie) :=
  match free t with
  | i :: rest =>
      _ ← nodes t !! i;
      Some (i, mkTrie (<[i := n]> (nodes t)) rest (root t) (len t))
  | [] => Some (as_u32 (length (nodes t)), mkTrie (nodes t ++ [n]) [] (root t) (len t))
  end.

Definition release (t : Trie) (i : nat) : Trie := mkTrie (nodes t) (i :: free t) (root t) (len t).

Definition mark_node (ns : list Node) (idx : nat) : option (list Node) :=
  n ← ns !! idx;
  Some (match n with
        | Branch bit l r d _ => <[idx := Branch bit l r d true]> ns
        | Leaf _ _ => ns
        end).

Definition mark (t : Trie) (path : list nat) : option Trie :=
  ns ← fold_m mark_node (nodes t) path;
  Some (mkTrie ns (free t) (root t) (len t)).

(** [replace_child]; its [debug_assert_eq!] is a panic. *)
Definition replace_child (t : Trie) (parent old new : nat) : option Trie :=
  n ← nodes t !! parent;
  match n with
  | Branch bit l r d dirty =>
      if (l =? old)%nat then
        Some (mkTrie (<[parent := Branch bit new r d dirty]> (nodes t)) (free t) (root t) (len t))
      else if (r =? old)%nat then
        Some (mkTrie (<[parent := Branch bit l new d dirty]> (nodes t)) (free t) (root t) (len t))
      else None
  | Leaf _ _ => Some t
  end.

Definition set_root (t : Trie) (r : option nat) : Trie := mkTrie (nodes t) (free t) r (len t).
Definition set_len (t : Trie) (n : nat) : Trie := mkTrie (nodes t) (free t) (root t) n.

(** The loop of [set] that keeps the ancestors deciding on bits before [j]. *)
Fixpoint keep_loop (ns : list Node) (path : list nat) (j : u16) (keep : nat) : option nat :=
  match keep with
  | O => Some O
  | S k =>
      idx ← path !! k;
      n ← ns !! idx;
      match n with
      | Branch bit _ _ _ _ => if uval bit <? j then Some keep else keep_loop ns path j k
      | Leaf _ _ => None
      end
  end.

(** [Trie::set]: insert or update; answers whether the key was new. *)
Definition trie_set (t : Trie) (key : key32) (digest : Digest) : option (bool * Trie) :=
  match root t with
  | None =>
      '(leaf, t) ← alloc t (Leaf key digest);
      Some (true, set_len (set_root t (Some leaf)) 1)
  | Some _ =>
      '(path, leaf) ← descend t key;
      n ← nodes t !! leaf;
      match n with
      | Branch _ _ _ _ _ => None
      | Leaf leaf_key d =>
          if bool_decide (leaf_key = key) then
            if bool_decide (d = digest) then Some (false, t)
            else
              t ← mark (mkTrie (<[leaf := Leaf leaf_key digest]> (nodes t)) (free t) (root t) (len t))
                    path;
              Some (false, t)
          else
            j ← first_diff_bit key leaf_key;
            keep ← keep_loop (nodes t) path j (length path);
            split ← (if (keep =? length path)%nat then Some leaf else path !! keep);
            '(new_leaf, t) ← alloc t (Leaf key digest);
            side ← key_bit key j;
            let '(lhs, rhs) := if side : bool then (split, new_leaf) else (new_leaf, split) in
            '(branch, t) ← alloc t (Branch j lhs rhs EMPTY true);
            t ← match keep with
                | O => Some (set_root t (Some branch))
                | S k => parent ← path !! k; replace_child t parent split branch
                end;
            t ← mark t (take keep path);
            Some (true, set_len t (S (len t)))
      end
  end.

(** [Trie::remove]: answers whether the key was present. *)
Definition trie_remove (t : Trie) (key : key32) : option (bool * Trie) :=
  match root t with
  | None => Some (false, t)
  | Some _ =>
      '(path, leaf) ← descend t key;
      n ← nodes t !! leaf;
      match n with
      | Branch _ _ _ _ _ => Some (false, t)
      | Leaf k _ =>
          if bool_decide (k = key) then
            let t := release t leaf in
            len' ← match len t with S n => Some n | O => None end;
            let t := set_len t len' in
            match last path with
            | None => Some (true, set_root t None)
            | Some parent =>
                pn ← nodes t !! parent;
                match pn with
                | Leaf _ _ => None
                | Branch _ lhs rhs _ _ =>
                    let sibling := if (lhs =? leaf)%nat then rhs else lhs in
                    let t := release t parent in
                    let rest := take (length path - 1) path in
                    t ← match last rest with
                        | None => Some (set_root t (Some sibling))
                        | Some grand => replace_child t grand parent sibling
                        end;
                    t ← mark t rest;
                    Some (true, t)
                end
            end
          else Some (false, t)
      end
  end.

(** [Trie::prove]. *)
Definition prove_step (ns : list Node) (key : key32) (idx : nat) : option (u16 * Digest) :=
  n ← ns !! idx;
  match n with
  | Branch bit lhs rhs _ _ =>
      b ← key_bit key bit;
      s ← ns !! (if b : bool then lhs else rhs);
      Some (bit, node_digest s)
  | Leaf _ _ => None
  end.

Definition trie_prove (t : Trie) (key : key32) : option (TrieProof * Trie) :=
  match root t with
  | None => Some (mkTrieProof [] None, t)
  | Some _ =>
      '(_, t) ← trie_root t;
      '(path, leaf) ← descend t key;
      ss ← mapM (prove_step (nodes t) key) path;
      n ← nodes t !! leaf;
      match n with
      | Leaf k d => Some (mkTrieProof ss (Some (k, d)), t)
      | Branch _ _ _ _ _ => None
      end
  end.

(** [Trie::from_entries]. *)
Definition trie_from_entries (entries : list (key32 * Digest)) : option Trie :=
  fold_m (fun t e => r ← trie_set t e.1 e.2; Some r.2) trie_new entries.

End Trie.

#[global] Arguments leaf_digest : simpl never.
#[global] Arguments branch_digest : simpl never.
#[global] Arguments EMPTY : simpl never.
#[global] Arguments trie_fuel : simpl never.
