(* ===== verification/KeyBits.v ===== *)
(** * Bits of 32-byte keys

    The total bit function behind [key_bit], and the facts that make the trie canonical: a key is
    determined by its 256 bits, and [first_diff_bit] finds the first one on which two keys
    differ. *)

From S2P Require Import Prelude.
From S2P Require Import Crypto.
From S2P Require Import Trie.

Local Open Scope Z_scope.

(** Bit [i] of a key as a total function ([false] out of range). *)
Definition kbit (key : key32) (i : Z) : bool :=
  match blist key !! Z.to_nat (i / 8) with
  | Some b => Z.testbit (uval b) (7 - i mod 8)
  | None => false
  end.

Lemma shift_land_bit (z n : Z) : 0 <= n -> (Z.land (Z.shiftr z n) 1 =? 1) = Z.testbit z n.
Proof.
  intros Hn. assert (Z.land (Z.shiftr z n) 1 = Z.b2z (Z.testbit z n)) as ->.
  { change 1 with (Z.ones 1). rewrite Z.land_ones by lia. change (2 ^ 1) with 2.
    rewrite <- Z.bit0_mod, Z.shiftr_spec, Z.add_0_l by lia. done. }
  by destruct (Z.testbit z n).
Qed.

Lemma key_bit_kbit (key : key32) (i : u16) : uval i < 256 -> key_bit key i = Some (kbit key i).
Proof.
  intros Hi. unfold key_bit, kbit.
  destruct (lookup_lt_is_Some_2 (blist key) (Z.to_nat (i / 8))) as [b Hb].
  { rewrite length_blist. pose proof (uval_range i). Z.to_euclidean_division_equations; lia. }
  rewrite Hb. simpl. rewrite shift_land_bit; [done|].
  Z.to_euclidean_division_equations; lia.
Qed.

(** A bit index beyond the key panics. *)
Lemma key_bit_panic (key : key32) (i : u16) : 256 <= uval i -> key_bit key i = None.
Proof.
  intros Hi. unfold key_bit. rewrite lookup_ge_None_2; [done|].
  rewrite length_blist. Z.to_euclidean_division_equations; lia.
Qed.

Lemma u8_bits_ext (x y : u8) : (forall n, 0 <= n < 8 -> Z.testbit x n = Z.testbit y n) -> x = y.
Proof.
  intros E. apply uint_eq, Z.bits_inj'. intros n Hn.
  destruct (Z_lt_dec n 8) as [H8|H8]; [by apply E|].
  assert (forall b : u8, Z.testbit b n = false) as Hb.
  { intros b. destruct (decide (uval b = 0)) as [->|Hb]; [apply Z.bits_0|].
    apply Z.bits_above_log2; [u_lia|]. apply Z.log2_lt_pow2; [u_lia|].
    apply (Z.lt_le_trans _ (2 ^ 8)); [u_lia|]. apply Z.pow_le_mono_r; lia. }
  by rewrite !Hb.
Qed.

(** The bit at byte [p], position [n] from the top. *)
Lemma kbit_byte (key : key32) (p : nat) (b : u8) n :
  blist key !! p = Some b -> 0 <= n < 8 -> kbit key (Z.of_nat p * 8 + n) = Z.testbit b (7 - n).
Proof.
  intros Hp Hn. unfold kbit.
  replace (Z.to_nat ((Z.of_nat p * 8 + n) / 8)) with p
    by (Z.to_euclidean_division_equations; lia).
  rewrite Hp. f_equal. Z.to_euclidean_division_equations; lia.
Qed.

Lemma kbit_ext (a b : key32) : (forall i, 0 <= i < 256 -> kbit a i = kbit b i) -> a = b.
Proof.
  intros E. apply bytes_eq, list_eq_same_length with 32%nat; [apply length_blist..|].
  intros p x y Hp Hx Hy. apply u8_bits_ext. intros n Hn.
  specialize (E (Z.of_nat p * 8 + (7 - n))).
  rewrite (kbit_byte a p x), (kbit_byte b p y) in E by (done || lia).
  replace (7 - (7 - n)) with n in E by lia. apply E. lia.
Qed.

(** *** The first differing bit *)

Lemma leading_zeros8_range (x y : u8) :
  uval x <> uval y -> 0 <= leading_zeros8 (Z.lxor x y) < 8.
Proof.
  intros Hn. unfold leading_zeros8.
  assert (Z.lxor x y <> 0) as Hz by (intros E; by apply Z.lxor_eq in E).
  rewrite (proj2 (Z.eqb_neq _ _) Hz).
  assert (0 <= Z.lxor x y) by (apply Z.lxor_nonneg; u_lia).
  pose proof (Z.log2_nonneg (Z.lxor x y)).
  assert (Z.log2 (Z.lxor x y) < 8); [|lia].
  apply Z.log2_lt_pow2; [lia|].
  destruct (Z_lt_dec (Z.lxor x y) (2 ^ 8)) as [|Hge]; [done|]. exfalso.
  assert (8 <= Z.log2 (Z.lxor x y)) as Hl by (apply Z.log2_le_pow2; lia).
  assert (Z.testbit (Z.lxor x y) (Z.log2 (Z.lxor x y)) = true) as Hb
    by (apply Z.bit_log2; lia).
  rewrite Z.lxor_spec in Hb.
  assert (forall b : u8, Z.testbit b (Z.log2 (Z.lxor x y)) = false) as Hf.
  { intros b. destruct (decide (uval b = 0)) as [->|Hb0]; [apply Z.bits_0|].
    apply Z.bits_above_log2; [u_lia|]. apply Z.log2_lt_pow2; [u_lia|].
    apply (Z.lt_le_trans _ (2 ^ 8)); [u_lia|]. apply Z.pow_le_mono_r; lia. }
  by rewrite !Hf in Hb.
Qed.

Lemma leading_zeros8_spec (x y : u8) :
  uval x <> uval y ->
  let n := leading_zeros8 (Z.lxor x y) in
  Z.testbit x (7 - n) <> Z.testbit y (7 - n)
  /\ forall m, 0 <= m < n -> Z.testbit x (7 - m) = Z.testbit y (7 - m).
Proof.
  intros Hn n. pose proof (leading_zeros8_range x y Hn) as Hr. subst n.
  unfold leading_zeros8 in *.
  assert (Z.lxor x y <> 0) as Hz by (intros E; by apply Z.lxor_eq in E).
  rewrite (proj2 (Z.eqb_neq _ _) Hz) in *.
  assert (0 <= Z.lxor x y) by (apply Z.lxor_nonneg; u_lia). split.
  - replace (7 - (7 - Z.log2 (Z.lxor x y))) with (Z.log2 (Z.lxor x y)) by lia.
    assert (Z.testbit (Z.lxor x y) (Z.log2 (Z.lxor x y)) = true) as Hb
      by (apply Z.bit_log2; lia).
    rewrite Z.lxor_spec in Hb. by destruct (Z.testbit x _), (Z.testbit y _).
  - intros m Hm. assert (Z.testbit (Z.lxor x y) (7 - m) = false) as Hb
      by (apply Z.bits_above_log2; lia).
    rewrite Z.lxor_spec in Hb. by destruct (Z.testbit x _), (Z.testbit y _).
Qed.

Lemma first_diff_loop_spec (a b : list u8) i :
  0 <= i -> i + Z.of_nat (length a) <= 32 -> length a = length b -> a <> b ->
  exists j n x y, first_diff_loop i a b = Some j
    /\ a !! n = Some x /\ b !! n = Some y /\ take n a = take n b /\ uval x <> uval y
    /\ uval j = (i + Z.of_nat n) * 8 + leading_zeros8 (Z.lxor x y).
Proof.
  revert b i. induction a as [|x a IH]; intros [|y b] i Hi Hlen Hl Hne; simpl in *; try done.
  destruct (Z.eqb_spec (Z.lxor x y) 0) as [E|E].
  - apply Z.lxor_eq, uint_eq in E as ->.
    destruct (IH b (i + 1)) as (j & n & u & v & ? & ? & ? & ? & ? & Hj);
      [lia | lia | lia | congruence |].
    exists j, (S n), u, v. repeat split; simpl; try done; [by f_equal | lia].
  - assert (uval x <> uval y) as Hxy by (intros E'; apply E; rewrite E'; apply Z.lxor_nilpotent).
    pose proof (leading_zeros8_range x y Hxy).
    eexists _, O, x, y. repeat split; try done.
    rewrite uval_of_Z_small; simpl Z.of_N; lia.
Qed.

Lemma first_diff_bit_spec (a b : key32) :
  a <> b -> exists j, first_diff_bit a b = Some j /\ uval j < 256
    /\ kbit a j <> kbit b j /\ forall i, 0 <= i < j -> kbit a i = kbit b i.
Proof.
  intros Hne. unfold first_diff_bit.
  destruct (first_diff_loop_spec a b 0) as (j & n & x & y & Hj & Hx & Hy & Ht & Hxy & Ej);
    rewrite ?length_blist; try lia.
  { intros E. by apply Hne, bytes_eq. }
  pose proof (lookup_lt_Some _ _ _ Hx) as Hn. rewrite length_blist in Hn.
  pose proof (leading_zeros8_range x y Hxy) as Hlz.
  destruct (leading_zeros8_spec x y Hxy) as [Hd Heq].
  exists j. repeat split; [done | lia | |].
  - rewrite Ej, Z.add_0_l, (kbit_byte a n x), (kbit_byte b n y) by done. done.
  - intros i Hi. destruct (Z_lt_dec i (Z.of_nat n * 8)) as [Hlt|Hge].
    + unfold kbit.
      assert (forall l : list u8, l !! Z.to_nat (i / 8) = take n l !! Z.to_nat (i / 8)) as Hl.
      { intros l. rewrite lookup_take_lt; [done|]. Z.to_euclidean_division_equations; lia. }
      by rewrite (Hl a), (Hl b), Ht.
    + set (m := i - Z.of_nat n * 8). replace i with (Z.of_nat n * 8 + m) by lia.
      rewrite (kbit_byte a n x), (kbit_byte b n y) by (done || lia). apply Heq. lia.
Qed.

(** Two keys that agree below [i] and differ at [i] are told apart no earlier than [i]. *)
Definition agree (n : Z) (a b : key32) : Prop := forall i, 0 <= i < n -> kbit a i = kbit b i.

Lemma agree_refl n a : agree n a a.
Proof. by intros i. Qed.
Lemma agree_sym n a b : agree n a b -> agree n b a.
Proof. intros Ha i Hi. symmetry. by apply Ha. Qed.
Lemma agree_trans n a b c : agree n a b -> agree n b c -> agree n a c.
Proof. intros Ha Hb i Hi. rewrite Ha by done. by apply Hb. Qed.
Lemma agree_le n m a b : m <= n -> agree n a b -> agree m a b.
Proof. intros Hm Ha i Hi. apply Ha. lia. Qed.
Lemma agree_succ n a b : agree n a b -> kbit a n = kbit b n -> agree (n + 1) a b.
Proof. intros Ha E i Hi. destruct (decide (i = n)) as [->|]; [done|]. apply Ha. lia. Qed.

#[export] Instance agree_equiv n : Equivalence (agree n).
Proof. split; [intros a; apply agree_refl | intros a b; apply agree_sym | intros a b c; apply agree_trans]. Qed.

#[export] Hint Resolve agree_refl agree_sym : bbg.
