(* ===== verification/TrieTree.v ===== *)
(** * Crit-bit trees

    The trees the arena of a trie represents: their arena image, their entries, the canonical
    shape, the dirty-flag discipline, and zippers (a path from the root with a hole at its end),
    on which [set] and [remove] are local changes. *)

From S2P Require Import Prelude.
From S2P Require Import Crypto.
From S2P Require Import Trie.
From S2P Require Import KeyBits.

Local Open Scope Z_scope.

Section Trees.
  Context `{Nebu, Hemera}.

(** A tree whose nodes carry their arena index. *)
Inductive itree :=
| IL (i : nat) (k : key32) (d : Digest)
| IB (i : nat) (bit : u16) (l r : itree) (d : Digest) (dirty : bool).

Definition idx (s : itree) : nat := match s with IL i _ _ => i | IB i _ _ _ _ _ => i end.

(** The arena cells of a tree. *)
Fixpoint tnodes (s : itree) : list (nat * Node) :=
  match s with
  | IL i k d => [(i, Leaf k d)]
  | IB i bit l r d y => (i, Branch bit (idx l) (idx r) d y) :: tnodes l ++ tnodes r
  end.

Definition idxs (s : itree) : list nat := (tnodes s).*1.

Fixpoint tentries (s : itree) : list (key32 * Digest) :=
  match s with
  | IL _ k d => [(k, d)]
  | IB _ _ l r _ _ => tentries l ++ tentries r
  end.

Definition tkeys (s : itree) : list key32 := (tentries s).*1.

Definition clean (s : itree) : bool := match s with IL _ _ _ => true | IB _ _ _ _ _ y => negb y end.

(** The digest recomputed from the leaves. *)
Fixpoint rdigest (s : itree) : Digest :=
  match s with
  | IL _ _ d => d
  | IB _ bit l r _ _ => branch_digest bit (rdigest l) (rdigest r)
  end.

Definition sdigest (s : itree) : Digest := match s with IL _ _ d => d | IB _ _ _ _ d _ => d end.

(** A branch on [bit] over the key lists [ls] and [rs]: [bit] is the first bit on which the keys
    differ, and tells the two sides apart. *)
Definition branch_ok (bit : u16) (ls rs : list key32) : Prop :=
  uval bit < 256
  /\ (forall k, k ∈ ls -> kbit k bit = false) /\ (forall k, k ∈ rs -> kbit k bit = true)
  /\ (forall k k', k ∈ ls ++ rs -> k' ∈ ls ++ rs -> agree bit k k').

(** The canonical shape: a branch decides on the first bit its keys differ on. *)
Fixpoint shape (s : itree) : Prop :=
  match s with
  | IL _ _ _ => True
  | IB _ bit l r _ _ => shape l /\ shape r /\ branch_ok bit (tkeys l) (tkeys r)
  end.

(** A node that is not dirty has the right digest, and so have all nodes below it. *)
Fixpoint dok (s : itree) : Prop :=
  match s with
  | IL _ _ _ => True
  | IB _ bit l r d y =>
      dok l /\ dok r
      /\ (y = false -> clean l = true /\ clean r = true /\ d = branch_digest bit (rdigest l) (rdigest r))
  end.

(** The effect of [hash]. *)
Fixpoint settle (s : itree) : itree :=
  match s with
  | IL _ _ _ => s
  | IB _ _ _ _ _ false => s
  | IB i bit l r _ true => IB i bit (settle l) (settle r) (rdigest s) false
  end.

(** ** Zippers: the branches passed, root first *)

Inductive frame :=
| FL (i : nat) (bit : u16) (r : itree) (d : Digest) (y : bool)
| FR (i : nat) (bit : u16) (l : itree) (d : Digest) (y : bool).

Definition f_idx (f : frame) : nat := match f with FL i _ _ _ _ => i | FR i _ _ _ _ => i end.
Definition f_bit (f : frame) : u16 := match f with FL _ b _ _ _ => b | FR _ b _ _ _ => b end.
Definition f_sib (f : frame) : itree := match f with FL _ _ s _ _ => s | FR _ _ s _ _ => s end.
Definition f_side (f : frame) : bool := match f with FL _ _ _ _ _ => false | FR _ _ _ _ _ => true end.
Definition f_plug (f : frame) (s : itree) : itree :=
  match f with FL i b r d y => IB i b s r d y | FR i b l d y => IB i b l s d y end.
Definition f_mark (f : frame) : frame :=
  match f with FL i b r d _ => FL i b r d true | FR i b l d _ => FR i b l d true end.
Definition f_node (f : frame) (hole : nat) : Node :=
  match f with
  | FL _ b r d y => Branch b hole (idx r) d y
  | FR _ b l d y => Branch b (idx l) hole d y
  end.

Definition plug (fs : list frame) (s : itree) : itree := foldr f_plug s fs.

(** The cells of the frames, given the index of the node in the hole. *)
Definition ctx_idx (fs : list frame) (hole : nat) : nat :=
  match fs with [] => hole | f :: _ => f_idx f end.

Fixpoint ctx_nodes (fs : list frame) (hole : nat) : list (nat * Node) :=
  match fs with
  | [] => []
  | f :: fs => (f_idx f, f_node f (ctx_idx fs hole)) :: tnodes (f_sib f) ++ ctx_nodes fs hole
  end.

Definition ctx_entries (fs : list frame) : list (key32 * Digest) :=
  flat_map (fun f => tentries (f_sib f)) fs.

(** The path of [key]: frames in which it takes the open side. *)
Definition follows (key : key32) (fs : list frame) : Prop :=
  Forall (fun f => kbit key (f_bit f) = f_side f) fs.

Fixpoint split_at (key : key32) (s : itree) : list frame * itree :=
  match s with
  | IL _ _ _ => ([], s)
  | IB i b l r d y =>
      if kbit key b then let p := split_at key r in (FR i b l d y :: p.1, p.2)
      else let p := split_at key l in (FL i b r d y :: p.1, p.2)
  end.

(** ** Basic facts *)

Lemma idx_plug fs s : idx (plug fs s) = ctx_idx fs (idx s).
Proof. by destruct fs as [|[] fs]. Qed.

Lemma tnodes_plug fs s : tnodes (plug fs s) ≡ₚ ctx_nodes fs (idx s) ++ tnodes s.
Proof.
  induction fs as [|f fs IH]; [done|]. destruct f; cbn [plug foldr f_plug tnodes ctx_nodes f_sib f_idx f_node];
    fold (plug fs s); rewrite idx_plug, IH; simpl; apply perm_skip.
  - by rewrite (Permutation_app_comm (tnodes r)), <- !app_assoc, (Permutation_app_comm (tnodes s)).
  - by rewrite app_assoc.
Qed.

Lemma tentries_plug fs s : tentries (plug fs s) ≡ₚ ctx_entries fs ++ tentries s.
Proof.
  induction fs as [|f fs IH]; [done|]. destruct f; cbn [plug foldr f_plug tentries ctx_entries flat_map f_sib];
    fold (plug fs s); fold (ctx_entries fs); rewrite IH.
  - by rewrite (Permutation_app_comm _ (tentries r)), app_assoc.
  - by rewrite app_assoc.
Qed.

Lemma tkeys_plug fs s : tkeys (plug fs s) ≡ₚ (ctx_entries fs).*1 ++ tkeys s.
Proof. unfold tkeys. by rewrite tentries_plug, fmap_app. Qed.

Lemma plug_app fs1 fs2 s : plug (fs1 ++ fs2) s = plug fs1 (plug fs2 s).
Proof. apply foldr_app. Qed.

Lemma ctx_idx_app fs1 fs2 h : ctx_idx (fs1 ++ fs2) h = ctx_idx fs1 (ctx_idx fs2 h).
Proof. by destruct fs1. Qed.

Lemma f_idx_mark f : f_idx (f_mark f) = f_idx f.
Proof. by destruct f. Qed.

Lemma map_f_idx_mark fs : map f_idx (map f_mark fs) = map f_idx fs.
Proof. rewrite map_map. apply map_ext, f_idx_mark. Qed.

Lemma ctx_idx_mark fs h : ctx_idx (map f_mark fs) h = ctx_idx fs h.
Proof. destruct fs as [|f fs]; [done|]. apply f_idx_mark. Qed.

Lemma ctx_nodes_idx fs h h' : (ctx_nodes fs h).*1 = (ctx_nodes fs h').*1.
Proof.
  induction fs as [|f fs IH]; [done|]. cbn [ctx_nodes]. rewrite !fmap_cons, !fmap_app. simpl.
  by rewrite IH.
Qed.

Lemma ctx_nodes_mark_idx fs h : (ctx_nodes (map f_mark fs) h).*1 = (ctx_nodes fs h).*1.
Proof.
  induction fs as [|f fs IH]; [done|]. cbn [ctx_nodes map]. rewrite !fmap_cons, !fmap_app. simpl.
  rewrite IH. by destruct f.
Qed.

Lemma ctx_nodes_app fs1 fs2 h :
  ctx_nodes (fs1 ++ fs2) h = ctx_nodes fs1 (ctx_idx fs2 h) ++ ctx_nodes fs2 h.
Proof.
  induction fs1 as [|f fs1 IH]; [done|]. cbn [app ctx_nodes].
  by rewrite IH, ctx_idx_app, <- app_assoc.
Qed.

Lemma ctx_entries_mark fs : ctx_entries (map f_mark fs) = ctx_entries fs.
Proof. induction fs as [|[] fs IH]; [done|..]; simpl; by rewrite IH. Qed.

Lemma ctx_entries_app fs1 fs2 : ctx_entries (fs1 ++ fs2) = ctx_entries fs1 ++ ctx_entries fs2.
Proof. apply flat_map_app. Qed.

Lemma elem_of_map_f_idx fs h i : i ∈ map f_idx fs -> i ∈ (ctx_nodes fs h).*1.
Proof.
  induction fs as [|f fs IH]; cbn [map ctx_nodes]; [done|].
  rewrite fmap_cons, fmap_app, !elem_of_cons, elem_of_app. simpl. intuition.
Qed.

Lemma split_at_plug key s : plug (split_at key s).1 (split_at key s).2 = s.
Proof.
  induction s as [i k d|i b l IHl r IHr d y]; [done|]. cbn [split_at].
  destruct (kbit key b); cbn [fst snd plug foldr f_plug]; f_equal; apply IHr || apply IHl.
Qed.

Lemma split_at_follows key s : follows key (split_at key s).1.
Proof.
  induction s as [i k d|i b l IHl r IHr d y]; cbn [split_at]; [by constructor|].
  destruct (kbit key b) eqn:E; constructor; assumption.
Qed.

Lemma split_at_leaf key s : exists i k d, (split_at key s).2 = IL i k d.
Proof.
  induction s as [i k d|i b l IHl r IHr d y]; cbn [split_at]; [eauto|].
  destruct (kbit key b); assumption.
Qed.

Lemma idx_in_idxs s : idx s ∈ idxs s.
Proof. destruct s; apply elem_of_cons; by left. Qed.

Lemma tkeys_nonempty s : exists k, k ∈ tkeys s.
Proof.
  induction s as [i k d|i b l [k Hk] r _ d y].
  - exists k. by apply list_elem_of_singleton.
  - exists k. unfold tkeys in *. cbn [tentries]. rewrite fmap_app, elem_of_app. by left.
Qed.

Lemma tkeys_IB i b l r d y : tkeys (IB i b l r d y) = tkeys l ++ tkeys r.
Proof. unfold tkeys. cbn [tentries]. apply fmap_app. Qed.

(** ** Shapes through zippers *)

#[export] Instance branch_ok_proper bit : Proper ((≡ₚ) ==> (≡ₚ) ==> iff) (branch_ok bit).
Proof.
  intros l l' El r r' Er. unfold branch_ok. setoid_rewrite El. setoid_rewrite Er. done.
Qed.

Lemma branch_ok_mono bit l l' r r' :
  l' ⊆ l -> r' ⊆ r -> branch_ok bit l r -> branch_ok bit l' r'.
Proof.
  intros Hl Hr (Hb & HL & HR & Ha). split_and!; auto.
  intros k k'. rewrite !elem_of_app. intros Hk Hk'. apply Ha; rewrite elem_of_app; intuition.
Qed.

(** The branch of a frame, its keys on the open side [ks]. *)
Definition frame_ok (f : frame) (ks : list key32) : Prop :=
  if f_side f then branch_ok (f_bit f) (tkeys (f_sib f)) ks
  else branch_ok (f_bit f) ks (tkeys (f_sib f)).

(** [fits fs ks]: a canonical tree with keys [ks] in the hole makes the whole tree canonical. *)
Fixpoint fits (fs : list frame) (ks : list key32) : Prop :=
  match fs with
  | [] => True
  | f :: fs' => shape (f_sib f) /\ frame_ok f ((ctx_entries fs').*1 ++ ks) /\ fits fs' ks
  end.

Lemma shape_plug fs s : shape (plug fs s) <-> fits fs (tkeys s) /\ shape s.
Proof.
  induction fs as [|[] fs IH]; [simpl; tauto|..];
    cbn [plug foldr f_plug shape fits]; unfold frame_ok; simpl; fold (plug fs s);
    rewrite tkeys_plug, IH; tauto.
Qed.

Lemma frame_ok_mono f ks ks' : ks' ⊆ ks -> frame_ok f ks -> frame_ok f ks'.
Proof. intros ?. unfold frame_ok. case_match; apply branch_ok_mono; done. Qed.

Lemma frame_ok_bit f ks : frame_ok f ks -> uval (f_bit f) < 256.
Proof. unfold frame_ok. case_match; by intros (?&_). Qed.

Lemma frame_ok_side f ks k : frame_ok f ks -> k ∈ ks -> kbit k (f_bit f) = f_side f.
Proof. unfold frame_ok. case_match; intros (_&?&?&_); auto. Qed.

Lemma frame_ok_sib f ks k :
  frame_ok f ks -> k ∈ tkeys (f_sib f) -> kbit k (f_bit f) = negb (f_side f).
Proof. unfold frame_ok. case_match; intros (_&?&?&_); auto. Qed.

Lemma frame_ok_agree f ks k k' :
  frame_ok f ks -> k ∈ ks -> k' ∈ tkeys (f_sib f) ++ ks -> agree (f_bit f) k k'.
Proof.
  unfold frame_ok. case_match; intros (_&_&_&Ha) Hk Hk'; apply Ha;
    rewrite elem_of_app in *; tauto.
Qed.

Lemma frame_ok_add f ks k k0 :
  k0 ∈ ks -> kbit k (f_bit f) = f_side f -> agree (f_bit f) k k0 ->
  frame_ok f ks -> frame_ok f (k :: ks).
Proof.
  intros Hk0 Hs Hag Hok.
  assert (forall k1, k1 ∈ tkeys (f_sib f) ++ k :: ks -> agree (f_bit f) k0 k1) as Ha.
  { intros k1. rewrite elem_of_app, elem_of_cons. intros [?|[->|?]]; [|by symmetry|];
      apply (frame_ok_agree f ks); rewrite ?elem_of_app; auto. }
  pose proof (frame_ok_bit _ _ Hok). pose proof (fun k => frame_ok_side f ks k Hok) as Hside.
  pose proof (fun k => frame_ok_sib f ks k Hok) as Hsib. unfold frame_ok.
  setoid_rewrite elem_of_app in Ha.
  destruct (f_side f); split_and!; cbn [negb] in *; auto; intros k1;
    try (rewrite elem_of_cons; intros [->|]; by auto);
    intros k2; rewrite !elem_of_app; intros; rewrite <- (Ha k1), <- (Ha k2) by tauto; done.
Qed.

Lemma fits_mono fs ks ks' : ks' ⊆ ks -> fits fs ks -> fits fs ks'.
Proof.
  intros Hks. induction fs as [|f fs IH]; [done|]. intros (?&Hf&?). split_and!; auto.
  eapply frame_ok_mono, Hf. intros k. rewrite !elem_of_app. intuition.
Qed.

(** A new key joins a hole when it follows the path and agrees with a key already there. *)
Lemma fits_add fs ks key k0 :
  k0 ∈ ks -> follows key fs -> Forall (fun f => agree (f_bit f) key k0) fs ->
  fits fs ks -> fits fs (key :: ks).
Proof.
  intros Hk0 Hfo Hag. induction fs as [|f fs IH]; [done|].
  inversion_clear Hfo as [|? ? Hside Hfo']. inversion_clear Hag as [|? ? Hagree Hag'].
  intros (?&Hf&?). split_and!; auto.
  eapply frame_ok_mono, (frame_ok_add f _ key k0), Hf; auto.
  - intros k. rewrite elem_of_cons, !elem_of_app, elem_of_cons. tauto.
  - rewrite elem_of_app. auto.
Qed.

Lemma fits_mark fs ks : fits (map f_mark fs) ks <-> fits fs ks.
Proof.
  induction fs as [|f fs IH]; [done|]. cbn [map fits].
  rewrite ctx_entries_mark, IH. by destruct f.
Qed.

Lemma fits_app fs1 fs2 ks :
  fits (fs1 ++ fs2) ks -> fits fs1 ((ctx_entries fs2).*1 ++ ks) /\ fits fs2 ks.
Proof.
  induction fs1 as [|f fs1 IH]; [done|]. cbn [app fits].
  rewrite ctx_entries_app, fmap_app, <- app_assoc. naive_solver.
Qed.

(** A hole's keys go the way of the frames above it. *)
Lemma fits_sides fs ks k : fits fs ks -> k ∈ ks -> follows k fs.
Proof.
  intros Hf Hk. induction fs as [|f fs IH]; [constructor|].
  destruct Hf as (_&Hs&Hf). constructor; [|by apply IH].
  eapply frame_ok_side; [done|]. apply elem_of_app. by right.
Qed.

Lemma fits_bits fs ks : fits fs ks -> Forall (fun f => uval (f_bit f) < 256) fs.
Proof. induction fs as [|f fs IH]; constructor; [eapply frame_ok_bit|]; naive_solver. Qed.

(** Decision bits increase from the root. *)
Lemma fits_increasing f fs ks :
  (exists k, k ∈ ks) -> fits (f :: fs) ks -> Forall (fun g => uval (f_bit f) < uval (f_bit g)) fs.
Proof.
  intros [k Hk] (_&Hs&Hf). apply Forall_forall. intros g Hg.
  apply list_elem_of_split in Hg as (fs1 & fs2 & ->).
  apply fits_app in Hf as [_ (_&Hs2&_)].
  destruct (tkeys_nonempty (f_sib g)) as [k' Hk'].
  rewrite ctx_entries_app, fmap_app in Hs. cbn [ctx_entries flat_map] in Hs.
  rewrite fmap_app in Hs. fold (ctx_entries fs2) in Hs.
  assert (kbit k (f_bit g) <> kbit k' (f_bit g)) as Hd.
  { rewrite (frame_ok_side _ _ k Hs2), (frame_ok_sib _ _ k' Hs2) by (rewrite ?elem_of_app; auto).
    by destruct (f_side g). }
  assert (kbit k (f_bit f) = kbit k' (f_bit f)) as He.
  { rewrite !(frame_ok_side _ _ _ Hs) by (rewrite !elem_of_app; auto). done. }
  assert (agree (f_bit f) k k') as Hag.
  { apply (frame_ok_agree _ _ _ _ Hs); rewrite !elem_of_app; auto. }
  destruct (Z.lt_trichotomy (f_bit f) (f_bit g)) as [|[E|E]]; [done|..]; exfalso.
  - by rewrite E in He.
  - apply Hd, Hag. u_lia.
Qed.

(** ** The map of a tree *)

Definition tmap (s : itree) : gmap key32 Digest := list_to_map (tentries s).

Lemma NoDup_tkeys s : shape s -> NoDup (tkeys s).
Proof.
  induction s as [i k d|i b l IHl r IHr d y]; [intros _; apply NoDup_singleton|].
  intros (Hl & Hr & (_&H0'&H1'&_)). rewrite tkeys_IB. apply NoDup_app; split_and!; auto.
  intros k Hk Hk'. apply H0' in Hk. apply H1' in Hk'. congruence.
Qed.

Lemma elem_of_tkeys s k : k ∈ tkeys s <-> exists d, (k, d) ∈ tentries s.
Proof.
  unfold tkeys. rewrite list_elem_of_fmap. split; [intros ([? d]&->&?); eauto | intros [d ?]].
  by exists (k, d).
Qed.

Lemma tmap_lookup s k d : shape s -> tmap s !! k = Some d <-> (k, d) ∈ tentries s.
Proof. intros Hs. symmetry. by apply elem_of_list_to_map, NoDup_tkeys. Qed.

Lemma tmap_lookup_None s k : tmap s !! k = None <-> k ∉ tkeys s.
Proof. symmetry. apply not_elem_of_list_to_map. Qed.

(** Maps of trees with the same entries, up to order. *)
Lemma tmap_perm s (l : list (key32 * Digest)) :
  shape s -> tentries s ≡ₚ l -> tmap s = list_to_map l.
Proof. intros Hs. by apply list_to_map_proper, NoDup_tkeys. Qed.

(** A key of the tree is found at the end of its path. *)
Lemma split_at_found key d s :
  shape s -> (key, d) ∈ tentries s -> exists i, (split_at key s).2 = IL i key d.
Proof.
  induction s as [i k d'|i b l IHl r IHr d' y].
  - intros _ [= -> ->]%list_elem_of_singleton. by exists i.
  - intros (Hl & Hr & (_&H0'&H1'&_)) Hin. cbn [split_at].
    cbn [tentries] in Hin. apply elem_of_app in Hin as [Hin|Hin].
    + rewrite H0' by (apply elem_of_tkeys; eauto). by apply IHl.
    + rewrite H1' by (apply elem_of_tkeys; eauto). by apply IHr.
Qed.

Lemma split_at_lookup key s fs i k d :
  shape s -> split_at key s = (fs, IL i k d) ->
  tmap s !! key = if decide (k = key) then Some d else None.
Proof.
  intros Hs E. pose proof (split_at_plug key s) as Hp. rewrite E in Hp. simpl in Hp.
  assert ((k, d) ∈ tentries s) as Hin.
  { rewrite <- Hp, tentries_plug, elem_of_app. right. by apply list_elem_of_singleton. }
  destruct (decide (k = key)) as [->|Hne]; [by apply tmap_lookup|].
  destruct (tmap s !! key) as [d'|] eqn:El; [|done]. apply tmap_lookup in El; [|done].
  apply split_at_found in El as [j Hj]; [|done]. rewrite E in Hj. simpl in Hj. congruence.
Qed.

(** ** The reference commitment: [node(S)] of the source's derivation

    [node_rec n m] folds over the canonical structure of a map whose keys agree on their first
    [256 - n] bits: [e] for no entry, [lf] for one, [br] at each bit where the keys part. *)
Section Rec.
  Context {A : Type} (e : A) (lf : Digest -> A) (br : u16 -> A -> A -> A).

Fixpoint node_rec (n : nat) (m : gmap key32 Digest) : A :=
  match map_to_list m with
  | [] => e
  | [(_, d)] => lf d
  | _ =>
      match n with
      | O => e
      | S n =>
          let i := 255 - Z.of_nat n in
          let m0 := filter (fun e => kbit e.1 i = false) m in
          let m1 := filter (fun e => kbit e.1 i = true) m in
          if decide (m0 = ∅ \/ m1 = ∅) then node_rec n m
          else br (of_Z 16 i) (node_rec n m0) (node_rec n m1)
      end
  end.

Fixpoint tree_rec (s : itree) : A :=
  match s with
  | IL _ _ d => lf d
  | IB _ bit l r _ _ => br bit (tree_rec l) (tree_rec r)
  end.

End Rec.

Definition commitment (m : gmap key32 Digest) : Digest := node_rec EMPTY (fun d => d) branch_digest 256 m.

(** The queries behind a commitment, below the digests of its leaves. *)
Definition branch_queries (bit : u16) (l r : Digest) : list query := chain_queries (branch_iv bit) [l; r].

Definition query_branch (bit : u16) (l r : Digest * list query) : Digest * list query :=
  (branch_digest bit l.1 r.1, branch_queries bit l.1 r.1 ++ l.2 ++ r.2).

Definition commitment_queries (m : gmap key32 Digest) : list query :=
  (node_rec (EMPTY, []) (fun d => (d, [])) query_branch 256 m).2.

Fixpoint tree_queries (s : itree) : list query :=
  match s with
  | IL _ _ _ => []
  | IB _ bit l r _ _ => branch_queries bit (rdigest l) (rdigest r) ++ tree_queries l ++ tree_queries r
  end.

Lemma commitment_empty : commitment ∅ = EMPTY.
Proof. done. Qed.

Lemma tmap_nonempty s : tmap s <> ∅.
Proof.
  destruct (tkeys_nonempty s) as [k Hk]. intros E.
  apply (tmap_lookup_None s k); [|done]. by rewrite E, lookup_empty.
Qed.

Lemma tmap_IB i b l r d y : tmap (IB i b l r d y) = tmap l ∪ tmap r.
Proof. unfold tmap. cbn [tentries]. apply list_to_map_app. Qed.

Lemma filter_all (P : key32 * Digest -> Prop) `{!forall x, Decision (P x)} (m : gmap key32 Digest) :
  (forall k d, m !! k = Some d -> P (k, d)) -> filter P m = m.
Proof. intros HP. by apply map_filter_id. Qed.

Lemma filter_none (P : key32 * Digest -> Prop) `{!forall x, Decision (P x)} (m : gmap key32 Digest) :
  (forall k d, m !! k = Some d -> ~ P (k, d)) -> filter P m = ∅.
Proof. intros HP. by apply map_empty_filter_2. Qed.

Lemma tmap_keys s k d : tmap s !! k = Some d -> k ∈ tkeys s.
Proof. intros Hk. apply elem_of_tkeys. exists d. by apply elem_of_list_to_map_2. Qed.

Lemma filter_bit_sides bit c (l r : itree) :
  branch_ok bit (tkeys l) (tkeys r) ->
  filter (fun p => kbit p.1 bit = c) (tmap l ∪ tmap r) = if c : bool then tmap r else tmap l.
Proof.
  intros (_&H0'&H1'&_). pose proof (tmap_keys l) as Kl. pose proof (tmap_keys r) as Kr.
  rewrite map_filter_union.
  - destruct c.
    + rewrite (filter_none _ (tmap l)), (filter_all _ (tmap r)), (left_id ∅ (∪)); [done|..];
        intros k d Hk; simpl; [by eauto|]. rewrite (H0' k) by eauto. done.
    + rewrite (filter_all _ (tmap l)), (filter_none _ (tmap r)), (right_id ∅ (∪)); [done|..];
        intros k d Hk; simpl; [|by eauto]. rewrite (H1' k) by eauto. done.
  - apply map_disjoint_spec. intros k d d' Hk%Kl%H0' Hk'%Kr%H1'. congruence.
Qed.

(** A branch's map has two entries at least. *)
Lemma map_to_list_IB i b l r d y :
  shape (IB i b l r d y) ->
  exists p q rest, map_to_list (tmap (IB i b l r d y)) = p :: q :: rest.
Proof.
  intros Hs. pose proof (map_to_list_to_map _ (NoDup_tkeys _ Hs)) as Hp.
  change (list_to_map _) with (tmap (IB i b l r d y)) in Hp. cbn [tentries] in Hp.
  assert (forall s, tentries s <> []) as Hne.
  { intros s E. destruct (tkeys_nonempty s) as [k Hk]. unfold tkeys in Hk.
    rewrite E in Hk. by apply not_elem_of_nil in Hk. }
  apply Permutation_length in Hp. rewrite length_app in Hp.
  destruct (tentries l) eqn:El; [by apply Hne in El|].
  destruct (tentries r) eqn:Er; [by apply Hne in Er|].
  destruct (map_to_list _) as [|e [|e2 rest]]; simpl in Hp; try lia. eauto.
Qed.

Section RecLemmas.
  Context {A : Type} (e : A) (lf : Digest -> A) (br : u16 -> A -> A -> A).

Lemma node_rec_leaf n i k d : node_rec e lf br n (tmap (IL i k d)) = lf d.
Proof.
  unfold tmap. cbn [tentries list_to_map fst snd foldr]. destruct n;
    cbn [node_rec]; by rewrite insert_empty, map_to_list_singleton.
Qed.

Lemma node_rec_many n m p q rest :
  map_to_list m = p :: q :: rest ->
  let i := 255 - Z.of_nat n in
  let m0 := filter (fun e => kbit e.1 i = false) m in
  let m1 := filter (fun e => kbit e.1 i = true) m in
  node_rec e lf br (S n) m =
  if decide (m0 = ∅ \/ m1 = ∅) then node_rec e lf br n m
  else br (of_Z 16 i) (node_rec e lf br n m0) (node_rec e lf br n m1).
Proof. intros E. cbn [node_rec]. rewrite E. by destruct p. Qed.

End RecLemmas.

(** Keys that agree below [n] are decided by a bit that is not below [n]. *)
Lemma branch_ok_ge (n : Z) (bit : u16) (l r : itree) :
  branch_ok bit (tkeys l) (tkeys r) ->
  (forall k k', k ∈ tkeys l ++ tkeys r -> k' ∈ tkeys l ++ tkeys r -> agree n k k') -> n <= bit.
Proof.
  intros (_ & H0' & H1' & _) Hag.
  destruct (tkeys_nonempty l) as [k Hk], (tkeys_nonempty r) as [k' Hk'].
  destruct (Z_le_gt_dec n bit) as [|Hgt]; [done|]. exfalso.
  assert (kbit k bit = kbit k' bit) as E.
  { apply (Hag k k'); rewrite ?elem_of_app; auto. u_lia. }
  rewrite H0', H1' in E by done. done.
Qed.

(** Keys that agree beyond bit [i] all fall on one side of it. *)
Lemma filter_bit_agree (i : Z) (bit : u16) (s : itree) :
  0 <= i < uval bit -> (forall k k', k ∈ tkeys s -> k' ∈ tkeys s -> agree bit k k') ->
  filter (fun p => kbit p.1 i = false) (tmap s) = ∅
  \/ filter (fun p => kbit p.1 i = true) (tmap s) = ∅.
Proof.
  intros Hi Ha. destruct (tkeys_nonempty s) as [k0 Hk0].
  assert (forall k d, tmap s !! k = Some d -> kbit k i = kbit k0 i) as Hb.
  { intros k d Hk%tmap_keys. by apply (Ha k k0). }
  destruct (kbit k0 i); [left|right]; apply filter_none; intros k d Hk; simpl;
    rewrite (Hb k d Hk); done.
Qed.

(** The fold over a map is the fold over its canonical tree. *)
Lemma node_rec_tree {A} (e : A) lf br n s :
  (n <= 256)%nat -> shape s ->
  (forall k k', k ∈ tkeys s -> k' ∈ tkeys s -> agree (256 - Z.of_nat n) k k') ->
  node_rec e lf br n (tmap s) = tree_rec lf br s.
Proof.
  revert s. induction n as [|n IH]; intros s Hn Hs Hag;
    (destruct s as [i k d|i b l r d y]; [by rewrite node_rec_leaf|]).
  - exfalso. destruct Hs as (Hl & Hr & Hok). rewrite tkeys_IB in Hag.
    apply (branch_ok_ge 256 b) in Hag; [|done]. destruct Hok as [Hb _]. lia.
  - destruct (map_to_list_IB _ _ _ _ _ _ Hs) as (p & q & rest & Em).
    rewrite (node_rec_many _ _ _ _ _ _ _ _ Em). pose proof Hs as (Hl & Hr & Hok).
    pose proof Hok as (Hb & H0' & H1' & Ha). rewrite tkeys_IB in Hag.
    apply (branch_ok_ge (256 - Z.of_nat (S n)) b) in Hag; [|done].
    destruct (Z.eq_dec b (255 - Z.of_nat n)) as [E|Hne].
    + rewrite <- E, of_Z_uval, tmap_IB, !filter_bit_sides by done.
      rewrite decide_False by (intros [Hx|Hx]; by apply tmap_nonempty in Hx).
      cbn [tree_rec]. f_equal; apply IH; auto; try lia; intros k k' Hk Hk';
        replace (256 - Z.of_nat n) with (uval b + 1) by lia; apply agree_succ;
        first [by rewrite !H0' by done | by rewrite !H1' by done
              | apply Ha; rewrite elem_of_app; auto].
    + rewrite decide_True.
      * apply IH; [lia|done|]. intros k k'. rewrite tkeys_IB. intros Hk Hk'.
        apply agree_le with (uval b); [lia|]. by apply Ha.
      * apply (filter_bit_agree _ b); [lia|]. by rewrite tkeys_IB.
Qed.

Lemma node_rec_tree_root {A} (e : A) lf br s :
  shape s -> node_rec e lf br 256 (tmap s) = tree_rec lf br s.
Proof. intros Hs. apply node_rec_tree; [lia|done|]. intros k k' _ _ i Hi. lia. Qed.

(** The digest recomputed from the leaves is the reference commitment of the map. *)
Lemma commitment_rdigest s : shape s -> commitment (tmap s) = rdigest s.
Proof.
  intros Hs. unfold commitment. rewrite node_rec_tree_root by done. clear Hs.
  induction s as [|i b l IHl r IHr d y]; simpl; [done|]. by rewrite IHl, IHr.
Qed.

Lemma commitment_queries_tree s : shape s -> commitment_queries (tmap s) = tree_queries s.
Proof.
  intros Hs. unfold commitment_queries. rewrite node_rec_tree_root by done. clear Hs.
  enough (tree_rec (fun d => (d, [])) query_branch s = (rdigest s, tree_queries s)) as -> by done.
  induction s as [|i b l IHl r IHr d y]; cbn [tree_rec rdigest tree_queries]; [done|]. by rewrite IHl, IHr.
Qed.

End Trees.

(** Unification never needs to compute a commitment. *)
#[global] Opaque commitment commitment_queries.
