(* ===== verification/TrieRefine.v ===== *)
(** * The trie arena refines a finite map

    [trie_rep t m]: the arena [t] holds a canonical tree over exactly the entries of [m], every
    arena cell is either in the tree or on the free list, and every clean digest is right. Each
    operation of Trie.v runs without panicking on such an arena and has the effect of the map
    operation. *)

From S2P Require Import Prelude.
From S2P Require Import Crypto.
From S2P Require Import Trie.
From S2P Require Import KeyBits.
From S2P Require Import TrieTree.

Local Open Scope Z_scope.

Section Refine.
  Context `{Nebu, Hemera}.

(** ** Arenas *)

Definition stored (ns : list Node) (cells : list (nat * Node)) : Prop :=
  Forall (fun p => ns !! p.1 = Some p.2) cells.

(** The cells in use and the free list partition the arena. *)
Definition arena (t : Trie) (cells : list (nat * Node)) : Prop :=
  stored (nodes t) cells /\ free t ++ cells.*1 ≡ₚ seq 0 (length (nodes t)).

#[export] Instance stored_proper ns : Proper ((≡ₚ) ==> iff) (stored ns).
Proof. intros l l' E. unfold stored. by rewrite E. Qed.

#[export] Instance arena_proper t : Proper ((≡ₚ) ==> iff) (arena t).
Proof. intros l l' E. unfold arena. by rewrite E. Qed.

Lemma stored_app ns l l' : stored ns (l ++ l') <-> stored ns l /\ stored ns l'.
Proof. apply Forall_app. Qed.

Lemma stored_cons ns p l : stored ns (p :: l) <-> ns !! p.1 = Some p.2 /\ stored ns l.
Proof. unfold stored. by rewrite Forall_cons. Qed.

Lemma stored_insert_ne ns i n l : i ∉ l.*1 -> stored ns l -> stored (<[i := n]> ns) l.
Proof.
  intros Hi Hs. apply Forall_forall. intros p Hp.
  pose proof (proj1 (Forall_forall _ _) Hs p Hp) as Hl. simpl in Hl.
  rewrite list_lookup_insert_ne; [done|]. intros ->.
  apply Hi, list_elem_of_fmap. eauto.
Qed.

Lemma stored_lookup ns l i n : stored ns l -> (i, n) ∈ l -> ns !! i = Some n.
Proof. intros Hs Hin. by apply (proj1 (Forall_forall _ _) Hs) in Hin. Qed.

(** Two stores that agree on the cells. *)
Lemma stored_ext ns ns' l :
  (forall i, i ∈ l.*1 -> ns' !! i = ns !! i) -> stored ns l -> stored ns' l.
Proof.
  intros He Hs. apply Forall_forall. intros p Hp.
  rewrite He by (apply list_elem_of_fmap; eauto). by apply (proj1 (Forall_forall _ _) Hs p Hp).
Qed.

Lemma arena_NoDup t cells : arena t cells -> NoDup (free t ++ cells.*1).
Proof. intros [_ ->]. apply NoDup_seq. Qed.

Lemma arena_NoDup_cells t cells : arena t cells -> NoDup cells.*1.
Proof. intros Ha%arena_NoDup. by apply NoDup_app in Ha as (_ & _ & ?). Qed.

Lemma arena_lookup t cells i n : arena t cells -> (i, n) ∈ cells -> nodes t !! i = Some n.
Proof. intros [Hs _]. by apply stored_lookup. Qed.

Lemma arena_length t cells : arena t cells -> (length cells <= length (nodes t))%nat.
Proof.
  intros [_ Hp]. apply Permutation_length in Hp.
  rewrite length_app, length_fmap, length_seq in Hp. lia.
Qed.

Lemma arena_root t cells r : arena t cells -> arena (set_root t r) cells.
Proof. done. Qed.

Lemma arena_len t cells n : arena t cells -> arena (set_len t n) cells.
Proof. done. Qed.

Lemma arena_update t i n n' l r s :
  arena t ((i, n) :: l) -> arena (mkTrie (<[i := n']> (nodes t)) (free t) r s) ((i, n') :: l).
Proof.
  intros Ha. pose proof (arena_NoDup_cells _ _ Ha) as Hn. destruct Ha as [Hs Hp].
  rewrite fmap_cons, NoDup_cons in Hn. apply stored_cons in Hs as [Hi Hs]. simpl in *.
  split; simpl.
  - apply stored_cons. simpl. split; [|apply stored_insert_ne; tauto].
    apply list_lookup_insert_eq. by apply lookup_lt_Some in Hi.
  - by rewrite length_insert.
Qed.

Lemma arena_release t i n l : arena t ((i, n) :: l) -> arena (release t i) l.
Proof.
  intros [Hs Hp]. apply stored_cons in Hs as [_ Hs]. split; [done|]. simpl.
  rewrite <- Hp. simpl. by rewrite Permutation_middle.
Qed.

(** The arena has room for [n] more cells before indices are cut to 32 bits. *)
Definition room (t : Trie) (n : Z) : Prop := Z.of_nat (length (nodes t)) + n <= 2 ^ 32.

Lemma alloc_ok t n l :
  arena t l -> room t 1 ->
  exists i t', alloc t n = Some (i, t') /\ arena t' ((i, n) :: l)
    /\ root t' = root t /\ len t' = len t
    /\ (length (nodes t') <= S (length (nodes t)))%nat.
Proof.
  intros [Hs Hp] Hroom. unfold alloc. destruct (free t) as [|i rest] eqn:Ef.
  - eexists _, _. split; [done|]. unfold as_u32. unfold room in Hroom.
    rewrite Z.mod_small, Nat2Z.id by lia. split_and!; try done.
    + split; simpl.
      * apply stored_cons. simpl. rewrite lookup_app_r, Nat.sub_diag by lia. split; [done|].
        eapply Forall_impl; [done|]. intros p Hl. by apply lookup_app_l_Some.
      * rewrite length_app, seq_app. simpl in *. rewrite Hp. apply Permutation_cons_append.
    + simpl. rewrite length_app. simpl. lia.
  - assert (i ∈ seq 0 (length (nodes t))) as Hin by (rewrite <- Hp; apply elem_of_cons; by left).
    apply elem_of_seq in Hin. destruct (lookup_lt_is_Some_2 (nodes t) i) as [n0 Hi]; [lia|].
    rewrite Hi. eexists _, _. split; [done|]. split_and!; try done.
    + split; simpl.
      * apply stored_cons. simpl. split; [apply list_lookup_insert_eq; lia|].
        apply stored_insert_ne; [|done].
        pose proof (NoDup_seq 0 (length (nodes t))) as Hn. rewrite <- Hp in Hn.
        apply NoDup_app in Hn as (_ & Hn & _). apply Hn, elem_of_cons. by left.
      * rewrite length_insert, <- Hp. simpl. by rewrite Permutation_middle.
    + simpl. rewrite length_insert. lia.
Qed.

(** ** Walking and hashing *)

Lemma tnodes_pos s : (1 <= length (tnodes s))%nat.
Proof. destruct s; simpl; lia. Qed.

Lemma descend_ok ns key s fs i k d fuel :
  stored ns (tnodes s) -> shape s -> split_at key s = (fs, IL i k d) ->
  (length (tnodes s) <= fuel)%nat ->
  descend_loop fuel ns key (idx s) = Some (map f_idx fs, i).
Proof.
  revert fs fuel. induction s as [j k' d'|j b l IHl r IHr d' y];
    intros fs fuel Hst Hsh E Hf; (destruct fuel as [|fuel]; [simpl in Hf; lia|]);
    cbn [split_at tnodes idx descend_loop] in *.
  - injection E as <- <- <- <-. apply stored_cons in Hst as [Hi _]. simpl in Hi. by rewrite Hi.
  - apply stored_cons in Hst as [Hi Hst]. simpl in Hi. rewrite Hi. simpl.
    apply stored_app in Hst as [Hstl Hstr]. destruct Hsh as (Hl & Hr & [Hb _]).
    rewrite (key_bit_kbit _ _ Hb). simpl. cbn [length] in Hf. rewrite length_app in Hf.
    destruct (kbit key b).
    + destruct (split_at key r) as [fs' lf] eqn:Er. injection E as <- ->.
      rewrite (IHr fs') by (done || lia). done.
    + destruct (split_at key l) as [fs' lf] eqn:El. injection E as <- ->.
      rewrite (IHl fs') by (done || lia). done.
Qed.

Lemma settle_idx s : idx (settle s) = idx s.
Proof. by destruct s as [|? ? ? ? ? []]. Qed.

Lemma settle_idxs s : idxs (settle s) = idxs s.
Proof.
  induction s as [|i b l IHl r IHr d []]; [done| |done]. unfold idxs in *. cbn [settle tnodes].
  by rewrite !fmap_cons, !fmap_app, IHl, IHr.
Qed.

Lemma settle_entries s : tentries (settle s) = tentries s.
Proof. induction s as [|i b l IHl r IHr d []]; [done| |done]. cbn [settle tentries]. by rewrite IHl, IHr. Qed.

Lemma settle_keys s : tkeys (settle s) = tkeys s.
Proof. unfold tkeys. by rewrite settle_entries. Qed.

Lemma settle_rdigest s : rdigest (settle s) = rdigest s.
Proof. induction s as [|i b l IHl r IHr d []]; [done| |done]. cbn [settle rdigest]. by rewrite IHl, IHr. Qed.

Lemma settle_clean s : clean (settle s) = true.
Proof. by destruct s as [|i b l r d []]. Qed.

Lemma settle_shape s : shape s -> shape (settle s).
Proof.
  induction s as [|i b l IHl r IHr d []]; [done| |done]. cbn [settle shape].
  rewrite !settle_keys. tauto.
Qed.

Lemma settle_dok s : dok s -> dok (settle s).
Proof.
  induction s as [|i b l IHl r IHr d []]; [done| |done]. cbn [settle dok].
  intros (Hl & Hr & _). rewrite !settle_clean, !settle_rdigest. auto 6.
Qed.

Lemma dok_clean s : dok s -> clean s = true -> sdigest s = rdigest s.
Proof. destruct s as [|i b l r d []]; [done..|]. simpl. tauto. Qed.

Lemma idxs_IB i b l r d y : idxs (IB i b l r d y) = i :: idxs l ++ idxs r.
Proof. unfold idxs. cbn [tnodes]. by rewrite fmap_cons, fmap_app. Qed.

(** [hash] returns the recomputed digest and settles the subtree, and nothing else. *)
Lemma hash_ok s fuel ns :
  (length (tnodes s) <= fuel)%nat -> stored ns (tnodes s) -> NoDup (idxs s) -> dok s ->
  exists ns', hash_node fuel ns (idx s) = Some (rdigest s, ns')
    /\ stored ns' (tnodes (settle s)) /\ length ns' = length ns
    /\ (forall i, i ∉ idxs s -> ns' !! i = ns !! i).
Proof.
  revert fuel ns. induction s as [i k d|i b l IHl r IHr d y]; intros fuel ns Hf Hst Hnd Hd;
    (destruct fuel as [|fuel]; [simpl in Hf; lia|]); cbn [hash_node idx tnodes] in *;
    apply stored_cons in Hst as [Hi Hst]; simpl in Hi; rewrite Hi; cbn [mbind option_bind].
  - exists ns. split_and!; try done. by apply stored_cons.
  - destruct y.
    2: { exists ns. split_and!; try done; [by destruct Hd as (_&_&Hd); destruct Hd as (_&_&->)|].
         by apply stored_cons. }
    rewrite idxs_IB, NoDup_cons, NoDup_app in Hnd. destruct Hnd as (Hni & Hndl & Hdis & Hndr).
    apply stored_app in Hst as [Hstl Hstr]. cbn [length] in Hf. rewrite length_app in Hf.
    destruct Hd as (Hdl & Hdr & _). rewrite elem_of_app in Hni.
    destruct (IHl fuel ns) as (ns1 & -> & Hst1 & Hlen1 & Hfr1); try done; [lia|].
    destruct (IHr fuel ns1) as (ns2 & E2 & Hst2 & Hlen2 & Hfr2); try done; [lia| |].
    { eapply stored_ext, Hstr. intros j Hj. apply Hfr1. intros Hj'. by apply (Hdis j). }
    cbn [mbind option_bind]. rewrite E2. cbn [mbind option_bind].
    assert (ns2 !! i = Some (Branch b (idx l) (idx r) d true)) as Hi2
      by (rewrite Hfr2, Hfr1 by tauto; done).
    rewrite Hi2. eexists. split; [done|]. split_and!.
    + cbn [settle tnodes rdigest]. rewrite !settle_idx. apply stored_cons. simpl. split.
      { apply list_lookup_insert_eq. by apply lookup_lt_Some in Hi2. }
      assert (i ∉ (tnodes (settle l) ++ tnodes (settle r)).*1) as Hni'.
      { rewrite fmap_app. pose proof (settle_idxs l). pose proof (settle_idxs r).
        unfold idxs in *. rewrite elem_of_app. congruence. }
      apply stored_insert_ne; [done|]. apply stored_app. split; [|done].
      eapply stored_ext, Hst1. intros j Hj. apply Hfr2. intros Hj'.
      apply (Hdis j); [|done]. by rewrite <- settle_idxs.
    + rewrite length_insert. congruence.
    + intros j. rewrite idxs_IB, elem_of_cons, elem_of_app. intros Hj.
      rewrite list_lookup_insert_ne by (intros ->; tauto). rewrite Hfr2, Hfr1 by tauto. done.
Qed.

(** ** Changes along a path *)

Lemma ctx_nodes_cons f fs h rest :
  ctx_nodes (f :: fs) h ++ rest
  ≡ₚ (f_idx f, f_node f (ctx_idx fs h)) :: ctx_nodes fs h ++ tnodes (f_sib f) ++ rest.
Proof.
  cbn [ctx_nodes app]. apply perm_skip.
  by rewrite (Permutation_app_comm (tnodes (f_sib f))), <- app_assoc.
Qed.

Lemma f_node_branch f h : exists l r d y, f_node f h = Branch (f_bit f) l r d y.
Proof. destruct f; simpl; eauto. Qed.

Lemma mark_ok t fs h rest :
  arena t (ctx_nodes fs h ++ rest) ->
  exists t', mark t (map f_idx fs) = Some t' /\ arena t' (ctx_nodes (map f_mark fs) h ++ rest)
    /\ root t' = root t /\ len t' = len t /\ length (nodes t') = length (nodes t).
Proof.
  unfold mark. revert t rest. induction fs as [|f fs IH]; intros t rest Ha; cbn [map fold_m].
  { by exists t; destruct t. }
  rewrite ctx_nodes_cons in Ha.
  assert (nodes t !! f_idx f = Some (f_node f (ctx_idx fs h))) as Hl.
  { eapply arena_lookup; [done|]. apply elem_of_cons. by left. }
  unfold mark_node at 2. rewrite Hl. cbn [mbind option_bind].
  apply arena_update with (n' := f_node (f_mark f) (ctx_idx fs h)) (r := root t) (s := len t) in Ha.
  assert ((f_idx f, f_node (f_mark f) (ctx_idx fs h)) :: ctx_nodes fs h ++ tnodes (f_sib f) ++ rest
    ≡ₚ ctx_nodes fs h ++ ((f_idx f, f_node (f_mark f) (ctx_idx fs h)) :: tnodes (f_sib f) ++ rest))
    as Hp by apply Permutation_middle.
  rewrite Hp in Ha. apply IH in Ha as (t' & E & Ha & Hr & Hlen & Hns). clear Hp.
  exists t'. split_and!; try done.
  - destruct f; exact E.
  - rewrite ctx_nodes_cons, ctx_idx_mark.
    destruct f; simpl in *; by rewrite Permutation_middle.
  - rewrite Hns. simpl. by rewrite length_insert.
Qed.

(** Hanging [h'] where the context had [h]: the root changes, or a child of the last frame. *)
Definition attach (t : Trie) (path : list nat) (h h' : nat) : option Trie :=
  match last path with
  | None => Some (set_root t (Some h'))
  | Some p => replace_child t p h h'
  end.

Lemma ctx_nodes_snoc fs f h rest :
  ctx_nodes (fs ++ [f]) h ++ rest
  ≡ₚ (f_idx f, f_node f h) :: ctx_nodes fs (f_idx f) ++ tnodes (f_sib f) ++ rest.
Proof.
  rewrite ctx_nodes_app. cbn [ctx_nodes ctx_idx]. rewrite app_nil_r, <- app_assoc. simpl.
  by rewrite <- Permutation_middle.
Qed.

Lemma attach_ok t fs h h' rest :
  arena t (ctx_nodes fs h ++ rest) -> root t = Some (ctx_idx fs h) ->
  Forall (fun f => h <> idx (f_sib f)) fs ->
  exists t', attach t (map f_idx fs) h h' = Some t' /\ arena t' (ctx_nodes fs h' ++ rest)
    /\ root t' = Some (ctx_idx fs h') /\ len t' = len t /\ length (nodes t') = length (nodes t).
Proof.
  intros Ha Hroot Hne. unfold attach. induction fs as [|f fs _] using rev_ind.
  { simpl. eexists. split_and!; try done. }
  rewrite map_app. cbn [map]. rewrite last_snoc. apply Forall_app in Hne as [_ Hne].
  apply Forall_cons in Hne as [Hne _].
  rewrite ctx_nodes_snoc in Ha. unfold replace_child.
  rewrite (arena_lookup _ _ (f_idx f) (f_node f h) Ha) by (apply elem_of_cons; by left).
  cbn [mbind option_bind].
  apply arena_update with (n' := f_node f h') (r := root t) (s := len t) in Ha.
  exists (mkTrie (<[f_idx f := f_node f h']> (nodes t)) (free t) (root t) (len t)).
  split; [|split; [|split; [|split]]].
  - destruct f; simpl in *; [by rewrite Nat.eqb_refl|].
    rewrite (proj2 (Nat.eqb_neq _ _)), Nat.eqb_refl by congruence. done.
  - rewrite ctx_nodes_snoc. exact Ha.
  - rewrite ctx_idx_app in *. exact Hroot.
  - done.
  - simpl. by rewrite length_insert.
Qed.

(** [keep_loop] cuts the path where the decision bits reach [j]. *)
Lemma keep_loop_ok ns (j : u16) fs fs' :
  Forall (fun f => exists l r d y, ns !! f_idx f = Some (Branch (f_bit f) l r d y)) fs ->
  exists fs1 fs2, fs = fs1 ++ fs2
    /\ keep_loop ns (map f_idx (fs ++ fs')) j (length fs) = Some (length fs1)
    /\ (forall f, last fs1 = Some f -> uval (f_bit f) < j)
    /\ Forall (fun f => j <= uval (f_bit f)) fs2.
Proof.
  revert fs'. induction fs as [|f fs IH] using rev_ind; intros fs' Hs.
  { exists [], []. by split_and!. }
  apply Forall_app in Hs as [Hs (l & r & d & y & Hf)%Forall_singleton].
  rewrite length_app, Nat.add_comm. cbn [length Nat.add keep_loop].
  assert (map f_idx ((fs ++ [f]) ++ fs') !! length fs = Some (f_idx f)) as El.
  { rewrite <- app_assoc, map_app, lookup_app_r by (rewrite length_map; lia).
    by rewrite length_map, Nat.sub_diag. }
  rewrite El. cbn [mbind option_bind]. rewrite Hf. cbn [mbind option_bind].
  destruct (Z.ltb_spec (f_bit f) j) as [Hlt|Hge].
  - exists (fs ++ [f]), []. rewrite app_nil_r, length_app, Nat.add_comm. split_and!; try done.
    intros g. rewrite last_snoc. by intros [= <-].
  - rewrite <- app_assoc. destruct (IH ([f] ++ fs') Hs) as (fs1 & fs2 & -> & E & Hl & Hr).
    exists fs1, (fs2 ++ [f]). rewrite <- !app_assoc in *. split_and!; try done.
    apply Forall_app; split; [done|]. by apply Forall_singleton.
Qed.

End Refine.
