(* ===== verification/TrieProofs.v ===== *)
(** * The trie as a finite map with a commitment

    [trie_rep t m] and what every operation of the trie does to the map, and that its root is the
    reference commitment of the map whatever the history. *)

From S2P Require Import Prelude.
From S2P Require Import Crypto.
From S2P Require Import Trie.
From S2P Require Import KeyBits.
From S2P Require Import TrieTree.
From S2P Require Import TrieRefine.

Local Open Scope Z_scope.

#[local] Arguments hash_node : simpl never.
#[local] Arguments descend_loop : simpl never.

Section Rep.
  Context `{Nebu, Hemera}.

Definition ocells (ot : option itree) : list (nat * Node) := from_option tnodes [] ot.
Definition otmap (ot : option itree) : gmap key32 Digest := from_option tmap ∅ ot.

(** The arena holds the tree [ot], canonical, with right digests where clean. *)
Record trie_tree (t : Trie) (ot : option itree) : Prop := {
  tt_root : root t = idx <$> ot;
  tt_arena : arena t (ocells ot);
  tt_shape : from_option shape True ot;
  tt_dok : from_option dok True ot;
  tt_len : len t = from_option (fun s => length (tentries s)) 0%nat ot;
}.

Definition trie_rep (t : Trie) (m : gmap key32 Digest) : Prop :=
  exists ot, trie_tree t ot /\ otmap ot = m.

Lemma trie_rep_new : trie_rep trie_new ∅.
Proof. exists None. split; [|done]. split; try done. split; [constructor | done]. Qed.

Lemma size_tmap s : shape s -> size (tmap s) = length (tentries s).
Proof.
  intros Hs. unfold tmap. rewrite <- length_map_to_list, map_to_list_to_map; [done|].
  by apply NoDup_tkeys.
Qed.

(** [len] is the number of keys. *)
Lemma trie_rep_len t m : trie_rep t m -> len t = size m.
Proof.
  intros ([s|] & [Hr Ha Hs Hd Hl] & <-); simpl in *; rewrite Hl; [by rewrite size_tmap|].
  by rewrite map_size_empty.
Qed.

(** No memory leaks: live cells are the leaves and the branches between them. *)
Lemma length_tnodes s : S (length (tnodes s)) = (2 * length (tentries s))%nat.
Proof. induction s as [|i b l IHl r IHr d y]; [done|]. simpl. rewrite !length_app. lia. Qed.

Lemma trie_rep_nodes t m :
  trie_rep t m -> (length (nodes t) = length (free t) + (2 * size m - 1))%nat.
Proof.
  intros ([s|] & [Hr [_ Ha] Hs Hd Hl] & <-); simpl in *;
    apply Permutation_length in Ha; rewrite length_app, length_seq in Ha; rewrite <- Ha.
  - rewrite length_fmap, size_tmap by done. pose proof (length_tnodes s). lia.
  - by rewrite map_size_empty.
Qed.

Lemma trie_fuel_enough t s : arena t (tnodes s) -> (length (tnodes s) <= trie_fuel t)%nat.
Proof. intros Ha%arena_length. unfold trie_fuel. lia. Qed.

Lemma tt_descend t s key fs i k d :
  trie_tree t (Some s) -> split_at key s = (fs, IL i k d) ->
  descend t key = Some (map f_idx fs, i) /\ nodes t !! i = Some (Leaf k d).
Proof.
  intros [Hr Ha Hs Hd Hl] E. unfold descend. rewrite Hr. simpl.
  split.
  - eapply descend_ok; [apply Ha|done..|]. by apply trie_fuel_enough.
  - eapply arena_lookup; [exact Ha|]. simpl. pose proof (split_at_plug key s) as Hp.
    rewrite E in Hp. rewrite <- Hp, tnodes_plug, elem_of_app. right. by apply list_elem_of_singleton.
Qed.

(** ** get *)

(** [get] is the map lookup. *)
Lemma trie_get_ok t m key : trie_rep t m -> trie_get t key = Some (m !! key).
Proof.
  intros ([s|] & Ht & <-); pose proof Ht as [Hr Ha Hs Hd Hl]; unfold trie_get; rewrite Hr; simpl.
  - destruct (split_at_leaf key s) as (i & k & d & E).
    destruct (split_at key s) as [fs lf] eqn:Es. simpl in E. subst lf.
    destruct (tt_descend _ _ _ _ _ _ _ Ht Es) as [-> Hn]. simpl. rewrite Hn. simpl.
    rewrite (split_at_lookup _ _ _ _ _ _ Hs Es). by case_bool_decide; case_decide.
  - by rewrite lookup_empty.
Qed.

(** ** root *)

Lemma tt_clean_not_dirty t ot :
  trie_tree t ot -> is_dirty t = Some (negb (from_option clean true ot)).
Proof.
  intros [Hr Ha Hs Hd Hl]. unfold is_dirty. rewrite Hr. destruct ot as [s|]; [|done]. simpl.
  destruct s as [i k d|i b l r d y]; cbn [idx].
  - by rewrite (arena_lookup _ _ i (Leaf k d) Ha (list_elem_of_here _ _)).
  - rewrite (arena_lookup _ _ i (Branch b (idx l) (idx r) d y) Ha (list_elem_of_here _ _)).
    by destruct y.
Qed.

Lemma arena_settle t s ns' :
  arena t (tnodes s) -> stored ns' (tnodes (settle s)) -> length ns' = length (nodes t) ->
  arena (mkTrie ns' (free t) (root t) (len t)) (tnodes (settle s)).
Proof.
  intros [_ Hp] Hst Hlen. split; [done|]. simpl. rewrite Hlen, <- Hp.
  pose proof (settle_idxs s) as E. unfold idxs in E. by rewrite E.
Qed.

Lemma tt_root_ok t ot :
  trie_tree t ot ->
  exists t', trie_root t = Some (commitment (otmap ot), t') /\ trie_tree t' (settle <$> ot)
    /\ length (nodes t') = length (nodes t).
Proof.
  intros [Hr Ha Hs Hd Hl]. unfold trie_root. rewrite Hr.
  destruct ot as [s|]; simpl in *; [|by exists t; split_and!].
  destruct (hash_ok s (trie_fuel t) (nodes t)) as (ns' & -> & Hst & Hlen & Hfr); try done.
  { by apply trie_fuel_enough. } { apply Ha. } { by apply arena_NoDup_cells in Ha. }
  simpl. eexists. split_and!; [by rewrite commitment_rdigest| |done].
  split; simpl.
  - by rewrite settle_idx.
  - rewrite <- Hr. by apply arena_settle.
  - by apply settle_shape.
  - by apply settle_dok.
  - by rewrite settle_entries.
Qed.

Lemma otmap_settle ot : otmap (settle <$> ot) = otmap ot.
Proof. destruct ot as [s|]; [|done]. simpl. unfold tmap. by rewrite settle_entries. Qed.

(** [root] is the commitment of the map: a function of its entries alone. *)
Lemma trie_root_ok t m :
  trie_rep t m ->
  exists t', trie_root t = Some (commitment m, t') /\ trie_rep t' m
    /\ length (nodes t') = length (nodes t) /\ is_dirty t' = Some false.
Proof.
  intros (ot & Ht & <-). destruct (tt_root_ok t ot Ht) as (t' & -> & Ht' & Hlen).
  exists t'. split_and!; try done.
  - exists (settle <$> ot). split; [done|]. apply otmap_settle.
  - rewrite (tt_clean_not_dirty _ _ Ht'). destruct ot; simpl; [by rewrite settle_clean | done].
Qed.

(** ** set and remove on trees *)

Lemma dok_plug fs s s' : dok (plug fs s) -> dok s' -> dok (plug (map f_mark fs) s').
Proof.
  induction fs as [|[] fs IH]; [done|..]; simpl; intros (?&?&?) ?; split_and!; auto; done.
Qed.

Lemma dok_sib fs f s : dok (plug (fs ++ [f]) s) -> dok (f_sib f).
Proof. rewrite plug_app. induction fs as [|[] fs IH]; simpl; [destruct f; simpl|..]; tauto. Qed.

Lemma dok_hole fs s : dok (plug fs s) -> dok s.
Proof. induction fs as [|[] fs IH]; simpl; tauto. Qed.

Lemma tkeys_plug_mark fs s s' :
  tkeys s ≡ₚ tkeys s' -> shape (plug fs s) -> shape s' -> shape (plug (map f_mark fs) s').
Proof.
  intros Hk [Hf Hs]%shape_plug Hs'. apply shape_plug. split; [|done]. apply fits_mark.
  eapply fits_mono, Hf. intros k. by rewrite Hk.
Qed.

Lemma tentries_plug_mark fs s : tentries (plug (map f_mark fs) s) ≡ₚ ctx_entries fs ++ tentries s.
Proof. by rewrite tentries_plug, ctx_entries_mark. Qed.

Lemma plug_update fs i k d d' :
  let s := plug fs (IL i k d) in let s' := plug (map f_mark fs) (IL i k d') in
  shape s -> shape s' /\ tmap s' = <[k := d']> (tmap s)
    /\ length (tentries s') = length (tentries s).
Proof.
  intros s s' Hs. assert (shape s') as Hs' by (by apply (tkeys_plug_mark fs (IL i k d))).
  assert (tentries s ≡ₚ (k, d) :: ctx_entries fs) as E
    by (unfold s; rewrite tentries_plug; apply Permutation_app_comm).
  assert (tentries s' ≡ₚ (k, d') :: ctx_entries fs) as E'
    by (unfold s'; rewrite tentries_plug_mark; apply Permutation_app_comm).
  split_and!; [done| |by rewrite E, E'].
  rewrite (tmap_perm _ _ Hs E), (tmap_perm _ _ Hs' E'). cbn [list_to_map foldr fst snd].
  by rewrite insert_insert_eq.
Qed.

Lemma plug_remove fs f i k d :
  let s := plug (fs ++ [f]) (IL i k d) in let s' := plug (map f_mark fs) (f_sib f) in
  shape s -> shape s' /\ tmap s' = delete k (tmap s)
    /\ length (tentries s) = S (length (tentries s')).
Proof.
  intros s s' Hs. assert (shape s') as Hs'.
  { unfold s in Hs. rewrite plug_app in Hs. pose proof (proj1 (shape_plug _ _) Hs) as [Hf Hh].
    apply shape_plug. split.
    - apply fits_mark. eapply fits_mono, Hf. intros k'.
      destruct f; cbn [plug foldr f_plug f_sib]; rewrite tkeys_IB, elem_of_app; auto.
    - destruct f; cbn [plug foldr f_plug f_sib shape] in *; tauto. }
  assert (tentries s ≡ₚ (k, d) :: tentries s') as E.
  { unfold s, s'. rewrite tentries_plug, tentries_plug_mark, ctx_entries_app.
    simpl. by rewrite app_nil_r, <- Permutation_cons_append. }
  split_and!; [done| |by rewrite E].
  pose proof (NoDup_tkeys _ Hs) as Hn. unfold tkeys in Hn. rewrite E, fmap_cons, NoDup_cons in Hn.
  rewrite (tmap_perm _ _ Hs E). cbn [list_to_map foldr fst snd].
  rewrite delete_insert_id; [done|]. apply (tmap_lookup_None s'), Hn.
Qed.

(** The two children of a new branch, the new leaf on the side of its key. *)
Definition join (side : bool) (u v : itree) (i : nat) (j : u16) : itree :=
  if side then IB i j u v EMPTY true else IB i j v u EMPTY true.

Lemma tentries_join side u v i j : tentries (join side u v i j) ≡ₚ tentries v ++ tentries u.
Proof. destruct side; [apply Permutation_app_comm | done]. Qed.

Lemma plug_insert fs u key d k0 i nl (j : u16) :
  let s := plug fs u in
  let s' := plug (map f_mark fs) (join (kbit key j) u (IL nl key d) i j) in
  shape s -> k0 ∈ tkeys u -> follows key fs -> Forall (fun f => uval (f_bit f) < j) fs ->
  uval j < 256 -> kbit key j <> kbit k0 j -> agree j key k0 ->
  (forall k, k ∈ tkeys u -> kbit k j = kbit k0 j) ->
  (forall k k', k ∈ tkeys u -> k' ∈ tkeys u -> agree j k k') ->
  shape s' /\ tmap s' = <[key := d]> (tmap s) /\ length (tentries s') = S (length (tentries s)).
Proof.
  intros s s' Hs Hk0 Hfo Hlt Hj Hd Hag Hside Hu.
  assert (tentries s' ≡ₚ (key, d) :: tentries s) as E.
  { unfold s, s'. rewrite tentries_plug_mark, tentries_join, tentries_plug. simpl.
    by rewrite <- Permutation_middle. }
  assert (shape s') as Hs'.
  { apply shape_plug in Hs as [Hf Hsu]. apply shape_plug. split.
    - apply fits_mark. eapply fits_mono, (fits_add _ _ key k0), Hf; [|done|done|].
      + intros k. unfold tkeys. rewrite tentries_join. simpl. auto.
      + eapply Forall_impl; [exact Hlt|]. intros f Hb. eapply agree_le, Hag. simpl in *. lia.
    - assert (forall k k', k = key \/ k ∈ tkeys u -> k' = key \/ k' ∈ tkeys u -> agree j k k').
      { assert (forall k, k = key \/ k ∈ tkeys u -> agree j k k0) as Ha.
        { intros k [->|Hk]; [done|]. by apply Hu. }
        intros k k' Hk%Ha Hk'%Ha. by rewrite Hk, Hk'. }
      assert (tkeys (IL nl key d) = [key]) as Ek by done.
      unfold join. destruct (kbit key j) eqn:Eb; cbn [shape]; rewrite Ek; split_and!; try done;
        split_and!; try done; intros k; rewrite ?elem_of_app, ?list_elem_of_singleton;
        try (intros ->; done);
        try (intros Hk; rewrite Hside by done; by destruct (kbit k0 j));
        intros k'; rewrite ?elem_of_app, ?list_elem_of_singleton; intuition. }
  split_and!; [done| |by rewrite E].
  by rewrite (tmap_perm _ _ Hs' E).
Qed.

(** ** set *)

Lemma tt_intro t s :
  root t = Some (idx s) -> arena t (tnodes s) -> shape s -> dok s ->
  len t = length (tentries s) -> trie_rep t (tmap s).
Proof. intros. by exists (Some s). Qed.

Lemma ctx_nodes_branch t fs h rest f :
  arena t (ctx_nodes fs h ++ rest) -> f ∈ fs ->
  exists l r d y, nodes t !! f_idx f = Some (Branch (f_bit f) l r d y).
Proof.
  intros Ha (fs1 & fs2 & ->)%list_elem_of_split.
  assert (nodes t !! f_idx f = Some (f_node f (ctx_idx fs2 h))) as Hl.
  { eapply arena_lookup; [exact Ha|]. rewrite ctx_nodes_app, !elem_of_app. left. right.
    apply elem_of_cons. by left. }
  destruct (f_node_branch f (ctx_idx fs2 h)) as (l & r & d & y & E). rewrite Hl, E. eauto.
Qed.

(** An index that is in the hole differs from every sibling index. *)
Lemma hole_ne_siblings fs h rest i :
  NoDup (ctx_nodes fs h ++ rest).*1 -> i ∈ rest.*1 ->
  Forall (fun f => i <> idx (f_sib f)) fs.
Proof.
  rewrite fmap_app, NoDup_app. intros (_ & Hd & _) Hi. apply Forall_forall. intros f Hf ->.
  eapply Hd; [|exact Hi]. apply list_elem_of_split in Hf as (fs1 & fs2 & ->).
  rewrite ctx_nodes_app. cbn [ctx_nodes]. rewrite fmap_app, fmap_cons, fmap_app, elem_of_app, elem_of_cons, elem_of_app.
  right. right. left. apply idx_in_idxs.
Qed.

(** The frames of a found path split where the decision bits reach the first differing bit; the
    subtree below agrees with the leaf reached, beyond that bit. *)
Lemma split_hole fs2 i k d key (j : u16) :
  let u := plug fs2 (IL i k d) in
  shape u -> follows key fs2 -> Forall (fun f => j <= uval (f_bit f)) fs2 ->
  kbit key j <> kbit k j -> agree j key k ->
  (forall k', k' ∈ tkeys u -> kbit k' j = kbit k j)
  /\ (forall k' k'', k' ∈ tkeys u -> k'' ∈ tkeys u -> agree j k' k'').
Proof.
  intros u Hs Hfo Hge Hd Hag. destruct fs2 as [|f fs2].
  { subst u. cbn [plug foldr]. unfold tkeys. simpl. split.
    - intros k' ->%list_elem_of_singleton. done.
    - intros k' k'' ->%list_elem_of_singleton ->%list_elem_of_singleton. done. }
  inversion_clear Hfo as [|? ? Hside _]. inversion_clear Hge as [|? ? Hjf _].
  unfold u in Hs. apply shape_plug in Hs as [(_&Hok&_) _].
  assert (k ∈ (ctx_entries fs2).*1 ++ tkeys (IL i k d)) as Hk
    by (apply elem_of_app; right; by apply list_elem_of_singleton).
  pose proof (frame_ok_side _ _ _ Hok Hk) as Hks.
  assert (uval j < f_bit f) as Hlt.
  { destruct (Z.eq_dec j (f_bit f)) as [E|]; [|lia]. rewrite E in Hd. congruence. }
  assert (forall k', k' ∈ tkeys u -> agree (f_bit f) k k') as Ha.
  { intros k' Hk'. apply (frame_ok_agree _ _ _ _ Hok Hk). unfold u in Hk'.
    rewrite tkeys_plug in Hk'. simpl in Hk'. rewrite fmap_app, !elem_of_app in *. tauto. }
  split.
  - intros k' Hk'. symmetry. apply (Ha k' Hk'). u_lia.
  - intros k' k'' Hk' Hk''. apply agree_le with (f_bit f); [lia|].
    by rewrite <- (Ha k'), <- (Ha k'').
Qed.

(** Updating a present key. *)
Lemma set_update t s key fs i d d' :
  trie_tree t (Some s) -> split_at key s = (fs, IL i key d) ->
  exists t', mark (mkTrie (<[i := Leaf key d']> (nodes t)) (free t) (root t) (len t)) (map f_idx fs)
      = Some t'
    /\ trie_rep t' (<[key := d']> (tmap s)) /\ length (nodes t') = length (nodes t).
Proof.
  intros [Hr Ha Hs Hd Hl] E. pose proof (split_at_plug key s) as Hp. rewrite E in Hp.
  simpl in *. rewrite <- Hp in *. clear E Hp.
  rewrite tnodes_plug, Permutation_app_comm in Ha. simpl in Ha.
  apply arena_update with (n' := Leaf key d') (r := root t) (s := len t) in Ha.
  rewrite Permutation_cons_append in Ha.
  apply mark_ok in Ha as (t' & -> & Ha & Hroot & Hlen & Hns).
  destruct (plug_update fs i key d d' Hs) as (Hs' & Hm & Hlen').
  exists t'. split_and!; [done| |by rewrite Hns; simpl; rewrite length_insert].
  rewrite <- Hm. apply tt_intro; try done.
  - rewrite Hroot, idx_plug, ctx_idx_mark. simpl. by rewrite Hr, idx_plug.
  - by rewrite tnodes_plug.
  - by eapply dok_plug.
  - by rewrite Hlen, Hlen'.
Qed.

Definition trie_split (t : Trie) (key : key32) (digest : Digest) (path : list nat) (leaf : nat)
    (leaf_key : key32) : option (bool * Trie) :=
  j ← first_diff_bit key leaf_key;
  keep ← keep_loop (nodes t) path j (length path);
  split ← (if (keep =? length path)%nat then Some leaf else path !! keep);
  '(new_leaf, t) ← alloc t (Leaf key digest);
  side ← key_bit key j;
  let '(lhs, rhs) := if side : bool then (split, new_leaf) else (new_leaf, split) in
  '(branch, t) ← alloc t (Branch j lhs rhs EMPTY true);
  t ← match keep with
      | O => Some (set_root t (Some branch))
      | S k => parent ← path !! k; replace_child t parent split branch
      end;
  t ← mark t (take keep path);
  Some (true, set_len t (S (len t))).

Lemma attach_keep t fs1 fs2 h h' :
  match length fs1 with
  | O => Some (set_root t (Some h'))
  | S k => parent ← map f_idx (fs1 ++ fs2) !! k; replace_child t parent h h'
  end = attach t (map f_idx fs1) h h'.
Proof.
  unfold attach. rewrite last_lookup, length_map, map_app.
  destruct fs1 as [|f fs1]; [done|]. cbn [length pred].
  rewrite lookup_app_l by (rewrite length_map; simpl; lia).
  destruct (lookup_lt_is_Some_2 (map f_idx (f :: fs1)) (length fs1)) as [p ->];
    [rewrite length_map; simpl; lia | done].
Qed.

Lemma join_idx side u v i j : idx (join side u v i j) = i.
Proof. by destruct side. Qed.

Lemma join_cells side u v i j :
  tnodes (join side u v i j)
  ≡ₚ (i, if side then Branch j (idx u) (idx v) EMPTY true else Branch j (idx v) (idx u) EMPTY true)
      :: tnodes v ++ tnodes u.
Proof. destruct side; simpl; [by rewrite (Permutation_app_comm (tnodes u)) | done]. Qed.

Lemma join_dok side u v i j : dok u -> dok v -> dok (join side u v i j).
Proof. intros Hu Hv. destruct side; simpl; (split; [done|split; [done|discriminate]]). Qed.

(** When the last decision bit is below [j], all are. *)
Lemma bits_below fs ks (j : u16) :
  (exists k, k ∈ ks) -> fits fs ks -> (forall f, last fs = Some f -> uval (f_bit f) < j) ->
  Forall (fun f => uval (f_bit f) < j) fs.
Proof.
  intros Hk Hf Hlast. induction fs as [|f fs _] using rev_ind; [constructor|].
  specialize (Hlast f (last_snoc _ _)). apply Forall_forall. intros g Hg.
  apply elem_of_app in Hg as [(fs1 & fs2 & ->)%list_elem_of_split | ->%list_elem_of_singleton];
    [|done].
  rewrite <- app_assoc in Hf. apply fits_app in Hf as [_ Hf]. cbn [app] in Hf.
  apply fits_increasing in Hf; [|done]. apply Forall_app in Hf as [_ Hf].
  inversion_clear Hf. simpl in *. lia.
Qed.

Lemma split_idx fs1 fs2 i k d :
  (if (length fs1 =? length (fs1 ++ fs2))%nat then Some i
   else map f_idx (fs1 ++ fs2) !! length fs1) = Some (idx (plug fs2 (IL i k d))).
Proof.
  rewrite length_app, idx_plug. destruct fs2 as [|f fs2]; simpl.
  - by rewrite Nat.add_0_r, Nat.eqb_refl.
  - rewrite (proj2 (Nat.eqb_neq _ _)) by lia.
    rewrite map_app, lookup_app_r, length_map, Nat.sub_diag by (rewrite length_map; lia). done.
Qed.

(** Splitting a path: the new branch sits above the subtree that first leaves [key]'s path. *)
Lemma set_split t s key fs i k d digest :
  trie_tree t (Some s) -> split_at key s = (fs, IL i k d) -> k <> key -> room t 2 ->
  exists t', trie_split t key digest (map f_idx fs) i k = Some (true, t')
    /\ trie_rep t' (<[key := digest]> (tmap s))
    /\ (length (nodes t') <= 2 + length (nodes t))%nat.
Proof.
  intros [Hr Ha Hs Hd Hl] E Hne Hroom. pose proof (split_at_plug key s) as Hp.
  pose proof (split_at_follows key s) as Hfo. rewrite E in Hp, Hfo. simpl in *.
  destruct (first_diff_bit_spec key k) as (j & Hj & Hj256 & Hjd & Hja); [congruence|].
  rewrite <- Hp in Hr, Ha, Hs, Hd, Hl |- *. clear s E Hp.
  destruct (keep_loop_ok (nodes t) j fs []) as (fs1 & fs2 & -> & Hk & Hlast & Hge).
  { apply Forall_forall. intros f Hf. rewrite tnodes_plug in Ha. eapply ctx_nodes_branch; [exact Ha|done]. }
  rewrite app_nil_r in Hk. rewrite plug_app in *. set (u := plug fs2 (IL i k d)) in *.
  apply Forall_app in Hfo as [Hfo1 Hfo2].
  pose proof (proj1 (shape_plug _ _) Hs) as [Hfits Hsu].
  assert (Forall (fun f => uval (f_bit f) < j) fs1) as Hlt.
  { eapply bits_below; [|exact Hfits|exact Hlast]. apply tkeys_nonempty. }
  destruct (split_hole fs2 i k d key j Hsu Hfo2 Hge Hjd Hja) as [Hside Hu].
  assert (k ∈ tkeys u) as Hku.
  { unfold u. rewrite tkeys_plug, elem_of_app. right. by apply list_elem_of_singleton. }
  unfold trie_split. rewrite Hj. cbn [mbind option_bind]. rewrite length_map, Hk. cbn [mbind option_bind].
  rewrite (split_idx fs1 fs2 i k d). fold u. cbn [mbind option_bind].
  destruct (alloc_ok t (Leaf key digest) _ Ha) as (nl & t1 & -> & Ha1 & Hr1 & Hl1 & Hn1);
    [unfold room in *; lia|].
  cbn [mbind option_bind]. rewrite key_bit_kbit by done. cbn [mbind option_bind].
  destruct (alloc_ok t1 (if kbit key j then Branch j (idx u) nl EMPTY true
      else Branch j nl (idx u) EMPTY true) _ Ha1) as (br & t2 & E2 & Ha2 & Hr2 & Hl2 & Hn2);
    [unfold room in *; lia|].
  set (w := join (kbit key j) u (IL nl key digest) br j).
  assert (arena t2 (ctx_nodes fs1 (idx u) ++ tnodes w)) as Ha2'.
  { unfold w. rewrite join_cells. cbn [tnodes idx app]. rewrite tnodes_plug in Ha2.
    rewrite <- !Permutation_middle. exact Ha2. }
  destruct (attach_ok t2 fs1 (idx u) br (tnodes w)) as (t3 & E3 & Ha3 & Hr3 & Hl3 & Hn3);
    [exact Ha2' | by rewrite Hr2, Hr1, Hr, idx_plug | |].
  { apply arena_NoDup_cells in Ha. rewrite tnodes_plug in Ha.
    eapply hole_ne_siblings; [exact Ha|]. apply idx_in_idxs. }
  destruct (mark_ok _ _ _ _ Ha3) as (t4 & E4 & Ha4 & Hr4 & Hl4 & Hn4).
  destruct (plug_insert fs1 u key digest k br nl j) as (Hs' & Hm & Hlen'); try done.
  exists (set_len t4 (S (len t4))). split_and!.
  - assert (take (length fs1) (map f_idx (fs1 ++ fs2)) = map f_idx fs1) as ->
      by (rewrite map_app; apply take_app_length'; by rewrite length_map).
    destruct (kbit key j); rewrite E2; cbn [mbind option_bind];
      rewrite attach_keep, E3; cbn [mbind option_bind]; by rewrite E4.
  - rewrite <- Hm. apply tt_intro; simpl; try done.
    + rewrite Hr4, Hr3, idx_plug, ctx_idx_mark, join_idx. done.
    + apply arena_len. rewrite tnodes_plug, join_idx. exact Ha4.
    + eapply dok_plug; [exact Hd|]. apply join_dok; [|done]. by eapply dok_hole.
    + rewrite Hlen'. congruence.
  - simpl. lia.
Qed.

Lemma set_first t key digest :
  trie_tree t None -> room t 1 ->
  exists t', trie_set t key digest = Some (true, t')
    /\ trie_rep t' {[key := digest]} /\ (length (nodes t') <= S (length (nodes t)))%nat.
Proof.
  intros [Hr Ha _ _ _] Hroom. unfold trie_set. rewrite Hr. simpl in *.
  destruct (alloc_ok t (Leaf key digest) _ Ha Hroom) as (i & t' & -> & Ha' & _ & _ & Hn).
  eexists. split_and!; [done| |done].
  change {[key := digest]} with (tmap (IL i key digest)). by apply tt_intro.
Qed.

(** [set] is the map insertion, and answers whether the key was new. *)
Lemma trie_set_ok t m key digest :
  trie_rep t m -> room t 2 ->
  exists t', trie_set t key digest = Some (bool_decide (m !! key = None), t')
    /\ trie_rep t' (<[key := digest]> m)
    /\ (length (nodes t') <= 2 + length (nodes t))%nat.
Proof.
  intros ([s|] & Ht & <-) Hroom; simpl.
  2: { destruct (set_first t key digest Ht) as (t' & -> & Hrep & Hn); [unfold room in *; lia|].
       exists t'. rewrite lookup_empty, bool_decide_true, insert_empty by done.
       split_and!; [done..|lia]. }
  pose proof Ht as [Hr _ Hs _ _]. simpl in Hr, Hs.
  destruct (split_at_leaf key s) as (i & k & d & El). destruct (split_at key s) as [fs lf] eqn:E.
  simpl in El. subst lf. pose proof (split_at_lookup _ _ _ _ _ _ Hs E) as Hlook.
  destruct (tt_descend _ _ _ _ _ _ _ Ht E) as [Hdesc Hn].
  unfold trie_set. rewrite Hr, Hdesc. cbn [mbind option_bind]. rewrite Hn. cbn [mbind option_bind].
  case_bool_decide as Hk.
  - subst k. rewrite decide_True in Hlook by done. rewrite Hlook, (bool_decide_false (Some d = None)) by done.
    rewrite <- Hr. case_bool_decide as Hd.
    + subst d. exists t. split_and!; [done| |lia]. rewrite insert_id by done. by exists (Some s).
    + destruct (set_update t s key fs i d digest Ht E) as (t' & -> & Hrep & Hlen).
      exists t'. split_and!; [done..|lia].
  - rewrite decide_False in Hlook by done. rewrite Hlook, bool_decide_true by done.
    by apply (set_split t s key fs i k d digest).
Qed.

(** ** remove *)

Lemma remove_sibling f i :
  i <> idx (f_sib f) ->
  match f_node f i with
  | Branch _ lhs rhs _ _ => (if (lhs =? i)%nat then rhs else lhs) = idx (f_sib f)
  | Leaf _ _ => False
  end.
Proof.
  destruct f; simpl; intros Hi; [by rewrite Nat.eqb_refl|].
  by rewrite (proj2 (Nat.eqb_neq _ _)).
Qed.

(** The path to a leaf, cut at its last branch. *)
Lemma remove_inner t fs f i k d :
  let s := plug (fs ++ [f]) (IL i k d) in
  trie_tree t (Some s) ->
  exists t', (t1 ← attach (release (set_len (release t i) (length (tentries s) - 1)) (f_idx f))
                  (map f_idx fs) (f_idx f) (idx (f_sib f));
              mark t1 (map f_idx fs)) = Some t'
    /\ trie_rep t' (delete k (tmap s)) /\ length (nodes t') = length (nodes t)
    /\ nodes t !! f_idx f = Some (f_node f i) /\ i <> idx (f_sib f).
Proof.
  intros s [Hr Ha Hs Hd Hl]. simpl in *.
  destruct (plug_remove fs f i k d Hs) as (Hs' & Hm & Hlen).
  unfold s in Hr, Ha. rewrite tnodes_plug, ctx_nodes_snoc in Ha. cbn [idx] in Ha.
  pose proof (arena_NoDup_cells _ _ Ha) as Hnd.
  pose proof (arena_lookup _ _ (f_idx f) (f_node f i) Ha (list_elem_of_here _ _)) as Hf.
  assert (i <> idx (f_sib f)) as Hi.
  { intros ->. rewrite fmap_cons, !fmap_app, NoDup_cons, !NoDup_app in Hnd.
    destruct Hnd as (_ & _ & _ & _ & Hx & _). eapply Hx; [apply idx_in_idxs|].
    simpl. by apply list_elem_of_singleton. }
  change (tnodes (IL i k d)) with [(i, Leaf k d)] in Ha.
  rewrite app_assoc, <- Permutation_cons_append, Permutation_swap in Ha.
  apply arena_release, arena_len with (n := (length (tentries s) - 1)%nat) in Ha.
  apply arena_release in Ha. 
  destruct (attach_ok _ fs (f_idx f) (idx (f_sib f)) _ Ha) as (t1 & E1 & Ha1 & Hr1 & Hl1 & Hn1).
  { simpl. rewrite Hr, idx_plug, ctx_idx_app. done. }
  { eapply (hole_ne_siblings fs (f_idx f)); [rewrite <- Permutation_middle; exact Hnd|].
    apply elem_of_cons. by left. }
  destruct (mark_ok _ _ _ _ Ha1) as (t2 & E2 & Ha2 & Hr2 & Hl2 & Hn2).
  exists t2. split_and!; [by rewrite E1|..]; try done.
  - unfold s. rewrite <- Hm. apply tt_intro; try done.
    + by rewrite Hr2, Hr1, idx_plug, ctx_idx_mark.
    + by rewrite tnodes_plug.
    + eapply dok_plug with (s := plug [f] (IL i k d)); [by rewrite <- plug_app|].
      unfold s in Hd. by eapply dok_sib.
    + rewrite Hl2, Hl1. fold s in Hlen. simpl in *. lia.
  - by rewrite Hn2, Hn1.
Qed.

Lemma tentries_pos s : exists n, length (tentries s) = S n.
Proof. pose proof (length_tnodes s). destruct (length (tentries s)); [lia | eauto]. Qed.

Lemma remove_last t key i d :
  trie_tree t (Some (IL i key d)) -> trie_rep (set_root (set_len (release t i) 0) None) ∅.
Proof.
  intros [_ Ha _ _ _]. exists None. split; [|done]. split; try done.
  by eapply arena_release in Ha.
Qed.

(** [remove] is the map deletion, and answers whether the key was present. *)
Lemma trie_remove_ok t m key :
  trie_rep t m ->
  exists t', trie_remove t key = Some (bool_decide (is_Some (m !! key)), t')
    /\ trie_rep t' (delete key m) /\ length (nodes t') = length (nodes t).
Proof.
  intros ([s|] & Ht & <-); pose proof Ht as [Hr _ Hs _ Hl]; unfold trie_remove; rewrite Hr; simpl.
  2: { exists t. rewrite lookup_empty, delete_empty. split_and!; [done| |done]. by exists None. }
  simpl in Hr, Hs, Hl.
  destruct (split_at_leaf key s) as (i & k & d & El). destruct (split_at key s) as [fs lf] eqn:E.
  simpl in El. subst lf. pose proof (split_at_lookup _ _ _ _ _ _ Hs E) as Hlook.
  destruct (tt_descend _ _ _ _ _ _ _ Ht E) as [-> Hn]. cbn [mbind option_bind].
  rewrite Hn. cbn [mbind option_bind]. rewrite Hlook. case_bool_decide as Hk.
  2: { rewrite decide_False by done. exists t. split_and!; [done| |done].
       rewrite delete_id by (by rewrite Hlook, decide_False). by exists (Some s). }
  subst k. rewrite decide_True by done. destruct (tentries_pos s) as [n Hpos].
  rewrite Hl, Hpos. cbn [mbind option_bind].
  pose proof (split_at_plug key s) as Hp. rewrite E in Hp. simpl in Hp.
  destruct fs as [|f fs _] using rev_ind.
  { simpl in Hp. subst s. simpl in Hpos. injection Hpos as <-. eexists.
    split_and!; [done| |done]. unfold tmap. simpl. rewrite delete_insert_eq, delete_empty.
    by eapply remove_last. }
  subst s. destruct (remove_inner t fs f i key d Ht) as (t' & E' & Hrep & Hlen & Hf & Hi).
  exists t'. split_and!; [|done..].
  rewrite map_app. cbn [map]. rewrite last_snoc. cbn [nodes release set_len]. rewrite Hf.
  cbn [mbind option_bind]. pose proof (remove_sibling f i Hi) as Hsib.
  destruct (f_node f i) as [|b lhs rhs d' y]; [done|]. rewrite Hsib.
  rewrite length_app, length_map, Nat.add_sub, take_app_length' by (by rewrite length_map).
  rewrite Hpos in E'. simpl Nat.sub in E'. rewrite Nat.sub_0_r in E'. unfold attach in E'.
  destruct (last (map f_idx fs)) as [g|]; cbn [mbind option_bind] in *.
  - apply bind_Some in E' as (t1 & -> & E'). simpl. by rewrite E'.
  - by rewrite E'.
Qed.

(** ** Histories *)

Inductive trie_op :=
| OpSet (k : key32) (d : Digest)
| OpRemove (k : key32)
| OpGet (k : key32)
| OpRoot.

Inductive trie_out := OutBool (b : bool) | OutGet (d : option Digest) | OutRoot (d : Digest).

(** One call on the arena. *)
Definition trie_step (t : Trie) (o : trie_op) : option (trie_out * Trie) :=
  match o with
  | OpSet k d => '(b, t) ← trie_set t k d; Some (OutBool b, t)
  | OpRemove k => '(b, t) ← trie_remove t k; Some (OutBool b, t)
  | OpGet k => d ← trie_get t k; Some (OutGet d, t)
  | OpRoot => '(d, t) ← trie_root t; Some (OutRoot d, t)
  end.

(** The same call on the abstract map. *)
Definition map_step (m : gmap key32 Digest) (o : trie_op) : trie_out * gmap key32 Digest :=
  match o with
  | OpSet k d => (OutBool (bool_decide (m !! k = None)), <[k := d]> m)
  | OpRemove k => (OutBool (bool_decide (is_Some (m !! k))), delete k m)
  | OpGet k => (OutGet (m !! k), m)
  | OpRoot => (OutRoot (commitment m), m)
  end.

Fixpoint trie_run (t : Trie) (ops : list trie_op) : option (list trie_out * Trie) :=
  match ops with
  | [] => Some ([], t)
  | o :: ops => '(r, t) ← trie_step t o; '(rs, t) ← trie_run t ops; Some (r :: rs, t)
  end.

Fixpoint map_run (m : gmap key32 Digest) (ops : list trie_op) : list trie_out * gmap key32 Digest :=
  match ops with
  | [] => ([], m)
  | o :: ops =>
      let '(r, m) := map_step m o in let '(rs, m) := map_run m ops in (r :: rs, m)
  end.

Lemma trie_step_ok t m o :
  trie_rep t m -> room t 2 ->
  exists t', trie_step t o = Some ((map_step m o).1, t') /\ trie_rep t' (map_step m o).2
    /\ (length (nodes t') <= 2 + length (nodes t))%nat.
Proof.
  intros Ht Hroom. destruct o as [k d|k|k|]; cbn [trie_step map_step fst snd].
  - destruct (trie_set_ok t m k d Ht Hroom) as (t' & -> & ?). by exists t'.
  - destruct (trie_remove_ok t m k Ht) as (t' & -> & ? & ?). exists t'. split_and!; [done..|lia].
  - rewrite (trie_get_ok t m k Ht). exists t. split_and!; [done..|lia].
  - destruct (trie_root_ok t m Ht) as (t' & -> & ? & ? & _). exists t'. split_and!; [done..|lia].
Qed.

Lemma trie_run_ok ops t m :
  trie_rep t m -> room t (2 * Z.of_nat (length ops)) ->
  exists t', trie_run t ops = Some ((map_run m ops).1, t') /\ trie_rep t' (map_run m ops).2.
Proof.
  revert t m. induction ops as [|o ops IH]; intros t m Ht Hroom; [by exists t|].
  cbn [trie_run map_run]. unfold room in Hroom. cbn [length] in Hroom.
  destruct (trie_step_ok t m o Ht) as (t1 & -> & Ht1 & Hn1); [unfold room; lia|].
  destruct (map_step m o) as [r m1]. cbn [mbind option_bind fst snd] in *.
  destruct (IH t1 m1 Ht1) as (t2 & -> & Ht2); [unfold room; lia|].
  destruct (map_run m1 ops) as [rs m2]. by exists t2.
Qed.

(** C7: the trie refines a finite map. Any history of fewer than 2^31 calls on a new trie runs
    without a panic, every call answers what the map operation answers, and the arena holds the
    map the history produces. *)
Theorem trie_refines_map ops :
  2 * Z.of_nat (length ops) <= 2 ^ 32 ->
  exists t, trie_run trie_new ops = Some ((map_run ∅ ops).1, t) /\ trie_rep t (map_run ∅ ops).2.
Proof. intros Hlen. apply trie_run_ok; [apply trie_rep_new | unfold room; simpl; lia]. Qed.

(** C33: history independence. Two histories that leave the same set of entries, in whatever
    order and with whatever deletions and flushes on the way, end in the same root. *)
Theorem history_independent ops ops' :
  2 * Z.of_nat (length ops) <= 2 ^ 32 -> 2 * Z.of_nat (length ops') <= 2 ^ 32 ->
  (map_run ∅ ops).2 = (map_run ∅ ops').2 ->
  exists t t' root u u', (exists rs, trie_run trie_new ops = Some (rs, t))
    /\ (exists rs, trie_run trie_new ops' = Some (rs, t'))
    /\ trie_root t = Some (root, u) /\ trie_root t' = Some (root, u').
Proof.
  intros Hlen Hlen' E.
  destruct (trie_run_ok ops trie_new ∅) as (t & Hrun & Ht);
    [apply trie_rep_new | unfold room; simpl; lia|].
  destruct (trie_run_ok ops' trie_new ∅) as (t' & Hrun' & Ht');
    [apply trie_rep_new | unfold room; simpl; lia|].
  destruct (trie_root_ok t _ Ht) as (u & Hu & _). destruct (trie_root_ok t' _ Ht') as (u' & Hu' & _).
  exists t, t', (commitment (map_run ∅ ops).2), u, u'. rewrite E at 2. split_and!; eauto.
Qed.

(** [from_entries] builds the trie of the entries, later ones overriding earlier ones. *)
Lemma trie_from_entries_ok entries :
  2 * Z.of_nat (length entries) <= 2 ^ 32 ->
  exists t, trie_from_entries entries = Some t /\ trie_rep t (list_to_map (rev entries)).
Proof.
  intros Hlen. unfold trie_from_entries.
  set (step := fun (t : Trie) (e : key32 * Digest) => r ← trie_set t e.1 e.2; Some r.2).
  assert (forall es t m, trie_rep t m -> room t (2 * Z.of_nat (length es)) ->
    exists t', fold_m step t es = Some t' /\ trie_rep t' (list_to_map (rev es) ∪ m)) as Hgen.
  { induction es as [|[k d] es IH]; intros t m Ht Hroom.
    - exists t. split; [done|]. simpl. by rewrite (left_id ∅ (∪)).
    - unfold room in Hroom. cbn [length] in Hroom. cbn [fold_m].
      destruct (trie_set_ok t m k d Ht) as (t1 & E1 & Ht1 & Hn1); [unfold room; lia|].
      assert (step t (k, d) = Some t1) as -> by (unfold step; cbn [fst snd]; by rewrite E1).
      cbn [mbind option_bind].
      destruct (IH t1 _ Ht1) as (t2 & -> & Ht2); [unfold room; lia|].
      exists t2. split; [done|]. simpl. rewrite list_to_map_app, <- (assoc_L (∪)). simpl.
      by rewrite insert_empty, <- insert_union_singleton_l. }
  destruct (Hgen entries trie_new ∅ trie_rep_new) as (t & E & Ht); [unfold room; simpl; lia|].
  exists t. split; [done|]. by rewrite (right_id ∅ (∪)) in Ht.
Qed.

End Rep.

(** ** Witnesses *)

Import Toy.

Definition sample_digest (n : Z) : Digest := Quad (of_Z 64 n) (of_Z 64 0) (of_Z 64 0) (of_Z 64 0).

(** Two keys that part at their first bit, one removed and set again, with reads in between. *)
Definition sample_ops : list trie_op :=
  [OpSet (id32 1) (sample_digest 7); OpSet (id32 200) (sample_digest 9); OpRoot;
   OpRemove (id32 1); OpGet (id32 200); OpSet (id32 1) (sample_digest 7)].

Definition sample_ops' : list trie_op :=
  [OpSet (id32 200) (sample_digest 9); OpSet (id32 1) (sample_digest 7)].

Lemma trie_refines_map_witness :
  2 * Z.of_nat (length sample_ops) <= 2 ^ 32
  /\ exists t, trie_run trie_new sample_ops = Some ((map_run ∅ sample_ops).1, t)
       /\ trie_rep t (map_run ∅ sample_ops).2.
Proof. split; [by vm_compute|]. apply (trie_refines_map sample_ops). by vm_compute. Defined.

Lemma history_independent_witness :
  exists t t' root u u', (exists rs, trie_run trie_new sample_ops = Some (rs, t))
    /\ (exists rs, trie_run trie_new sample_ops' = Some (rs, t'))
    /\ trie_root t = Some (root, u) /\ trie_root t' = Some (root, u').
Proof.
  apply (history_independent sample_ops sample_ops'); [by vm_compute..|].
  cbn [map_run map_step sample_ops sample_ops' snd]. rewrite insert_delete_eq.
  rewrite (insert_insert_ne _ (id32 1)) by (by vm_compute). by rewrite insert_insert_eq, (insert_insert_ne _ (id32 1)) by (by vm_compute).
Defined.
