(* ===== verification/TrieBinding.v ===== *)
(** * Trie proofs: completeness and binding

    Honest proofs verify; a verified inclusion proof says what the map holds, unless a collision
    of the compression or a preimage of a chain IV is known. Two defects of [TrieProof::verify]
    are stated as theorems: a non-inclusion proof can be forged, and a malformed one panics. *)

From S2P Require Import Prelude.
From S2P Require Import Crypto.
From S2P Require Import Trie.
From S2P Require Import KeyBits.
From S2P Require Import TrieTree.
From S2P Require Import TrieRefine.
From S2P Require Import TrieProofs.

Local Open Scope Z_scope.

#[local] Arguments hash_node : simpl never.
#[local] Arguments descend_loop : simpl never.

Section Binding.
  Context `{Nebu, Hemera}.

(** ** Folding proof steps *)

Definition step_up (key : key32) (st : u16 * Digest) (cur : Digest) : Digest :=
  if kbit key st.1 then branch_digest st.1 st.2 cur else branch_digest st.1 cur st.2.

Definition fold_steps (key : key32) (ss : list (u16 * Digest)) (d : Digest) : Digest :=
  foldr (step_up key) d ss.

Lemma verify_loop_sound key ss prev d c :
  verify_loop key (rev ss) prev d = Some (Some c) -> c = fold_steps key ss d.
Proof.
  revert prev d. induction ss as [|[b s] ss IH] using rev_ind; intros prev d.
  { by intros [= <-]. }
  rewrite rev_unit. cbn [verify_loop]. case_match; [done|].
  destruct (Z_lt_dec b 256) as [Hb|Hb]; [|rewrite key_bit_panic by lia; done].
  rewrite key_bit_kbit by done. cbn [mbind option_bind]. intros ->%IH.
  unfold fold_steps. by rewrite foldr_app.
Qed.

Lemma verify_loop_complete key ss prev d :
  Forall (fun st => uval st.1 < 256) ss ->
  (forall b s, last ss = Some (b, s) -> match prev with Some l => uval b < uval l | None => True end) ->
  StronglySorted (fun x y => uval x.1 < uval y.1) ss ->
  verify_loop key (rev ss) prev d = Some (Some (fold_steps key ss d)).
Proof.
  revert prev d. induction ss as [|[b s] ss IH] using rev_ind; intros prev d Hb Hlast Hs; [done|].
  apply Forall_app in Hb as [Hb Hb1]. inversion_clear Hb1 as [|? ? Hb256 _].
  rewrite rev_unit. cbn [verify_loop]. specialize (Hlast b s (last_snoc _ _)).
  replace (match prev with Some l => uval l <=? b | None => false end) with false
    by (destruct prev; [symmetry; apply Z.leb_gt; lia | done]).
  rewrite key_bit_kbit by done. cbn [mbind option_bind].
  rewrite IH; [unfold fold_steps; by rewrite foldr_app | done | |].
  - intros b' s' [l' ->]%last_Some. apply StronglySorted_app in Hs as (Hs & _ & _).
    apply (Hs (b', s') (b, s)); [|by apply list_elem_of_singleton].
    rewrite elem_of_app. right. by apply list_elem_of_singleton.
  - by apply StronglySorted_app in Hs as (_ & ? & _).
Qed.

(** ** Completeness *)

Definition frame_step (f : frame) : u16 * Digest := (f_bit f, rdigest (f_sib f)).

Lemma rdigest_plug key fs s :
  follows key fs -> rdigest (plug fs s) = fold_steps key (map frame_step fs) (rdigest s).
Proof.
  induction 1 as [|f fs Hf _ IH]; [done|].
  cbn [plug foldr map fold_steps]. fold (plug fs s) (fold_steps key (map frame_step fs) (rdigest s)).
  rewrite <- IH. unfold step_up. cbn [frame_step fst snd]. rewrite Hf. by destruct f.
Qed.

Lemma dok_plug_sibs fs s :
  dok (plug fs s) -> clean (plug fs s) = true ->
  Forall (fun f => sdigest (f_sib f) = rdigest (f_sib f)) fs.
Proof.
  induction fs as [|f fs IH]; intros Hd Hc; [constructor|].
  assert (dok (plug fs s) /\ clean (plug fs s) = true /\ sdigest (f_sib f) = rdigest (f_sib f))
    as (? & ? & ?); [|constructor; auto].
  destruct f; simpl in Hd, Hc; destruct Hd as (Hl & Hr & Hy);
    destruct Hy as (Hcl & Hcr & _); [by destruct y| |by destruct y|];
    split_and!; try done; by apply dok_clean.
Qed.

Lemma stored_sdigest ns s : stored ns (tnodes s) -> exists n, ns !! idx s = Some n /\ node_digest n = sdigest s.
Proof. destruct s; intros [Hi _]%stored_cons; simpl in *; rewrite Hi; eauto. Qed.

Lemma prove_steps_ok t key fs h rest :
  arena t (ctx_nodes fs h ++ rest) -> follows key fs ->
  Forall (fun f => uval (f_bit f) < 256) fs ->
  Forall (fun f => sdigest (f_sib f) = rdigest (f_sib f)) fs ->
  mapM (prove_step (nodes t) key) (map f_idx fs) = Some (map frame_step fs).
Proof.
  revert rest. induction fs as [|f fs IH]; intros rest Ha Hfo Hb Hd; [done|].
  inversion_clear Hfo as [|? ? Hside Hfo']. inversion_clear Hb as [|? ? Hbit Hb'].
  inversion_clear Hd as [|? ? Hdig Hd'].
  rewrite ctx_nodes_cons in Ha.
  pose proof (arena_lookup _ _ (f_idx f) _ Ha (list_elem_of_here _ _)) as Hf.
  assert (stored (nodes t) (tnodes (f_sib f))) as (n & Hn & En)%stored_sdigest.
  { destruct Ha as [Hst _]. apply stored_cons in Hst as [_ Hst].
    apply stored_app in Hst as [_ Hst]. by apply stored_app in Hst as [Hst _]. }
  cbn [map mapM].
  assert (arena t (ctx_nodes fs h ++ (f_idx f, f_node f (ctx_idx fs h)) :: tnodes (f_sib f) ++ rest))
    as Ha' by (by rewrite <- Permutation_middle).
  assert (prove_step (nodes t) key (f_idx f) = Some (frame_step f)) as ->.
  { unfold prove_step. rewrite Hf. destruct f; simpl in *; rewrite key_bit_kbit, Hside by done;
      simpl; rewrite Hn; simpl; by rewrite En, Hdig. }
  cbn [mbind option_bind]. by rewrite (IH _ Ha' Hfo' Hb' Hd').
Qed.

Lemma frames_sorted fs ks :
  (exists k, k ∈ ks) -> fits fs ks ->
  StronglySorted (fun x y : u16 * Digest => uval x.1 < uval y.1) (map frame_step fs).
Proof.
  intros Hk. induction fs as [|f fs IH]; intros Hf; [constructor|].
  pose proof (fits_increasing _ _ _ Hk Hf) as Hi. destruct Hf as (_ & _ & Hf).
  constructor; [by apply IH|]. apply Forall_map. exact Hi.
Qed.

(** An honest proof verifies against the commitment, for what the map says of the key. *)
Lemma trie_prove_ok t m key :
  trie_rep t m ->
  exists p t', trie_prove t key = Some (p, t') /\ trie_rep t' m
    /\ trie_verify p (commitment m) key (m !! key) = Some true.
Proof.
  intros (ot & Ht & <-). pose proof Ht as [Hr _ _ _ _]. unfold trie_prove. rewrite Hr.
  destruct ot as [s|]; simpl.
  2: { eexists _, t. split_and!; [done|by exists None|]. rewrite lookup_empty.
       unfold trie_verify. cbn [terminal steps]. by rewrite (bool_decide_true _ commitment_empty). }
  destruct (tt_root_ok _ _ Ht) as (t' & -> & Ht' & _). cbn [mbind option_bind]. simpl in Ht'.
  set (s' := settle s) in *. pose proof Ht' as [_ Ha Hs Hd _]. simpl in Ha, Hs, Hd.
  assert (tmap s = tmap s') as -> by (symmetry; apply (otmap_settle (Some s))).
  destruct (split_at_leaf key s') as (i & k & d & El).
  destruct (split_at key s') as [fs lf] eqn:E. simpl in El. subst lf.
  destruct (tt_descend _ _ _ _ _ _ _ Ht' E) as [-> Hn]. cbn [mbind option_bind].
  pose proof (split_at_plug key s') as Hp. pose proof (split_at_follows key s') as Hfo.
  rewrite E in Hp, Hfo. simpl in Hp, Hfo.
  assert (shape (plug fs (IL i k d))) as [Hfits _]%shape_plug by (by rewrite Hp).
  assert (exists k', k' ∈ tkeys (IL i k d)) as Hk by apply tkeys_nonempty.
  erewrite (prove_steps_ok t' key fs i (tnodes (IL i k d))); cycle 1.
  { rewrite <- Hp, tnodes_plug in Ha. exact Ha. } { done. } { by eapply fits_bits. }
  { apply (dok_plug_sibs fs (IL i k d)); rewrite Hp; [done|apply settle_clean]. }
  cbn [mbind option_bind]. rewrite Hn. eexists _, t'. split_and!; [done|by exists (Some s')|].
  assert (commitment (tmap s') = fold_steps key (map frame_step fs) d) as Hroot
    by (by rewrite commitment_rdigest, <- Hp, (rdigest_plug key)).
  assert (verify_loop key (rev (map frame_step fs)) None d
    = Some (Some (fold_steps key (map frame_step fs) d))) as Hv.
  { apply verify_loop_complete; [|done|by eapply frames_sorted].
    apply Forall_map. by eapply fits_bits. }
  rewrite (split_at_lookup _ _ _ _ _ _ Hs E). unfold trie_verify. simpl.
  assert (forall r : bool, r = false -> (if r then Some false else
     res ← verify_loop key (rev (map frame_step fs)) None d;
     Some match res with Some cur => bool_decide (cur = commitment (tmap s')) | None => false end)
     = Some true) as Hfin.
  { intros r ->. rewrite Hv, Hroot. simpl. by rewrite bool_decide_true. }
  case_decide; apply Hfin; [by rewrite !bool_decide_true | by rewrite bool_decide_false].
Qed.

(** [prove] allocates nothing. *)
Lemma trie_prove_nodes t m key p t' :
  trie_rep t m -> trie_prove t key = Some (p, t') -> length (nodes t') = length (nodes t).
Proof.
  intros Ht. unfold trie_prove. destruct (root t) as [r|]; [|by intros [= _ <-]].
  destruct (trie_root_ok t m Ht) as (u & -> & _ & Hlen & _). cbn [mbind option_bind]. intros E.
  apply bind_Some in E as ([path leaf] & _ & E). apply bind_Some in E as (ss & _ & E).
  apply bind_Some in E as (n & _ & E). destruct n; [|done]. by injection E as _ <-.
Qed.

(** ** Binding *)

(** The blocks a leaf digest absorbs. *)
Definition leaf_blocks (key : key32) (vals : list Goldilocks) : list Digest :=
  map block (chunks4 (bytes32_limbs key)) ++ map block (chunks4 vals).

Lemma foldl_blocks acc l :
  foldl (fun acc chunk => compress4 acc (block chunk)) acc l = foldl compress4 acc (map block l).
Proof. revert acc. induction l as [|x l IH]; intros acc; simpl; auto. Qed.

Lemma leaf_digest_blocks key vals :
  leaf_digest key vals = foldl compress4 (leaf_iv (length vals)) (leaf_blocks key vals).
Proof.
  unfold leaf_digest, leaf_blocks. cbv zeta. by rewrite foldl_app, <- !foldl_blocks.
Qed.

(** The queries of a leaf digest, and of the verifier walking a path up from the digest [d]. *)
Definition leaf_queries (key : key32) (vals : list Goldilocks) : list query :=
  chain_queries (leaf_iv (length vals)) (leaf_blocks key vals).

Fixpoint step_queries (key : key32) (ss : list (u16 * Digest)) (d : Digest) : list query :=
  match ss with
  | [] => []
  | (bit, sib) :: ss =>
      let cur := fold_steps key ss d in
      (if kbit key bit then branch_queries bit sib cur else branch_queries bit cur sib)
      ++ step_queries key ss d
  end.

Definition proof_queries (p : TrieProof) (key : key32) : list query :=
  match terminal p with Some (_, d) => step_queries key (steps p) d | None => [] end.

(** A query that hits the start of a leaf or branch chain, or the digest of the empty trie. *)
Definition iv_in (Q : list query) : Prop :=
  exists q, q ∈ Q /\ ((exists n, compress q = leaf_iv n) \/ (exists bit, compress q = branch_iv bit)
    \/ compress q = EMPTY).

(** The queries break the commitment scheme. *)
Definition break_in (Q : list query) : Prop := collision_in Q \/ iv_in Q.

End Binding.

Section BindingLaws.
  Context `{Nebu, Hemera, !CryptoLaws} (Q : list query).

(** A chain that ends in the same value as a longer one is its tail, or the queries collide. *)
Lemma chain_suffix (l1 l2 : list Digest) iv1 iv2 :
  (length l1 <= length l2)%nat -> chain_queries iv1 l1 ⊆ Q -> chain_queries iv2 l2 ⊆ Q ->
  foldl compress4 iv1 l1 = foldl compress4 iv2 l2 ->
  collision_in Q \/ exists pre, l2 = pre ++ l1 /\ iv1 = foldl compress4 iv2 pre.
Proof.
  revert l2. induction l1 as [|x l1 IH] using rev_ind; intros l2 Hlen Q1 Q2 E.
  { right. exists l2. by rewrite app_nil_r. }
  destruct l2 as [|y l2 _] using rev_ind.
  { rewrite length_app in Hlen. simpl in Hlen. lia. }
  rewrite !foldl_app in E. simpl in E. rewrite !length_app in Hlen. simpl in Hlen.
  rewrite chain_queries_app in Q1, Q2. apply app_subset in Q1 as [Q1 Q1'], Q2 as [Q2 Q2'].
  apply cons_subset in Q1' as [Q1' _], Q2' as [Q2' _].
  destruct (compress4_inj Q _ _ _ _ Q1' Q2' E) as [[E' ->]|]; [|by left].
  destruct (IH l2) as [|(pre & -> & ->)]; [lia|done..|by left|].
  right. exists pre. by rewrite app_assoc.
Qed.

(** Where one chain starts inside another, its IV is the answer of a query. *)
Lemma chain_start (pre post : list Digest) iv1 iv2 :
  chain_queries iv2 (pre ++ post) ⊆ Q -> iv1 = foldl compress4 iv2 pre ->
  (pre = [] /\ iv1 = iv2) \/ exists q, q ∈ Q /\ compress q = iv1.
Proof.
  intros HQ ->. destruct pre as [|x pre _] using rev_ind; [by left|right].
  rewrite !chain_queries_app in HQ. apply app_subset in HQ as [HQ _].
  apply app_subset in HQ as [_ [HQ _]%cons_subset].
  eexists. split; [exact HQ|]. by rewrite foldl_app.
Qed.

Lemma length_leaf_blocks key vals : (2 <= length (leaf_blocks key vals))%nat.
Proof. unfold leaf_blocks. rewrite length_app. simpl. lia. Qed.

Lemma tags_differ n bit : leaf_iv n <> branch_iv bit.
Proof.
  unfold leaf_iv, branch_iv. intros [= E _ _]. apply g_new_inj in E; [|by vm_compute..].
  by apply (f_equal uval) in E.
Qed.

Lemma branch_digest_fold bit l r : branch_digest bit l r = foldl compress4 (branch_iv bit) [l; r].
Proof. done. Qed.

(** A leaf digest is not a branch digest. *)
Lemma leaf_branch_break key vals bit l r :
  leaf_queries key vals ⊆ Q -> branch_queries bit l r ⊆ Q ->
  leaf_digest key vals = branch_digest bit l r -> break_in Q.
Proof.
  rewrite leaf_digest_blocks, branch_digest_fold. intros Ql Qb E. symmetry in E.
  apply chain_suffix in E as [Hc|(pre & Hb & E)]; [by left| |apply length_leaf_blocks|exact Qb|exact Ql].
  unfold leaf_queries in Ql. rewrite Hb in Ql. apply (chain_start _ _ _ _ Ql) in E as [[-> E]|(q & Hq & E)].
  - by apply eq_sym, tags_differ in E.
  - right. exists q. eauto.
Qed.

Lemma branch_iv_inj b b' : branch_iv b = branch_iv b' -> b = b'.
Proof.
  unfold branch_iv. intros [= E]. apply g_new_limb_inj in E; [by apply uint_eq | u_lia..].
Qed.

Lemma branch_digest_inj b l r b' l' r' :
  branch_queries b l r ⊆ Q -> branch_queries b' l' r' ⊆ Q ->
  branch_digest b l r = branch_digest b' l' r' -> (b = b' /\ l = l' /\ r = r') \/ break_in Q.
Proof.
  rewrite !branch_digest_fold. intros Q1 Q2 E.
  apply (fold_compress_inj Q) in E as [[E Hl]|]; [|by right; left|done|done|done].
  left. apply branch_iv_inj in E. by injection Hl as -> ->.
Qed.

Lemma chunks_block_inj (v v' : list Goldilocks) :
  length v = length v' -> map block (chunks4 v) = map block (chunks4 v') -> v = v'.
Proof.
  assert (forall n (v v' : list Goldilocks), (length v <= n)%nat -> length v = length v' ->
    map block (chunks4 v) = map block (chunks4 v') -> v = v') as Hn; [|by apply (Hn (length v))].
  clear v v'. induction n as [|n IH]; intros v v' Hle Hlen E.
  { destruct v; [|simpl in Hle; lia]. by destruct v'. }
  destruct v as [|a [|b [|c [|d [|e v]]]]], v' as [|a' [|b' [|c' [|d' [|e' v']]]]];
    simpl in Hlen; try lia; try done;
    cbn [chunks4 map] in E; unfold block in E; simpl in E; try (injection E; intros; by subst).
  injection E as -> -> -> -> E. f_equal. f_equal. f_equal. f_equal.
  apply IH; [simpl in Hle |- *; lia | simpl; lia | exact E].
Qed.

Lemma usize_canonical_inj n n' :
  Z.of_nat n < field_P -> Z.of_nat n' < field_P ->
  g_new (usize_u64 n) = g_new (usize_u64 n') -> n = n'.
Proof.
  intros Hn Hn' E. unfold field_P, usize_u64 in *.
  apply g_new_inj in E; [|rewrite uval_of_Z_small; unfold field_P; simpl Z.of_N; lia..].
  apply (f_equal uval) in E. rewrite !uval_of_Z_small in E by (simpl Z.of_N; lia). lia.
Qed.

(** A leaf digest binds its key and its values. *)
Lemma leaf_digest_inj k v k' v' :
  Z.of_nat (length v) < field_P -> Z.of_nat (length v') < field_P ->
  leaf_queries k v ⊆ Q -> leaf_queries k' v' ⊆ Q ->
  leaf_digest k v = leaf_digest k' v' -> (k = k' /\ v = v') \/ break_in Q.
Proof.
  intros Hv Hv' Q1 Q2. rewrite !leaf_digest_blocks. intros E.
  assert (break_in Q \/ (leaf_iv (length v) = leaf_iv (length v') /\ leaf_blocks k v = leaf_blocks k' v'))
    as [|[Ei Eb]]; [|by right|left].
  { destruct (Nat.le_ge_cases (length (leaf_blocks k v)) (length (leaf_blocks k' v'))) as [Hl|Hl].
    - apply chain_suffix in E as [|(pre & Hb & E)]; [by left; left| |done..].
      unfold leaf_queries in Q2. rewrite Hb in Q2.
      apply (chain_start _ _ _ _ Q2) in E as [[-> E]|(q & Hq & E)]; [by right|].
      left. right. exists q. eauto.
    - symmetry in E. apply chain_suffix in E as [|(pre & Hb & E)]; [by left; left| |done..].
      unfold leaf_queries in Q1. rewrite Hb in Q1.
      apply (chain_start _ _ _ _ Q1) in E as [[-> E]|(q & Hq & E)]; [by right|].
      left. right. exists q. eauto. }
  unfold leaf_iv in Ei. injection Ei as Ei. apply usize_canonical_inj in Ei; [|done..].
  unfold leaf_blocks in Eb. apply app_inj_1 in Eb as [Ek Evs]; [|done].
  split; [|by apply chunks_block_inj].
  apply bytes32_limbs_inj, chunks_block_inj; done.
Qed.

(** Every value of the map is the leaf digest of some values of its key, whose queries are known. *)
Definition leaf_images (m : gmap key32 Digest) : Prop :=
  map_Forall (fun k d => exists v, Z.of_nat (length v) < field_P /\ d = leaf_digest k v
    /\ leaf_queries k v ⊆ Q) m.

Lemma leaf_images_sub i b l r d y :
  shape (IB i b l r d y) -> leaf_images (tmap (IB i b l r d y)) ->
  leaf_images (tmap l) /\ leaf_images (tmap r).
Proof.
  intros Hs Hm. pose proof Hs as (Hl & Hr & _).
  split; intros k d' Hk; apply Hm, tmap_lookup; try done; cbn [tentries]; rewrite elem_of_app;
    apply tmap_lookup in Hk; auto.
Qed.

Lemma leaf_images_IL i k d :
  leaf_images (tmap (IL i k d)) ->
  exists v, Z.of_nat (length v) < field_P /\ d = leaf_digest k v /\ leaf_queries k v ⊆ Q.
Proof. intros Hm. apply Hm. apply tmap_lookup; [done|]. by apply list_elem_of_singleton. Qed.

Lemma tree_queries_sub i b l r d y :
  tree_queries (IB i b l r d y) ⊆ Q ->
  branch_queries b (rdigest l) (rdigest r) ⊆ Q /\ tree_queries l ⊆ Q /\ tree_queries r ⊆ Q.
Proof. cbn [tree_queries]. by rewrite !app_subset. Qed.

Lemma fold_steps_binds key vals ss s :
  Z.of_nat (length vals) < field_P -> leaf_queries key vals ⊆ Q ->
  step_queries key ss (leaf_digest key vals) ⊆ Q -> tree_queries s ⊆ Q ->
  shape s -> leaf_images (tmap s) ->
  fold_steps key ss (leaf_digest key vals) = rdigest s ->
  tmap s !! key = Some (leaf_digest key vals) \/ break_in Q.
Proof.
  intros Hv Qk. revert ss. induction s as [i k d|i b l IHl r IHr d y]; intros ss Qs Qt Hs Hm E.
  - destruct (leaf_images_IL _ _ _ Hm) as (v & Hlen & -> & Qv). cbn [rdigest] in E.
    destruct ss as [|[bit sib] ss]; cbn [step_queries] in Qs; simpl in E.
    + apply leaf_digest_inj in E as [[-> ->]|]; [left|by right|done..].
      by apply tmap_lookup, list_elem_of_singleton.
    + right. symmetry in E. unfold step_up in E. cbn [fst snd] in E. apply app_subset in Qs as [Qs _].
      case_match; by apply leaf_branch_break in E.
  - apply tree_queries_sub in Qt as (Qb & Ql & Qr).
    destruct ss as [|[b' sd] ss]; [right; by apply leaf_branch_break in E|].
    assert (forall k d', (k, d') ∈ tentries l \/ (k, d') ∈ tentries r -> tmap (IB i b l r d y) !! k = Some d') as Hin.
    { intros k d' Hk. apply tmap_lookup; [done|]. cbn [tentries]. by apply elem_of_app. }
    destruct (leaf_images_sub _ _ _ _ _ _ Hs Hm) as [Ml Mr].
    destruct Hs as (Hl & Hr & _). cbn [fold_steps foldr rdigest] in E. cbn [step_queries] in Qs.
    fold (fold_steps key ss (leaf_digest key vals)) in E. unfold step_up in E. cbn [fst snd] in E.
    apply app_subset in Qs as [Qs Qs'].
    case_match; apply branch_digest_inj in E as [(-> & E1 & E2)|]; auto.
    + apply IHr in E2 as [E2|]; auto. left. apply Hin. right. by apply tmap_lookup.
    + apply IHl in E1 as [E1|]; auto. left. apply Hin. left. by apply tmap_lookup.
Qed.

Lemma trie_verify_fold p rt key d :
  trie_verify p rt key (Some d) = Some true ->
  exists ss, steps p = ss /\ terminal p = Some (key, d) /\ fold_steps key ss d = rt.
Proof.
  unfold trie_verify. destruct (terminal p) as [[k d']|]; [|done].
  case_bool_decide as Hk; [|done]. case_bool_decide as Hd; [|done]. subst k d'. simpl.
  intros E. apply bind_Some in E as ([cur|] & Hv & E); [|done]. injection E as E.
  apply bool_decide_eq_true in E as <-. exists (steps p). split_and!; try done.
  symmetry. by eapply verify_loop_sound.
Qed.

(** A digest of a leaf or a branch that is the empty commitment. *)
Lemma leaf_empty_break key vals : leaf_queries key vals ⊆ Q -> leaf_digest key vals = EMPTY -> break_in Q.
Proof.
  rewrite leaf_digest_blocks. unfold leaf_queries. pose proof (length_leaf_blocks key vals) as Hl.
  destruct (leaf_blocks key vals) as [|x bs _] using rev_ind; [simpl in Hl; lia|].
  rewrite chain_queries_app, foldl_app. intros [_ [Hx _]%cons_subset]%app_subset E.
  right. eexists. split; [exact Hx|]. right; right. exact E.
Qed.

Lemma branch_empty_break bit l r : branch_queries bit l r ⊆ Q -> branch_digest bit l r = EMPTY -> break_in Q.
Proof.
  intros [_ [Hx _]%cons_subset]%cons_subset E. right. eexists. split; [exact Hx|]. right; right. exact E.
Qed.

Lemma inclusion_binds m p key vals :
  Z.of_nat (length vals) < field_P -> leaf_queries key vals ⊆ Q -> proof_queries p key ⊆ Q ->
  commitment_queries m ⊆ Q -> leaf_images m ->
  (exists t, trie_rep t m) ->
  trie_verify p (commitment m) key (Some (leaf_digest key vals)) = Some true ->
  m !! key = Some (leaf_digest key vals) \/ break_in Q.
Proof.
  intros Hv Qk Qp Qm Hm (t & ot & [_ _ Hs _ _] & <-) (ss & <- & Et & E)%trie_verify_fold.
  unfold proof_queries in Qp. rewrite Et in Qp.
  destruct ot as [s|]; simpl in *.
  - rewrite commitment_rdigest in E by done. rewrite commitment_queries_tree in Qm by done.
    by eapply fold_steps_binds.
  - right. rewrite commitment_empty in E. destruct (steps p) as [|[bit sib] ss]; simpl in E.
    + by apply leaf_empty_break in E.
    + cbn [step_queries] in Qp. apply app_subset in Qp as [Qp _]. unfold step_up in E. cbn [fst snd] in E.
      case_match; by apply branch_empty_break in E.
Qed.

(** ** The commitment binds the whole map *)

(** Frames of a canonical path, split at a bit. *)
Lemma frames_split fs ks (j : u16) :
  (exists k, k ∈ ks) -> fits fs ks ->
  exists fs1 fs2, fs = fs1 ++ fs2 /\ Forall (fun f => uval (f_bit f) < j) fs1
    /\ Forall (fun f => j <= uval (f_bit f)) fs2.
Proof.
  intros Hk. induction fs as [|f fs IH]; intros Hf; [by exists [], []|].
  pose proof (fits_increasing _ _ _ Hk Hf) as Hinc. destruct Hf as (_ & _ & Hf).
  destruct (Z_lt_ge_dec (f_bit f) j) as [Hlt|Hge].
  - destruct (IH Hf) as (fs1 & fs2 & -> & H1' & H2'). exists (f :: fs1), fs2.
    split_and!; [done|by constructor|done].
  - exists [], (f :: fs). split_and!; [done|constructor|]. constructor; [lia|].
    eapply Forall_impl; [exact Hinc|]. simpl. lia.
Qed.

Lemma tree_insert s key d : shape s -> exists s', shape s' /\ tmap s' = <[key := d]> (tmap s).
Proof.
  intros Hs. destruct (split_at_leaf key s) as (i & k & d0 & El).
  destruct (split_at key s) as [fs lf] eqn:E. simpl in El. subst lf.
  pose proof (split_at_plug key s) as Hp. pose proof (split_at_follows key s) as Hfo.
  rewrite E in Hp, Hfo. simpl in Hp, Hfo. subst s.
  destruct (decide (k = key)) as [->|Hne].
  { destruct (plug_update fs i key d0 d Hs) as (Hs' & Hm & _). eauto. }
  destruct (first_diff_bit_spec key k) as (j & _ & Hj256 & Hjd & Hja); [congruence|].
  pose proof (proj1 (shape_plug _ _) Hs) as [Hfits _].
  destruct (frames_split fs _ j (tkeys_nonempty _) Hfits) as (fs1 & fs2 & -> & Hlt & Hge).
  rewrite plug_app in *. apply Forall_app in Hfo as [Hfo1 Hfo2].
  pose proof (proj1 (shape_plug _ _) Hs) as [_ Hsu].
  destruct (split_hole fs2 i k d0 key j Hsu Hfo2 Hge Hjd Hja) as [Hside Hu].
  destruct (plug_insert fs1 (plug fs2 (IL i k d0)) key d k 0%nat 0%nat j) as (Hs' & Hm & _); try done.
  - rewrite tkeys_plug, elem_of_app. right. by apply list_elem_of_singleton.
  - eauto.
Qed.

(** Every non-empty map is that of a canonical tree. *)
Lemma tree_exists m : m <> ∅ -> exists s, shape s /\ tmap s = m.
Proof.
  induction m as [|k d m Hk IH] using map_ind; [done|]. intros _.
  destruct (decide (m = ∅)) as [->|Hm].
  - by exists (IL 0 k d).
  - destruct (IH Hm) as (s & Hs & <-). by apply tree_insert.
Qed.

Lemma rdigest_binds s s' :
  shape s -> shape s' -> leaf_images (tmap s) -> leaf_images (tmap s') ->
  tree_queries s ⊆ Q -> tree_queries s' ⊆ Q ->
  rdigest s = rdigest s' -> tmap s = tmap s' \/ break_in Q.
Proof.
  revert s'. induction s as [i k d|i b l IHl r IHr d y]; intros s' Hs Hs' Hm Hm' Qs Qs' E.
  - destruct (leaf_images_IL _ _ _ Hm) as (v & Hlen & -> & Qv).
    destruct s' as [i' k' d'|i' b' l' r' d' y'].
    + destruct (leaf_images_IL _ _ _ Hm') as (v' & Hlen' & -> & Qv'). cbn [rdigest] in E.
      apply leaf_digest_inj in E as [[-> ->]|]; auto.
    + right. apply tree_queries_sub in Qs' as [Qb _]. by apply leaf_branch_break in E.
  - apply tree_queries_sub in Qs as (Qb & Ql & Qr). destruct s' as [i' k' d'|i' b' l' r' d' y'].
    + right. destruct (leaf_images_IL _ _ _ Hm') as (v & _ & -> & Qv). symmetry in E.
      by apply leaf_branch_break in E.
    + apply tree_queries_sub in Qs' as (Qb' & Ql' & Qr').
      destruct (leaf_images_sub _ _ _ _ _ _ Hs Hm) as [Ml Mr].
      destruct (leaf_images_sub _ _ _ _ _ _ Hs' Hm') as [Ml' Mr'].
      destruct Hs as (Hl & Hr & _), Hs' as (Hl' & Hr' & _). cbn [rdigest] in E.
      apply branch_digest_inj in E as [(-> & E1 & E2)|]; [|auto..].
      destruct (IHl l') as [El|]; auto. destruct (IHr r') as [Er|]; auto.
      left. rewrite !tmap_IB. congruence.
Qed.

(** A digest that is the empty commitment and that of a leaf or a branch. *)
Lemma rdigest_empty_break s :
  leaf_images (tmap s) -> tree_queries s ⊆ Q -> rdigest s = EMPTY -> break_in Q.
Proof.
  intros Hm Qs E. destruct s as [i k d|i b l r d y].
  - destruct (leaf_images_IL _ _ _ Hm) as (v & _ & -> & Qv). by apply leaf_empty_break in E.
  - apply tree_queries_sub in Qs as [Qb _]. by apply branch_empty_break in E.
Qed.

(** Two maps of leaves with one commitment are equal, or their queries break the scheme. *)
Lemma commitment_binds m m' :
  leaf_images m -> leaf_images m' -> commitment_queries m ⊆ Q -> commitment_queries m' ⊆ Q ->
  commitment m = commitment m' -> m = m' \/ break_in Q.
Proof.
  intros Hm Hm' Qm Qm' E.
  destruct (decide (m = ∅)) as [->|Hne], (decide (m' = ∅)) as [->|Hne']; [auto|..].
  - right. destruct (tree_exists _ Hne') as (s & Hs & <-). rewrite commitment_queries_tree in Qm' by done.
    rewrite commitment_rdigest, commitment_empty in E by done. by eapply rdigest_empty_break.
  - right. destruct (tree_exists _ Hne) as (s & Hs & <-). rewrite commitment_queries_tree in Qm by done.
    rewrite commitment_rdigest, commitment_empty in E by done. by eapply rdigest_empty_break.
  - destruct (tree_exists _ Hne) as (s & Hs & <-), (tree_exists _ Hne') as (s' & Hs' & <-).
    rewrite !commitment_rdigest in E by done. rewrite !commitment_queries_tree in Qm, Qm' by done.
    by apply rdigest_binds.
Qed.

End BindingLaws.

Section Leaves.
  Context `{Nebu, Hemera, !CryptoLaws}.

(** The entries that commit to a map of values, and the queries behind their commitment. *)
Definition leaves (vs : gmap key32 (list Goldilocks)) : gmap key32 Digest :=
  map_imap (fun k v => Some (leaf_digest k v)) vs.

Definition leaves_queries (vs : gmap key32 (list Goldilocks)) : list query :=
  commitment_queries (leaves vs) ++ flat_map (fun e => leaf_queries e.1 e.2) (map_to_list vs).

Definition values_short (vs : gmap key32 (list Goldilocks)) : Prop :=
  map_Forall (fun _ v => Z.of_nat (length v) < field_P) vs.

Lemma leaves_lookup vs k : leaves vs !! k = leaf_digest k <$> vs !! k.
Proof. unfold leaves. rewrite map_lookup_imap. by destruct (vs !! k). Qed.

Lemma leaves_images Q vs : values_short vs -> leaves_queries vs ⊆ Q -> leaf_images Q (leaves vs).
Proof.
  intros Hs [_ HQ]%app_subset k d. rewrite leaves_lookup. destruct (vs !! k) as [v|] eqn:Hv; [|done].
  intros Hd. apply (inj Some) in Hd as <-. exists v. split_and!; [by apply (Hs k)|done|].
  apply (flat_map_subset _ _ _ (k, v) HQ). by apply elem_of_map_to_list.
Qed.

(** C34: inclusion proofs bind. A proof that verifies against the root of a trie of values, for a
    key and the leaf digest of some values, shows that the trie holds exactly those values there;
    otherwise the compressions the root and the verifier evaluate hold a collision, or one of them
    hits the start of a leaf or branch chain or the empty root. *)
Theorem inclusion_sound t vs p key vals :
  trie_rep t (leaves vs) -> values_short vs -> Z.of_nat (length vals) < field_P ->
  trie_verify p (commitment (leaves vs)) key (Some (leaf_digest key vals)) = Some true ->
  vs !! key = Some vals \/ break_in (leaves_queries vs ++ proof_queries p key ++ leaf_queries key vals).
Proof.
  intros Ht Hs Hv Hp. set (Q := _ ++ _).
  assert (leaves_queries vs ⊆ Q /\ proof_queries p key ⊆ Q /\ leaf_queries key vals ⊆ Q)
    as (Q1 & Q2 & Q3) by (rewrite <- !app_subset; done).
  pose proof (leaves_images Q vs Hs Q1) as Hm. pose proof (proj1 (proj1 (app_subset _ _ _) Q1)) as Q4.
  destruct (inclusion_binds Q (leaves vs) p key vals) as [Hk|]; try done; [by exists t| |by right].
  destruct (Hm key _ Hk) as (v & Hl & _ & _). rewrite leaves_lookup in Hk.
  destruct (vs !! key) as [v'|] eqn:Hv'; [|done]. apply (inj Some) in Hk.
  apply (leaf_digest_inj Q) in Hk as [[_ ->]|]; [by left|by right|by apply (Hs key)|done| |done].
  apply app_subset in Q1 as [_ Q1]. apply (flat_map_subset _ _ _ (key, v') Q1). by apply elem_of_map_to_list.
Qed.

End Leaves.

Section Completeness.
  Context `{Nebu, Hemera}.

(** C35: completeness. [prove] never panics on a well-formed trie, keeps the map, and its proof
    verifies against the root for what the map says of the key, present or absent. *)
Theorem prove_verifies t m key :
  trie_rep t m ->
  exists p t', trie_prove t key = Some (p, t') /\ trie_rep t' m
    /\ trie_verify p (commitment m) key (m !! key) = Some true.
Proof. apply trie_prove_ok. Qed.

(** C40: non-inclusion proofs do not bind. The terminal key of a proof is checked against nothing,
    so for every key the trie holds there is a proof of its absence that verifies. *)
Theorem non_inclusion_forgeable t m key d :
  trie_rep t m -> m !! key = Some d ->
  exists p, trie_verify p (commitment m) key None = Some true.
Proof.
  intros Hrep Hk. destruct (trie_prove_ok t m key Hrep) as (p & t' & _ & _ & Hv).
  rewrite Hk in Hv. pose (k' := if decide (key = buffer 32 []) then buffer 32 [of_Z 8 1] else buffer 32 []).
  assert (k' <> key) as Hk'.
  { unfold k'. case_decide as Hz; [subst; by vm_compute|congruence]. }
  exists (mkTrieProof (steps p) (Some (k', d))). unfold trie_verify in *.
  cbn [terminal steps]. rewrite bool_decide_false by done.
  destruct (terminal p) as [[k0 d0]|]; [|done].
  case_bool_decide as H1; [|done]. case_bool_decide as H2; [|done]. by subst k0 d0.
Qed.

(** A malformed proof panics the verifier. A last step deciding on a bit beyond the key
    indexes the key out of range, where the answer should be [false]. *)
Theorem malformed_proof_panics ss (bit : u16) sib rt key d :
  256 <= uval bit ->
  trie_verify (mkTrieProof (ss ++ [(bit, sib)]) (Some (key, d))) rt key (Some d) = None.
Proof.
  intros Hb. unfold trie_verify. cbn [terminal steps]. rewrite !bool_decide_true by done.
  simpl. rewrite rev_unit. cbn [verify_loop]. by rewrite key_bit_panic.
Qed.

End Completeness.

(** ** Witnesses *)

Import Toy.

(** A map of two leaves, and a trie that holds it. *)
Definition sample_values : list Goldilocks := [of_Z 64 5].
Definition sample_leaves : gmap key32 (list Goldilocks) := <[id32 200 := []]> {[id32 1 := sample_values]}.
Definition sample_map : gmap key32 Digest := leaves sample_leaves.

Lemma sample_trie : exists t, trie_rep t sample_map.
Proof.
  destruct (trie_set_ok trie_new ∅ (id32 1) (leaf_digest (id32 1) sample_values) trie_rep_new)
    as (t & _ & Ht & Hn); [unfold room; simpl; lia|].
  destruct (trie_set_ok t _ (id32 200) (leaf_digest (id32 200) []) Ht) as (t' & _ & Ht' & _);
    [unfold room; simpl in *; lia|].
  exists t'. replace sample_map with (<[id32 200 := leaf_digest (id32 200) []]>
    (<[id32 1 := leaf_digest (id32 1) sample_values]> (∅ : gmap key32 Digest))); [exact Ht'|].
  apply map_eq. intros k. unfold sample_map. rewrite leaves_lookup. unfold sample_leaves.
  destruct (decide (k = id32 200)) as [->|H2]; [by rewrite !lookup_insert_eq|].
  destruct (decide (k = id32 1)) as [->|H1].
  - rewrite !(lookup_insert_ne _ (id32 200)) by done. by rewrite lookup_insert_eq, lookup_singleton_eq.
  - by rewrite !lookup_insert_ne, lookup_singleton_ne by done.
Qed.

Lemma sample_short : values_short sample_leaves.
Proof.
  apply map_Forall_insert_2; [by vm_compute|]. apply map_Forall_insert_2; [by vm_compute|].
  apply map_Forall_empty.
Qed.

Lemma sample_lookup : sample_map !! id32 1 = Some (leaf_digest (id32 1) sample_values).
Proof.
  unfold sample_map. rewrite leaves_lookup. unfold sample_leaves.
  rewrite lookup_insert_ne by (by vm_compute). by rewrite lookup_singleton_eq.
Qed.

Lemma inclusion_sound_witness :
  exists p, sample_leaves !! id32 1 = Some sample_values
    \/ break_in (leaves_queries sample_leaves ++ proof_queries p (id32 1) ++ leaf_queries (id32 1) sample_values).
Proof.
  destruct sample_trie as [t Ht]. destruct (trie_prove_ok t sample_map (id32 1) Ht) as (p & t' & _ & _ & Hv).
  rewrite sample_lookup in Hv. exists p.
  apply (inclusion_sound t sample_leaves p (id32 1) sample_values Ht sample_short); [by vm_compute|exact Hv].
Defined.

Lemma prove_verifies_witness :
  exists t p t', trie_prove t (id32 3) = Some (p, t') /\ trie_rep t' sample_map
    /\ trie_verify p (commitment sample_map) (id32 3) (sample_map !! id32 3) = Some true.
Proof. destruct sample_trie as [t Ht]. exists t. apply (prove_verifies t sample_map (id32 3) Ht). Defined.

Lemma non_inclusion_forgeable_witness :
  sample_map !! id32 1 = Some (leaf_digest (id32 1) sample_values)
  /\ exists p, trie_verify p (commitment sample_map) (id32 1) None = Some true.
Proof.
  split; [exact sample_lookup|]. destruct sample_trie as [t Ht].
  apply (non_inclusion_forgeable t sample_map (id32 1) _ Ht sample_lookup).
Defined.

Lemma malformed_proof_panics_witness :
  trie_verify (mkTrieProof ([] ++ [(of_Z 16 256, EMPTY)]) (Some (id32 1, EMPTY))) EMPTY (id32 1) (Some EMPTY) = None.
Proof. apply (malformed_proof_panics [] (of_Z 16 256) EMPTY EMPTY (id32 1) EMPTY). by vm_compute. Defined.
