(* ===== verification/Keyed.v ===== *)
(** * Committed maps (rs/src/keyed.rs, Keyed and KeyedSet)

    A [Keyed] map is a map, a trie that lags behind it, the keys whose leaves the trie has not
    seen, and the cached v1 commitment. The mutex around the last parts gives interior mutability;
    here every operation takes the value and returns the new one. [KeyedRep] relates the value to
    the map it presents, with the arena space it may come to need. *)

From S2P Require Import Prelude.
From S2P Require Import Crypto.
From S2P Require Import Trie.
From S2P Require Import TrieTree.
From S2P Require Import TrieRefine.
From S2P Require Import TrieProofs.
From S2P Require Import TrieBinding.

Local Open Scope Z_scope.

(** ** The two traits *)

(** [TrieKey]: the 32-byte trie path of a key. *)
Class TrieKey (K : Type) `{Countable K, Ordered K} := {
  key_bytes : K -> key32;
  key_bytes_inj :: Inj (=) (=) key_bytes;
}.

(** [LeafValue]: the value fields of a record. *)
Class LeafValue `{Nebu} (V : Type) := leaf_vals : V -> list Goldilocks.

#[export] Program Instance trie_key_bytes32 : TrieKey key32 := {| key_bytes k := k |}.

(** Heights: little-endian in the first eight bytes. *)
Definition key_bytes_u64 (h : u64) : key32 := buffer 32 (to_le_bytes 8 h).

#[export] Program Instance trie_key_u64 : TrieKey u64 := {| key_bytes := key_bytes_u64 |}.
Next Obligation.
  intros a b E. apply (to_le_bytes_inj 8); [done|]. apply bytes_eq.
  apply (f_equal (fun k : key32 => take 8 (blist k))) in E. exact E.
Qed.

#[export] Instance leaf_value_u64 `{Nebu} : LeafValue u64 := u64_limbs.
#[export] Instance leaf_value_gold `{Nebu} : LeafValue Goldilocks := fun g => [g].
#[export] Instance leaf_value_bytes32 `{Nebu} : LeafValue (bytes 32) := bytes32_limbs.
#[export] Instance leaf_value_unit `{Nebu} : LeafValue unit := fun _ => [].

Section Keyed.
  Context `{Nebu, Hemera}.

Record Pending (K : Type) `{Countable K} := mkPending { p_trie : Trie; p_dirty : gset K }.
Arguments mkPending {K _ _} _ _.
Arguments p_trie {K _ _} _.
Arguments p_dirty {K _ _} _.

Definition pending_default {K} `{Countable K} : Pending K := mkPending trie_new ∅.

Record Keyed (K V : Type) `{Countable K} := mkKeyed {
  k_map : gmap K V;
  k_commit : Pending K;
  k_legacy : option (bytes 32);
}.
Arguments mkKeyed {K V _ _} _ _ _.
Arguments k_map {K V _ _} _.
Arguments k_commit {K V _ _} _.
Arguments k_legacy {K V _ _} _.

Section Ops.
  Context {K V : Type} `{TrieKey K, !LeafValue V}.
  Implicit Types (k : Keyed K V) (key : K) (v : V).

Definition keyed_new : Keyed K V := mkKeyed ∅ pending_default None.

(** The leaf digest a record carries under its key. *)
Definition keyed_leaf key v : Digest := leaf_digest (key_bytes key) (leaf_vals v).

Definition keyed_touched k key : Keyed K V :=
  mkKeyed (k_map k) (mkPending (p_trie (k_commit k)) ({[key]} ∪ p_dirty (k_commit k))) None.

(** One record of [flush]. *)
Definition flush_key (m : gmap K V) (t : Trie) key : option Trie :=
  match m !! key with
  | Some v => snd <$> trie_set t (key_bytes key) (keyed_leaf key v)
  | None => snd <$> trie_remove t (key_bytes key)
  end.

Definition keyed_flush k : option (Keyed K V) :=
  t ← fold_m (flush_key (k_map k)) (p_trie (k_commit k)) (btree_keys (p_dirty (k_commit k)));
  Some (mkKeyed (k_map k) (mkPending t ∅) (k_legacy k)).

Definition keyed_pending k : nat := size (p_dirty (k_commit k)).

Definition keyed_insert k key v : option V * Keyed K V :=
  (k_map k !! key,
   keyed_touched (mkKeyed (<[key := v]> (k_map k)) (k_commit k) (k_legacy k)) key).

Definition keyed_remove k key : option V * Keyed K V :=
  match k_map k !! key with
  | None => (None, k)
  | Some old =>
      (Some old, keyed_touched (mkKeyed (delete key (k_map k)) (k_commit k) (k_legacy k)) key)
  end.

Definition keyed_clear k : Keyed K V := mkKeyed ∅ pending_default None.

(** [get_mut], the guard written through by [f] and dropped. *)
Definition keyed_get_mut k key (f : V -> V) : option (Keyed K V) :=
  match k_map k !! key with
  | None => None
  | Some v => Some (keyed_touched (mkKeyed (<[key := f v]> (k_map k)) (k_commit k) (k_legacy k)) key)
  end.

(** [entry(key).or_insert(default)], the guard written through by [f] and dropped. *)
Definition keyed_entry_or_insert k key (default : V) (f : V -> V) : Keyed K V :=
  let m := match k_map k !! key with Some _ => k_map k | None => <[key := default]> (k_map k) end in
  let v := match m !! key with Some v => v | None => default end in
  keyed_touched (mkKeyed (<[key := f v]> m) (k_commit k) (k_legacy k)) key.

Definition keyed_commitment k : option (Digest * Keyed K V) :=
  k ← keyed_flush k;
  '(d, t) ← trie_root (p_trie (k_commit k));
  Some (d, mkKeyed (k_map k) (mkPending t (p_dirty (k_commit k))) (k_legacy k)).

Definition keyed_legacy_commitment k (f : gmap K V -> bytes 32) : bytes 32 * Keyed K V :=
  match k_legacy k with
  | Some c => (c, k)
  | None => let c := f (k_map k) in (c, mkKeyed (k_map k) (k_commit k) (Some c))
  end.

Definition keyed_prove k key : option (TrieProof * Keyed K V) :=
  k ← keyed_flush k;
  '(p, t) ← trie_prove (p_trie (k_commit k)) (key_bytes key);
  Some (p, mkKeyed (k_map k) (mkPending t (p_dirty (k_commit k))) (k_legacy k)).

(** ** What a committed map presents *)

(** The entries the commitment is over. *)
Definition leaf_map (m : gmap K V) : gmap key32 Digest := kmap key_bytes (map_imap (fun key v => Some (keyed_leaf key v)) m).

(** [KeyedRep k m w]: [k] presents the map [m]; its trie agrees with [m] away from the dirty keys;
    the arena and what the dirty keys may add to it take at most [w] cells. *)
Record KeyedRep k (m : gmap K V) (w : Z) : Prop := {
  kr_map : k_map k = m;
  kr_trie : exists tm, trie_rep (p_trie (k_commit k)) tm
    /\ (forall key, key ∉ p_dirty (k_commit k) -> tm !! key_bytes key = leaf_map m !! key_bytes key)
    /\ (forall kb, (forall key, kb <> key_bytes key) -> tm !! kb = None);
  kr_room : Z.of_nat (length (nodes (p_trie (k_commit k))) + 2 * size (p_dirty (k_commit k))) <= w;
}.

Lemma leaf_map_lookup m key : leaf_map m !! key_bytes key = keyed_leaf key <$> m !! key.
Proof. unfold leaf_map. rewrite lookup_kmap, map_lookup_imap by apply _. by destruct (m !! key). Qed.

Lemma leaf_map_foreign m kb : (forall key, kb <> key_bytes key) -> leaf_map m !! kb = None.
Proof.
  intros Hkb. unfold leaf_map. apply lookup_kmap_None; [apply _|]. intros key ->. by destruct (Hkb key).
Qed.

Lemma leaf_map_empty : leaf_map ∅ = ∅.
Proof. apply map_eq. intros kb. unfold leaf_map. by rewrite map_imap_empty, kmap_empty. Qed.

(** A trie that agrees with the map on every key presents it. *)
Lemma leaf_map_eq m tm :
  (forall key, tm !! key_bytes key = leaf_map m !! key_bytes key) ->
  (forall kb, (forall key, kb <> key_bytes key) -> tm !! kb = None) -> tm = leaf_map m.
Proof.
  intros Hk Hf. apply map_eq. intros kb.
  destruct (leaf_map m !! kb) as [d|] eqn:E.
  - unfold leaf_map in E. apply lookup_kmap_Some in E as (key & -> & E); [|apply _].
    rewrite Hk, leaf_map_lookup. rewrite map_lookup_imap in E. destruct (m !! key); [|done]. exact E.
  - destruct (tm !! kb) as [d|] eqn:Et; [|done]. exfalso.
    assert (~ forall key, kb <> key_bytes key) as Hn by (intros Hx; rewrite Hf in Et; done).
    apply Hn. intros key ->. rewrite Hk, E in Et. done.
Qed.

Lemma keyed_rep_new : KeyedRep keyed_new ∅ 0.
Proof.
  split; [done| |cbn [keyed_new k_commit p_dirty pending_default]; by rewrite size_empty].
  exists ∅. split_and!; [apply trie_rep_new|..]; intros; rewrite ?leaf_map_empty; done.
Qed.

Lemma keyed_rep_weaken k m w w' : w <= w' -> KeyedRep k m w -> KeyedRep k m w'.
Proof. intros Hw [? ? ?]. split; [done..|lia]. Qed.

(** Changing one record and marking it. *)
Lemma keyed_rep_touched k m m' key w :
  KeyedRep k m w -> (forall key', key' <> key -> m' !! key' = m !! key') ->
  KeyedRep (keyed_touched (mkKeyed m' (k_commit k) (k_legacy k)) key) m' (w + 2).
Proof.
  intros [Hm (tm & Ht & Ha & Hf) Hw] Hd. split; simpl; [done| |].
  - exists tm. split_and!; [done| |done]. intros key'. rewrite not_elem_of_union, not_elem_of_singleton.
    intros [Hne Hn]. rewrite Ha, !leaf_map_lookup, Hd by done. done.
  - assert (size ({[key]} ∪ p_dirty (k_commit k)) <= 1 + size (p_dirty (k_commit k)))%nat; [|lia].
    rewrite size_union_alt, size_singleton. apply le_n_S, subseteq_size. set_solver.
Qed.

Lemma keyed_rep_insert k m key v w :
  KeyedRep k m w ->
  (keyed_insert k key v).1 = m !! key /\ KeyedRep (keyed_insert k key v).2 (<[key := v]> m) (w + 2).
Proof.
  intros Hk. pose proof Hk as [Hm _ _]. simpl. rewrite Hm. split; [done|].
  eapply keyed_rep_touched; [done|]. intros key' Hne. by rewrite lookup_insert_ne.
Qed.

Lemma keyed_rep_remove k m key w :
  KeyedRep k m w ->
  (keyed_remove k key).1 = m !! key /\ KeyedRep (keyed_remove k key).2 (delete key m) (w + 2).
Proof.
  intros Hk. pose proof Hk as [Hm _ _]. unfold keyed_remove. rewrite Hm.
  destruct (m !! key) as [old|] eqn:E; simpl; split; try done.
  - eapply keyed_rep_touched; [done|]. intros key' Hne. by rewrite lookup_delete_ne.
  - rewrite delete_id by done. eapply keyed_rep_weaken, Hk. lia.
Qed.

Lemma keyed_rep_get_mut k m key f w :
  KeyedRep k m w ->
  match m !! key with
  | None => keyed_get_mut k key f = None
  | Some v => exists k', keyed_get_mut k key f = Some k' /\ KeyedRep k' (<[key := f v]> m) (w + 2)
  end.
Proof.
  intros Hk. pose proof Hk as [Hm _ _]. unfold keyed_get_mut. rewrite Hm.
  destruct (m !! key) as [v|] eqn:E; [|done]. eexists. split; [done|].
  eapply keyed_rep_touched; [done|]. intros key' Hne. by rewrite lookup_insert_ne.
Qed.

Lemma keyed_rep_entry k m key default f w :
  KeyedRep k m w ->
  KeyedRep (keyed_entry_or_insert k key default f)
    (<[key := f (from_option Datatypes.id default (m !! key))]> m) (w + 2).
Proof.
  intros Hk. pose proof Hk as [Hm _ _]. unfold keyed_entry_or_insert. rewrite Hm.
  destruct (m !! key) as [v|] eqn:E; simpl.
  - rewrite E. eapply keyed_rep_touched; [done|]. intros key' Hne. by rewrite lookup_insert_ne.
  - rewrite lookup_insert_eq, insert_insert_eq. eapply keyed_rep_touched; [done|].
    intros key' Hne. by rewrite lookup_insert_ne.
Qed.

(** ** Flushing *)

Lemma flush_key_ok m t tm key :
  trie_rep t tm -> room t 2 ->
  exists t', flush_key m t key = Some t' /\ (length (nodes t') <= 2 + length (nodes t))%nat
    /\ trie_rep t' (match m !! key with
                    | Some v => <[key_bytes key := keyed_leaf key v]> tm
                    | None => delete (key_bytes key) tm
                    end).
Proof.
  intros Ht Hroom. unfold flush_key. destruct (m !! key) as [v|].
  - destruct (trie_set_ok t tm (key_bytes key) (keyed_leaf key v) Ht Hroom) as (t' & -> & ? & ?).
    by exists t'.
  - destruct (trie_remove_ok t tm (key_bytes key) Ht) as (t' & -> & ? & ?). exists t'.
    split_and!; [done|lia|done].
Qed.

(** [flush] brings the trie up to date and nothing else. *)
Lemma keyed_flush_ok k m w :
  KeyedRep k m w -> w <= 2 ^ 32 ->
  exists k', keyed_flush k = Some k' /\ KeyedRep k' m w /\ k_legacy k' = k_legacy k
    /\ trie_rep (p_trie (k_commit k')) (leaf_map m) /\ p_dirty (k_commit k') = ∅.
Proof.
  intros [Hm (tm & Ht & Ha & Hf) Hw] Hcap. unfold keyed_flush.
  pose (I := fun (t : Trie) (l : list K) => exists tm, trie_rep t tm
    /\ (forall key, key ∉ l -> tm !! key_bytes key = leaf_map m !! key_bytes key)
    /\ (forall kb, (forall key, kb <> key_bytes key) -> tm !! kb = None)
    /\ Z.of_nat (length (nodes t) + 2 * length l) <= w).
  destruct (fold_m_ind (flush_key (k_map k)) I) with (l := btree_keys (p_dirty (k_commit k)))
    (s := p_trie (k_commit k)) as (t' & -> & tm' & Ht' & Ha' & Hf' & Hw').
  - intros t key l (tm1 & Ht1 & Ha1 & Hf1 & Hw1). simpl in Hw1.
    destruct (flush_key_ok (k_map k) t tm1 key Ht1) as (t' & E & Hn & Ht'); [unfold room; lia|].
    exists t'. split; [done|]. eexists. split; [exact Ht'|]. rewrite Hm. split_and!; [| |lia].
    + intros key' Hn'. destruct (decide (key' = key)) as [->|Hne].
      * rewrite leaf_map_lookup. destruct (m !! key); simpl; by rewrite ?lookup_insert_eq, ?lookup_delete_eq.
      * assert (key_bytes key <> key_bytes key') as Hnb by (intros E'%(inj _); congruence).
        rewrite <- Ha1 by (rewrite elem_of_cons; tauto).
        destruct (m !! key); by rewrite ?lookup_insert_ne, ?lookup_delete_ne.
    + intros kb Hkb. destruct (m !! key);
        rewrite ?lookup_insert_ne, ?lookup_delete_ne; eauto using not_eq_sym.
  - exists tm. split_and!; [done| |done|].
    + intros key. rewrite elem_of_btree_keys. apply Ha.
    + unfold btree_keys. rewrite merge_sort_Permutation. exact Hw.
  - simpl. assert (trie_rep t' (leaf_map m)) as Hrep.
    { rewrite <- (leaf_map_eq m tm'); try done. intros key. apply Ha', not_elem_of_nil. }
    eexists. split; [done|]. split_and!; try done. split; simpl; [done| |].
    + exists (leaf_map m). split_and!; try done. apply leaf_map_foreign.
    + pose proof (size_empty (C := gset K)) as Hz. simpl in *. lia.
Qed.

Lemma keyed_rep_set_trie k m w t m' :
  KeyedRep k m w -> p_dirty (k_commit k) = ∅ -> trie_rep t m' -> m' = leaf_map m ->
  length (nodes t) = length (nodes (p_trie (k_commit k))) ->
  KeyedRep (mkKeyed (k_map k) (mkPending t (p_dirty (k_commit k))) (k_legacy k)) m w.
Proof.
  intros [Hm _ Hw] Hd Ht -> Hlen. split; simpl; [done| |by rewrite Hlen].
  exists (leaf_map m). split_and!; try done. apply leaf_map_foreign.
Qed.

(** The commitment is the reference commitment of the leaves of the records. *)
Lemma keyed_commitment_ok k m w :
  KeyedRep k m w -> w <= 2 ^ 32 ->
  exists k', keyed_commitment k = Some (commitment (leaf_map m), k') /\ KeyedRep k' m w
    /\ k_legacy k' = k_legacy k /\ keyed_pending k' = 0%nat.
Proof.
  intros Hk Hcap. unfold keyed_commitment.
  destruct (keyed_flush_ok k m w Hk Hcap) as (k1 & -> & Hk1 & Hleg & Ht & Hd).
  destruct (trie_root_ok _ _ Ht) as (t' & E & Ht' & Hlen & _). cbn [mbind option_bind]. rewrite E.
  eexists. split; [done|]. split_and!; [by eapply keyed_rep_set_trie|done|].
  unfold keyed_pending. simpl. by rewrite Hd, size_empty.
Qed.

(** ** The cached v1 commitment *)

(** The cache, where filled, holds [f] of the map. *)
Definition legacy_ok (f : gmap K V -> bytes 32) k : Prop := forall c, k_legacy k = Some c -> c = f (k_map k).

Lemma keyed_legacy_ok f k :
  legacy_ok f k ->
  (keyed_legacy_commitment k f).1 = f (k_map k) /\ legacy_ok f (keyed_legacy_commitment k f).2.
Proof.
  unfold legacy_ok, keyed_legacy_commitment. intros Hk. destruct (k_legacy k) as [c|] eqn:E; simpl.
  - split; [by apply Hk | by rewrite E].
  - split; [done|]. by intros c [= <-].
Qed.

Lemma legacy_ok_same f k k' :
  k_legacy k' = k_legacy k -> k_map k' = k_map k -> legacy_ok f k -> legacy_ok f k'.
Proof. unfold legacy_ok. by intros -> ->. Qed.

(** ** Histories *)

Lemma keyed_prove_ok k m key w :
  KeyedRep k m w -> w <= 2 ^ 32 ->
  exists p k', keyed_prove k key = Some (p, k') /\ KeyedRep k' m w /\ k_legacy k' = k_legacy k
    /\ trie_verify p (commitment (leaf_map m)) (key_bytes key) (keyed_leaf key <$> m !! key) = Some true.
Proof.
  intros Hk Hcap. unfold keyed_prove.
  destruct (keyed_flush_ok k m w Hk Hcap) as (k1 & -> & Hk1 & Hleg & Ht & Hd).
  destruct (trie_prove_ok _ _ (key_bytes key) Ht) as (p & t' & E & Ht' & Hv).
  pose proof (trie_prove_nodes _ _ _ _ _ Ht E) as Hlen. cbn [mbind option_bind]. rewrite E.
  eexists _, _. split; [done|]. split_and!; [by eapply keyed_rep_set_trie|done|].
  by rewrite leaf_map_lookup in Hv.
Qed.

Inductive keyed_op :=
| KInsert (key : K) (v : V)
| KRemove (key : K)
| KGetMut (key : K) (f : V -> V)
| KEntry (key : K) (default : V) (f : V -> V)
| KClear
| KCommitment
| KLegacy
| KProve (key : K).

Inductive keyed_out :=
| KOld (old : option V)
| KFound (b : bool)
| KDone
| KDigest (d : Digest)
| KLegacyIs (c : bytes 32)
| KProof (p : TrieProof).

Section History.
  Context (f : gmap K V -> bytes 32).

(** One call on a committed map; [f] is the v1 commitment function. *)
Definition keyed_step k (o : keyed_op) : option (keyed_out * Keyed K V) :=
  match o with
  | KInsert key v => let '(old, k) := keyed_insert k key v in Some (KOld old, k)
  | KRemove key => let '(old, k) := keyed_remove k key in Some (KOld old, k)
  | KGetMut key g =>
      match keyed_get_mut k key g with
      | Some k => Some (KFound true, k)
      | None => Some (KFound false, k)
      end
  | KEntry key default g => Some (KDone, keyed_entry_or_insert k key default g)
  | KClear => Some (KDone, keyed_clear k)
  | KCommitment => '(d, k) ← keyed_commitment k; Some (KDigest d, k)
  | KLegacy => let '(c, k) := keyed_legacy_commitment k f in Some (KLegacyIs c, k)
  | KProve key => '(p, k) ← keyed_prove k key; Some (KProof p, k)
  end.

(** What the call must answer, and the map it leaves. *)
Inductive keyed_spec (m : gmap K V) : keyed_op -> keyed_out -> gmap K V -> Prop :=
| ks_insert key v : keyed_spec m (KInsert key v) (KOld (m !! key)) (<[key := v]> m)
| ks_remove key : keyed_spec m (KRemove key) (KOld (m !! key)) (delete key m)
| ks_get_mut key g v :
    m !! key = Some v -> keyed_spec m (KGetMut key g) (KFound true) (<[key := g v]> m)
| ks_get_mut_absent key g : m !! key = None -> keyed_spec m (KGetMut key g) (KFound false) m
| ks_entry key v g :
    keyed_spec m (KEntry key v g) KDone (<[key := g (from_option Datatypes.id v (m !! key))]> m)
| ks_clear : keyed_spec m KClear KDone ∅
| ks_commitment : keyed_spec m KCommitment (KDigest (commitment (leaf_map m))) m
| ks_legacy : keyed_spec m KLegacy (KLegacyIs (f m)) m
| ks_prove key p :
    trie_verify p (commitment (leaf_map m)) (key_bytes key) (keyed_leaf key <$> m !! key) = Some true ->
    keyed_spec m (KProve key) (KProof p) m.

Lemma keyed_step_ok k m w o :
  KeyedRep k m w -> legacy_ok f k -> 0 <= w <= 2 ^ 32 ->
  exists out k' m', keyed_step k o = Some (out, k') /\ keyed_spec m o out m'
    /\ KeyedRep k' m' (w + 2) /\ legacy_ok f k'.
Proof.
  intros Hk Hl Hw. assert (forall k' m', KeyedRep k' m' w -> KeyedRep k' m' (w + 2)) as Hweak
    by (intros; eapply keyed_rep_weaken; [|done]; lia).
  destruct o as [key v|key|key g|key v g| | | |key]; cbn [keyed_step].
  - destruct (keyed_rep_insert k m key v w Hk) as [E Hk'].
    destruct (keyed_insert k key v) as [old k'] eqn:Ei. simpl in *. subst old.
    eexists _, _, _. split_and!; [done|constructor|done|]. by injection Ei as _ <-.
  - destruct (keyed_rep_remove k m key w Hk) as [E Hk'].
    destruct (keyed_remove k key) as [old k'] eqn:Er. simpl in *. subst old.
    eexists _, _, _. split_and!; [done|constructor|done|].
    unfold keyed_remove in Er. destruct (k_map k !! key); by injection Er as _ <-.
  - pose proof (keyed_rep_get_mut k m key g w Hk) as Hg. destruct (m !! key) as [v|] eqn:E.
    + destruct Hg as (k' & Eg & Hk'). rewrite Eg. eexists _, _, _.
      split_and!; [done|by constructor|done|].
      unfold keyed_get_mut in Eg. destruct (k_map k !! key); [|done]. by injection Eg as <-.
    + rewrite Hg. eexists _, _, m. split_and!; [done|by constructor|by apply Hweak|done].
  - eexists _, _, _. split_and!; [done|constructor|by apply keyed_rep_entry|done].
  - eexists _, _, _. split_and!; [done|constructor| |done].
    eapply keyed_rep_weaken; [|apply keyed_rep_new]. lia.
  - destruct (keyed_commitment_ok k m w Hk) as (k' & -> & Hk' & Hleg & _); [lia|].
    eexists _, _, m. split_and!; [done|constructor|by apply Hweak|].
    eapply legacy_ok_same; [exact Hleg|by rewrite (kr_map _ _ _ Hk), (kr_map _ _ _ Hk')|done].
  - pose proof Hk as [Hm _ _]. destruct (keyed_legacy_ok f k Hl) as [E Hl'].
    destruct (keyed_legacy_commitment k f) as [c k'] eqn:Ec. simpl in *. subst c.
    eexists _, _, m. split_and!; [done|rewrite Hm; constructor| |done].
    unfold keyed_legacy_commitment in Ec. destruct (k_legacy k);
      apply (f_equal snd) in Ec; simpl in Ec; subst k'; apply Hweak.
    + done.
    + destruct Hk as [? ? ?]. by split.
  - destruct (keyed_prove_ok k m key w Hk) as (p & k' & -> & Hk' & Hleg & Hv); [lia|].
    eexists _, _, m. split_and!; [done|by constructor|by apply Hweak|].
    eapply legacy_ok_same; [exact Hleg|by rewrite (kr_map _ _ _ Hk), (kr_map _ _ _ Hk')|done].
Qed.

Fixpoint keyed_run k (ops : list keyed_op) : option (list keyed_out * Keyed K V) :=
  match ops with
  | [] => Some ([], k)
  | o :: ops => '(r, k) ← keyed_step k o; '(rs, k) ← keyed_run k ops; Some (r :: rs, k)
  end.

Inductive keyed_spec_run : gmap K V -> list keyed_op -> list keyed_out -> gmap K V -> Prop :=
| ksr_nil m : keyed_spec_run m [] [] m
| ksr_cons m o r m1 ops rs m2 :
    keyed_spec m o r m1 -> keyed_spec_run m1 ops rs m2 ->
    keyed_spec_run m (o :: ops) (r :: rs) m2.

Lemma keyed_run_ok ops k m w :
  KeyedRep k m w -> legacy_ok f k -> 0 <= w -> w + 2 * Z.of_nat (length ops) <= 2 ^ 32 ->
  exists outs k' m', keyed_run k ops = Some (outs, k') /\ keyed_spec_run m ops outs m'
    /\ KeyedRep k' m' (w + 2 * Z.of_nat (length ops)) /\ legacy_ok f k'.
Proof.
  revert k m w. induction ops as [|o ops IH]; intros k m w Hk Hl H0w Hw.
  { exists [], k, m. split_and!; [done|constructor| |done]. eapply keyed_rep_weaken, Hk. simpl; lia. }
  cbn [length] in Hw. destruct (keyed_step_ok k m w o Hk Hl) as (r & k1 & m1 & E & Hs & Hk1 & Hl1); [lia|].
  destruct (IH k1 m1 (w + 2) Hk1 Hl1) as (rs & k2 & m2 & E2 & Hs2 & Hk2 & Hl2); [lia..|].
  exists (r :: rs), k2, m2. cbn [keyed_run]. rewrite E. cbn [mbind option_bind]. rewrite E2.
  split_and!; [done|by econstructor| |done]. eapply keyed_rep_weaken, Hk2. cbn [length]. lia.
Qed.

(** C36: a committed map is a map with a commitment. Any history of fewer than 2^31 calls on a new
    committed map runs without a panic; every call answers what the map it stands for answers;
    the v2 commitment is always the reference commitment of the leaves of the current records,
    the v1 commitment (cached or not) is that of the current map, and every proof verifies. *)
Theorem keyed_refines_map ops :
  2 * Z.of_nat (length ops) <= 2 ^ 32 ->
  exists outs k m, keyed_run keyed_new ops = Some (outs, k) /\ keyed_spec_run ∅ ops outs m
    /\ k_map k = m.
Proof.
  intros Hw. destruct (keyed_run_ok ops keyed_new ∅ 0) as (outs & k & m & E & Hs & [Hm _ _] & _);
    [apply keyed_rep_new|done|lia|lia|]. by exists outs, k, m.
Qed.

End History.

End Ops.
End Keyed.

#[global] Arguments mkPending {_ K _ _} _ _.
#[global] Arguments p_trie {_ K _ _} _.
#[global] Arguments p_dirty {_ K _ _} _.
#[global] Arguments mkKeyed {_ K V _ _} _ _ _.
#[global] Arguments k_map {_ K V _ _} _.
#[global] Arguments k_commit {_ K V _ _} _.
#[global] Arguments k_legacy {_ K V _ _} _.

(** ** Witnesses *)

Import Toy.

Definition sample_calls : list (keyed_op (K := key32) (V := u64)) :=
  [KInsert (id32 1) (of_Z 64 10); KEntry (id32 2) (of_Z 64 0) (fun v => saturating_add v (of_Z 64 7)); KCommitment;
   KGetMut (id32 1) (fun v => saturating_add v (of_Z 64 5)); KRemove (id32 2); KProve (id32 1); KLegacy].

Lemma keyed_refines_map_witness :
  exists outs k m, keyed_run (fun _ => id32 0) keyed_new sample_calls = Some (outs, k)
    /\ keyed_spec_run (fun _ => id32 0) ∅ sample_calls outs m /\ k_map k = m.
Proof. apply (keyed_refines_map (fun _ => id32 0) sample_calls). by vm_compute. Defined.
