(* ===== verification/AxonIndex.v ===== *)
(** * Adjacency indexes (rs/src/keyed.rs, AxonIndex)

    An [AxonIndex] maps a particle to the list of its axon ids, mirrored by a trie per particle,
    a histogram of list lengths, and an outer trie whose leaf for a particle holds its degree and
    the root of its member trie. [None] is a panic: a broken mirror, an underflow. *)

From S2P Require Import Prelude.
From S2P Require Import Crypto.
From S2P Require Import Trie.
From S2P Require Import TrieTree.
From S2P Require Import TrieRefine.
From S2P Require Import TrieProofs.
From S2P Require Import TrieBinding.

Local Open Scope Z_scope.

Abbreviation Particle := (bytes 32).

Section AxonIndex.
  Context `{Nebu, Hemera}.

Record AxonIndex := mkAxonIndex {
  ai_map : gmap Particle (list Particle);
  ai_degrees : gmap nat nat;
  ai_sets : gmap Particle Trie;
  ai_trie : Trie;
  ai_dirty : gset Particle;
  ai_legacy : option (bytes 32);
}.

Definition axon_new : AxonIndex := mkAxonIndex ∅ ∅ ∅ trie_new ∅ None.

Definition member_digest (axon : Particle) : Digest := leaf_digest axon [].

(** The outer leaf: degree (2 limbs) and set root (4 limbs). *)
Definition axon_leaf (particle : Particle) (degree : u64) (set_root : Digest) : Digest :=
  leaf_digest particle (u64_limbs degree ++ quad_list set_root).

(** [degree_moved]: the histogram after one particle moves from degree [old] to [new]. *)
Definition degree_moved (degrees : gmap nat nat) (old new : nat) : option (gmap nat nat) :=
  if (old =? new)%nat then Some degrees
  else
    degrees ← (if (0 <? old)%nat then
                 n ← degrees !! old;
                 match n with
                 | O => None
                 | S n => Some (if (n =? 0)%nat then delete old degrees else <[old := n]> degrees)
                 end
               else Some degrees);
    Some (if (0 <? new)%nat
          then <[new := S (from_option id 0%nat (degrees !! new))]> degrees else degrees).

Definition degree (a : AxonIndex) (particle : Particle) : nat :=
  from_option length 0%nat (ai_map a !! particle).

Definition axon_touched (a : AxonIndex) (particle : Particle) : AxonIndex :=
  mkAxonIndex (ai_map a) (ai_degrees a) (ai_sets a) (ai_trie a) ({[particle]} ∪ ai_dirty a) None.

Definition set_ai_map (a : AxonIndex) m : AxonIndex :=
  mkAxonIndex m (ai_degrees a) (ai_sets a) (ai_trie a) (ai_dirty a) (ai_legacy a).
Definition set_ai_sets (a : AxonIndex) s : AxonIndex :=
  mkAxonIndex (ai_map a) (ai_degrees a) s (ai_trie a) (ai_dirty a) (ai_legacy a).
Definition set_ai_degrees (a : AxonIndex) d : AxonIndex :=
  mkAxonIndex (ai_map a) d (ai_sets a) (ai_trie a) (ai_dirty a) (ai_legacy a).

(** One particle of [flush]: the member tries and the outer trie. *)
Definition axon_flush_one (m : gmap Particle (list Particle)) (st : gmap Particle Trie * Trie)
    (particle : Particle) : option (gmap Particle Trie * Trie) :=
  let '(sets, trie) := st in
  match m !! particle, sets !! particle with
  | Some l, Some set =>
      '(r, set) ← trie_root set;
      '(_, trie) ← trie_set trie particle (axon_leaf particle (usize_u64 (length l)) r);
      Some (<[particle := set]> sets, trie)
  | _, _ => '(_, trie) ← trie_remove trie particle; Some (sets, trie)
  end.

Definition axon_flush (a : AxonIndex) : option AxonIndex :=
  '(sets, trie) ← fold_m (axon_flush_one (ai_map a)) (ai_sets a, ai_trie a) (btree_keys (ai_dirty a));
  Some (mkAxonIndex (ai_map a) (ai_degrees a) sets trie ∅ (ai_legacy a)).

Definition axon_pending (a : AxonIndex) : nat := size (ai_dirty a).

(** [add]: answers whether the axon was new. *)
Definition axon_add (a : AxonIndex) (particle axon : Particle) : option (bool * AxonIndex) :=
  let set := from_option id trie_new (ai_sets a !! particle) in
  '(new, set) ← trie_set set axon (member_digest axon);
  let a := set_ai_sets a (<[particle := set]> (ai_sets a)) in
  if new : bool then
    let l := from_option id [] (ai_map a !! particle) ++ [axon] in
    let a := set_ai_map a (<[particle := l]> (ai_map a)) in
    d ← degree_moved (ai_degrees a) (length l - 1) (length l);
    Some (true, axon_touched (set_ai_degrees a d) particle)
  else Some (false, a).

(** [remove]: drop the whole list, and answer it. *)
Definition axon_remove (a : AxonIndex) (particle : Particle) : option (option (list Particle) * AxonIndex) :=
  match ai_map a !! particle with
  | None => Some (None, a)
  | Some old =>
      let a := set_ai_map a (delete particle (ai_map a)) in
      let a := set_ai_sets a (delete particle (ai_sets a)) in
      d ← degree_moved (ai_degrees a) (length old) 0;
      Some (Some old, axon_touched (set_ai_degrees a d) particle)
  end.

(** The filter of [insert]: the first occurrences, and the trie of them. *)
Fixpoint axon_dedup (set : Trie) (l : list Particle) : option (list Particle * Trie) :=
  match l with
  | [] => Some ([], set)
  | x :: l =>
      '(new, set) ← trie_set set x (member_digest x);
      '(l, set) ← axon_dedup set l;
      Some (if new : bool then x :: l else l, set)
  end.

(** [insert]: replace the whole list. *)
Definition axon_insert (a : AxonIndex) (particle : Particle) (l : list Particle)
    : option (option (list Particle) * AxonIndex) :=
  '(old, a) ← axon_remove a particle;
  '(l, set) ← axon_dedup trie_new l;
  match l with
  | [] => Some (old, a)
  | _ =>
      d ← degree_moved (ai_degrees a) 0 (length l);
      let a := set_ai_degrees a d in
      let a := set_ai_map a (<[particle := l]> (ai_map a)) in
      let a := set_ai_sets a (<[particle := set]> (ai_sets a)) in
      Some (old, axon_touched a particle)
  end.

(** [remove_axon]: answers whether the axon was present. *)
Definition axon_remove_axon (a : AxonIndex) (particle axon : Particle) : option (bool * AxonIndex) :=
  match ai_sets a !! particle with
  | None => Some (false, a)
  | Some set =>
      '(present, set) ← trie_remove set axon;
      let a := set_ai_sets a (<[particle := set]> (ai_sets a)) in
      if present : bool then
        l ← ai_map a !! particle;
        let l' := filter (fun x => x <> axon) l in
        let a := set_ai_map a (<[particle := l']> (ai_map a)) in
        let a := if (length l' =? 0)%nat
          then set_ai_sets (set_ai_map a (delete particle (ai_map a))) (delete particle (ai_sets a))
          else a in
        d ← degree_moved (ai_degrees a) (length l) (length l');
        Some (true, axon_touched (set_ai_degrees a d) particle)
      else Some (false, a)
  end.

(** [truncate]: keep the first [n] axons, and answer how many were dropped. *)
Definition axon_truncate (a : AxonIndex) (particle : Particle) (n : nat) : option (nat * AxonIndex) :=
  let before := degree a particle in
  if (before <=? n)%nat then Some (0%nat, a)
  else if (n =? 0)%nat then
    '(old, a) ← axon_remove a particle;
    Some (from_option length 0%nat old, a)
  else
    l ← ai_map a !! particle;
    let dropped := drop n l in
    set ← ai_sets a !! particle;
    set ← fold_m (fun set axon => snd <$> trie_remove set axon) set dropped;
    let a := set_ai_map a (<[particle := take n l]> (ai_map a)) in
    let a := set_ai_sets a (<[particle := set]> (ai_sets a)) in
    d ← degree_moved (ai_degrees a) before n;
    Some (length dropped, axon_touched (set_ai_degrees a d) particle).

Definition axon_clear (a : AxonIndex) : AxonIndex := axon_new.

(** [max_degree]: the last key of the histogram. *)
Definition max_degree (a : AxonIndex) : nat := from_option fst 0%nat (last (btree_iter (ai_degrees a))).

Definition axon_commitment (a : AxonIndex) : option (Digest * AxonIndex) :=
  a ← axon_flush a;
  '(d, t) ← trie_root (ai_trie a);
  Some (d, mkAxonIndex (ai_map a) (ai_degrees a) (ai_sets a) t (ai_dirty a) (ai_legacy a)).

(** [set_root]: the root of a particle's member trie. *)
Definition axon_set_root (a : AxonIndex) (particle : Particle) : option (option Digest * AxonIndex) :=
  match ai_sets a !! particle with
  | None => Some (None, a)
  | Some set =>
      '(d, set) ← trie_root set;
      Some (Some d, set_ai_sets a (<[particle := set]> (ai_sets a)))
  end.

Definition axon_legacy_commitment (a : AxonIndex) (f : gmap Particle (list Particle) -> bytes 32)
    : bytes 32 * AxonIndex :=
  match ai_legacy a with
  | Some c => (c, a)
  | None => let c := f (ai_map a) in
      (c, mkAxonIndex (ai_map a) (ai_degrees a) (ai_sets a) (ai_trie a) (ai_dirty a) (Some c))
  end.

Definition axon_prove (a : AxonIndex) (particle : Particle) : option (TrieProof * AxonIndex) :=
  a ← axon_flush a;
  '(p, t) ← trie_prove (ai_trie a) particle;
  Some (p, mkAxonIndex (ai_map a) (ai_degrees a) (ai_sets a) t (ai_dirty a) (ai_legacy a)).

Definition axon_prove_member (a : AxonIndex) (particle axon : Particle)
    : option (option TrieProof * AxonIndex) :=
  match ai_sets a !! particle with
  | None => Some (None, a)
  | Some set =>
      '(p, set) ← trie_prove set axon;
      Some (Some p, set_ai_sets a (<[particle := set]> (ai_sets a)))
  end.

(** ** What an index presents *)

Definition member_map (l : list Particle) : gmap key32 Digest :=
  list_to_map (map (fun x => (x, member_digest x)) l).

Definition axon_entry (p : Particle) (l : list Particle) : Digest :=
  axon_leaf p (usize_u64 (length l)) (commitment (member_map l)).

(** The entries the outer commitment is over. *)
Definition axon_leaf_map (m : gmap Particle (list Particle)) : gmap key32 Digest :=
  map_imap (fun p l => Some (axon_entry p l)) m.

(** How many lists have length [d]. *)
Definition hist (m : gmap Particle (list Particle)) (d : nat) : nat :=
  size (filter (fun e => length e.2 = d) m).

Definition hist_entry (n : nat) : option nat := if (n =? 0)%nat then None else Some n.

Definition hist_ok (m : gmap Particle (list Particle)) (degrees : gmap nat nat) : Prop :=
  forall d, degrees !! d = hist_entry (hist m d).

Definition list_ok (l : list Particle) : Prop := l <> [] /\ NoDup l.

(** A list and its member trie. *)
Definition mirrors (w : Z) (ol : option (list Particle)) (ot : option Trie) : Prop :=
  match ol, ot with
  | Some l, Some t => trie_rep t (member_map l) /\ Z.of_nat (length (nodes t)) <= w
  | None, None => True
  | _, _ => False
  end.

Record AxonRep (a : AxonIndex) (m : gmap Particle (list Particle)) (w : Z) : Prop := {
  ar_map : ai_map a = m;
  ar_lists : map_Forall (fun _ l => list_ok l) m;
  ar_sets : forall p, mirrors w (m !! p) (ai_sets a !! p);
  ar_degrees : hist_ok m (ai_degrees a);
  ar_trie : exists tm, trie_rep (ai_trie a) tm
    /\ forall p, p ∉ ai_dirty a -> tm !! p = axon_leaf_map m !! p;
  ar_room : Z.of_nat (length (nodes (ai_trie a)) + 2 * size (ai_dirty a)) <= w;
}.

(** *** The histogram *)

Definition counts (ol : option (list Particle)) (d : nat) : nat :=
  match ol with Some l => if (length l =? d)%nat then 1 else 0 | None => 0 end.

Lemma hist_delete m p d : hist m d = (hist (delete p m) d + counts (m !! p) d)%nat.
Proof.
  unfold hist, counts. destruct (m !! p) as [l|] eqn:E; [|rewrite delete_id by done; lia].
  rewrite <- (insert_delete_id m p l E) at 1. destruct (Nat.eqb_spec (length l) d) as [Hl|Hl].
  - rewrite map_filter_insert_True by done. rewrite map_size_insert_None; [lia|].
    apply map_lookup_filter_None. left. apply lookup_delete_eq.
  - rewrite map_filter_insert_False, delete_delete_eq by done. lia.
Qed.

(** Replacing one list. *)
Definition relist (p : Particle) (ol : option (list Particle)) (m : gmap Particle (list Particle)) :=
  partial_alter (fun _ => ol) p m.

Lemma delete_relist p ol m : delete p (relist p ol m) = delete p m.
Proof.
  apply map_eq. intros q. destruct (decide (q = p)) as [->|Hne].
  - by rewrite !lookup_delete_eq.
  - rewrite !lookup_delete_ne by done. by apply lookup_partial_alter_ne.
Qed.

Lemma hist_relist m p ol d :
  (hist (relist p ol m) d + counts (m !! p) d = hist m d + counts ol d)%nat.
Proof.
  rewrite (hist_delete (relist p ol m) p), (hist_delete m p), delete_relist.
  unfold relist. rewrite lookup_partial_alter_eq. lia.
Qed.

Definition olen (ol : option (list Particle)) : nat := from_option length 0%nat ol.

(** Empty lists are not kept. *)
Definition olist_ok (ol : option (list Particle)) : Prop := from_option list_ok True ol.

Lemma counts_olen ol d : olist_ok ol -> counts ol d = if (olen ol =? d)%nat && (0 <? d)%nat then 1%nat else 0%nat.
Proof.
  destruct ol as [l|]; simpl.
  - intros [Hl _]. destruct l; [done|]. simpl. destruct d; [done|]. by rewrite andb_true_r.
  - intros _. by destruct d.
Qed.

Lemma degree_moved_ok m deg p ol :
  hist_ok m deg -> olist_ok (m !! p) -> olist_ok ol ->
  exists deg', degree_moved deg (olen (m !! p)) (olen ol) = Some deg'
    /\ hist_ok (relist p ol m) deg'.
Proof.
  intros Hd Ho Hn.
  assert (forall d, (hist (relist p ol m) d
      + (if (olen (m !! p) =? d) && (0 <? d) then 1 else 0)
    = hist m d + (if (olen ol =? d) && (0 <? d) then 1 else 0))%nat) as Hr
    by (intros d; rewrite <- !counts_olen by done; apply hist_relist).
  set (old := olen (m !! p)) in *. set (new := olen ol) in *. clearbody old new.
  set (m' := relist p ol m) in *. clearbody m'. clear Ho Hn.
  unfold degree_moved. destruct (Nat.eqb_spec old new) as [->|Hne].
  { exists deg. split; [done|]. intros d. rewrite Hd. f_equal. specialize (Hr d). lia. }
  assert (forall d, hist m' d = if (old =? d)%nat && (0 <? d)%nat then pred (hist m d)
    else if (new =? d)%nat && (0 <? d)%nat then S (hist m d) else hist m d) as Hh.
  { intros d. specialize (Hr d). destruct (Nat.eqb_spec old d), (Nat.eqb_spec new d); simpl in *;
      destruct d; simpl in *; lia. }
  assert (forall n, hist_entry (S n) = Some (S n)) as Hsome by done.
  assert (exists d1, (if (0 <? old)%nat then n ← deg !! old; match n with O => None
     | S n => Some (if (n =? 0)%nat then delete old deg else <[old := n]> deg) end
     else Some deg) = Some d1 /\ forall d, d1 !! d =
       if (old =? d)%nat && (0 <? d)%nat then hist_entry (pred (hist m d)) else hist_entry (hist m d))
    as (d1 & -> & H1).
  { destruct (Nat.ltb_spec 0 old) as [Hpos|Hz].
    - rewrite Hd. specialize (Hr old). rewrite Nat.eqb_refl in Hr.
      destruct (Nat.ltb_spec 0 old); [|lia]. simpl in Hr.
      destruct (Nat.eqb_spec new old); [congruence|]. simpl in Hr.
      destruct (hist m old) as [|cnt] eqn:En; [lia|]. simpl. eexists. split; [done|]. intros d.
      destruct (Nat.eqb_spec old d) as [<-|Hod]; simpl.
      + rewrite (proj2 (Nat.ltb_lt 0 old)), En by done. simpl. destruct cnt; simpl;
          [by rewrite lookup_delete_eq | by rewrite lookup_insert_eq].
      + destruct (cnt =? 0)%nat; by rewrite ?lookup_delete_ne, ?lookup_insert_ne by done.
    - exists deg. split; [done|]. intros d. rewrite Hd. destruct (Nat.eqb_spec old d); [|done].
      subst d. by rewrite (proj2 (Nat.ltb_ge 0 old)). }
  cbn [mbind option_bind]. eexists. split; [done|]. intros d. rewrite Hh.
  destruct (Nat.ltb_spec 0 new) as [Hpos|Hz].
  - destruct (decide (d = new)) as [->|Hdn].
    + rewrite lookup_insert_eq, H1, (proj2 (Nat.eqb_neq old new)), Nat.eqb_refl by done. simpl.
      rewrite (proj2 (Nat.ltb_lt 0 new)) by done. unfold hist_entry at 1. simpl.
      by destruct (hist m new).
    + rewrite lookup_insert_ne, H1 by done. case_match eqn:E; [done|].
      by rewrite (proj2 (Nat.eqb_neq new d)) by done.
  - rewrite H1. case_match; [done|]. destruct (Nat.eqb_spec new d); [|done].
    subst d. rewrite (proj2 (Nat.ltb_ge 0 new)) by done. done.
Qed.

(** *** Member maps *)

Lemma member_map_lookup l x : member_map l !! x = if decide (x ∈ l) then Some (member_digest x) else None.
Proof.
  unfold member_map. induction l as [|y l IH]; simpl; [done|].
  destruct (decide (x = y)) as [->|Hne].
  - rewrite lookup_insert_eq, decide_True; [done|]. apply elem_of_cons. by left.
  - rewrite lookup_insert_ne by done. rewrite IH. apply decide_ext. rewrite elem_of_cons. tauto.
Qed.

Lemma member_map_ext l l' : (forall x, x ∈ l <-> x ∈ l') -> member_map l = member_map l'.
Proof. intros E. apply map_eq. intros x. rewrite !member_map_lookup. by apply decide_ext. Qed.

Lemma member_map_snoc l x : member_map (l ++ [x]) = <[x := member_digest x]> (member_map l).
Proof.
  apply map_eq. intros y. rewrite member_map_lookup. destruct (decide (y = x)) as [->|Hne].
  - rewrite lookup_insert_eq, decide_True; [done|]. rewrite elem_of_app, list_elem_of_singleton. by right.
  - rewrite lookup_insert_ne, member_map_lookup by done. apply decide_ext.
    rewrite elem_of_app, list_elem_of_singleton. tauto.
Qed.

Lemma member_map_old l x : x ∈ l -> <[x := member_digest x]> (member_map l) = member_map l.
Proof. intros Hx. apply insert_id. by rewrite member_map_lookup, decide_True. Qed.

Lemma member_map_filter l x : member_map (filter (fun y => y <> x) l) = delete x (member_map l).
Proof.
  apply map_eq. intros y. rewrite member_map_lookup. destruct (decide (y = x)) as [->|Hne].
  - rewrite lookup_delete_eq, decide_False; [done|]. rewrite list_elem_of_filter. tauto.
  - rewrite lookup_delete_ne, member_map_lookup by done. apply decide_ext.
    rewrite list_elem_of_filter. tauto.
Qed.

(** *** Updates *)

Lemma axon_leaf_map_lookup m p : axon_leaf_map m !! p = axon_entry p <$> m !! p.
Proof. unfold axon_leaf_map. rewrite map_lookup_imap. by destruct (m !! p). Qed.

Lemma lookup_relist p ol m : relist p ol m !! p = ol.
Proof. apply lookup_partial_alter_eq. Qed.

Lemma lookup_relist_ne p q ol m : q <> p -> relist p ol m !! q = m !! q.
Proof. intros Hne. by apply lookup_partial_alter_ne. Qed.

Lemma relist_same p m : relist p (m !! p) m = m.
Proof. apply partial_alter_self. Qed.

Lemma mirrors_weaken w w' ol ot : w <= w' -> mirrors w ol ot -> mirrors w' ol ot.
Proof. destruct ol, ot; simpl; try done. intros ? [? ?]. split; [done|lia]. Qed.

Lemma axon_rep_weaken a m w w' : w <= w' -> AxonRep a m w -> AxonRep a m w'.
Proof.
  intros Hw [Hm Hl Hs Hd Ht Hr]. split; try done; [|lia].
  intros p. eapply mirrors_weaken; [exact Hw|apply Hs].
Qed.

Lemma axon_rep_olist a m w p : AxonRep a m w -> olist_ok (m !! p).
Proof. intros [_ Hl _ _ _ _]. destruct (m !! p) as [l|] eqn:E; [|done]. by apply Hl in E. Qed.

Lemma axon_rep_pos a m w : AxonRep a m w -> 0 <= w.
Proof. intros [_ _ _ _ _ Hr]. lia. Qed.

(** The common end of every mutator: one list and its mirror replaced, the particle touched. *)
Lemma axon_rep_update a m w p ol ot deg' leg w' :
  AxonRep a m w -> w + 2 <= w' -> olist_ok ol -> mirrors w' ol ot -> hist_ok (relist p ol m) deg' ->
  AxonRep (axon_touched (mkAxonIndex (relist p ol m) deg' (partial_alter (fun _ => ot) p (ai_sets a))
             (ai_trie a) (ai_dirty a) leg) p) (relist p ol m) w'.
Proof.
  intros [Hm Hl Hs Hd (tm & Ht & Ha) Hr] Hw Ho Hmir Hh. split; simpl; [done| | |done| |].
  - intros q l Hq. destruct (decide (q = p)) as [->|Hne].
    + rewrite lookup_relist in Hq. by subst ol.
    + rewrite lookup_relist_ne in Hq by done. by eapply Hl.
  - intros q. destruct (decide (q = p)) as [->|Hne].
    + by rewrite lookup_relist, lookup_partial_alter_eq.
    + rewrite lookup_relist_ne, lookup_partial_alter_ne by done.
      eapply mirrors_weaken; [|apply Hs]. lia.
  - exists tm. split; [done|]. intros q. rewrite not_elem_of_union, not_elem_of_singleton.
    intros [Hne Hn]. by rewrite Ha, !axon_leaf_map_lookup, lookup_relist_ne by done.
  - assert (size ({[p]} ∪ ai_dirty a) <= 1 + size (ai_dirty a))%nat; [|lia].
    rewrite size_union_alt, size_singleton. apply le_n_S, subseteq_size. set_solver.
Qed.

Lemma member_map_nil : member_map [] = ∅.
Proof. done. Qed.

(** The member trie of a particle, empty where there is none. *)
Lemma axon_rep_set a m w p :
  AxonRep a m w ->
  trie_rep (from_option id trie_new (ai_sets a !! p)) (member_map (from_option id [] (m !! p)))
  /\ Z.of_nat (length (nodes (from_option id trie_new (ai_sets a !! p)))) <= w.
Proof.
  intros Hrep. pose proof (axon_rep_pos _ _ _ Hrep). destruct Hrep as [_ _ Hs _ _ _].
  specialize (Hs p). destruct (m !! p), (ai_sets a !! p); simpl in *; try done.
  split; [apply trie_rep_new|done].
Qed.

Lemma list_ok_snoc l x : NoDup l -> x ∉ l -> list_ok (l ++ [x]).
Proof.
  intros Hl Hx. split; [by destruct l|]. apply NoDup_app. split_and!; [done| |apply NoDup_singleton].
  by intros y Hy ->%list_elem_of_singleton.
Qed.

Lemma axon_rep_NoDup a m w p : AxonRep a m w -> NoDup (from_option id [] (m !! p)).
Proof.
  intros Hrep. pose proof (axon_rep_olist a m w p Hrep) as Ho.
  destruct (m !! p); [apply Ho | constructor].
Qed.

(** [add] appends a new axon, and leaves the list alone otherwise. *)
Lemma axon_add_ok a m w p x :
  AxonRep a m w -> w + 2 <= 2 ^ 32 ->
  let l := from_option id [] (m !! p) in
  exists a', axon_add a p x = Some (bool_decide (x ∉ l), a')
    /\ AxonRep a' (if bool_decide (x ∉ l) then <[p := l ++ [x]]> m else m) (w + 2).
Proof.
  intros Hrep Hw l. destruct (axon_rep_set a m w p Hrep) as [Ht Hn]. fold l in Ht.
  unfold axon_add.
  destruct (trie_set_ok _ _ x (member_digest x) Ht) as (t' & -> & Ht' & Hn'); [unfold room; lia|].
  cbn [mbind option_bind].
  assert (bool_decide (member_map l !! x = None) = bool_decide (x ∉ l)) as ->.
  { apply bool_decide_ext. rewrite member_map_lookup. case_decide; naive_solver. }
  pose proof (axon_rep_olist a m w p Hrep) as Ho. pose proof Hrep as [Hm Hl Hs Hd _ _].
  assert (NoDup l) as Hnd by (by eapply axon_rep_NoDup).
  case_bool_decide as Hx; cbn [ai_map ai_degrees set_ai_map set_ai_sets].
  - rewrite Hm. fold l.
    destruct (degree_moved_ok m (ai_degrees a) p (Some (l ++ [x])) Hd Ho) as (d' & E & Hd').
    { by apply list_ok_snoc. }
    assert (olen (m !! p) = length (l ++ [x]) - 1)%nat as El.
    { subst l. unfold olen. destruct (m !! p); rewrite length_app; simpl; lia. }
    rewrite El in E. simpl in E. rewrite E. cbn [mbind option_bind]. eexists. split; [done|].
    eapply (axon_rep_update a m w p (Some (l ++ [x])) (Some t') d'); [done|lia| | |done].
    + by apply list_ok_snoc.
    + simpl. rewrite member_map_snoc. split; [done|lia].
  - eexists. split; [done|]. rewrite member_map_old in Ht' by done.
    destruct Hrep as [_ _ _ _ Htr Hr]. split; simpl; try done; [|lia].
    intros q. destruct (decide (q = p)) as [->|Hne].
    + rewrite lookup_insert_eq. subst l. destruct (m !! p); [|by apply not_elem_of_nil in Hx].
      split; [done|lia].
    + rewrite lookup_insert_ne by done. eapply mirrors_weaken; [|apply Hs]. lia.
Qed.

(** [remove] drops the list and answers it. *)
Lemma axon_remove_ok a m w p :
  AxonRep a m w ->
  exists a', axon_remove a p = Some (m !! p, a') /\ AxonRep a' (delete p m) (w + 2)
    /\ (m !! p = None -> a' = a).
Proof.
  intros Hrep. pose proof (axon_rep_olist a m w p Hrep) as Ho. pose proof Hrep as [Hm _ Hs Hd _ _].
  unfold axon_remove. rewrite Hm. destruct (m !! p) as [l|] eqn:E.
  - destruct (degree_moved_ok m (ai_degrees a) p None Hd) as (d' & Ed & Hd'); [by rewrite E|done|].
    rewrite E in Ed. simpl in *. rewrite Ed. cbn [mbind option_bind].
    eexists. split_and!; [done| |done].
    by eapply (axon_rep_update a m w p None None d').
  - exists a. split_and!; [done| |done]. rewrite delete_id by done.
    eapply axon_rep_weaken, Hrep. lia.
Qed.

(** The first occurrences of a list, given those already seen. *)
Fixpoint first_occ (seen l : list Particle) : list Particle :=
  match l with
  | [] => []
  | x :: l => if decide (x ∈ seen) then first_occ seen l else x :: first_occ (seen ++ [x]) l
  end.

Lemma elem_of_first_occ seen l x : x ∈ first_occ seen l <-> x ∈ l /\ x ∉ seen.
Proof.
  revert seen. induction l as [|y l IH]; intros seen; simpl; [set_solver|].
  case_decide as Hy; [rewrite IH; set_solver|].
  rewrite !elem_of_cons, IH, elem_of_app, list_elem_of_singleton.
  destruct (decide (x = y)); naive_solver.
Qed.

Lemma NoDup_first_occ seen l : NoDup (first_occ seen l).
Proof.
  revert seen. induction l as [|y l IH]; intros seen; simpl; [constructor|].
  case_decide; [done|]. constructor; [|done]. rewrite elem_of_first_occ. set_solver.
Qed.

Lemma axon_dedup_ok l t seen :
  trie_rep t (member_map seen) -> room t (2 * Z.of_nat (length l)) ->
  exists t', axon_dedup t l = Some (first_occ seen l, t')
    /\ trie_rep t' (member_map (seen ++ first_occ seen l))
    /\ (length (nodes t') <= length (nodes t) + 2 * length l)%nat.
Proof.
  revert t seen. induction l as [|x l IH]; intros t seen Ht Hroom; cbn [axon_dedup first_occ].
  { exists t. rewrite app_nil_r. split_and!; [done..|lia]. }
  unfold room in Hroom. cbn [length] in Hroom.
  destruct (trie_set_ok t _ x (member_digest x) Ht) as (t1 & -> & Ht1 & Hn1); [unfold room; lia|].
  cbn [mbind option_bind]. rewrite member_map_lookup. destruct (decide (x ∈ seen)) as [Hx|Hx].
  - rewrite member_map_old in Ht1 by done.
    destruct (IH t1 seen Ht1) as (t2 & -> & Ht2 & Hn2); [unfold room; lia|].
    exists t2. split_and!; [done..|cbn [length]; lia].
  - rewrite <- member_map_snoc in Ht1.
    destruct (IH t1 (seen ++ [x]) Ht1) as (t2 & -> & Ht2 & Hn2); [unfold room; lia|].
    rewrite <- app_assoc in Ht2. exists t2. split_and!; [done..|cbn [length]; lia].
Qed.

(** [insert] installs the first occurrences of the list. *)
Lemma axon_insert_ok a m w p l :
  AxonRep a m w -> w + 4 <= 2 ^ 32 -> 2 * Z.of_nat (length l) <= w + 4 ->
  exists a', axon_insert a p l = Some (m !! p, a')
    /\ AxonRep a' (match first_occ [] l with [] => delete p m | l' => <[p := l']> m end) (w + 4).
Proof.
  intros Hrep Hw Hl. destruct (axon_remove_ok a m w p Hrep) as (a1 & E1 & Hrep1 & _).
  unfold axon_insert. rewrite E1. cbn [mbind option_bind].
  destruct (axon_dedup_ok l trie_new [] trie_rep_new) as (t & -> & Ht & Hn); [unfold room; simpl; lia|].
  cbn [mbind option_bind]. simpl in Ht, Hn. pose proof (NoDup_first_occ [] l) as Hnd.
  destruct (first_occ [] l) as [|x l'] eqn:El.
  { exists a1. split; [done|]. eapply axon_rep_weaken, Hrep1. lia. }
  pose proof Hrep1 as [Hm1 _ _ Hd1 _ _].
  destruct (degree_moved_ok (delete p m) (ai_degrees a1) p (Some (x :: l')) Hd1) as (d' & Ed & Hd').
  { by rewrite lookup_delete_eq. } { by split. }
  rewrite lookup_delete_eq in Ed. unfold olen in Ed. cbn [from_option] in Ed. rewrite Ed. cbn [mbind option_bind].
  eexists. split; [done|]. cbn [ai_map set_ai_degrees set_ai_map set_ai_sets]. rewrite Hm1.
  assert (<[p := x :: l']> m = relist p (Some (x :: l')) (delete p m)) as ->
    by (exact (eq_sym (insert_delete_eq m p (x :: l')))).
  eapply (axon_rep_update a1 (delete p m) (w + 2) p (Some (x :: l')) (Some t) d'); try done.
  - lia.
  - split; [done|lia].
Qed.

Lemma filter_absent (x : Particle) (l : list Particle) : x ∉ l -> filter (fun y => y <> x) l = l.
Proof.
  intros Hx. induction l as [|y l IH]; [done|]. rewrite filter_cons_True by set_solver.
  rewrite IH by set_solver. done.
Qed.

(** [remove_axon] takes one axon out, and the list with its last one. *)
Lemma axon_remove_axon_ok a m w p x :
  AxonRep a m w ->
  let l := from_option id [] (m !! p) in
  let l' := filter (fun y => y <> x) l in
  exists a', axon_remove_axon a p x = Some (bool_decide (x ∈ l), a')
    /\ AxonRep a' (match l' with [] => delete p m | _ => <[p := l']> m end) (w + 2).
Proof.
  intros Hrep l l'. pose proof (axon_rep_olist a m w p Hrep) as Ho.
  pose proof (axon_rep_NoDup a m w p Hrep) as Hnd. pose proof Hrep as [Hm Hl Hs Hd _ _].
  unfold axon_remove_axon. pose proof (Hs p) as Hp.
  destruct (ai_sets a !! p) as [t|] eqn:Et.
  2: { destruct (m !! p) eqn:El; [done|]. exists a. subst l l'. simpl. split; [done|].
       rewrite delete_id by done. eapply axon_rep_weaken, Hrep. lia. }
  destruct (m !! p) as [l0|] eqn:El; [|done]. subst l. cbn [from_option id] in *.
  destruct Hp as [Ht Hn]. destruct (trie_remove_ok t _ x Ht) as (t' & -> & Ht' & Hn').
  cbn [mbind option_bind]. rewrite <- member_map_filter in Ht'. fold l' in Ht'.
  assert (bool_decide (is_Some (member_map l0 !! x)) = bool_decide (x ∈ l0)) as ->.
  { apply bool_decide_ext. rewrite member_map_lookup. by case_decide; split. }
  case_bool_decide as Hx.
  2: { assert (l' = l0) as E by (by apply filter_absent). rewrite E in *.
       eexists. split; [done|]. destruct l0 as [|y l0]; [by destruct Ho|].
       rewrite (insert_id m) by done. destruct Hrep as [_ _ _ _ Htr Hr]. split; simpl; try done; [|lia].
       intros q. destruct (decide (q = p)) as [->|Hne].
       - rewrite lookup_insert_eq, El. split; [done|lia].
       - rewrite lookup_insert_ne by done. eapply mirrors_weaken; [|apply Hs]. lia. }
  cbn [ai_map set_ai_sets]. rewrite Hm, El. cbn [mbind option_bind]. fold l'.
  set (ol := match l' with [] => None | _ => Some l' end).
  destruct (degree_moved_ok m (ai_degrees a) p ol Hd) as (d' & Ed & Hd').
  { by rewrite El. } { subst ol. destruct l' eqn:E'; [done|]. split; [done|].
    rewrite <- E'. by apply NoDup_filter. }
  assert (olen ol = length l') as Eo by (subst ol; by destruct l').
  rewrite El, Eo in Ed. simpl olen in Ed.
  set (ot := match l' with [] => None | _ => Some t' end).
  pose proof (axon_rep_update a m w p ol ot d' None (w + 2) Hrep) as Hup.
  destruct l' as [|y l1] eqn:E'; cbn [length Nat.eqb ai_degrees set_ai_map set_ai_sets ai_map ai_sets].
  - cbn [length] in Ed. rewrite Ed. cbn [mbind option_bind]. eexists. split; [done|].
    cbn [set_ai_degrees axon_touched ai_map ai_sets ai_trie ai_dirty]. rewrite !delete_insert_eq.
    by apply Hup.
  - cbn [length] in Ed. rewrite Ed. cbn [mbind option_bind]. eexists. split; [done|].
    apply Hup; try done; [split; [done|]; rewrite <- E'; by apply NoDup_filter|].
    split; [done|lia].
Qed.

Lemma member_map_drop l1 l2 t :
  trie_rep t (member_map (l1 ++ l2)) -> NoDup (l1 ++ l2) ->
  exists t', fold_m (fun set axon => snd <$> trie_remove set axon) t l2 = Some t'
    /\ trie_rep t' (member_map l1) /\ length (nodes t') = length (nodes t).
Proof.
  revert t. induction l2 as [|x l2 IH]; intros t Ht Hnd; cbn [fold_m].
  { exists t. by rewrite app_nil_r in Ht. }
  destruct (trie_remove_ok t _ x Ht) as (t1 & -> & Ht1 & Hn1). cbn [fmap option_fmap option_map mbind option_bind snd].
  destruct (IH t1) as (t2 & -> & Ht2 & Hn2).
  - rewrite <- member_map_filter in Ht1. erewrite member_map_ext; [exact Ht1|]. intros y.
    rewrite list_elem_of_filter, !elem_of_app, elem_of_cons.
    apply NoDup_app in Hnd as (_ & Hd & [Hx _]%NoDup_cons).
    specialize (Hd y). rewrite elem_of_cons in Hd. naive_solver.
  - apply NoDup_app in Hnd as (H1' & Hd & [_ H2']%NoDup_cons). apply NoDup_app. split_and!; try done.
    intros y Hy Hy'. apply (Hd y Hy), elem_of_cons. by right.
  - exists t2. split_and!; [done..|congruence].
Qed.

(** [truncate] keeps a prefix. *)
Lemma axon_truncate_ok a m w p n :
  AxonRep a m w ->
  let l := from_option id [] (m !! p) in
  exists a', axon_truncate a p n = Some (length l - n, a')%nat
    /\ AxonRep a' (match take n l with [] => delete p m | l' => <[p := l']> m end) (w + 2).
Proof.
  intros Hrep l. pose proof (axon_rep_NoDup a m w p Hrep) as Hnd. fold l in Hnd.
  pose proof Hrep as [Hm Hl Hs Hd _ _]. unfold axon_truncate, degree. rewrite Hm.
  assert (from_option length 0%nat (m !! p) = length l) as -> by (subst l; by destruct (m !! p)).
  destruct (Nat.leb_spec (length l) n) as [Hle|Hgt].
  { exists a. replace (length l - n)%nat with 0%nat by lia. split; [done|].
    rewrite take_ge by done. eapply axon_rep_weaken; [|subst l; destruct (m !! p) as [l|] eqn:E].
    - instantiate (1 := w). lia.
    - apply Hl in E as Hl'. destruct l; [by destruct Hl'|]. cbn [from_option id]. by rewrite insert_id.
    - cbn [from_option id]. by rewrite delete_id. }
  destruct (Nat.eqb_spec n 0) as [->|Hn].
  { destruct (axon_remove_ok a m w p Hrep) as (a' & -> & Hrep' & _). cbn [mbind option_bind].
    exists a'. split; [|done]. rewrite Nat.sub_0_r. subst l. by destruct (m !! p). }
  destruct (m !! p) as [l0|] eqn:El; [|subst l; simpl in Hgt; lia]. subst l.
  cbn [from_option id mbind option_bind] in *. pose proof (Hs p) as Hp. rewrite El in Hp.
  destruct (ai_sets a !! p) as [t|]; [|done]. destruct Hp as [Ht Hnt]. cbn [mbind option_bind].
  pose proof (take_drop n l0) as Etd.
  destruct (member_map_drop (take n l0) (drop n l0) t) as (t' & -> & Ht' & Hnt'); [by rewrite Etd..|].
  cbn [mbind option_bind]. destruct (degree_moved_ok m (ai_degrees a) p (Some (take n l0)) Hd) as (d' & Ed & Hd').
  { rewrite El. by apply (Hl p). }
  { rewrite <- Etd in Hnd. apply NoDup_app in Hnd as [Hnd _]. split; [|done].
    destruct n, l0; simpl in *; (lia || done). }
  rewrite El in Ed. unfold olen in Ed. cbn [from_option] in Ed. rewrite length_take, Nat.min_l in Ed by lia.
  cbn [ai_degrees set_ai_map set_ai_sets]. rewrite Ed. cbn [mbind option_bind].
  eexists. split; [by rewrite length_drop|].
  assert (list_ok (take n l0)) as Hok.
  { rewrite <- Etd in Hnd. apply NoDup_app in Hnd as [Hnd _]. split; [|done].
    destruct n, l0; simpl in *; (lia || done). }
  destruct (take n l0) as [|y l1] eqn:Etake; [by destruct Hok|].
  apply (axon_rep_update a m w p (Some (y :: l1)) (Some t') d'); try done. split; [done|lia].
Qed.

(** *** Reads *)

Lemma axon_flush_ok a m w :
  AxonRep a m w -> w <= 2 ^ 32 ->
  exists a', axon_flush a = Some a' /\ AxonRep a' m w
    /\ trie_rep (ai_trie a') (axon_leaf_map m) /\ ai_dirty a' = ∅.
Proof.
  intros [Hm Hl Hs Hd (tm & Ht & Ha) Hr] Hw. unfold axon_flush.
  pose (I := fun (st : gmap Particle Trie * Trie) (l : list Particle) =>
    (forall p, mirrors w (m !! p) (st.1 !! p)) /\ exists tm, trie_rep st.2 tm
    /\ (forall p, p ∉ l -> tm !! p = axon_leaf_map m !! p)
    /\ Z.of_nat (length (nodes st.2) + 2 * length l) <= w).
  destruct (fold_m_ind (axon_flush_one (ai_map a)) I) with (l := btree_keys (ai_dirty a))
    (s := (ai_sets a, ai_trie a)) as ([sets trie] & -> & Hs' & tm' & Ht' & Ha' & Hw').
  - intros [sets trie] p l (Hs1 & tm1 & Ht1 & Ha1 & Hw1). cbn [fst snd length] in *. rewrite Hm.
    unfold axon_flush_one. pose proof (Hs1 p) as Hp.
    destruct (m !! p) as [lp|] eqn:El, (sets !! p) as [set|]; try done.
    + destruct Hp as [Hset Hnset]. destruct (trie_root_ok _ _ Hset) as (set' & -> & Hset' & Hlen & _).
      cbn [mbind option_bind].
      destruct (trie_set_ok trie tm1 p (axon_entry p lp) Ht1) as (t' & E & Ht2 & Hn2); [unfold room; lia|].
      unfold axon_entry in E. rewrite E. cbn [mbind option_bind]. eexists. split; [done|]. split.
      * intros q. cbn [fst]. destruct (decide (q = p)) as [->|Hne].
        -- rewrite lookup_insert_eq, El. split; [done|lia].
        -- rewrite lookup_insert_ne by done. apply Hs1.
      * eexists. split; [exact Ht2|]. split; [|cbn [snd]; lia]. intros q Hq.
        destruct (decide (q = p)) as [->|Hne].
        -- by rewrite lookup_insert_eq, axon_leaf_map_lookup, El.
        -- rewrite lookup_insert_ne by done. apply Ha1. rewrite elem_of_cons. tauto.
    + destruct (trie_remove_ok trie tm1 p Ht1) as (t' & -> & Ht2 & Hn2). cbn [mbind option_bind].
      eexists. split; [done|]. split; [done|]. eexists. split; [exact Ht2|].
      split; [|cbn [snd]; lia]. intros q Hq. destruct (decide (q = p)) as [->|Hne].
      * by rewrite lookup_delete_eq, axon_leaf_map_lookup, El.
      * rewrite lookup_delete_ne by done. apply Ha1. rewrite elem_of_cons. tauto.
  - split; [done|]. exists tm. split_and!; [done| |].
    + intros p. rewrite elem_of_btree_keys. apply Ha.
    + unfold btree_keys. rewrite merge_sort_Permutation. exact Hr.
  - cbn [fst snd mbind option_bind] in *.
    assert (tm' = axon_leaf_map m) as -> by (apply map_eq; intros p; apply Ha', not_elem_of_nil).
    eexists. split_and!; [done| |done|done]. split; simpl; try done.
    by exists (axon_leaf_map m).
Qed.

(** The outer commitment is the reference commitment of the entries. *)
Lemma axon_commitment_ok a m w :
  AxonRep a m w -> w <= 2 ^ 32 ->
  exists a', axon_commitment a = Some (commitment (axon_leaf_map m), a') /\ AxonRep a' m w.
Proof.
  intros Hrep Hw. unfold axon_commitment.
  destruct (axon_flush_ok a m w Hrep Hw) as (a1 & -> & [Hm Hl Hs Hd _ Hr] & Ht & Hdirty).
  destruct (trie_root_ok _ _ Ht) as (t' & E & Ht' & Hlen & _). cbn [mbind option_bind]. rewrite E.
  eexists. split; [done|]. split; simpl; try done; [|lia]. by exists (axon_leaf_map m).
Qed.

Lemma axon_set_root_ok a m w p :
  AxonRep a m w ->
  exists a', axon_set_root a p = Some ((fun l => commitment (member_map l)) <$> m !! p, a')
    /\ AxonRep a' m w.
Proof.
  intros [Hm Hl Hs Hd Ht Hr]. unfold axon_set_root. pose proof (Hs p) as Hp.
  destruct (m !! p) as [l|] eqn:El, (ai_sets a !! p) as [t|] eqn:Et; try done.
  - destruct Hp as [Hset Hn]. destruct (trie_root_ok _ _ Hset) as (t' & -> & Ht' & Hlen & _).
    cbn [mbind option_bind]. eexists. split; [done|]. split; simpl; try done. intros q.
    destruct (decide (q = p)) as [->|Hne].
    + rewrite lookup_insert_eq, El. split; [done|lia].
    + rewrite lookup_insert_ne by done. apply Hs.
  - by exists a.
Qed.

(** [max_degree] is the length of the longest list. *)
Lemma max_degree_ok a m w :
  AxonRep a m w ->
  (forall p l, m !! p = Some l -> (length l <= max_degree a)%nat)
  /\ (m = ∅ /\ max_degree a = 0%nat \/ exists p l, m !! p = Some l /\ length l = max_degree a).
Proof.
  intros [_ Hl _ Hd _ _]. unfold max_degree.
  assert (forall p l, m !! p = Some l -> exists n, ai_degrees a !! length l = Some n) as Hin.
  { intros p l Hp. rewrite Hd, (hist_delete m p), Hp. simpl. rewrite Nat.eqb_refl, Nat.add_comm.
    simpl. eauto. }
  destruct (last (btree_iter (ai_degrees a))) as [[d n]|] eqn:E; cbn [from_option fst].
  - apply btree_iter_last in E as [Hdn Hmax]. split.
    + intros p l (k & Hk)%Hin. apply Hmax in Hk. by apply Nat.leb_le in Hk.
    + right. rewrite Hd in Hdn. unfold hist_entry in Hdn.
      destruct (Nat.eqb_spec (hist m d) 0) as [|Hne]; [done|]. unfold hist in Hne.
      destruct (map_choose (filter (fun e => length e.2 = d) m)) as (p & l & Hp).
      { intros E. by rewrite E, map_size_empty in Hne. }
      apply map_lookup_filter_Some in Hp as [Hp Hlen]. by exists p, l.
  - apply btree_iter_last_None in E. split.
    + intros p l (k & Hk)%Hin. by rewrite E, lookup_empty in Hk.
    + left. split; [|done]. apply map_eq. intros p. rewrite lookup_empty.
      destruct (m !! p) as [l|] eqn:Ep; [|done]. apply Hin in Ep as [k Hk].
      by rewrite E, lookup_empty in Hk.
Qed.

Lemma axon_prove_ok a m w p :
  AxonRep a m w -> w <= 2 ^ 32 ->
  exists pr a', axon_prove a p = Some (pr, a') /\ AxonRep a' m w
    /\ trie_verify pr (commitment (axon_leaf_map m)) p (axon_entry p <$> m !! p) = Some true.
Proof.
  intros Hrep Hw. unfold axon_prove.
  destruct (axon_flush_ok a m w Hrep Hw) as (a1 & -> & [Hm Hl Hs Hd _ Hr] & Ht & Hdirty).
  destruct (trie_prove_ok _ _ p Ht) as (pr & t' & E & Ht' & Hv).
  pose proof (trie_prove_nodes _ _ _ _ _ Ht E) as Hlen. cbn [mbind option_bind]. rewrite E.
  eexists _, _. split; [done|]. rewrite axon_leaf_map_lookup in Hv. split; [|done].
  split; simpl; try done; [|lia]. by exists (axon_leaf_map m).
Qed.

Lemma axon_prove_member_ok a m w p x :
  AxonRep a m w ->
  exists opr a', axon_prove_member a p x = Some (opr, a') /\ AxonRep a' m w
    /\ match m !! p with
       | None => opr = None
       | Some l => exists pr, opr = Some pr /\ trie_verify pr (commitment (member_map l)) x
           (if decide (x ∈ l) then Some (member_digest x) else None) = Some true
       end.
Proof.
  intros [Hm Hl Hs Hd Ht Hr]. unfold axon_prove_member. pose proof (Hs p) as Hp.
  destruct (m !! p) as [l|] eqn:El, (ai_sets a !! p) as [t|] eqn:Et; try done.
  - destruct Hp as [Hset Hn]. destruct (trie_prove_ok _ _ x Hset) as (pr & t' & E & Ht' & Hv).
    pose proof (trie_prove_nodes _ _ _ _ _ Hset E) as Hlen. rewrite E.
    cbn [mbind option_bind]. eexists _, _. split; [done|]. rewrite member_map_lookup in Hv.
    split; [|eauto]. split; simpl; try done. intros q. destruct (decide (q = p)) as [->|Hne].
    + rewrite lookup_insert_eq, El. split; [done|lia].
    + rewrite lookup_insert_ne by done. apply Hs.
  - by exists None, a.
Qed.

(** ** Histories *)

Inductive axon_op :=
| AAdd (p x : Particle)
| AInsert (p : Particle) (l : list Particle)
| ARemove (p : Particle)
| ARemoveAxon (p x : Particle)
| ATruncate (p : Particle) (n : nat)
| AClear
| AMaxDegree
| ACommitment
| ASetRoot (p : Particle)
| AProve (p : Particle)
| AProveMember (p x : Particle).

Inductive axon_out :=
| ABool (b : bool)
| AList (l : option (list Particle))
| ANat (n : nat)
| ADone
| ADigest (d : Digest)
| ADigestOpt (d : option Digest)
| AProof (pr : TrieProof)
| AProofOpt (pr : option TrieProof).

Definition axon_step (a : AxonIndex) (o : axon_op) : option (axon_out * AxonIndex) :=
  match o with
  | AAdd p x => '(b, a) ← axon_add a p x; Some (ABool b, a)
  | AInsert p l => '(old, a) ← axon_insert a p l; Some (AList old, a)
  | ARemove p => '(old, a) ← axon_remove a p; Some (AList old, a)
  | ARemoveAxon p x => '(b, a) ← axon_remove_axon a p x; Some (ABool b, a)
  | ATruncate p n => '(n, a) ← axon_truncate a p n; Some (ANat n, a)
  | AClear => Some (ADone, axon_clear a)
  | AMaxDegree => Some (ANat (max_degree a), a)
  | ACommitment => '(d, a) ← axon_commitment a; Some (ADigest d, a)
  | ASetRoot p => '(d, a) ← axon_set_root a p; Some (ADigestOpt d, a)
  | AProve p => '(pr, a) ← axon_prove a p; Some (AProof pr, a)
  | AProveMember p x => '(pr, a) ← axon_prove_member a p x; Some (AProofOpt pr, a)
  end.

(** A list at [p], dropped when it is empty. *)
Definition put_list (p : Particle) (l : list Particle) (m : gmap Particle (list Particle)) :=
  match l with [] => delete p m | x :: l' => <[p := x :: l']> m end.

Definition list_at (m : gmap Particle (list Particle)) (p : Particle) : list Particle :=
  from_option id [] (m !! p).

Lemma put_list_match p l m : match l with [] => delete p m | _ => <[p := l]> m end = put_list p l m.
Proof. by destruct l. Qed.

Inductive axon_spec (m : gmap Particle (list Particle)) :
    axon_op -> axon_out -> gmap Particle (list Particle) -> Prop :=
| as_add p x : x ∉ list_at m p ->
    axon_spec m (AAdd p x) (ABool true) (<[p := list_at m p ++ [x]]> m)
| as_add_old p x : x ∈ list_at m p -> axon_spec m (AAdd p x) (ABool false) m
| as_insert p l : axon_spec m (AInsert p l) (AList (m !! p)) (put_list p (first_occ [] l) m)
| as_remove p : axon_spec m (ARemove p) (AList (m !! p)) (delete p m)
| as_remove_axon p x :
    axon_spec m (ARemoveAxon p x) (ABool (bool_decide (x ∈ list_at m p)))
      (put_list p (filter (fun y => y <> x) (list_at m p)) m)
| as_truncate p n :
    axon_spec m (ATruncate p n) (ANat (length (list_at m p) - n)) (put_list p (take n (list_at m p)) m)
| as_clear : axon_spec m AClear ADone ∅
| as_max_degree n :
    (forall p l, m !! p = Some l -> (length l <= n)%nat) ->
    (m = ∅ /\ n = 0%nat \/ exists p l, m !! p = Some l /\ length l = n) ->
    axon_spec m AMaxDegree (ANat n) m
| as_commitment : axon_spec m ACommitment (ADigest (commitment (axon_leaf_map m))) m
| as_set_root p :
    axon_spec m (ASetRoot p) (ADigestOpt ((fun l => commitment (member_map l)) <$> m !! p)) m
| as_prove p pr :
    trie_verify pr (commitment (axon_leaf_map m)) p (axon_entry p <$> m !! p) = Some true ->
    axon_spec m (AProve p) (AProof pr) m
| as_prove_member p x l pr :
    m !! p = Some l ->
    trie_verify pr (commitment (member_map l)) x
      (if decide (x ∈ l) then Some (member_digest x) else None) = Some true ->
    axon_spec m (AProveMember p x) (AProofOpt (Some pr)) m
| as_prove_member_none p x : m !! p = None -> axon_spec m (AProveMember p x) (AProofOpt None) m.

(** The arena cells a call may add. *)
Definition axon_cost (o : axon_op) : Z :=
  match o with AInsert _ l => 4 + 2 * Z.of_nat (length l) | _ => 2 end.

Lemma axon_rep_new : AxonRep axon_new ∅ 0.
Proof.
  split; cbn [axon_new ai_map ai_sets ai_degrees ai_trie ai_dirty];
    [done|by apply map_Forall_empty|done|done| |by rewrite size_empty].
  exists ∅. split; [apply trie_rep_new|done].
Qed.

Lemma axon_step_ok a m w o :
  AxonRep a m w -> w + axon_cost o <= 2 ^ 32 ->
  exists out a' m', axon_step a o = Some (out, a') /\ axon_spec m o out m'
    /\ AxonRep a' m' (w + axon_cost o).
Proof.
  intros Hrep Hw. pose proof (axon_rep_pos a m w Hrep) as Hpos.
  assert (forall a' m', AxonRep a' m' w -> AxonRep a' m' (w + 2)) as Hweak
    by (intros; eapply axon_rep_weaken; [|done]; lia).
  destruct o as [p x|p l|p|p x|p n| | | |p|p|p x]; cbn [axon_step axon_cost] in *.
  - destruct (axon_add_ok a m w p x Hrep) as (a' & -> & Hrep'); [lia|]. cbn [mbind option_bind].
    case_bool_decide; eexists _, _, _; (split_and!; [done|by constructor|done]).
  - destruct (axon_insert_ok a m (w + 2 * Z.of_nat (length l)) p l) as (a' & -> & Hrep');
      [eapply axon_rep_weaken, Hrep; lia|lia|lia|]. cbn [mbind option_bind].
    eexists _, _, _. split_and!; [done|constructor|].
    replace (w + (4 + 2 * Z.of_nat (length l))) with (w + 2 * Z.of_nat (length l) + 4) by lia.
    exact Hrep'.
  - destruct (axon_remove_ok a m w p Hrep) as (a' & -> & Hrep' & _).
    eexists _, _, _. split_and!; [done|constructor|done].
  - destruct (axon_remove_axon_ok a m w p x Hrep) as (a' & E & Hrep').
    fold (list_at m p) in E, Hrep'. rewrite E, put_list_match in *.
    eexists _, _, _. split_and!; [done|apply as_remove_axon|done].
  - destruct (axon_truncate_ok a m w p n Hrep) as (a' & E & Hrep').
    fold (list_at m p) in E, Hrep'. rewrite E.
    eexists _, _, _. split_and!; [done|apply as_truncate|exact Hrep'].
  - eexists _, _, _. split_and!; [done|constructor|]. eapply axon_rep_weaken, axon_rep_new. lia.
  - destruct (max_degree_ok a m w Hrep). eexists _, _, _. split_and!; [done|by constructor|auto].
  - destruct (axon_commitment_ok a m w Hrep) as (a' & -> & Hrep'); [lia|].
    eexists _, _, _. split_and!; [done|constructor|auto].
  - destruct (axon_set_root_ok a m w p Hrep) as (a' & -> & Hrep').
    eexists _, _, _. split_and!; [done|constructor|auto].
  - destruct (axon_prove_ok a m w p Hrep) as (pr & a' & -> & Hrep' & Hv); [lia|].
    eexists _, _, _. split_and!; [done|by constructor|auto].
  - destruct (axon_prove_member_ok a m w p x Hrep) as (opr & a' & -> & Hrep' & Hv).
    destruct (m !! p) as [l|] eqn:El.
    + destruct Hv as (pr & -> & Hv). eexists _, _, _. split_and!; [done|by econstructor|auto].
    + subst opr. eexists _, _, _. split_and!; [done|by econstructor|auto].
Qed.

Fixpoint axon_run (a : AxonIndex) (ops : list axon_op) : option (list axon_out * AxonIndex) :=
  match ops with
  | [] => Some ([], a)
  | o :: ops => '(r, a) ← axon_step a o; '(rs, a) ← axon_run a ops; Some (r :: rs, a)
  end.

Inductive axon_spec_run :
    gmap Particle (list Particle) -> list axon_op -> list axon_out -> gmap Particle (list Particle) -> Prop :=
| asr_nil m : axon_spec_run m [] [] m
| asr_cons m o r m1 ops rs m2 :
    axon_spec m o r m1 -> axon_spec_run m1 ops rs m2 -> axon_spec_run m (o :: ops) (r :: rs) m2.

Definition axon_costs (ops : list axon_op) : Z := foldr (fun o c => axon_cost o + c) 0 ops.

Lemma axon_costs_pos ops : 0 <= axon_costs ops.
Proof. induction ops as [|o ops IH]; simpl; [lia|]. destruct o; simpl; lia. Qed.

Lemma axon_run_ok ops a m w :
  AxonRep a m w -> w + axon_costs ops <= 2 ^ 32 ->
  exists outs a' m', axon_run a ops = Some (outs, a') /\ axon_spec_run m ops outs m'
    /\ AxonRep a' m' (w + axon_costs ops).
Proof.
  revert a m w. induction ops as [|o ops IH]; intros a m w Hrep Hw.
  { exists [], a, m. split_and!; [done|constructor|]. eapply axon_rep_weaken, Hrep. simpl; lia. }
  cbn [axon_costs foldr] in *. fold (axon_costs ops) in *. pose proof (axon_costs_pos ops).
  destruct (axon_step_ok a m w o Hrep) as (r & a1 & m1 & E & Hs & Hrep1); [lia|].
  destruct (IH a1 m1 _ Hrep1) as (rs & a2 & m2 & E2 & Hs2 & Hrep2); [lia|].
  exists (r :: rs), a2, m2. cbn [axon_run]. rewrite E. cbn [mbind option_bind]. rewrite E2.
  split_and!; [done|by econstructor|]. by rewrite Z.add_assoc.
Qed.

(** C37: an adjacency index is a map of duplicate-free lists with a commitment. Any history whose
    calls fit the arenas runs without a panic (the mirrored sets, the histogram and the lists
    never disagree); every call answers what the map of lists answers; the commitment is over the
    current degrees and member sets, [max_degree] is the longest list, and proofs verify. *)
Theorem axon_index_refines_lists ops :
  axon_costs ops <= 2 ^ 32 ->
  exists outs a m, axon_run axon_new ops = Some (outs, a) /\ axon_spec_run ∅ ops outs m
    /\ ai_map a = m /\ map_Forall (fun _ l => l <> [] /\ NoDup l) m.
Proof.
  intros Hw. destruct (axon_run_ok ops axon_new ∅ 0) as (outs & a & m & E & Hs & [Hm Hl _ _ _ _]);
    [apply axon_rep_new|lia|]. by exists outs, a, m.
Qed.

End AxonIndex.

(** ** Witnesses *)

Import Toy.

Definition sample_axon_calls : list axon_op :=
  [AAdd (id32 1) (id32 10); AAdd (id32 1) (id32 11); AAdd (id32 1) (id32 10); ACommitment;
   AInsert (id32 2) [id32 12; id32 12; id32 13]; AMaxDegree; ATruncate (id32 2) 1;
   ARemoveAxon (id32 1) (id32 10); AProveMember (id32 1) (id32 11); ARemove (id32 2); ASetRoot (id32 2)].

Lemma axon_index_refines_lists_witness :
  exists outs a m, axon_run axon_new sample_axon_calls = Some (outs, a)
    /\ axon_spec_run ∅ sample_axon_calls outs m
    /\ ai_map a = m /\ map_Forall (fun _ l => l <> [] /\ NoDup l) m.
Proof. apply (axon_index_refines_lists sample_axon_calls). by vm_compute. Defined.
