(* ===== verification/Types.v ===== *)
(** * Records, keys and statistics

    The record types (rs/src/types.rs), signals (rs/src/signal.rs), the hash-derived keys
    (rs/src/state.rs, rs/src/position.rs), the v2 leaf layout of every record
    (rs/src/state/commits.rs) and the committed statistics (rs/src/stats.rs). The layouts are
    injective, so a trie leaf binds its record. *)

From S2P Require Import Prelude.
From S2P Require Import Crypto.
From S2P Require Import Trie.
From S2P Require Import TrieTree.
From S2P Require Import TrieProofs.
From S2P Require Import TrieBinding.
From S2P Require Import Keyed.

Local Open Scope Z_scope.

Abbreviation Particle := (bytes 32).
Abbreviation NeuronId := (bytes 32).

(** ** types.rs *)

Record ParticleRecord := mkParticleRecord {
  energy : u64; pi_star : u64; weight : u64; s_yes : u64; s_no : u64; meta_score : u64;
}.

Definition zero_particle : ParticleRecord :=
  let z := of_Z 64 0 in mkParticleRecord z z z z z z.

Record NeuronRecord := mkNeuronRecord { focus : u64; karma : u64; stake : u64; nonce : u64 }.

Record LocationRecord := mkLocationRecord { lat : i32; lon : i32 }.

Record CoinRecord := mkCoinRecord { total_supply : u64 }.

Inductive Side := Plus | Minus.

Inductive Valence := Against | Neutral | For.

Definition valence_byte (v : Valence) : u8 :=
  match v with Against => of_Z 8 0 | Neutral => of_Z 8 1 | For => of_Z 8 2 end.

Definition valence_from_byte (b : u8) : option Valence :=
  if uval b =? 0 then Some Against else if uval b =? 1 then Some Neutral
  else if uval b =? 2 then Some For else None.

Definition valence_from_i8 (v : i8) : option Valence :=
  if sval v =? -1 then Some Against else if sval v =? 0 then Some Neutral
  else if sval v =? 1 then Some For else None.

(** [self as i8 - 1]. *)
Definition valence_to_i8 (v : Valence) : Z := uval (valence_byte v) - 1.

Definition valence_side (v : Valence) : Side :=
  match v with Against => Minus | Neutral | For => Plus end.

Definition is_active (v : Valence) : bool := match v with Neutral => false | _ => true end.

Record CardRecord := mkCardRecord {
  c_owner : bytes 32; c_particle : Particle; c_author : NeuronId; c_valence : Valence; c_since : u64;
}.

Record FileRecord := mkFileRecord { available : bool; chunk_count : u32 }.

Record SignalRecord := mkSignalRecord {
  sr_neuron : NeuronId; sr_network : Particle; sr_link_count : u32;
  sr_block_height : u64; sr_proof_hash : Particle; sr_step : u64;
}.

Record IntentRecord := mkIntentRecord {
  ir_neuron : NeuronId; ir_h0 : u64; ir_scope_hash : Particle; ir_signature : bytes 64;
}.

#[export] Instance valence_eq_dec : EqDecision Valence.
Proof. solve_decision. Defined.
#[export] Instance particle_record_eq_dec : EqDecision ParticleRecord.
Proof. solve_decision. Defined.
#[export] Instance neuron_record_eq_dec : EqDecision NeuronRecord.
Proof. solve_decision. Defined.
#[export] Instance card_record_eq_dec : EqDecision CardRecord.
Proof. solve_decision. Defined.
#[export] Instance signal_record_eq_dec : EqDecision SignalRecord.
Proof. solve_decision. Defined.
#[export] Instance intent_record_eq_dec : EqDecision IntentRecord.
Proof. solve_decision. Defined.

(** ** signal.rs *)

Record Cyberlink := mkCyberlink {
  l_from : Particle; l_to : Particle; l_token : Particle; l_amount : u64; l_valence : i8;
}.

Record BoxMove := mkBoxMove { nullifier : Particle; box_commitment : option (Particle * u64) }.

Record Signal := mkSignal {
  s_neuron : NeuronId; s_links : list Cyberlink; s_box_moves : list BoxMove; s_height : u64;
}.

Inductive InsertError := DoubleSpend.

(** ** stats.rs *)

Definition STAT_RELATIONS : nat := 11.

Record GraphStats := mkGraphStats {
  node_count : u64; relation_sizes : list u64; st_max_degree : u64; diameter_bound : u64;
}.

(** [serialize]: little-endian words in order. *)
Definition stats_serialize (s : GraphStats) : list u8 :=
  flat_map (fun v : u64 => blist (to_le_bytes 8 v))
    (node_count s :: relation_sizes s ++ [st_max_degree s; diameter_bound s]).

Section Layouts.
  Context `{Nebu, Hemera}.

Definition stats_commit (s : GraphStats) : Particle := hemera_hash (stats_serialize s).

(** ** Keys *)

Definition axon_id (from to : Particle) : Particle := hemera_hash (blist from ++ blist to).

Definition balance_key (owner token : bytes 32) : bytes 32 := hemera_hash (blist owner ++ blist token).

Definition signal_key (neuron : NeuronId) (step : u64) : Particle :=
  hemera_hash (blist neuron ++ blist (to_le_bytes 8 step)).

Definition intent_key (neuron : NeuronId) (h0 : u64) (scope_hash : Particle) : Particle :=
  hemera_hash (blist neuron ++ blist (to_le_bytes 8 h0) ++ blist scope_hash).

Definition D_CARD : list u8 := ascii_bytes "soft3/chain/card/v1" ++ [of_Z 8 0].
Definition D_STAKE : list u8 := ascii_bytes "soft3/chain/stake/v1" ++ [of_Z 8 0].
Definition D_FOCUS : list u8 := ascii_bytes "soft3/chain/focus/v1" ++ [of_Z 8 0].

Definition tagged (tag : list u8) (parts : list (bytes 32)) : bytes 32 :=
  hemera_hash (tag ++ flat_map blist parts).

Definition card_id (author : NeuronId) (p q : Particle) : Particle := tagged D_CARD [author; p; q].
Definition stake_key (card : Particle) : bytes 32 := tagged D_STAKE [card].
Definition focus_key (token : Particle) : bytes 32 := tagged D_FOCUS [token].

(** ** state/commits.rs: the leaf layouts *)

#[export] Instance leaf_value_particle : LeafValue ParticleRecord := fun r =>
  scalar_fields [energy r; pi_star r; weight r; s_yes r; s_no r; meta_score r].

#[export] Instance leaf_value_neuron : LeafValue NeuronRecord := fun r =>
  scalar_fields [focus r; karma r; stake r; nonce r].

#[export] Instance leaf_value_location : LeafValue LocationRecord := fun r =>
  scalar_fields [of_Z 64 (of_Z 32 (sval (lat r))); of_Z 64 (of_Z 32 (sval (lon r)))].

#[export] Instance leaf_value_coin : LeafValue CoinRecord := fun r => u64_limbs (total_supply r).

#[export] Instance leaf_value_card : LeafValue CardRecord := fun r =>
  bytes32_limbs (c_owner r) ++ bytes32_limbs (c_particle r) ++ bytes32_limbs (c_author r)
  ++ u64_limbs (of_Z 64 (valence_byte (c_valence r))) ++ u64_limbs (c_since r).

#[export] Instance leaf_value_file : LeafValue FileRecord := fun r =>
  scalar_fields [of_Z 64 (if available r then 1 else 0); of_Z 64 (chunk_count r)].

#[export] Instance leaf_value_signal : LeafValue SignalRecord := fun r =>
  bytes32_limbs (sr_neuron r) ++ bytes32_limbs (sr_network r)
  ++ u64_limbs (of_Z 64 (sr_link_count r)) ++ u64_limbs (sr_block_height r)
  ++ bytes32_limbs (sr_proof_hash r) ++ u64_limbs (sr_step r).

End Layouts.

(** ** The layouts bind *)

(** A record type whose layout determines the record. *)
Class LeafBinds `{Nebu} (V : Type) `{!LeafValue V} : Prop := {
  leaf_vals_inj :: Inj (=) (=) (leaf_vals (V := V));
  leaf_vals_short : forall v : V, Z.of_nat (length (leaf_vals v)) < field_P;
}.

Section Binds.
  Context `{Nebu, Hemera, !CryptoLaws}.

Lemma scalar_fields_inj (l l' : list u64) :
  length l = length l' -> scalar_fields l = scalar_fields l' -> l = l'.
Proof.
  revert l'. induction l as [|x l IH]; intros [|y l'] Hlen E; simpl in Hlen; try done.
  unfold scalar_fields in E. cbn [flat_map] in E. apply app_inj_1 in E as [Ex E]; [|done].
  apply u64_limbs_inj in Ex as ->. f_equal. apply IH; [lia|exact E].
Qed.

Lemma widen_inj w (a b : uint w) : (w <= 64)%N -> of_Z 64 (uval a) = of_Z 64 (uval b) -> a = b.
Proof.
  intros Hw E. apply uint_eq. apply (f_equal uval) in E.
  pose proof (uval_range a). pose proof (uval_range b).
  assert (2 ^ Z.of_N w <= 2 ^ Z.of_N 64) by (apply Z.pow_le_mono_r; lia).
  rewrite !uval_of_Z_small in E by lia. done.
Qed.

Lemma valence_byte_inj v v' : valence_byte v = valence_byte v' -> v = v'.
Proof. intros E. apply (f_equal uval) in E. by destruct v, v'. Qed.

(** Equal concatenations of fixed-size fields have equal fields. *)
Ltac split_fields E :=
  repeat (apply app_inj_1 in E as [?Ef E]; [|by rewrite ?length_bytes32_limbs]);
  repeat match goal with
  | H : bytes32_limbs _ = bytes32_limbs _ |- _ => apply bytes32_limbs_inj in H
  | H : u64_limbs _ = u64_limbs _ |- _ => apply u64_limbs_inj in H
  end.

Lemma two_inj {A} (a b c d : A) : [a; b] = [c; d] -> a = c /\ b = d.
Proof. intros E. split; congruence. Qed.

Lemma small_nat_P (n : nat) : (n <= 1000)%nat -> Z.of_nat n < field_P.
Proof. unfold field_P. lia. Qed.

#[export] Instance leaf_binds_u64 : LeafBinds u64.
Proof. split; [intros a b E; by apply u64_limbs_inj|]. intros v. apply small_nat_P. simpl. lia. Qed.

#[export] Instance leaf_binds_gold : LeafBinds Goldilocks.
Proof. split; [by intros a b [= ->]|]. intros v. apply small_nat_P. simpl. lia. Qed.

#[export] Instance leaf_binds_bytes32 : LeafBinds (bytes 32).
Proof. split; [intros a b E; by apply bytes32_limbs_inj|]. intros v. apply small_nat_P. simpl. lia. Qed.

#[export] Instance leaf_binds_unit : LeafBinds unit.
Proof. split; [by intros [] [] _|]. intros v. apply small_nat_P. simpl. lia. Qed.

#[export] Instance leaf_binds_particle : LeafBinds ParticleRecord.
Proof.
  split; [|intros v; apply small_nat_P; simpl; lia]. intros [] [] E.
  apply scalar_fields_inj in E; [|done]. simpl in E. by injection E as -> -> -> -> -> ->.
Qed.

#[export] Instance leaf_binds_neuron : LeafBinds NeuronRecord.
Proof.
  split; [|intros v; apply small_nat_P; simpl; lia]. intros [] [] E.
  apply scalar_fields_inj in E; [|done]. simpl in E. by injection E as -> -> -> ->.
Qed.

#[export] Instance leaf_binds_location : LeafBinds LocationRecord.
Proof.
  split; [|intros v; apply small_nat_P; simpl; lia]. intros [a b] [c d] E.
  apply scalar_fields_inj in E; [|done]. cbn [lat lon] in E. apply two_inj in E as [E1 E2].
  apply (widen_inj 32), sval_cast_inj in E1, E2; try done. by subst.
Qed.

#[export] Instance leaf_binds_coin : LeafBinds CoinRecord.
Proof.
  split; [|intros v; apply small_nat_P; simpl; lia]. intros [a] [b] E.
  by apply u64_limbs_inj in E; simpl in E; subst.
Qed.

#[export] Instance leaf_binds_card : LeafBinds CardRecord.
Proof.
  split; [|intros v; apply small_nat_P; simpl; lia]. intros [] [] E.
  unfold leaf_vals, leaf_value_card in E. cbn [c_owner c_particle c_author c_valence c_since] in E.
  split_fields E. apply (widen_inj 8), valence_byte_inj in Ef2; [|done]. by subst.
Qed.

#[export] Instance leaf_binds_file : LeafBinds FileRecord.
Proof.
  split; [|intros v; apply small_nat_P; simpl; lia]. intros [a b] [c d] E.
  apply scalar_fields_inj in E; [|done]. cbn [available chunk_count] in E. apply two_inj in E as [E1 E2].
  apply (widen_inj 32) in E2; [|done]. subst. f_equal. by destruct a, c.
Qed.

#[export] Instance leaf_binds_signal : LeafBinds SignalRecord.
Proof.
  split; [|intros v; apply small_nat_P; simpl; lia]. intros [] [] E.
  unfold leaf_vals, leaf_value_signal in E.
  cbn [sr_neuron sr_network sr_link_count sr_block_height sr_proof_hash sr_step] in E.
  split_fields E. apply (widen_inj 32) in Ef1; [|done]. by subst.
Qed.

(** The queries behind the commitment of a map of records. *)
Definition leaf_map_queries {K V} `{TrieKey K, !LeafValue V} (m : gmap K V) : list query :=
  commitment_queries (leaf_map m)
  ++ flat_map (fun e => leaf_queries (key_bytes e.1) (leaf_vals e.2)) (map_to_list m).

(** A committed map is bound by its commitment. *)
Lemma leaf_map_images {K V} `{TrieKey K, !LeafValue V, !LeafBinds V} Q (m : gmap K V) :
  leaf_map_queries m ⊆ Q -> leaf_images Q (leaf_map m).
Proof.
  intros [_ HQ]%app_subset kb d Hk.
  unfold leaf_map in Hk. apply lookup_kmap_Some in Hk as (key & -> & Hk); [|apply _].
  rewrite map_lookup_imap in Hk. destruct (m !! key) as [v|] eqn:Hv; [|done]. injection Hk as <-.
  exists (leaf_vals v). split_and!; [apply leaf_vals_short|done|].
  apply (flat_map_subset _ _ _ (key, v) HQ). by apply elem_of_map_to_list.
Qed.

Lemma leaf_map_binds {K V} `{TrieKey K, !LeafValue V, !LeafBinds V} Q (m m' : gmap K V) :
  leaf_map_queries m ⊆ Q -> leaf_map_queries m' ⊆ Q ->
  commitment (leaf_map m) = commitment (leaf_map m') -> m = m' \/ break_in Q.
Proof.
  intros HQ HQ' E.
  pose proof (proj1 (app_subset _ _ _) HQ) as [Qm Ql]. pose proof (proj1 (app_subset _ _ _) HQ') as [Qm' Ql'].
  destruct (commitment_binds Q _ _ (leaf_map_images Q m HQ) (leaf_map_images Q m' HQ') Qm Qm' E) as [El|]; [|auto].
  assert (forall key, keyed_leaf key <$> m !! key = keyed_leaf key <$> m' !! key) as Ek
    by (intros key; by rewrite <- !leaf_map_lookup, El).
  assert (map_Forall (fun key v => m' !! key = Some v) m \/ break_in Q) as [Hm|]; [|left|auto].
  - apply map_forall_or. intros key v Hv. specialize (Ek key). rewrite Hv in Ek. simpl in Ek.
    destruct (m' !! key) as [v'|] eqn:Hv'; [|done]. injection Ek as Ek.
    apply (leaf_digest_inj Q) in Ek as [[_ ->%leaf_vals_inj]|]; [by left|by right|apply leaf_vals_short..| |].
    + apply (flat_map_subset _ _ _ (key, v) Ql). by apply elem_of_map_to_list.
    + apply (flat_map_subset _ _ _ (key, v') Ql'). by apply elem_of_map_to_list.
  - apply map_eq. intros key. destruct (m !! key) as [v|] eqn:Hv; [by rewrite (Hm key v)|].
    specialize (Ek key). rewrite Hv in Ek. by destruct (m' !! key).
Qed.

End Binds.
