(* ===== verification/Cards.v ===== *)
(** * The cards dimension (rs/src/position.rs, Cards)

    The committed map of cards and its index by axon. The index caches each card's stake key. A
    broken index ([expect] in the source) is a panic, [None]. *)

From S2P Require Import Prelude.
From S2P Require Import Crypto.
From S2P Require Import Trie.
From S2P Require Import TrieTree.
From S2P Require Import TrieProofs.
From S2P Require Import Keyed.
From S2P Require Import Types.

Local Open Scope Z_scope.

Section Cards.
  Context `{Nebu, Hemera}.

Record Cards := mkCards {
  records : Keyed Particle CardRecord;
  by_axon : gmap Particle (gmap Particle (bytes 32));
}.

Definition cards_new : Cards := mkCards keyed_new ∅.

Abbreviation CardIndex := (gmap Particle (gmap Particle (bytes 32))).

(** [unindex]: drop [card] from [axon]'s index entry, answering its cached stake key. *)
Definition unindex (ix : CardIndex) (axon card : Particle)
    : option (bytes 32 * CardIndex) :=
  ix !! axon ≫= fun cards : gmap Particle (bytes 32) =>
  key ← cards !! card;
  let cards := delete card cards in
  Some (key, if decide (cards = ∅) then delete axon ix else <[axon := cards]> ix).

Definition index_add (ix : CardIndex) (axon card : Particle)
    (key : bytes 32) : CardIndex :=
  <[axon := <[card := key]> (from_option id ∅ (ix !! axon))]> ix.

Definition cards_insert (c : Cards) (card : Particle) (record : CardRecord)
    : option (option CardRecord * Cards) :=
  let '(old, recs) := keyed_insert (records c) card record in
  match old with
  | Some o =>
      if bool_decide (c_particle o = c_particle record) then Some (old, mkCards recs (by_axon c))
      else
        '(key, ix) ← unindex (by_axon c) (c_particle o) card;
        Some (old, mkCards recs (index_add ix (c_particle record) card key))
  | None => Some (old, mkCards recs (index_add (by_axon c) (c_particle record) card (stake_key card)))
  end.

Definition cards_remove (c : Cards) (card : Particle) : option (option CardRecord * Cards) :=
  let '(old, recs) := keyed_remove (records c) card in
  match old with
  | None => Some (None, mkCards recs (by_axon c))
  | Some o =>
      '(_, ix) ← unindex (by_axon c) (c_particle o) card;
      Some (Some o, mkCards recs ix)
  end.

Definition cards_clear (c : Cards) : Cards := mkCards (keyed_clear (records c)) ∅.

(** [on_axon]: the cards on an axon, ascending; [records[c]] panics on a missing card. *)
Definition cards_on_axon (c : Cards) (axon : Particle) : option (list (Particle * CardRecord)) :=
  mapM (fun e => r ← k_map (records c) !! e.1; Some (e.1, r))
    (btree_iter (from_option id ∅ (by_axon c !! axon))).

Definition axon_count (c : Cards) : nat := size (by_axon c).

Definition cards_commitment (c : Cards) : option (Digest * Cards) :=
  '(d, recs) ← keyed_commitment (records c); Some (d, mkCards recs (by_axon c)).

Definition cards_legacy_commitment (c : Cards) (f : gmap Particle CardRecord -> bytes 32)
    : bytes 32 * Cards :=
  let '(d, recs) := keyed_legacy_commitment (records c) f in (d, mkCards recs (by_axon c)).

Definition cards_prove (c : Cards) (card : Particle) : option (TrieProof * Cards) :=
  '(p, recs) ← keyed_prove (records c) card; Some (p, mkCards recs (by_axon c)).

Definition cards_pending (c : Cards) : nat := keyed_pending (records c).

(** ** The index is a function of the records *)

Definition on_axon (m : gmap Particle CardRecord) (axon : Particle) : gmap Particle CardRecord :=
  filter (fun e => c_particle e.2 = axon) m.

Definition index_of (m : gmap Particle CardRecord) (axon : Particle) : gmap Particle (bytes 32) :=
  map_imap (fun card _ => Some (stake_key card)) (on_axon m axon).

(** An entry of a map of maps, absent when empty. *)
Definition entry_of {K V} `{Countable K} (x : gmap K V) : option (gmap K V) :=
  match map_to_list x with [] => None | _ => Some x end.

Record CardsRep (c : Cards) (m : gmap Particle CardRecord) (w : Z) : Prop := {
  cr_records : KeyedRep (records c) m w;
  cr_index : forall axon, by_axon c !! axon = entry_of (index_of m axon);
}.

Lemma entry_of_Some {K V} `{Countable K} (x : gmap K V) : x <> ∅ -> entry_of x = Some x.
Proof.
  intros Hx. unfold entry_of. destruct (map_to_list x) eqn:E; [|done].
  apply map_to_list_empty_iff in E. done.
Qed.

Lemma entry_of_empty {K V} `{Countable K} : entry_of (∅ : gmap K V) = None.
Proof. unfold entry_of. by rewrite map_to_list_empty. Qed.

Lemma from_entry_of {K V} `{Countable K} (x : gmap K V) : from_option id ∅ (entry_of x) = x.
Proof.
  destruct (decide (map_to_list x = [])) as [E|E].
  - apply map_to_list_empty_iff in E as ->. by rewrite entry_of_empty.
  - rewrite entry_of_Some; [done|]. intros ->. by rewrite map_to_list_empty in E.
Qed.

Lemma index_of_lookup m axon card :
  index_of m axon !! card = (r ← m !! card; if decide (c_particle r = axon) then Some (stake_key card) else None).
Proof.
  unfold index_of, on_axon. rewrite map_lookup_imap, map_lookup_filter. destruct (m !! card) as [r|]; [|done].
  simpl. rewrite option_guard_decide. by case_decide.
Qed.

Lemma index_of_insert m card r axon :
  index_of (<[card := r]> m) axon =
  if decide (c_particle r = axon) then <[card := stake_key card]> (index_of m axon)
  else delete card (index_of m axon).
Proof.
  apply map_eq. intros c. rewrite index_of_lookup. destruct (decide (c = card)) as [->|Hne].
  - rewrite lookup_insert_eq. simpl. case_decide; by rewrite ?lookup_insert_eq, ?lookup_delete_eq.
  - rewrite lookup_insert_ne by done.
    case_decide; rewrite ?lookup_insert_ne, ?lookup_delete_ne, index_of_lookup by done; done.
Qed.

Lemma index_of_delete m card axon : index_of (delete card m) axon = delete card (index_of m axon).
Proof.
  apply map_eq. intros c. rewrite index_of_lookup. destruct (decide (c = card)) as [->|Hne].
  - by rewrite !lookup_delete_eq.
  - by rewrite !lookup_delete_ne, index_of_lookup by done.
Qed.

Lemma unindex_ok m ix card o :
  (forall axon, ix !! axon = entry_of (index_of m axon)) -> m !! card = Some o ->
  exists ix', unindex ix (c_particle o) card = Some (stake_key card, ix')
    /\ forall axon, ix' !! axon = entry_of (index_of (delete card m) axon).
Proof.
  intros Hix Ho. unfold unindex. rewrite Hix.
  assert (index_of m (c_particle o) !! card = Some (stake_key card)) as Hl
    by (rewrite index_of_lookup, Ho; simpl; by rewrite decide_True).
  rewrite entry_of_Some by (intros E; by rewrite E, lookup_empty in Hl).
  cbn [mbind option_bind]. rewrite Hl. cbn [mbind option_bind]. eexists. split; [done|].
  intros axon. rewrite index_of_delete. destruct (decide (axon = c_particle o)) as [->|Hne].
  - case_decide as E.
    + by rewrite lookup_delete_eq, E, entry_of_empty.
    + by rewrite lookup_insert_eq, entry_of_Some.
  - assert (delete card (index_of m axon) = index_of m axon) as ->.
    { apply delete_id. rewrite index_of_lookup, Ho. simpl. by rewrite decide_False. }
    case_decide; by rewrite ?lookup_delete_ne, ?lookup_insert_ne, Hix by done.
Qed.

Lemma index_add_ok m ix card r axon :
  (forall axon, ix !! axon = entry_of (index_of m axon)) -> m !! card = None ->
  index_add ix (c_particle r) card (stake_key card) !! axon
  = entry_of (index_of (<[card := r]> m) axon).
Proof.
  intros Hix Hn. unfold index_add. rewrite Hix, from_entry_of, index_of_insert.
  destruct (decide (c_particle r = axon)) as [->|Hne].
  - rewrite lookup_insert_eq, entry_of_Some; [done|]. apply insert_non_empty.
  - rewrite lookup_insert_ne, Hix, delete_id; [done| |done]. by rewrite index_of_lookup, Hn.
Qed.

Lemma cards_rep_new : CardsRep cards_new ∅ 0.
Proof.
  split; [apply keyed_rep_new|]. intros axon. unfold index_of, on_axon.
  by rewrite map_filter_empty, map_imap_empty, entry_of_empty.
Qed.

Lemma cards_insert_ok c m w card r :
  CardsRep c m w ->
  exists c', cards_insert c card r = Some (m !! card, c') /\ CardsRep c' (<[card := r]> m) (w + 2).
Proof.
  intros [Hk Hix]. destruct (keyed_rep_insert (records c) m card r w Hk) as [E Hk'].
  unfold cards_insert. destruct (keyed_insert (records c) card r) as [old recs]. simpl in E, Hk'. subst old.
  destruct (m !! card) as [o|] eqn:Ho.
  - case_bool_decide as Hp.
    + eexists. split; [done|]. split; [done|]. intros axon. simpl. rewrite Hix. f_equal.
      apply map_eq. intros d. rewrite !index_of_lookup.
      destruct (decide (d = card)) as [->|Hne]; [|by rewrite lookup_insert_ne].
      rewrite lookup_insert_eq, Ho. simpl. by rewrite Hp.
    + destruct (unindex_ok m _ card o Hix Ho) as (ix' & -> & Hix'). cbn [mbind option_bind].
      eexists. split; [done|]. split; [done|]. intros axon. simpl.
      rewrite (index_add_ok (delete card m)) by (done || apply lookup_delete_eq).
      by rewrite insert_delete_eq.
  - eexists. split; [done|]. split; [done|]. intros axon. by apply index_add_ok.
Qed.

Lemma cards_remove_ok c m w card :
  CardsRep c m w ->
  exists c', cards_remove c card = Some (m !! card, c') /\ CardsRep c' (delete card m) (w + 2).
Proof.
  intros [Hk Hix]. destruct (keyed_rep_remove (records c) m card w Hk) as [E Hk'].
  unfold cards_remove. destruct (keyed_remove (records c) card) as [old recs]. simpl in E, Hk'. subst old.
  destruct (m !! card) as [o|] eqn:Ho.
  - destruct (unindex_ok m _ card o Hix Ho) as (ix' & -> & Hix'). cbn [mbind option_bind].
    eexists. split; [done|]. by split.
  - eexists. split; [done|]. split; [done|]. intros axon. simpl. rewrite Hix. by rewrite delete_id.
Qed.

(** Enumeration by axon: exactly the cards recorded on it, ascending. *)
Lemma cards_on_axon_ok c m w axon :
  CardsRep c m w -> cards_on_axon c axon = Some (btree_iter (on_axon m axon)).
Proof.
  intros [[Hm _ _] Hix]. unfold cards_on_axon. rewrite Hix, from_entry_of, Hm.
  apply mapM_lookup_iter; [|apply map_filter_subseteq]. intros card.
  rewrite !elem_of_dom. unfold index_of. rewrite map_lookup_imap. destruct (on_axon m axon !! card); simpl; split; intros [? [=]]; eauto.
Qed.

End Cards.
