(* ===== verification/State.v ===== *)
(** * The state (rs/src/state.rs, rs/src/state/commits.rs, rs/src/proof.rs dim_entries)

    [BbgState] with its constructors, signal insertion, intents and signal records, statistics,
    and the root under both derivations. Operations answer [None] where the source panics. *)

From S2P Require Import Prelude.
From S2P Require Import Crypto.
From S2P Require Import Trie.
From S2P Require Import Keyed.
From S2P Require Import AxonIndex.
From S2P Require Import Types.
From S2P Require Import Cards.
From stdpp Require Import vector.

Local Open Scope Z_scope.

(** Number of blocks per epoch. *)
Definition EPOCH_BLOCKS : u64 := of_Z 64 100.

Inductive RootVersion := V1 | V2.

(** The dimensions, in root order (query.rs). *)
Inductive Dim :=
| DParticles | DAxonsOut | DAxonsIn | DNeurons | DLocations | DCoins | DCards | DFiles | DTime
| DSignals | DBalances.

#[export] Instance dim_eq_dec : EqDecision Dim.
Proof. solve_decision. Defined.

Definition dim_index (d : Dim) : Z :=
  match d with
  | DParticles => 0 | DAxonsOut => 1 | DAxonsIn => 2 | DNeurons => 3 | DLocations => 4
  | DCoins => 5 | DCards => 6 | DFiles => 7 | DTime => 8 | DSignals => 9 | DBalances => 10
  end.

Definition dim_from_u64 (v : u64) : option Dim :=
  match uval v with
  | 0 => Some DParticles | 1 => Some DAxonsOut | 2 => Some DAxonsIn | 3 => Some DNeurons
  | 4 => Some DLocations | 5 => Some DCoins | 6 => Some DCards | 7 => Some DFiles
  | 8 => Some DTime | 9 => Some DSignals | 10 => Some DBalances
  | _ => None
  end.

Section State.
  Context `{Nebu, Hemera}.

Record BbgState := mkBbgState {
  particles : Keyed Particle ParticleRecord;
  axons_out : AxonIndex;
  axons_in : AxonIndex;
  neurons : Keyed NeuronId NeuronRecord;
  locations : Keyed Particle LocationRecord;
  coins : Keyed Particle CoinRecord;
  cards : Cards;
  files : Keyed Particle FileRecord;
  time : Keyed u64 Particle;
  signals : Keyed Particle SignalRecord;
  commitments : Keyed (bytes 32) Goldilocks;
  nullifiers : Keyed (bytes 32) unit;
  balances : Keyed (bytes 32) u64;
  intents : gmap Particle IntentRecord;
  axon_edges : gmap Particle (Particle * Particle);
  diameter_override : option u64;
  height : u64;
  root_version : RootVersion;
}.

Definition set_particles (s : BbgState) (x : Keyed Particle ParticleRecord) : BbgState :=
  mkBbgState x (axons_out s) (axons_in s) (neurons s) (locations s) (coins s) (cards s)
    (files s) (time s) (signals s) (commitments s) (nullifiers s) (balances s)
    (intents s) (axon_edges s) (diameter_override s) (height s) (root_version s).
Definition set_axons_out (s : BbgState) (x : AxonIndex) : BbgState :=
  mkBbgState (particles s) x (axons_in s) (neurons s) (locations s) (coins s) (cards s)
    (files s) (time s) (signals s) (commitments s) (nullifiers s) (balances s)
    (intents s) (axon_edges s) (diameter_override s) (height s) (root_version s).
Definition set_axons_in (s : BbgState) (x : AxonIndex) : BbgState :=
  mkBbgState (particles s) (axons_out s) x (neurons s) (locations s) (coins s) (cards s)
    (files s) (time s) (signals s) (commitments s) (nullifiers s) (balances s)
    (intents s) (axon_edges s) (diameter_override s) (height s) (root_version s).
Definition set_neurons (s : BbgState) (x : Keyed NeuronId NeuronRecord) : BbgState :=
  mkBbgState (particles s) (axons_out s) (axons_in s) x (locations s) (coins s) (cards s)
    (files s) (time s) (signals s) (commitments s) (nullifiers s) (balances s)
    (intents s) (axon_edges s) (diameter_override s) (height s) (root_version s).
Definition set_locations (s : BbgState) (x : Keyed Particle LocationRecord) : BbgState :=
  mkBbgState (particles s) (axons_out s) (axons_in s) (neurons s) x (coins s) (cards s)
    (files s) (time s) (signals s) (commitments s) (nullifiers s) (balances s)
    (intents s) (axon_edges s) (diameter_override s) (height s) (root_version s).
Definition set_coins (s : BbgState) (x : Keyed Particle CoinRecord) : BbgState :=
  mkBbgState (particles s) (axons_out s) (axons_in s) (neurons s) (locations s) x (cards s)
    (files s) (time s) (signals s) (commitments s) (nullifiers s) (balances s)
    (intents s) (axon_edges s) (diameter_override s) (height s) (root_version s).
Definition set_cards (s : BbgState) (x : Cards) : BbgState :=
  mkBbgState (particles s) (axons_out s) (axons_in s) (neurons s) (locations s) (coins s) x
    (files s) (time s) (signals s) (commitments s) (nullifiers s) (balances s)
    (intents s) (axon_edges s) (diameter_override s) (height s) (root_version s).
Definition set_files (s : BbgState) (x : Keyed Particle FileRecord) : BbgState :=
  mkBbgState (particles s) (axons_out s) (axons_in s) (neurons s) (locations s) (coins s)
    (cards s) x (time s) (signals s) (commitments s) (nullifiers s) (balances s)
    (intents s) (axon_edges s) (diameter_override s) (height s) (root_version s).
Definition set_time (s : BbgState) (x : Keyed u64 Particle) : BbgState :=
  mkBbgState (particles s) (axons_out s) (axons_in s) (neurons s) (locations s) (coins s)
    (cards s) (files s) x (signals s) (commitments s) (nullifiers s) (balances s)
    (intents s) (axon_edges s) (diameter_override s) (height s) (root_version s).
Definition set_signals (s : BbgState) (x : Keyed Particle SignalRecord) : BbgState :=
  mkBbgState (particles s) (axons_out s) (axons_in s) (neurons s) (locations s) (coins s)
    (cards s) (files s) (time s) x (commitments s) (nullifiers s) (balances s)
    (intents s) (axon_edges s) (diameter_override s) (height s) (root_version s).
Definition set_commitments (s : BbgState) (x : Keyed (bytes 32) Goldilocks) : BbgState :=
  mkBbgState (particles s) (axons_out s) (axons_in s) (neurons s) (locations s) (coins s)
    (cards s) (files s) (time s) (signals s) x (nullifiers s) (balances s)
    (intents s) (axon_edges s) (diameter_override s) (height s) (root_version s).
Definition set_nullifiers (s : BbgState) (x : Keyed (bytes 32) unit) : BbgState :=
  mkBbgState (particles s) (axons_out s) (axons_in s) (neurons s) (locations s) (coins s)
    (cards s) (files s) (time s) (signals s) (commitments s) x (balances s)
    (intents s) (axon_edges s) (diameter_override s) (height s) (root_version s).
Definition set_balances (s : BbgState) (x : Keyed (bytes 32) u64) : BbgState :=
  mkBbgState (particles s) (axons_out s) (axons_in s) (neurons s) (locations s) (coins s)
    (cards s) (files s) (time s) (signals s) (commitments s) (nullifiers s) x
    (intents s) (axon_edges s) (diameter_override s) (height s) (root_version s).
Definition set_intents (s : BbgState) (x : gmap Particle IntentRecord) : BbgState :=
  mkBbgState (particles s) (axons_out s) (axons_in s) (neurons s) (locations s) (coins s)
    (cards s) (files s) (time s) (signals s) (commitments s) (nullifiers s)
    (balances s) x (axon_edges s) (diameter_override s) (height s) (root_version s).
Definition set_axon_edges (s : BbgState) (x : gmap Particle (Particle * Particle)) : BbgState :=
  mkBbgState (particles s) (axons_out s) (axons_in s) (neurons s) (locations s) (coins s)
    (cards s) (files s) (time s) (signals s) (commitments s) (nullifiers s)
    (balances s) (intents s) x (diameter_override s) (height s) (root_version s).
Definition set_diameter_override (s : BbgState) (x : option u64) : BbgState :=
  mkBbgState (particles s) (axons_out s) (axons_in s) (neurons s) (locations s) (coins s)
    (cards s) (files s) (time s) (signals s) (commitments s) (nullifiers s)
    (balances s) (intents s) (axon_edges s) x (height s) (root_version s).
Definition set_height (s : BbgState) (x : u64) : BbgState :=
  mkBbgState (particles s) (axons_out s) (axons_in s) (neurons s) (locations s) (coins s)
    (cards s) (files s) (time s) (signals s) (commitments s) (nullifiers s)
    (balances s) (intents s) (axon_edges s) (diameter_override s) x (root_version s).
Definition set_root_version (s : BbgState) (x : RootVersion) : BbgState :=
  mkBbgState (particles s) (axons_out s) (axons_in s) (neurons s) (locations s) (coins s)
    (cards s) (files s) (time s) (signals s) (commitments s) (nullifiers s)
    (balances s) (intents s) (axon_edges s) (diameter_override s) (height s) x.

Definition state_new : BbgState :=
  mkBbgState keyed_new axon_new axon_new keyed_new keyed_new keyed_new cards_new keyed_new keyed_new
    keyed_new keyed_new keyed_new keyed_new ∅ ∅ None (of_Z 64 0) V2.

(** [set_root_version] and [set_diameter_bound]. *)
Definition state_set_root_version (s : BbgState) (v : RootVersion) : BbgState := set_root_version s v.
Definition set_diameter_bound (s : BbgState) (bound : u64) : BbgState :=
  set_diameter_override s (Some bound).

(** ** Statistics *)

Definition klen {K V} `{Countable K} (k : Keyed K V) : u64 := usize_u64 (size (k_map k)).

Definition statistics (s : BbgState) : GraphStats :=
  let node_count := klen (particles s) in
  let relation_sizes :=
    [klen (particles s); usize_u64 (size (ai_map (axons_out s))); usize_u64 (size (ai_map (axons_in s)));
     klen (neurons s); klen (locations s); klen (coins s); klen (records (cards s)); klen (files s);
     klen (time s); klen (signals s); klen (balances s)] in
  let max_deg := usize_u64 (Nat.max (max_degree (axons_out s)) (max_degree (axons_in s))) in
  let bound := match diameter_override s with
               | Some b => b
               | None => saturating_sub node_count (of_Z 64 1)
               end in
  mkGraphStats node_count relation_sizes max_deg bound.

(** ** Signal insertion *)

Definition with_weight (p : ParticleRecord) (w : u64) : ParticleRecord :=
  mkParticleRecord (energy p) (pi_star p) w (s_yes p) (s_no p) (meta_score p).
Definition with_energy (p : ParticleRecord) (e : u64) : ParticleRecord :=
  mkParticleRecord e (pi_star p) (weight p) (s_yes p) (s_no p) (meta_score p).
Definition with_focus (n : NeuronRecord) (f : u64) : NeuronRecord :=
  mkNeuronRecord f (karma n) (stake n) (nonce n).

(** One box move. *)
Definition apply_box_move (s : BbgState) (mv : BoxMove) : BbgState :=
  let s := set_nullifiers s (keyed_insert (nullifiers s) (nullifier mv) tt).2 in
  match box_commitment mv with
  | Some (point, value) => set_commitments s (keyed_insert (commitments s) point (g_new value)).2
  | None => s
  end.

(** The part of a link that is always applied: the topology. *)
Definition link_topology (s : BbgState) (l : Cyberlink) : option BbgState :=
  let id := axon_id (l_from l) (l_to l) in
  '(_, out) ← axon_add (axons_out s) (l_from l) id;
  let s := set_axons_out s out in
  '(_, inn) ← axon_add (axons_in s) (l_to l) id;
  let s := set_axons_in s inn in
  Some (match axon_edges s !! id with
        | Some _ => s
        | None => set_axon_edges s (<[id := (l_from l, l_to l)]> (axon_edges s))
        end).

(** Adding [a] to one field of a particle, created at zero. The right-hand side of the
    assignment reads the record before the entry is created. *)
Definition bump_weight (k : Keyed Particle ParticleRecord) (id : Particle) (a : u64) :=
  let v := match k_map k !! id with Some p => saturating_add (weight p) a | None => a end in
  keyed_entry_or_insert k id zero_particle (fun p => with_weight p v).
Definition bump_energy (k : Keyed Particle ParticleRecord) (id : Particle) (a : u64) :=
  let v := match k_map k !! id with Some p => saturating_add (energy p) a | None => a end in
  keyed_entry_or_insert k id zero_particle (fun p => with_energy p v).

(** The balance rows of a link: credit the output, debit the input, keep no zero row. *)
Definition credit (k : Keyed (bytes 32) u64) (key : bytes 32) (a : u64) : Keyed (bytes 32) u64 :=
  (keyed_insert k key (match k_map k !! key with Some b => saturating_add b a | None => a end)).2.
Definition debit (k : Keyed (bytes 32) u64) (key : bytes 32) (a : u64) : Keyed (bytes 32) u64 :=
  let next := match k_map k !! key with Some b => saturating_sub b a | None => of_Z 64 0 end in
  if uval next =? 0 then (keyed_remove k key).2 else (keyed_insert k key next).2.

(** The part applied to a link that carries conviction. *)
Definition link_conviction (s : BbgState) (neuron : NeuronId) (l : Cyberlink) : BbgState :=
  let a := l_amount l in
  let s := set_particles s (bump_weight (particles s) (axon_id (l_from l) (l_to l)) a) in
  let s := set_particles s (bump_energy (particles s) (l_to l) a) in
  let s := match keyed_get_mut (neurons s) neuron (fun n => with_focus n (saturating_sub (focus n) a)) with
           | Some k => set_neurons s k
           | None => s
           end in
  let s := set_balances s (credit (balances s) (balance_key (l_to l) (l_token l)) a) in
  set_balances s (debit (balances s) (balance_key (l_from l) (l_token l)) a).

Definition apply_link (neuron : NeuronId) (s : BbgState) (l : Cyberlink) : option BbgState :=
  s ← link_topology s l;
  Some (if uval (l_amount l) =? 0 then s else link_conviction s neuron l).

Definition spent (s : BbgState) (mv : BoxMove) : bool :=
  match k_map (nullifiers s) !! nullifier mv with Some _ => true | None => false end.

(** [BbgState::insert]: the answer and the state; [None] is a panic. *)
Definition state_insert (s : BbgState) (sg : Signal) : option (result InsertError unit * BbgState) :=
  if existsb (spent s) (s_box_moves sg) then Some (Err DoubleSpend, s)
  else
    let s := foldl apply_box_move s (s_box_moves sg) in
    s ← fold_m (apply_link (s_neuron sg)) s (s_links sg);
    Some (Ok tt, s).

(** ** Intents and signal records *)

Definition apply_intent (s : BbgState) (i : IntentRecord) : Particle * BbgState :=
  let key := intent_key (ir_neuron i) (ir_h0 i) (ir_scope_hash i) in
  (key, set_intents s (<[key := i]> (intents s))).

Definition apply_signal_record (s : BbgState) (r : SignalRecord) : Particle * BbgState :=
  let key := signal_key (sr_neuron r) (sr_step r) in
  (key, set_signals s (keyed_insert (signals s) key r).2).

(** ** The root *)

(** v2: every dimension leaf is its trie root. The parallel branch of the source computes the same
    commitments on other threads. *)
Definition v2_leaves (s : BbgState) : option ((vec Digest 11 * Digest * Digest) * BbgState) :=
  '(d0, k) ← keyed_commitment (particles s); let s := set_particles s k in
  '(d1, k) ← axon_commitment (axons_out s); let s := set_axons_out s k in
  '(d2, k) ← axon_commitment (axons_in s); let s := set_axons_in s k in
  '(d3, k) ← keyed_commitment (neurons s); let s := set_neurons s k in
  '(d4, k) ← keyed_commitment (locations s); let s := set_locations s k in
  '(d5, k) ← keyed_commitment (coins s); let s := set_coins s k in
  '(d6, k) ← cards_commitment (cards s); let s := set_cards s k in
  '(d7, k) ← keyed_commitment (files s); let s := set_files s k in
  '(d8, k) ← keyed_commitment (time s); let s := set_time s k in
  '(d9, k) ← keyed_commitment (signals s); let s := set_signals s k in
  '(d10, k) ← keyed_commitment (balances s); let s := set_balances s k in
  '(a, k) ← keyed_commitment (commitments s); let s := set_commitments s k in
  '(n, k) ← keyed_commitment (nullifiers s); let s := set_nullifiers s k in
  Some (([# d0; d1; d2; d3; d4; d5; d6; d7; d8; d9; d10], a, n), s).

(** *** v1 entries (proof.rs, [dim_entries]) *)

Definition entries_of {K V} `{TrieKey K} (f : V -> list Goldilocks) (m : gmap K V)
    : list (Particle * list Goldilocks) := map (fun e => (key_bytes e.1, f e.2)) (btree_iter m).

Definition particle_fields (r : ParticleRecord) : list Goldilocks :=
  scalar_fields [energy r; pi_star r; weight r; s_yes r; s_no r; meta_score r].
Definition axons_fields (l : list Particle) : list Goldilocks :=
  scalar_fields [usize_u64 (length l)] ++ flat_map bytes32_limbs l.
Definition neuron_fields (r : NeuronRecord) : list Goldilocks :=
  scalar_fields [focus r; karma r; stake r; nonce r].
Definition location_fields (r : LocationRecord) : list Goldilocks :=
  scalar_fields [of_Z 64 (of_Z 32 (sval (lat r))); of_Z 64 (of_Z 32 (sval (lon r)))].
Definition coin_fields (r : CoinRecord) : list Goldilocks := scalar_fields [total_supply r].
Definition card_fields (r : CardRecord) : list Goldilocks :=
  bytes32_limbs (c_owner r) ++ bytes32_limbs (c_particle r)
  ++ bytes32_limbs (c_author r)
  ++ scalar_fields [of_Z 64 (valence_byte (c_valence r)); c_since r].
Definition file_fields (r : FileRecord) : list Goldilocks :=
  scalar_fields [of_Z 64 (if available r then 1 else 0); of_Z 64 (chunk_count r)].
Definition time_fields (p : Particle) : list Goldilocks := bytes32_limbs p.
Definition signal_fields (r : SignalRecord) : list Goldilocks :=
  bytes32_limbs (sr_neuron r) ++ bytes32_limbs (sr_network r)
  ++ scalar_fields [of_Z 64 (sr_link_count r); sr_block_height r]
  ++ bytes32_limbs (sr_proof_hash r) ++ scalar_fields [sr_step r].
Definition balance_fields (b : u64) : list Goldilocks := scalar_fields [b].

Definition dim_entries (s : BbgState) (d : Dim) : list (Particle * list Goldilocks) :=
  match d with
  | DParticles => entries_of particle_fields (k_map (particles s))
  | DAxonsOut => entries_of axons_fields (ai_map (axons_out s))
  | DAxonsIn => entries_of axons_fields (ai_map (axons_in s))
  | DNeurons => entries_of neuron_fields (k_map (neurons s))
  | DLocations => entries_of location_fields (k_map (locations s))
  | DCoins => entries_of coin_fields (k_map (coins s))
  | DCards => entries_of card_fields (k_map (records (cards s)))
  | DFiles => entries_of file_fields (k_map (files s))
  | DTime => entries_of time_fields (k_map (time s))
  | DSignals => entries_of signal_fields (k_map (signals s))
  | DBalances => entries_of balance_fields (k_map (balances s))
  end.

Section V1.
  Context `{!Lens}.

(** One v1 leaf: the limbs of the cached commitment. *)
Definition v1_leaf {K V} `{TrieKey K} (f : V -> list Goldilocks) (k : Keyed K V)
    : option (Digest * Keyed K V) :=
  let '(c, k) := keyed_legacy_commitment k (fun m => commit_dim (entries_of f m)) in
  d ← digest_limbs c; Some (d, k).
Definition v1_axon_leaf (a : AxonIndex) : option (Digest * AxonIndex) :=
  let '(c, a) := axon_legacy_commitment a (fun m => commit_dim (entries_of axons_fields m)) in
  d ← digest_limbs c; Some (d, a).
Definition v1_cards_leaf (c : Cards) : option (Digest * Cards) :=
  let '(h, c) := cards_legacy_commitment c (fun m => commit_dim (entries_of card_fields m)) in
  d ← digest_limbs h; Some (d, c).

Definition v1_leaves (s : BbgState) : option ((vec Digest 11 * Digest * Digest) * BbgState) :=
  '(d0, k) ← v1_leaf particle_fields (particles s); let s := set_particles s k in
  '(d1, k) ← v1_axon_leaf (axons_out s); let s := set_axons_out s k in
  '(d2, k) ← v1_axon_leaf (axons_in s); let s := set_axons_in s k in
  '(d3, k) ← v1_leaf neuron_fields (neurons s); let s := set_neurons s k in
  '(d4, k) ← v1_leaf location_fields (locations s); let s := set_locations s k in
  '(d5, k) ← v1_leaf coin_fields (coins s); let s := set_coins s k in
  '(d6, k) ← v1_cards_leaf (cards s); let s := set_cards s k in
  '(d7, k) ← v1_leaf file_fields (files s); let s := set_files s k in
  '(d8, k) ← v1_leaf time_fields (time s); let s := set_time s k in
  '(d9, k) ← v1_leaf signal_fields (signals s); let s := set_signals s k in
  '(d10, k) ← v1_leaf balance_fields (balances s); let s := set_balances s k in
  '(a, k) ← v1_leaf (fun g => [g]) (commitments s); let s := set_commitments s k in
  '(n, k) ← v1_leaf (fun _ => [g_one]) (nullifiers s); let s := set_nullifiers s k in
  Some (([# d0; d1; d2; d3; d4; d5; d6; d7; d8; d9; d10], a, n), s).

Definition root_leaves (s : BbgState) : option (RootLeaves * BbgState) :=
  '(ds, a, n, s) ← (match root_version s with V1 => v1_leaves s | V2 => v2_leaves s end);
  st ← digest_limbs (stats_commit (statistics s));
  Some (mkRootLeaves ds a n st, s).

(** [compute_root], [root] and [refresh_root]. *)
Definition compute_root (s : BbgState) : option (Particle * BbgState) :=
  '(leaves, s) ← root_leaves s;
  Some (root_to_bytes (root_from_leaves leaves), s).

End V1.
End State.
