(* ===== verification/StateSpec.v ===== *)
(** * The state as a record of maps

    A [View] is what a reader of the state sees: thirteen maps and the uncommitted fields. Every
    operation of State.v has an abstract counterpart on views; [StateRep] relates a state to its
    view, and the refinement lemmas show that no operation panics and that each has the effect of
    its counterpart. The v2 root is a function of the view. *)

From S2P Require Import Prelude.
From S2P Require Import Crypto.
From S2P Require Import Trie.
From S2P Require Import TrieTree.
From S2P Require Import TrieProofs.
From S2P Require Import TrieBinding.
From S2P Require Import Keyed.
From S2P Require Import AxonIndex.
From S2P Require Import Types.
From S2P Require Import Cards.
From S2P Require Import State.
From stdpp Require Import vector.

Local Open Scope Z_scope.

Section View.
  Context `{Nebu, Hemera}.

Record View := mkView {
  v_particles : gmap Particle ParticleRecord;
  v_axons_out : gmap Particle (list Particle);
  v_axons_in : gmap Particle (list Particle);
  v_neurons : gmap NeuronId NeuronRecord;
  v_locations : gmap Particle LocationRecord;
  v_coins : gmap Particle CoinRecord;
  v_cards : gmap Particle CardRecord;
  v_files : gmap Particle FileRecord;
  v_time : gmap u64 Particle;
  v_signals : gmap Particle SignalRecord;
  v_commitments : gmap (bytes 32) Goldilocks;
  v_nullifiers : gmap (bytes 32) unit;
  v_balances : gmap (bytes 32) u64;
  v_intents : gmap Particle IntentRecord;
  v_axon_edges : gmap Particle (Particle * Particle);
  v_diameter_override : option u64;
  v_height : u64;
  v_root_version : RootVersion;
}.

Definition put_particles (v : View) (x : gmap Particle ParticleRecord) : View :=
  mkView x (v_axons_out v) (v_axons_in v) (v_neurons v) (v_locations v) (v_coins v)
    (v_cards v) (v_files v) (v_time v) (v_signals v) (v_commitments v)
    (v_nullifiers v) (v_balances v) (v_intents v) (v_axon_edges v)
    (v_diameter_override v) (v_height v) (v_root_version v).
Definition put_axons_out (v : View) (x : gmap Particle (list Particle)) : View :=
  mkView (v_particles v) x (v_axons_in v) (v_neurons v) (v_locations v) (v_coins v)
    (v_cards v) (v_files v) (v_time v) (v_signals v) (v_commitments v)
    (v_nullifiers v) (v_balances v) (v_intents v) (v_axon_edges v)
    (v_diameter_override v) (v_height v) (v_root_version v).
Definition put_axons_in (v : View) (x : gmap Particle (list Particle)) : View :=
  mkView (v_particles v) (v_axons_out v) x (v_neurons v) (v_locations v) (v_coins v)
    (v_cards v) (v_files v) (v_time v) (v_signals v) (v_commitments v)
    (v_nullifiers v) (v_balances v) (v_intents v) (v_axon_edges v)
    (v_diameter_override v) (v_height v) (v_root_version v).
Definition put_neurons (v : View) (x : gmap NeuronId NeuronRecord) : View :=
  mkView (v_particles v) (v_axons_out v) (v_axons_in v) x (v_locations v) (v_coins v)
    (v_cards v) (v_files v) (v_time v) (v_signals v) (v_commitments v)
    (v_nullifiers v) (v_balances v) (v_intents v) (v_axon_edges v)
    (v_diameter_override v) (v_height v) (v_root_version v).
Definition put_locations (v : View) (x : gmap Particle LocationRecord) : View :=
  mkView (v_particles v) (v_axons_out v) (v_axons_in v) (v_neurons v) x (v_coins v)
    (v_cards v) (v_files v) (v_time v) (v_signals v) (v_commitments v)
    (v_nullifiers v) (v_balances v) (v_intents v) (v_axon_edges v)
    (v_diameter_override v) (v_height v) (v_root_version v).
Definition put_coins (v : View) (x : gmap Particle CoinRecord) : View :=
  mkView (v_particles v) (v_axons_out v) (v_axons_in v) (v_neurons v) (v_locations v) x
    (v_cards v) (v_files v) (v_time v) (v_signals v) (v_commitments v)
    (v_nullifiers v) (v_balances v) (v_intents v) (v_axon_edges v)
    (v_diameter_override v) (v_height v) (v_root_version v).
Definition put_cards (v : View) (x : gmap Particle CardRecord) : View :=
  mkView (v_particles v) (v_axons_out v) (v_axons_in v) (v_neurons v) (v_locations v)
    (v_coins v) x (v_files v) (v_time v) (v_signals v) (v_commitments v)
    (v_nullifiers v) (v_balances v) (v_intents v) (v_axon_edges v)
    (v_diameter_override v) (v_height v) (v_root_version v).
Definition put_files (v : View) (x : gmap Particle FileRecord) : View :=
  mkView (v_particles v) (v_axons_out v) (v_axons_in v) (v_neurons v) (v_locations v)
    (v_coins v) (v_cards v) x (v_time v) (v_signals v) (v_commitments v)
    (v_nullifiers v) (v_balances v) (v_intents v) (v_axon_edges v)
    (v_diameter_override v) (v_height v) (v_root_version v).
Definition put_time (v : View) (x : gmap u64 Particle) : View :=
  mkView (v_particles v) (v_axons_out v) (v_axons_in v) (v_neurons v) (v_locations v)
    (v_coins v) (v_cards v) (v_files v) x (v_signals v) (v_commitments v)
    (v_nullifiers v) (v_balances v) (v_intents v) (v_axon_edges v)
    (v_diameter_override v) (v_height v) (v_root_version v).
Definition put_signals (v : View) (x : gmap Particle SignalRecord) : View :=
  mkView (v_particles v) (v_axons_out v) (v_axons_in v) (v_neurons v) (v_locations v)
    (v_coins v) (v_cards v) (v_files v) (v_time v) x (v_commitments v)
    (v_nullifiers v) (v_balances v) (v_intents v) (v_axon_edges v)
    (v_diameter_override v) (v_height v) (v_root_version v).
Definition put_commitments (v : View) (x : gmap (bytes 32) Goldilocks) : View :=
  mkView (v_particles v) (v_axons_out v) (v_axons_in v) (v_neurons v) (v_locations v)
    (v_coins v) (v_cards v) (v_files v) (v_time v) (v_signals v) x (v_nullifiers v)
    (v_balances v) (v_intents v) (v_axon_edges v) (v_diameter_override v)
    (v_height v) (v_root_version v).
Definition put_nullifiers (v : View) (x : gmap (bytes 32) unit) : View :=
  mkView (v_particles v) (v_axons_out v) (v_axons_in v) (v_neurons v) (v_locations v)
    (v_coins v) (v_cards v) (v_files v) (v_time v) (v_signals v) (v_commitments v) x
    (v_balances v) (v_intents v) (v_axon_edges v) (v_diameter_override v)
    (v_height v) (v_root_version v).
Definition put_balances (v : View) (x : gmap (bytes 32) u64) : View :=
  mkView (v_particles v) (v_axons_out v) (v_axons_in v) (v_neurons v) (v_locations v)
    (v_coins v) (v_cards v) (v_files v) (v_time v) (v_signals v) (v_commitments v)
    (v_nullifiers v) x (v_intents v) (v_axon_edges v) (v_diameter_override v)
    (v_height v) (v_root_version v).
Definition put_intents (v : View) (x : gmap Particle IntentRecord) : View :=
  mkView (v_particles v) (v_axons_out v) (v_axons_in v) (v_neurons v) (v_locations v)
    (v_coins v) (v_cards v) (v_files v) (v_time v) (v_signals v) (v_commitments v)
    (v_nullifiers v) (v_balances v) x (v_axon_edges v) (v_diameter_override v)
    (v_height v) (v_root_version v).
Definition put_axon_edges (v : View) (x : gmap Particle (Particle * Particle)) : View :=
  mkView (v_particles v) (v_axons_out v) (v_axons_in v) (v_neurons v) (v_locations v)
    (v_coins v) (v_cards v) (v_files v) (v_time v) (v_signals v) (v_commitments v)
    (v_nullifiers v) (v_balances v) (v_intents v) x (v_diameter_override v)
    (v_height v) (v_root_version v).
Definition put_diameter_override (v : View) (x : option u64) : View :=
  mkView (v_particles v) (v_axons_out v) (v_axons_in v) (v_neurons v) (v_locations v)
    (v_coins v) (v_cards v) (v_files v) (v_time v) (v_signals v) (v_commitments v)
    (v_nullifiers v) (v_balances v) (v_intents v) (v_axon_edges v) x (v_height v)
    (v_root_version v).
Definition put_height (v : View) (x : u64) : View :=
  mkView (v_particles v) (v_axons_out v) (v_axons_in v) (v_neurons v) (v_locations v)
    (v_coins v) (v_cards v) (v_files v) (v_time v) (v_signals v) (v_commitments v)
    (v_nullifiers v) (v_balances v) (v_intents v) (v_axon_edges v)
    (v_diameter_override v) x (v_root_version v).
Definition put_root_version (v : View) (x : RootVersion) : View :=
  mkView (v_particles v) (v_axons_out v) (v_axons_in v) (v_neurons v) (v_locations v)
    (v_coins v) (v_cards v) (v_files v) (v_time v) (v_signals v) (v_commitments v)
    (v_nullifiers v) (v_balances v) (v_intents v) (v_axon_edges v)
    (v_diameter_override v) (v_height v) x.

(** [StateRep s v w]: the state presents the view, its arenas within [w] cells each. *)
Record StateRep (s : BbgState) (v : View) (w : Z) : Prop := {
  sr_particles : KeyedRep (particles s) (v_particles v) w;
  sr_axons_out : AxonRep (axons_out s) (v_axons_out v) w;
  sr_axons_in : AxonRep (axons_in s) (v_axons_in v) w;
  sr_neurons : KeyedRep (neurons s) (v_neurons v) w;
  sr_locations : KeyedRep (locations s) (v_locations v) w;
  sr_coins : KeyedRep (coins s) (v_coins v) w;
  sr_cards : CardsRep (cards s) (v_cards v) w;
  sr_files : KeyedRep (files s) (v_files v) w;
  sr_time : KeyedRep (time s) (v_time v) w;
  sr_signals : KeyedRep (signals s) (v_signals v) w;
  sr_commitments : KeyedRep (commitments s) (v_commitments v) w;
  sr_nullifiers : KeyedRep (nullifiers s) (v_nullifiers v) w;
  sr_balances : KeyedRep (balances s) (v_balances v) w;
  sr_intents : intents s = v_intents v;
  sr_axon_edges : axon_edges s = v_axon_edges v;
  sr_diameter_override : diameter_override s = v_diameter_override v;
  sr_height : height s = v_height v;
  sr_root_version : root_version s = v_root_version v;
}.

Definition view_new : View := mkView ∅ ∅ ∅ ∅ ∅ ∅ ∅ ∅ ∅ ∅ ∅ ∅ ∅ ∅ ∅ None (of_Z 64 0) V2.

Lemma state_rep_new : StateRep state_new view_new 0.
Proof.
  split; try done; try apply keyed_rep_new; try apply axon_rep_new. apply cards_rep_new.
Qed.

(** ** Insertion on views *)

Definition view_box_move (v : View) (mv : BoxMove) : View :=
  let v := put_nullifiers v (<[nullifier mv := tt]> (v_nullifiers v)) in
  match box_commitment mv with
  | Some (point, value) => put_commitments v (<[point := g_new value]> (v_commitments v))
  | None => v
  end.

(** A new axon joins a list at its end. *)
Definition join_axon (m : gmap Particle (list Particle)) (p x : Particle) : gmap Particle (list Particle) :=
  if bool_decide (x ∉ list_at m p) then <[p := list_at m p ++ [x]]> m else m.

Definition view_topology (v : View) (l : Cyberlink) : View :=
  let id := axon_id (l_from l) (l_to l) in
  let v := put_axons_out v (join_axon (v_axons_out v) (l_from l) id) in
  let v := put_axons_in v (join_axon (v_axons_in v) (l_to l) id) in
  match v_axon_edges v !! id with
  | Some _ => v
  | None => put_axon_edges v (<[id := (l_from l, l_to l)]> (v_axon_edges v))
  end.

(** The record of [id], zero when absent. *)
Definition particle_at (m : gmap Particle ParticleRecord) (id : Particle) : ParticleRecord :=
  from_option Datatypes.id zero_particle (m !! id).

Definition add_weight (m : gmap Particle ParticleRecord) (id : Particle) (a : u64) :=
  <[id := with_weight (particle_at m id) (saturating_add (weight (particle_at m id)) a)]> m.
Definition add_energy (m : gmap Particle ParticleRecord) (id : Particle) (a : u64) :=
  <[id := with_energy (particle_at m id) (saturating_add (energy (particle_at m id)) a)]> m.

(** The balance of a key, zero when absent, and a map with one balance changed. *)
Definition balance_at (m : gmap (bytes 32) u64) (key : bytes 32) : u64 :=
  from_option Datatypes.id (of_Z 64 0) (m !! key).
Definition put_balance (m : gmap (bytes 32) u64) (key : bytes 32) (b : u64) : gmap (bytes 32) u64 :=
  if uval b =? 0 then delete key m else <[key := b]> m.

Definition spend_focus (m : gmap NeuronId NeuronRecord) (n : NeuronId) (a : u64) :=
  match m !! n with
  | Some r => <[n := with_focus r (saturating_sub (focus r) a)]> m
  | None => m
  end.

Definition view_conviction (v : View) (neuron : NeuronId) (l : Cyberlink) : View :=
  let a := l_amount l in
  let v := put_particles v (add_weight (v_particles v) (axon_id (l_from l) (l_to l)) a) in
  let v := put_particles v (add_energy (v_particles v) (l_to l) a) in
  let v := put_neurons v (spend_focus (v_neurons v) neuron a) in
  let to_key := balance_key (l_to l) (l_token l) in
  let from_key := balance_key (l_from l) (l_token l) in
  let v := put_balances v (put_balance (v_balances v) to_key (saturating_add (balance_at (v_balances v) to_key) a)) in
  put_balances v (put_balance (v_balances v) from_key (saturating_sub (balance_at (v_balances v) from_key) a)).

Definition view_link (neuron : NeuronId) (v : View) (l : Cyberlink) : View :=
  let v := view_topology v l in
  if uval (l_amount l) =? 0 then v else view_conviction v neuron l.

Definition view_spent (v : View) (mv : BoxMove) : bool :=
  match v_nullifiers v !! nullifier mv with Some _ => true | None => false end.

Definition view_insert (v : View) (sg : Signal) : result InsertError unit * View :=
  if existsb (view_spent v) (s_box_moves sg) then (Err DoubleSpend, v)
  else (Ok tt, foldl (view_link (s_neuron sg)) (foldl view_box_move v (s_box_moves sg)) (s_links sg)).

(** The cells a signal may add to an arena. *)
Definition signal_cost (sg : Signal) : Z :=
  4 * (Z.of_nat (length (s_links sg)) + Z.of_nat (length (s_box_moves sg))).

(** ** Refinement *)

Lemma state_rep_weaken s v w w' : w <= w' -> StateRep s v w -> StateRep s v w'.
Proof.
  intros Hw []. split; try done; try (eapply keyed_rep_weaken; [exact Hw|done]);
    try (eapply axon_rep_weaken; [exact Hw|done]).
  destruct sr_cards0 as [Hk Hix]. split; [|done]. eapply keyed_rep_weaken; [exact Hw|done].
Qed.

Lemma sat_add_0_l w (a : uint w) : saturating_add (of_Z w 0) a = a.
Proof.
  apply uint_eq. rewrite uval_saturating_add, uval_of_Z_small; pose proof (uval_range a); lia.
Qed.

Lemma sat_sub_0_l w (a : uint w) : saturating_sub (of_Z w 0) a = of_Z w 0.
Proof.
  apply uint_eq. rewrite uval_saturating_sub, uval_of_Z_small; pose proof (uval_range a); lia.
Qed.

Lemma bump_weight_ok k m w id a :
  KeyedRep k m w -> KeyedRep (bump_weight k id a) (add_weight m id a) (w + 2).
Proof.
  intros Hk. pose proof (kr_map _ _ _ Hk) as Hm. unfold bump_weight, add_weight, particle_at. rewrite Hm.
  set (v := match m !! id with Some p => saturating_add (weight p) a | None => a end).
  pose proof (keyed_rep_entry k m id zero_particle (fun p => with_weight p v) w Hk) as Hr.
  replace (saturating_add (weight (from_option Datatypes.id zero_particle (m !! id))) a) with v; [done|].
  subst v. destruct (m !! id); simpl; [done|]. symmetry. apply sat_add_0_l.
Qed.

Lemma bump_energy_ok k m w id a :
  KeyedRep k m w -> KeyedRep (bump_energy k id a) (add_energy m id a) (w + 2).
Proof.
  intros Hk. pose proof (kr_map _ _ _ Hk) as Hm. unfold bump_energy, add_energy, particle_at. rewrite Hm.
  set (v := match m !! id with Some p => saturating_add (energy p) a | None => a end).
  pose proof (keyed_rep_entry k m id zero_particle (fun p => with_energy p v) w Hk) as Hr.
  replace (saturating_add (energy (from_option Datatypes.id zero_particle (m !! id))) a) with v; [done|].
  subst v. destruct (m !! id); simpl; [done|]. symmetry. apply sat_add_0_l.
Qed.

Lemma credit_ok k m w key a :
  uval a <> 0 -> KeyedRep k m w ->
  KeyedRep (credit k key a) (put_balance m key (saturating_add (balance_at m key) a)) (w + 2).
Proof.
  intros Ha Hk. pose proof (kr_map _ _ _ Hk) as Hm. unfold credit, put_balance, balance_at. rewrite Hm.
  replace (match m !! key with Some b => saturating_add b a | None => a end)
    with (saturating_add (from_option Datatypes.id (of_Z 64 0) (m !! key)) a)
    by (destruct (m !! key); [done|apply sat_add_0_l]).
  set (b := saturating_add _ a). assert (uval b <> 0) as Hb.
  { subst b. rewrite uval_saturating_add. u_lia. }
  rewrite (proj2 (Z.eqb_neq _ _) Hb). by apply keyed_rep_insert.
Qed.

Lemma debit_ok k m w key a :
  KeyedRep k m w ->
  KeyedRep (debit k key a) (put_balance m key (saturating_sub (balance_at m key) a)) (w + 2).
Proof.
  intros Hk. pose proof (kr_map _ _ _ Hk) as Hm. unfold debit, put_balance, balance_at. rewrite Hm.
  replace (match m !! key with Some b => saturating_sub b a | None => of_Z 64 0 end)
    with (saturating_sub (from_option Datatypes.id (of_Z 64 0) (m !! key)) a)
    by (destruct (m !! key); [done|apply sat_sub_0_l]).
  case_match; [by apply keyed_rep_remove | by apply keyed_rep_insert].
Qed.

Lemma apply_box_move_ok s v w mv :
  StateRep s v w -> StateRep (apply_box_move s mv) (view_box_move v mv) (w + 4).
Proof.
  intros Hs. pose proof (keyed_rep_insert _ _ (nullifier mv) tt _ (sr_nullifiers _ _ _ Hs)) as [_ Hn].
  assert (forall p val, KeyedRep (keyed_insert (commitments s) p val).2 (<[p := val]> (v_commitments v)) (w + 2))
    as Hc by (intros; apply keyed_rep_insert, Hs).
  assert (w + 2 <= w + 4) as H24 by lia.
  eapply state_rep_weaken in Hs; [|instantiate (1 := w + 4); lia].
  unfold apply_box_move, view_box_move. destruct (box_commitment mv) as [[p val]|];
    destruct Hs; split; simpl; try done;
    (eapply keyed_rep_weaken; [exact H24|]); first [exact Hn | apply Hc].
Qed.

Lemma join_axon_ok a m w p x :
  AxonRep a m w -> w + 2 <= 2 ^ 32 ->
  exists b a', axon_add a p x = Some (b, a') /\ AxonRep a' (join_axon m p x) (w + 2).
Proof.
  intros Ha Hw. destruct (axon_add_ok a m w p x Ha Hw) as (a' & E & Ha'). eauto.
Qed.

Lemma link_topology_ok s v w l :
  StateRep s v w -> w + 4 <= 2 ^ 32 ->
  exists s', link_topology s l = Some s' /\ StateRep s' (view_topology v l) (w + 4)
    /\ particles s' = particles s /\ neurons s' = neurons s /\ balances s' = balances s.
Proof.
  intros Hs Hw. unfold link_topology, view_topology.
  set (id := axon_id (l_from l) (l_to l)).
  destruct (join_axon_ok _ _ _ (l_from l) id (sr_axons_out _ _ _ Hs)) as (b1 & out & -> & Hout); [lia|].
  cbn [mbind option_bind axons_in set_axons_out].
  destruct (join_axon_ok _ _ _ (l_to l) id (sr_axons_in _ _ _ Hs)) as (b2 & inn & -> & Hinn); [lia|].
  cbn [mbind option_bind]. eexists. split; [done|].
  pose proof (sr_axon_edges _ _ _ Hs) as He.
  assert (w + 2 <= w + 4) as H24 by lia.
  eapply state_rep_weaken in Hs; [|instantiate (1 := w + 4); lia].
  cbn [axon_edges set_axons_in set_axons_out v_axon_edges put_axons_in put_axons_out]. rewrite He.
  destruct (v_axon_edges v !! id); (split; [|done]);
    destruct Hs; split; simpl; try done;
    (eapply axon_rep_weaken; [exact H24|]; assumption).
Qed.

Lemma spend_focus_ok k m w n a :
  KeyedRep k m w ->
  KeyedRep (match keyed_get_mut k n (fun r => with_focus r (saturating_sub (focus r) a)) with
            | Some k => k | None => k end) (spend_focus m n a) (w + 2).
Proof.
  intros Hk. unfold spend_focus. pose proof (keyed_rep_get_mut k m n
    (fun r => with_focus r (saturating_sub (focus r) a)) w Hk) as Hg.
  destruct (m !! n) as [r|]; [by destruct Hg as (k' & -> & Hk')|]. rewrite Hg.
  eapply keyed_rep_weaken, Hk. lia.
Qed.

(** The conviction part touches particles, neurons and balances only; it starts from their
    widths before the link. *)
Lemma link_conviction_ok s v w w' neuron l :
  StateRep s v w' -> w + 4 <= w' -> uval (l_amount l) <> 0 ->
  KeyedRep (particles s) (v_particles v) w -> KeyedRep (neurons s) (v_neurons v) w ->
  KeyedRep (balances s) (v_balances v) w ->
  StateRep (link_conviction s neuron l) (view_conviction v neuron l) w'.
Proof.
  intros Hs Hw Ha Hp Hn Hb. unfold link_conviction, view_conviction.
  pose proof (bump_energy_ok _ _ _ (l_to l) (l_amount l)
    (bump_weight_ok _ _ _ (axon_id (l_from l) (l_to l)) (l_amount l) Hp)) as Hp'.
  pose proof (spend_focus_ok _ _ _ neuron (l_amount l) Hn) as Hn'.
  pose proof (debit_ok _ _ _ (balance_key (l_from l) (l_token l)) (l_amount l)
    (credit_ok _ _ _ (balance_key (l_to l) (l_token l)) (l_amount l) Ha Hb)) as Hb'.
  apply (keyed_rep_weaken _ _ _ w') in Hp', Hn', Hb'; [|lia..].
  cbn [particles neurons balances set_particles set_neurons set_balances].
  destruct (keyed_get_mut (neurons s) neuron _) as [k|] eqn:Eg;
    destruct Hs; split; simpl; try done.
Qed.

Lemma apply_link_ok neuron s v w l :
  StateRep s v w -> w + 4 <= 2 ^ 32 ->
  exists s', apply_link neuron s l = Some s' /\ StateRep s' (view_link neuron v l) (w + 4).
Proof.
  intros Hs Hw. destruct (link_topology_ok s v w l Hs Hw) as (s1 & E & Hs1 & Ep & En & Eb).
  unfold apply_link, view_link. rewrite E. cbn [mbind option_bind]. eexists. split; [done|].
  destruct (Z.eqb_spec (l_amount l) 0) as [Ha|Ha]; [done|].
  assert (v_particles (view_topology v l) = v_particles v
    /\ v_neurons (view_topology v l) = v_neurons v
    /\ v_balances (view_topology v l) = v_balances v) as (Vp & Vn & Vb).
  { unfold view_topology. simpl. by case_match. }
  apply (link_conviction_ok _ _ w); [exact Hs1|lia|exact Ha|..]; rewrite ?Ep, ?En, ?Eb, ?Vp, ?Vn, ?Vb;
    apply Hs.
Qed.

Lemma existsb_spent s v w sg :
  StateRep s v w -> existsb (spent s) (s_box_moves sg) = existsb (view_spent v) (s_box_moves sg).
Proof.
  intros Hs. induction (s_box_moves sg) as [|mv l IH]; [done|]. simpl. rewrite IH. f_equal.
  unfold spent, view_spent. by rewrite (kr_map _ _ _ (sr_nullifiers _ _ _ Hs)).
Qed.

Lemma box_moves_ok mvs s v w :
  StateRep s v w ->
  StateRep (foldl apply_box_move s mvs) (foldl view_box_move v mvs) (w + 4 * Z.of_nat (length mvs)).
Proof.
  revert s v w. induction mvs as [|mv mvs IH]; intros s v w Hs; simpl.
  - eapply state_rep_weaken, Hs. lia.
  - eapply state_rep_weaken, IH, apply_box_move_ok, Hs. lia.
Qed.

Lemma links_ok neuron ls s v w :
  StateRep s v w -> w + 4 * Z.of_nat (length ls) <= 2 ^ 32 ->
  exists s', fold_m (apply_link neuron) s ls = Some s'
    /\ StateRep s' (foldl (view_link neuron) v ls) (w + 4 * Z.of_nat (length ls)).
Proof.
  revert s v w. induction ls as [|l ls IH]; intros s v w Hs Hw; simpl.
  - exists s. split; [done|]. eapply state_rep_weaken, Hs. lia.
  - cbn [length] in Hw. destruct (apply_link_ok neuron s v w l Hs) as (s1 & -> & Hs1); [lia|].
    cbn [mbind option_bind]. destruct (IH s1 _ _ Hs1) as (s2 & -> & Hs2); [lia|].
    exists s2. split; [done|]. eapply state_rep_weaken, Hs2. lia.
Qed.

(** [insert] runs without a panic and refines the insertion on views. *)
Lemma state_insert_ok s v w sg :
  StateRep s v w -> 0 <= w -> w + signal_cost sg <= 2 ^ 32 ->
  exists s', state_insert s sg = Some ((view_insert v sg).1, s')
    /\ StateRep s' (view_insert v sg).2 (w + signal_cost sg).
Proof.
  intros Hs H0w Hw. unfold signal_cost in *. unfold state_insert, view_insert.
  rewrite (existsb_spent s v w sg Hs). case_match; simpl.
  - exists s. split; [done|]. eapply state_rep_weaken, Hs. lia.
  - pose proof (box_moves_ok (s_box_moves sg) s v w Hs) as Hs1.
    destruct (links_ok (s_neuron sg) (s_links sg) _ _ _ Hs1) as (s2 & -> & Hs2); [lia|].
    cbn [mbind option_bind]. exists s2. split; [done|]. eapply state_rep_weaken, Hs2. lia.
Qed.

End View.
