(* ===== verification/Position.v ===== *)
(** * Positions (rs/src/position.rs): stakes, side sums and snapshots

    Reading the cards of a state as positions: the stake of a card, the two side sums of an axon,
    and the snapshot that enumerates every position grouped by axon and is searched by key.
    Operations answer [None] where the source panics (a missing record, an overflow of the
    128-bit sums). *)

From S2P Require Import Prelude.
From S2P Require Import Crypto.
From S2P Require Import Trie.
From S2P Require Import Keyed.
From S2P Require Import AxonIndex.
From S2P Require Import Types.
From S2P Require Import Cards.
From S2P Require Import State.
From S2P Require Import StateSpec.

Local Open Scope Z_scope.

(** ** [slice::binary_search_by] over a key *)

Definition ord_cmp {K} `{EqDecision K, Ordered K} (a b : K) : comparison :=
  if decide (a = b) then Eq else if ord_leb a b then Lt else Gt.

Fixpoint bsearch_loop {A} (cmp : A -> comparison) (l : list A) (fuel base size : nat) : option nat :=
  match fuel with
  | O => None
  | S fuel =>
      if (size <=? 1)%nat then
        x ← l !! base; match cmp x with Eq => Some base | _ => None end
      else
        let half := (size / 2)%nat in
        let mid := (base + half)%nat in
        x ← l !! mid;
        bsearch_loop cmp l fuel (match cmp x with Gt => base | _ => mid end) (size - half)
  end.

Definition binary_search {A} (cmp : A -> comparison) (l : list A) : option nat :=
  bsearch_loop cmp l (length l) 0 (length l).

Section Position.
  Context `{Nebu, Hemera}.

Record SideSums := mkSideSums { plus : u128; minus : u128 }.

Definition sums_default : SideSums := mkSideSums (of_Z 128 0) (of_Z 128 0).

Definition sums_add (s : SideSums) (side : Side) (stake : u64) : option SideSums :=
  match side with
  | Plus => p ← checked_add (plus s) (of_Z 128 stake); Some (mkSideSums p (minus s))
  | Minus => m ← checked_add (minus s) (of_Z 128 stake); Some (mkSideSums (plus s) m)
  end.

Record Position := mkPosition { pos_card : Particle; pos_record : CardRecord; pos_stake : u64 }.

Record AxonPositions := mkAxonPositions {
  ap_axon : Particle;
  ap_sums : SideSums;
  ap_positions : list Position;
}.

Record PositionSnapshot := mkPositionSnapshot {
  ps_axons : list AxonPositions;
  ps_len : nat;
  total : u128;
  active : u128;
}.

Definition snapshot_default : PositionSnapshot := mkPositionSnapshot [] 0 (of_Z 128 0) (of_Z 128 0).

Definition snap_get (p : PositionSnapshot) (axon : Particle) : option AxonPositions :=
  i ← binary_search (fun a => ord_cmp (ap_axon a) axon) (ps_axons p); ps_axons p !! i.

Definition snap_find (p : PositionSnapshot) (axon card : Particle) : option Position :=
  a ← snap_get p axon;
  i ← binary_search (fun p => ord_cmp (pos_card p) card) (ap_positions a); ap_positions a !! i.

Definition snap_is_empty (p : PositionSnapshot) : bool := (ps_len p =? 0)%nat.

(** ** Reading a state *)

(** [BbgState::balance_at]. *)
Definition state_balance_at (s : BbgState) (key : bytes 32) : u64 :=
  from_option id (of_Z 64 0) (k_map (balances s) !! key).

Definition state_stake (s : BbgState) (card : Particle) : u64 := state_balance_at s (stake_key card).

Definition focus_pool (s : BbgState) (token : Particle) : u64 := state_balance_at s (focus_key token).

(** [indexed]: the records and stake keys of the cards on an axon. *)
Definition indexed (s : BbgState) (axon : Particle) : option (list (CardRecord * bytes 32)) :=
  mapM (fun e => r ← k_map (records (cards s)) !! e.1; Some (r, e.2))
    (btree_iter (from_option id ∅ (by_axon (cards s) !! axon))).

Definition side_sums (s : BbgState) (axon : Particle) : option SideSums :=
  l ← indexed s axon;
  fold_m (fun sums e => sums_add sums (valence_side (c_valence e.1)) (state_balance_at s e.2)) sums_default l.

(** One card of [positions]: the running sums, active total and positions. *)
Definition position_step (s : BbgState) (acc : SideSums * u128 * list Position)
    (e : Particle * bytes 32) : option (SideSums * u128 * list Position) :=
  let '(sums, active, ps) := acc in
  record ← k_map (records (cards s)) !! e.1;
  let stake := state_balance_at s e.2 in
  sums ← sums_add sums (valence_side (c_valence record)) stake;
  active ← (if is_active (c_valence record) then checked_add active (of_Z 128 stake) else Some active);
  Some (sums, active, ps ++ [mkPosition e.1 record stake]).

(** One axon of [positions]. *)
Definition positions_axon (s : BbgState) (snap : PositionSnapshot)
    (e : Particle * gmap Particle (bytes 32)) : option PositionSnapshot :=
  '(sums, active, ps) ← fold_m (position_step s) (sums_default, active snap, []) (btree_iter e.2);
  both ← checked_add (plus sums) (minus sums);
  total ← checked_add (total snap) both;
  Some (mkPositionSnapshot (ps_axons snap ++ [mkAxonPositions e.1 sums ps])
    (ps_len snap + length ps) total active).

Definition positions (s : BbgState) : option PositionSnapshot :=
  fold_m (positions_axon s) snapshot_default (btree_iter (by_axon (cards s))).

End Position.

(** ** Binary search finds the element with the key *)

Section Search.
  Context {A K : Type} `{EqDecision K, Ordered K} (key : A -> K).

Definition key_sorted (l : list A) : Prop :=
  StronglySorted (fun x y => ord_leb (key x) (key y) = true) l /\ NoDup (map key l).

Lemma key_sorted_lookup l i j x y :
  key_sorted l -> l !! i = Some x -> l !! j = Some y -> (i < j)%nat ->
  ord_leb (key x) (key y) = true /\ key x <> key y.
Proof.
  intros [Hs Hn] Hx Hy Hij. split.
  - revert i j Hx Hy Hij. induction Hs as [|z l Hs IH Hf]; intros [|i] [|j] Hx Hy Hij; try lia; try done.
    + injection Hx as ->. apply (proj1 (Forall_forall _ _) Hf). by eapply list_elem_of_lookup_2.
    + cbn [map] in Hn. apply NoDup_cons in Hn as [_ Hn]. apply (IH Hn i j Hx Hy). lia.
  - intros E. assert (i = j) as ->; [|lia].
    apply (NoDup_lookup _ _ _ (key x) Hn); rewrite list_lookup_fmap; [by rewrite Hx|by rewrite Hy, E].
Qed.

Lemma bsearch_loop_sound cmp (l : list A) fuel base size i :
  bsearch_loop cmp l fuel base size = Some i -> exists x, l !! i = Some x /\ cmp x = Eq.
Proof.
  revert base size. induction fuel as [|fuel IH]; intros base size E; [done|].
  cbn [bsearch_loop] in E. case_match.
  - apply bind_Some in E as (x & Hx & E). destruct (cmp x) eqn:Ec; try done. injection E as <-. eauto.
  - apply bind_Some in E as (x & Hx & E). by apply IH in E.
Qed.

Lemma bsearch_loop_complete l i x fuel base size :
  key_sorted l -> l !! i = Some x -> (1 <= size <= fuel)%nat -> (base <= i < base + size)%nat ->
  (base + size <= length l)%nat ->
  bsearch_loop (fun y => ord_cmp (key y) (key x)) l fuel base size = Some i.
Proof.
  intros Hl Hx. revert base size. induction fuel as [|fuel IH]; intros base size Hf Hi Hb; [lia|].
  cbn [bsearch_loop]. destruct (Nat.leb_spec size 1).
  - assert (base = i) as -> by lia. rewrite Hx. cbn [mbind option_bind]. unfold ord_cmp. by rewrite decide_True.
  - assert (1 <= size / 2 < size)%nat as Hh
      by (split; [apply Nat.div_le_lower_bound; lia|apply Nat.div_lt; lia]).
    pose proof (Nat.Div0.mul_div_le size 2) as Hd.
    destruct (lookup_lt_is_Some_2 l (base + size / 2)) as [y Hy]; [lia|].
    rewrite Hy. cbn [mbind option_bind]. unfold ord_cmp.
    destruct (lt_eq_lt_dec i (base + size / 2)) as [[Hlt| ->]|Hgt].
    + destruct (key_sorted_lookup l _ _ _ _ Hl Hx Hy Hlt) as [Hle Hne].
      rewrite decide_False by done. destruct (ord_leb (key y) (key x)) eqn:E; [exfalso; by apply Hne, ord_leb_antisym|].
      apply IH; lia.
    + assert (x = y) as <- by congruence. rewrite decide_True by done. apply IH; lia.
    + destruct (key_sorted_lookup l _ _ _ _ Hl Hy Hx Hgt) as [Hle Hne].
      rewrite decide_False, Hle by done. apply IH; lia.
Qed.

(** The search answers the element with the key, whose absence it reports otherwise. *)
Lemma binary_search_spec l k :
  key_sorted l ->
  match binary_search (fun y => ord_cmp (key y) k) l ≫= (fun i => l !! i) with
  | Some x => x ∈ l /\ key x = k
  | None => forall x, x ∈ l -> key x <> k
  end.
Proof.
  intros Hl. unfold binary_search. destruct (bsearch_loop _ _ _ _ _) as [i|] eqn:E; cbn [mbind option_bind].
  - apply bsearch_loop_sound in E as (x & Hx & E). rewrite Hx. split; [by eapply list_elem_of_lookup_2|].
    unfold ord_cmp in E. case_decide; [done|]. by case_match.
  - intros x (i & Hx)%list_elem_of_lookup_1 <-. pose proof (lookup_lt_Some _ _ _ Hx).
    rewrite (bsearch_loop_complete l i x) in E; [done|done|done|lia..].
Qed.

Lemma binary_search_lookup l k x :
  key_sorted l -> x ∈ l -> key x = k ->
  binary_search (fun y => ord_cmp (key y) k) l ≫= (fun i => l !! i) = Some x.
Proof.
  intros Hl Hx Hk. pose proof (binary_search_spec l k Hl) as Hs.
  destruct (binary_search _ _ ≫= _) as [y|]; [|by apply Hs in Hx]. destruct Hs as [Hy Ey].
  apply list_elem_of_lookup_1 in Hx as (i & Hx), Hy as (j & Hy). f_equal.
  destruct (lt_eq_lt_dec i j) as [[Hij| ->]|Hij]; [|congruence|].
  - by destruct (key_sorted_lookup l _ _ _ _ Hl Hx Hy Hij) as [_ []]; congruence.
  - by destruct (key_sorted_lookup l _ _ _ _ Hl Hy Hx Hij) as [_ []]; congruence.
Qed.

Lemma binary_search_None l k :
  key_sorted l -> (forall x, x ∈ l -> key x <> k) ->
  binary_search (fun y => ord_cmp (key y) k) l ≫= (fun i => l !! i) = None.
Proof.
  intros Hl Hx. pose proof (binary_search_spec l k Hl) as Hs.
  destruct (binary_search _ _ ≫= _) as [y|]; [|done]. destruct Hs as [Hy Ey]. by apply Hx in Hy.
Qed.

End Search.

(** ** What a snapshot of a view is *)

Section Snapshot.
  Context `{Nebu, Hemera}.

Definition card_stake (v : View) (card : Particle) : u64 := balance_at (v_balances v) (stake_key card).

Definition position_of (v : View) (e : Particle * CardRecord) : Position :=
  mkPosition e.1 e.2 (card_stake v e.1).

Definition on_plus (r : CardRecord) : bool :=
  match valence_side (c_valence r) with Plus => true | Minus => false end.

(** The stake of the cards of a list that satisfy [p]. *)
Definition stakes (v : View) (p : CardRecord -> bool) (l : list (Particle * CardRecord)) : Z :=
  zsum (fun e => if p e.2 then uval (card_stake v e.1) else 0) l.

Definition sums_of (v : View) (l : list (Particle * CardRecord)) : SideSums :=
  mkSideSums (of_Z 128 (stakes v on_plus l)) (of_Z 128 (stakes v (fun r => negb (on_plus r)) l)).

Definition cards_at (v : View) (axon : Particle) : list (Particle * CardRecord) :=
  btree_iter (on_axon (v_cards v) axon).

Definition axon_positions (v : View) (axon : Particle) : AxonPositions :=
  mkAxonPositions axon (sums_of v (cards_at v axon)) (map (position_of v) (cards_at v axon)).

(** The axons that hold a card. *)
Definition axons_of (m : gmap Particle CardRecord) : gset Particle :=
  list_to_set (map (fun e => c_particle e.2) (map_to_list m)).

Definition view_positions (v : View) : PositionSnapshot :=
  mkPositionSnapshot (map (axon_positions v) (btree_keys (axons_of (v_cards v)))) (size (v_cards v))
    (of_Z 128 (stakes v (fun _ => true) (map_to_list (v_cards v))))
    (of_Z 128 (stakes v (fun r => is_active (c_valence r)) (map_to_list (v_cards v)))).

(** *** Sums *)

Lemma stakes_app v p l l' : stakes v p (l ++ l') = stakes v p l + stakes v p l'.
Proof. apply zsum_app. Qed.

Lemma stakes_cons v p e l :
  stakes v p (e :: l) = (if p e.2 then uval (card_stake v e.1) else 0) + stakes v p l.
Proof. done. Qed.

Lemma stakes_range v p l : 0 <= stakes v p l <= (2 ^ 64 - 1) * Z.of_nat (length l).
Proof. apply zsum_bounds. intros e. pose proof (uval_range (card_stake v e.1)). case_match; u_lia. Qed.

Lemma stakes_sides v l :
  stakes v on_plus l + stakes v (fun r => negb (on_plus r)) l = stakes v (fun _ => true) l.
Proof.
  unfold stakes. rewrite zsum_add. apply zsum_ext. intros e. destruct (on_plus e.2); simpl; lia.
Qed.

Lemma stakes_le v p l : stakes v p l <= stakes v (fun _ => true) l.
Proof.
  induction l as [|e l IH]; [done|]. rewrite !stakes_cons. pose proof (uval_range (card_stake v e.1)).
  case_match; lia.
Qed.

(** *** The index lists the cards of an axon *)

Lemma elem_of_cards_at v axon e :
  e ∈ cards_at v axon <-> v_cards v !! e.1 = Some e.2 /\ c_particle e.2 = axon.
Proof.
  destruct e as [c r]. unfold cards_at, on_axon. rewrite elem_of_btree_iter, map_lookup_filter_Some. done.
Qed.

Lemma index_of_iter m axon :
  btree_iter (index_of m axon) = map (fun e => (e.1, stake_key e.1)) (btree_iter (on_axon m axon)).
Proof.
  symmetry. assert ((map (fun e => (e.1, stake_key e.1)) (btree_iter (on_axon m axon))).*1
    = (btree_iter (on_axon m axon)).*1) as E.
  { rewrite <- list_fmap_compose. by apply list_fmap_ext. }
  apply btree_iter_unique.
  - eapply sorted_keys, btree_iter_sorted. symmetry. exact E.
  - rewrite E. apply NoDup_btree_iter.
  - intros c k. unfold index_of. rewrite map_lookup_imap, list_elem_of_fmap. split.
    + intros ([c' r] & [= -> ->] & Hr%elem_of_btree_iter). by rewrite Hr.
    + destruct (on_axon m axon !! c) as [r|] eqn:Er; [|done]. intros [= <-].
      exists (c, r). by rewrite elem_of_btree_iter.
Qed.

Lemma elem_of_axons_of m a : a ∈ axons_of m <-> exists c r, m !! c = Some r /\ c_particle r = a.
Proof.
  unfold axons_of. rewrite elem_of_list_to_set, list_elem_of_fmap. split.
  - intros ([c r] & -> & Hr%elem_of_map_to_list). eauto.
  - intros (c & r & Hr & <-). exists (c, r). by rewrite elem_of_map_to_list.
Qed.

Lemma by_axon_iter c m w :
  CardsRep c m w -> btree_iter (by_axon c) = map (fun a => (a, index_of m a)) (btree_keys (axons_of m)).
Proof.
  intros [_ Hix]. symmetry.
  assert (forall l : list Particle, (map (fun a => (a, index_of m a)) l).*1 = l) as E.
  { intros l. rewrite <- list_fmap_compose. by apply list_fmap_id. }
  apply btree_iter_unique.
  - assert (StronglySorted key_le (btree_keys (axons_of m))) as Hs
      by (apply Sorted_StronglySorted; [apply _|apply Sorted_merge_sort, _]).
    induction Hs as [|a l Hs IH Hf]; [constructor|]. constructor; [exact IH|].
    apply Forall_map. exact Hf.
  - rewrite E. apply NoDup_btree_keys.
  - intros a ix. rewrite Hix, list_elem_of_fmap.
    assert (index_of m a <> ∅ <-> a ∈ axons_of m) as Hne.
    { rewrite elem_of_axons_of. split.
      - intros (c' & k & Hk)%map_choose. rewrite index_of_lookup in Hk.
        destruct (m !! c') as [r|] eqn:Hr; [|done]. simpl in Hk. case_decide; [eauto|done].
      - intros (c' & r & Hr & Ha) He. pose proof (index_of_lookup m a c') as Hl.
        rewrite Hr, He, lookup_empty in Hl. simpl in Hl. by rewrite decide_True in Hl. }
    split.
    + intros (a' & [= -> ->] & Ha). rewrite elem_of_btree_keys in Ha. by apply entry_of_Some, Hne.
    + intros Ha. destruct (decide (index_of m a = ∅)) as [He|He].
      * by rewrite He, entry_of_empty in Ha.
      * rewrite entry_of_Some in Ha by done. injection Ha as <-. exists a. by rewrite elem_of_btree_keys, <- Hne.
Qed.

(** *** The folds compute it *)

Lemma checked_add_stake (z : Z) (x : u64) :
  0 <= z -> z + uval x < 2 ^ 128 -> checked_add (of_Z 128 z) (of_Z 128 x) = Some (of_Z 128 (z + uval x)).
Proof. intros Hz Hx. apply checked_add_of_Z; [done| |exact Hx]. pose proof (uval_range x). lia. Qed.

Lemma stakes_snoc v p ds e :
  stakes v p (ds ++ [e]) = stakes v p ds + (if p e.2 then uval (card_stake v e.1) else 0).
Proof. rewrite stakes_app, stakes_cons. unfold stakes at 2. simpl. lia. Qed.

Lemma sums_add_of v ds e :
  stakes v (fun _ => true) (ds ++ [e]) < 2 ^ 128 ->
  sums_add (sums_of v ds) (valence_side (c_valence e.2)) (card_stake v e.1) = Some (sums_of v (ds ++ [e])).
Proof.
  intros Hb. pose proof (stakes_le v on_plus (ds ++ [e])) as B1.
  pose proof (stakes_le v (fun r => negb (on_plus r)) (ds ++ [e])) as B2.
  pose proof (stakes_range v on_plus ds) as R1. pose proof (stakes_range v (fun r => negb (on_plus r)) ds) as R2.
  unfold sums_of. rewrite !stakes_snoc in *. cbv beta in *. unfold sums_add. cbn [plus minus].
  assert (on_plus e.2 = match valence_side (c_valence e.2) with Plus => true | Minus => false end) as E by done.
  destruct (valence_side (c_valence e.2)); rewrite E in *; cbn [negb] in *; rewrite ?Z.add_0_r in *;
    rewrite checked_add_stake by lia; done.
Qed.

Lemma state_balance_ok s v w key : StateRep s v w -> state_balance_at s key = balance_at (v_balances v) key.
Proof. intros Hs. unfold state_balance_at. by rewrite (kr_map _ _ _ (sr_balances _ _ _ Hs)). Qed.

(** The positions of one axon, from running totals over the cards [ds] before them. *)
Lemma position_fold s v w qs ds l :
  StateRep s v w -> (forall e, e ∈ l -> v_cards v !! e.1 = Some e.2) ->
  stakes v (fun _ => true) (qs ++ ds ++ l) < 2 ^ 128 ->
  fold_m (position_step s) (sums_of v ds, of_Z 128 (stakes v (fun r => is_active (c_valence r)) (qs ++ ds)),
      map (position_of v) ds) (map (fun e => (e.1, stake_key e.1)) l)
  = Some (sums_of v (ds ++ l), of_Z 128 (stakes v (fun r => is_active (c_valence r)) (qs ++ ds ++ l)),
      map (position_of v) (ds ++ l)).
Proof.
  intros Hs. revert ds. induction l as [|e l IH]; intros ds Hl Hb; cbn [map fold_m].
  { by rewrite !app_nil_r. }
  assert (position_step s (sums_of v ds, of_Z 128 (stakes v (fun r => is_active (c_valence r)) (qs ++ ds)),
      map (position_of v) ds) (e.1, stake_key e.1)
    = Some (sums_of v (ds ++ [e]), of_Z 128 (stakes v (fun r => is_active (c_valence r)) (qs ++ ds ++ [e])),
      map (position_of v) (ds ++ [e]))) as ->.
  { unfold position_step. cbn [fst snd].
    destruct (sr_cards _ _ _ Hs) as [[Hc _ _] _]. rewrite Hc, (Hl e) by (apply elem_of_cons; by left).
    cbn [mbind option_bind]. rewrite (state_balance_ok s v w _ Hs). fold (card_stake v e.1).
    assert (stakes v (fun _ => true) (qs ++ ds ++ [e]) < 2 ^ 128) as Hb'.
    { rewrite (app_assoc _ ds), cons_middle, !app_assoc, <- !app_assoc, !stakes_app in Hb.
      rewrite !stakes_app. pose proof (stakes_range v (fun _ => true) l). lia. }
    pose proof (stakes_range v (fun _ => true) qs) as Rq. rewrite stakes_app in Hb'.
    rewrite sums_add_of by lia. cbn [mbind option_bind].
    rewrite map_app. rewrite (app_assoc qs), (stakes_snoc _ _ (qs ++ ds)).
    pose proof (stakes_range v (fun r => is_active (c_valence r)) (qs ++ ds)) as Ra.
    pose proof (stakes_le v (fun r => is_active (c_valence r)) ((qs ++ ds) ++ [e])) as Rl.
    rewrite <- app_assoc, (stakes_app _ (fun _ => true) qs), app_assoc, stakes_snoc in Rl. cbv beta in *.
    destruct (is_active (c_valence e.2)); [rewrite checked_add_stake by lia|rewrite Z.add_0_r]; done. }
  cbn [mbind option_bind]. rewrite IH.
  - by rewrite <- !app_assoc.
  - intros e' He'. apply Hl, elem_of_cons. by right.
  - by rewrite <- app_assoc.
Qed.

Lemma indexed_fold s v w l ds :
  StateRep s v w -> stakes v (fun _ => true) (ds ++ l) < 2 ^ 128 ->
  fold_m (fun sums e => sums_add sums (valence_side (c_valence e.1)) (state_balance_at s e.2))
    (sums_of v ds) (map (fun e => (e.2, stake_key e.1)) l) = Some (sums_of v (ds ++ l)).
Proof.
  intros Hs. revert ds. induction l as [|e l IH]; intros ds Hb; cbn [map fold_m fst snd].
  { by rewrite app_nil_r. }
  rewrite (state_balance_ok s v w (stake_key e.1) Hs). fold (card_stake v e.1).
  rewrite cons_middle, app_assoc in Hb.
  rewrite sums_add_of by (rewrite stakes_app in Hb; pose proof (stakes_range v (fun _ => true) l); lia).
  cbn [mbind option_bind]. rewrite IH by done. by rewrite <- app_assoc.
Qed.

(** *** The cards of all axons are the cards *)

Definition cards_of_axons (v : View) (axons : list Particle) : list (Particle * CardRecord) :=
  flat_map (cards_at v) axons.

Lemma flat_map_bind {A B} (f : A -> list B) l : flat_map f l = l ≫= f.
Proof. induction l as [|x l IH]; [done|]. cbn [flat_map]. by rewrite IH, bind_cons. Qed.

Lemma cards_of_axons_all v :
  cards_of_axons v (btree_keys (axons_of (v_cards v))) ≡ₚ map_to_list (v_cards v).
Proof.
  unfold cards_of_axons. apply NoDup_Permutation; [|apply NoDup_map_to_list|].
  - rewrite flat_map_bind. apply NoDup_bind; [|intros a _; eapply NoDup_fmap_1, NoDup_btree_iter|apply NoDup_btree_keys].
    intros a a' e _ _ He He'. apply elem_of_cards_at in He as [_ <-], He' as [_ <-]. done.
  - intros [c r]. rewrite elem_of_map_to_list, list_elem_of_In, in_flat_map. split.
    + intros (a & _ & He). apply list_elem_of_In, elem_of_cards_at in He. apply He.
    + intros Hr. exists (c_particle r). rewrite <- !list_elem_of_In, elem_of_btree_keys, elem_of_axons_of, elem_of_cards_at.
      split; [by exists c, r|done].
Qed.

Lemma positions_axon_ok s v w ds a :
  StateRep s v w -> stakes v (fun _ => true) (cards_of_axons v (ds ++ [a])) < 2 ^ 128 ->
  let snap ks := mkPositionSnapshot (map (axon_positions v) ks) (length (cards_of_axons v ks))
    (of_Z 128 (stakes v (fun _ => true) (cards_of_axons v ks)))
    (of_Z 128 (stakes v (fun r => is_active (c_valence r)) (cards_of_axons v ks))) in
  positions_axon s (snap ds) (a, index_of (v_cards v) a) = Some (snap (ds ++ [a])).
Proof.
  intros Hs Hb snap. unfold positions_axon. cbn [fst snd]. rewrite index_of_iter.
  fold (cards_at v a). unfold snap. cbn [active total ps_axons ps_len].
  assert (cards_of_axons v (ds ++ [a]) = cards_of_axons v ds ++ cards_at v a) as Ec
    by (unfold cards_of_axons; rewrite flat_map_app; simpl; by rewrite app_nil_r).
  rewrite Ec in Hb. pose proof (stakes_range v (fun _ => true) (cards_of_axons v ds)) as Rd.
  pose proof (position_fold s v w (cards_of_axons v ds) [] (cards_at v a) Hs) as Hf.
  cbn [app map] in Hf. rewrite app_nil_r in Hf. change (sums_of v []) with sums_default in Hf.
  rewrite Hf by (done || (intros e He; by apply elem_of_cards_at in He as [? _])). clear Hf.
  cbn [mbind option_bind]. rewrite stakes_app in Hb. pose proof (stakes_sides v (cards_at v a)) as Es.
  pose proof (stakes_range v on_plus (cards_at v a)) as R1.
  pose proof (stakes_range v (fun r => negb (on_plus r)) (cards_at v a)) as R2.
  cbn [plus minus sums_of]. rewrite checked_add_of_Z by lia. cbn [mbind option_bind].
  rewrite Es, checked_add_of_Z by lia. cbn [mbind option_bind].
  by rewrite Ec, length_app, (stakes_app v (fun _ => true)), map_app, length_map.
Qed.

Lemma positions_fold s v w ds ks :
  StateRep s v w -> stakes v (fun _ => true) (cards_of_axons v (ds ++ ks)) < 2 ^ 128 ->
  let snap ks := mkPositionSnapshot (map (axon_positions v) ks) (length (cards_of_axons v ks))
    (of_Z 128 (stakes v (fun _ => true) (cards_of_axons v ks)))
    (of_Z 128 (stakes v (fun r => is_active (c_valence r)) (cards_of_axons v ks))) in
  fold_m (positions_axon s) (snap ds) (map (fun a => (a, index_of (v_cards v) a)) ks) = Some (snap (ds ++ ks)).
Proof.
  intros Hs Hb snap. revert ds Hb. induction ks as [|a ks IH]; intros ds Hb; cbn [map fold_m].
  { by rewrite app_nil_r. }
  rewrite cons_middle, app_assoc in Hb |- *.
  pose proof (positions_axon_ok s v w ds a Hs) as Ha. cbv zeta in Ha. fold snap in Ha. rewrite Ha.
  - cbn [mbind option_bind]. by apply IH.
  - unfold cards_of_axons in *. rewrite flat_map_app, stakes_app in Hb.
    pose proof (stakes_range v (fun _ => true) (flat_map (cards_at v) ks)). lia.
Qed.

(** [positions] computes the snapshot of the view. *)
Lemma positions_ok s v w :
  StateRep s v w -> Z.of_nat (size (v_cards v)) <= 2 ^ 64 -> positions s = Some (view_positions v).
Proof.
  intros Hs Hsize. unfold positions. rewrite (by_axon_iter _ _ _ (sr_cards _ _ _ Hs)).
  pose proof (cards_of_axons_all v) as Hp. set (ks := btree_keys _) in *.
  assert (forall p, stakes v p (cards_of_axons v ks) = stakes v p (map_to_list (v_cards v))) as Est
    by (intros p; unfold stakes; by rewrite Hp).
  assert (length (cards_of_axons v ks) = size (v_cards v)) as El by (by rewrite Hp, length_map_to_list).
  pose proof (positions_fold s v w [] ks Hs) as Hf. cbv zeta in Hf. change ([] ++ ks) with ks in Hf.
  rewrite !Est, El in Hf. apply Hf.
  pose proof (stakes_range v (fun _ => true) (map_to_list (v_cards v))) as R.
  rewrite length_map_to_list in R. nia.
Qed.

(** *** Searching it *)

Lemma axons_key_sorted v : key_sorted ap_axon (ps_axons (view_positions v)).
Proof.
  cbn [view_positions ps_axons]. set (s := axons_of _).
  assert (map ap_axon (map (axon_positions v) (btree_keys s)) = btree_keys s) as E
    by (rewrite map_map; apply map_id).
  split; [|rewrite E; apply NoDup_btree_keys].
  assert (StronglySorted key_le (btree_keys s)) as Hs
    by (apply Sorted_StronglySorted; [apply _|apply Sorted_merge_sort, _]).
  clear E. induction Hs as [|a l Hs IH Hf]; constructor; [exact IH|]. by apply Forall_map.
Qed.

Lemma cards_key_sorted v axon : key_sorted pos_card (ap_positions (axon_positions v axon)).
Proof.
  cbn [axon_positions ap_positions]. unfold cards_at. set (m := on_axon _ _). split.
  - pose proof (btree_iter_sorted m) as Hs. induction Hs as [|e l Hs IH Hf]; constructor; [exact IH|].
    by apply Forall_map.
  - rewrite map_map. change (NoDup (btree_iter m).*1). apply NoDup_btree_iter.
Qed.

Lemma snap_get_ok v axon :
  snap_get (view_positions v) axon
  = if decide (axon ∈ axons_of (v_cards v)) then Some (axon_positions v axon) else None.
Proof.
  unfold snap_get. case_decide as Ha.
  - apply (binary_search_lookup ap_axon); [apply axons_key_sorted| |done].
    apply list_elem_of_fmap. exists axon. by rewrite elem_of_btree_keys.
  - apply (binary_search_None ap_axon); [apply axons_key_sorted|].
    intros p (a & -> & Hin)%list_elem_of_fmap. rewrite elem_of_btree_keys in Hin. simpl. congruence.
Qed.

Lemma snap_find_ok v axon card :
  snap_find (view_positions v) axon card
  = r ← v_cards v !! card; if decide (c_particle r = axon) then Some (position_of v (card, r)) else None.
Proof.
  unfold snap_find. rewrite snap_get_ok.
  assert (forall p, p ∈ ap_positions (axon_positions v axon) <->
    exists r, v_cards v !! pos_card p = Some r /\ c_particle r = axon /\ p = position_of v (pos_card p, r)) as Hin.
  { intros p. cbn [axon_positions ap_positions]. rewrite list_elem_of_fmap. split.
    - intros ([c r] & -> & [Hr Ha]%elem_of_cards_at). by exists r.
    - intros (r & Hr & Ha & ->). exists (pos_card p, r). by rewrite elem_of_cards_at. }
  assert ((exists r, v_cards v !! card = Some r /\ c_particle r = axon) -> axon ∈ axons_of (v_cards v)) as Hax
    by (intros (r & ?); apply elem_of_axons_of; eauto).
  destruct (v_cards v !! card) as [r|] eqn:Hr; cbn [mbind option_bind].
  - destruct (decide (c_particle r = axon)) as [Ha|Ha].
    + rewrite decide_True by (apply Hax; eauto). cbn [mbind option_bind].
      apply (binary_search_lookup pos_card); [apply cards_key_sorted|apply Hin; by exists r|done].
    + case_decide; [|done]. cbn [mbind option_bind].
      apply (binary_search_None pos_card); [apply cards_key_sorted|].
      intros p (r' & Hr' & Ha' & _)%Hin <-. congruence.
  - case_decide; [|done]. cbn [mbind option_bind].
    apply (binary_search_None pos_card); [apply cards_key_sorted|].
    intros p (r' & Hr' & _)%Hin <-. congruence.
Qed.

Lemma side_sums_ok s v w axon :
  StateRep s v w -> stakes v (fun _ => true) (cards_at v axon) < 2 ^ 128 ->
  side_sums s axon = Some (sums_of v (cards_at v axon)).
Proof.
  intros Hs Hb. unfold side_sums, indexed. destruct (sr_cards _ _ _ Hs) as [[Hc _ _] Hix].
  rewrite Hix, from_entry_of, index_of_iter, Hc. fold (cards_at v axon).
  assert (forall l, (forall e, e ∈ l -> v_cards v !! e.1 = Some e.2) ->
    mapM (fun e : Particle * bytes 32 => r ← v_cards v !! e.1; Some (r, e.2)) (map (fun e => (e.1, stake_key e.1)) l)
    = Some (map (fun e => (e.2, stake_key e.1)) l)) as Hm.
  { induction l as [|e l IH]; intros Hl; [done|]. cbn [map mapM fst snd].
    rewrite (Hl e) by (apply elem_of_cons; by left). cbn [mbind option_bind].
    rewrite IH; [done|]. intros e' He'. apply Hl, elem_of_cons. by right. }
  rewrite Hm by (intros e He; by apply elem_of_cards_at in He as [? _]). cbn [mbind option_bind].
  apply (indexed_fold s v w (cards_at v axon) [] Hs Hb).
Qed.

Lemma stakes_at_le v axon :
  stakes v (fun _ => true) (cards_at v axon) <= (2 ^ 64 - 1) * Z.of_nat (size (v_cards v)).
Proof.
  pose proof (stakes_range v (fun _ => true) (cards_at v axon)) as R.
  assert (length (cards_at v axon) <= size (v_cards v))%nat.
  { unfold cards_at. rewrite length_btree_iter. apply map_size_filter. }
  nia.
Qed.

Lemma snap_sums_ok v axon : from_option ap_sums sums_default (snap_get (view_positions v) axon) = sums_of v (cards_at v axon).
Proof.
  rewrite snap_get_ok. case_decide as Ha; [done|]. simpl.
  assert (cards_at v axon = []) as ->; [|done].
  destruct (cards_at v axon) as [|e l] eqn:E; [done|]. destruct Ha. apply elem_of_axons_of.
  exists e.1, e.2. apply elem_of_cards_at. rewrite E. apply elem_of_cons. by left.
Qed.

(** C6: a snapshot enumerates the positions. On a state of at most 2^64 cards [positions] does
    not panic; the snapshot counts every card once, its totals are the exact sums of the stakes,
    [find] answers exactly the recorded card of that axon with its stake, and the sums it holds
    for an axon are the ones [side_sums] answers: the exact stake on each side. *)
Theorem positions_exact s v w :
  StateRep s v w -> Z.of_nat (size (v_cards v)) <= 2 ^ 64 ->
  exists snap, positions s = Some snap
    /\ ps_len snap = size (v_cards v)
    /\ uval (total snap) = stakes v (fun _ => true) (map_to_list (v_cards v))
    /\ uval (active snap) = stakes v (fun r => is_active (c_valence r)) (map_to_list (v_cards v))
    /\ (forall axon card, snap_find snap axon card
          = r ← v_cards v !! card;
            if decide (c_particle r = axon) then Some (mkPosition card r (card_stake v card)) else None)
    /\ (forall axon, exists sums, side_sums s axon = Some sums
          /\ from_option ap_sums sums_default (snap_get snap axon) = sums
          /\ uval (plus sums) = stakes v on_plus (cards_at v axon)
          /\ uval (minus sums) = stakes v (fun r => negb (on_plus r)) (cards_at v axon)).
Proof.
  intros Hs Hsize. exists (view_positions v).
  assert (forall p l, (length l <= size (v_cards v))%nat -> uval (of_Z 128 (stakes v p l)) = stakes v p l) as Hu.
  { intros p l Hl. apply uval_of_Z_small. pose proof (stakes_range v p l). simpl Z.of_N. nia. }
  split_and!; [by eapply positions_ok|done|..].
  1,2: by apply Hu; rewrite length_map_to_list.
  { apply snap_find_ok. }
  intros axon. exists (sums_of v (cards_at v axon)). pose proof (stakes_at_le v axon).
  split_and!; [by eapply (side_sums_ok s v w); [|nia]|apply snap_sums_ok|..]; apply Hu;
    unfold cards_at; rewrite length_btree_iter; apply map_size_filter.
Qed.

End Snapshot.

(** ** Witnesses *)

Import Toy.

Definition sample_card : CardRecord := mkCardRecord (id32 1) (id32 2) (id32 1) For (of_Z 64 3).

(** A state with one card, and the stake of its balance row. *)
Lemma sample_position_state :
  exists s, StateRep s (put_balances (put_cards view_new (<[id32 9 := sample_card]> ∅))
    (<[stake_key (id32 9) := of_Z 64 50]> ∅)) 2.
Proof.
  destruct (cards_insert_ok cards_new ∅ 0 (id32 9) sample_card cards_rep_new) as (c & _ & Hc).
  pose proof (keyed_rep_insert _ _ (stake_key (id32 9)) (of_Z 64 50) 0 (sr_balances _ _ _ state_rep_new)) as [_ Hb].
  pose proof (state_rep_weaken state_new view_new 0 2 ltac:(lia) state_rep_new) as [].
  eexists (set_balances (set_cards state_new c) _).
  split; first [exact Hb|exact Hc|done].
Qed.

Lemma positions_exact_witness :
  exists s snap, positions s = Some snap
    /\ snap_find snap (id32 2) (id32 9) = Some (mkPosition (id32 9) sample_card (of_Z 64 50)).
Proof.
  destruct sample_position_state as [s Hs].
  destruct (positions_exact s _ 2 Hs) as (snap & E & _ & _ & _ & Hf & _).
  { cbn [v_cards put_balances put_cards]. rewrite map_size_insert_None, map_size_empty by done. lia. }
  exists s, snap. split; [exact E|]. rewrite Hf. cbn [v_cards put_balances put_cards].
  rewrite lookup_insert_eq. cbn [mbind option_bind]. rewrite decide_True by done. unfold card_stake, balance_at.
  cbn [v_balances put_balances put_cards]. by rewrite lookup_insert_eq.
Defined.
