(* ===== verification/StateRoot.v ===== *)
(** * The v2 root of the state

    The root of a state is a function of its view, and determines it: two states with one root
    have the same records in every dimension, unless a collision or a preimage is at hand. *)

From S2P Require Import Prelude.
From S2P Require Import Crypto.
From S2P Require Import Trie.
From S2P Require Import TrieTree.
From S2P Require Import TrieProofs.
From S2P Require Import TrieBinding.
From S2P Require Import Keyed.
From S2P Require Import AxonIndex.
From S2P Require Import Types.
From S2P Require Import Cards.
From S2P Require Import State.
From S2P Require Import StateSpec.
From stdpp Require Import vector.

Local Open Scope Z_scope.

#[local] Opaque compress4 goldilocks_from_bytes32.

Section Root.
  Context `{Nebu, Hemera, !CryptoLaws, !Lens}.

(** ** The leaves of a view *)

(** The length of the longest list. *)
Definition longest (m : gmap Particle (list Particle)) : nat :=
  max_list (map (fun e => length e.2) (map_to_list m)).

Definition view_stats (v : View) : GraphStats :=
  let n {K} `{Countable K} {V} (m : gmap K V) := usize_u64 (size m) in
  let node_count := n (v_particles v) in
  mkGraphStats node_count
    [n (v_particles v); n (v_axons_out v); n (v_axons_in v); n (v_neurons v); n (v_locations v);
     n (v_coins v); n (v_cards v); n (v_files v); n (v_time v); n (v_signals v); n (v_balances v)]
    (usize_u64 (Nat.max (longest (v_axons_out v)) (longest (v_axons_in v))))
    (match v_diameter_override v with Some b => b | None => saturating_sub node_count (of_Z 64 1) end).

Definition view_leaves (v : View) : RootLeaves := mkRootLeaves
  [# commitment (leaf_map (v_particles v)); commitment (axon_leaf_map (v_axons_out v));
     commitment (axon_leaf_map (v_axons_in v)); commitment (leaf_map (v_neurons v));
     commitment (leaf_map (v_locations v)); commitment (leaf_map (v_coins v));
     commitment (leaf_map (v_cards v)); commitment (leaf_map (v_files v));
     commitment (leaf_map (v_time v)); commitment (leaf_map (v_signals v));
     commitment (leaf_map (v_balances v))]
  (commitment (leaf_map (v_commitments v))) (commitment (leaf_map (v_nullifiers v)))
  (goldilocks_from_bytes32 (stats_commit (view_stats v))).

Definition view_root (v : View) : Particle := root_to_bytes (root_from_leaves (view_leaves v)).

(** ** The code computes them *)

Lemma max_list_in l n : n ∈ l -> (n <= max_list l)%nat.
Proof. induction 1; simpl; lia. Qed.

Lemma max_list_attained l : l <> [] -> max_list l ∈ l.
Proof.
  induction l as [|n l IH]; [done|]. intros _. simpl. destruct l as [|m l'].
  - rewrite Nat.max_0_r. apply list_elem_of_here.
  - specialize (IH ltac:(done)). destruct (Nat.max_spec n (max_list (m :: l'))) as [[_ ->]|[_ ->]];
      apply elem_of_cons; auto.
Qed.

Lemma longest_in m p l : m !! p = Some l -> (length l <= longest m)%nat.
Proof.
  intros Hp. apply max_list_in, list_elem_of_fmap. exists (p, l). split; [done|].
  by apply elem_of_map_to_list.
Qed.

Lemma longest_attained m : m <> ∅ -> exists p l, m !! p = Some l /\ length l = longest m.
Proof.
  intros Hm. assert (longest m ∈ map (fun e => length e.2) (map_to_list m)) as Hin.
  { apply max_list_attained. intros E%map_eq_nil%map_to_list_empty_iff. done. }
  apply list_elem_of_fmap in Hin as ([p l] & E & Hp%elem_of_map_to_list). eauto.
Qed.

Lemma max_degree_longest a m w : AxonRep a m w -> max_degree a = longest m.
Proof.
  intros Ha. destruct (max_degree_ok a m w Ha) as [Hle [[-> ->]|(p & l & Hp & El)]]; [done|].
  pose proof (longest_in m p l Hp). destruct (longest_attained m) as (q & l' & Hq & El').
  { intros ->. by rewrite lookup_empty in Hp. }
  specialize (Hle q l' Hq). lia.
Qed.

Lemma statistics_ok s v w : StateRep s v w -> statistics s = view_stats v.
Proof.
  intros Hs. unfold statistics, view_stats, klen.
  rewrite (max_degree_longest _ _ _ (sr_axons_out _ _ _ Hs)), (max_degree_longest _ _ _ (sr_axons_in _ _ _ Hs)).
  rewrite (ar_map _ _ _ (sr_axons_out _ _ _ Hs)), (ar_map _ _ _ (sr_axons_in _ _ _ Hs)).
  rewrite (kr_map _ _ _ (cr_records _ _ _ (sr_cards _ _ _ Hs))), (sr_diameter_override _ _ _ Hs).
  rewrite (kr_map _ _ _ (sr_particles _ _ _ Hs)), (kr_map _ _ _ (sr_neurons _ _ _ Hs)), (kr_map _ _ _ (sr_locations _ _ _ Hs)), (kr_map _ _ _ (sr_coins _ _ _ Hs)), (kr_map _ _ _ (sr_files _ _ _ Hs)), (kr_map _ _ _ (sr_time _ _ _ Hs)), (kr_map _ _ _ (sr_signals _ _ _ Hs)), (kr_map _ _ _ (sr_balances _ _ _ Hs)).
  done.
Qed.

Lemma digest_limbs_canonical b : canonical_digest b = true -> digest_limbs b = Some (goldilocks_from_bytes32 b).
Proof. intros Hc. unfold digest_limbs. by rewrite Hc. Qed.

Lemma cards_commitment_ok c m w :
  CardsRep c m w -> w <= 2 ^ 32 ->
  exists c', cards_commitment c = Some (commitment (leaf_map m), c') /\ CardsRep c' m w.
Proof.
  intros [Hk Hix] Hw. unfold cards_commitment.
  destruct (keyed_commitment_ok _ _ _ Hk Hw) as (k' & -> & Hk' & _). cbn [mbind option_bind].
  eexists. split; [done|]. by split.
Qed.

Lemma keyed_commitment_rep {K V} `{TrieKey K, !LeafValue V} (k : Keyed K V) m w :
  KeyedRep k m w -> w <= 2 ^ 32 ->
  exists k', keyed_commitment k = Some (commitment (leaf_map m), k') /\ KeyedRep k' m w.
Proof. intros Hk Hw. destruct (keyed_commitment_ok k m w Hk Hw) as (k' & E & Hk' & _). eauto. Qed.

(** One leaf: the commitment of the next dimension, and the state with it settled. *)
Ltac finish_leaf Hk :=
  let k := fresh "k" in let E := fresh "E" in
  destruct Hk as (k & E & Hk);
  cbn [particles axons_out axons_in neurons locations coins cards files time signals balances
    commitments nullifiers set_particles set_axons_out set_axons_in set_neurons set_locations
    set_coins set_cards set_files set_time set_signals set_balances set_commitments
    set_nullifiers];
  rewrite E; cbn [mbind option_bind]; clear E.
Ltac keyed_leaf_step H :=
  let Hk := fresh "Hk" in pose proof H as Hk;
  eapply keyed_commitment_rep in Hk; [|eassumption]; finish_leaf Hk.
Ltac axon_leaf_step H :=
  let Hk := fresh "Hk" in pose proof H as Hk;
  eapply axon_commitment_ok in Hk; [|eassumption]; finish_leaf Hk.
Ltac cards_leaf_step H :=
  let Hk := fresh "Hk" in pose proof H as Hk;
  eapply cards_commitment_ok in Hk; [|eassumption]; finish_leaf Hk.

Lemma v2_leaves_ok s v w :
  StateRep s v w -> w <= 2 ^ 32 ->
  exists s', v2_leaves s = Some ((dims (view_leaves v), leaf_a (view_leaves v), leaf_n (view_leaves v)), s')
    /\ StateRep s' v w.
Proof.
  intros Hs Hw. unfold v2_leaves.
  keyed_leaf_step (sr_particles _ _ _ Hs).
  axon_leaf_step (sr_axons_out _ _ _ Hs).
  axon_leaf_step (sr_axons_in _ _ _ Hs).
  keyed_leaf_step (sr_neurons _ _ _ Hs).
  keyed_leaf_step (sr_locations _ _ _ Hs).
  keyed_leaf_step (sr_coins _ _ _ Hs).
  cards_leaf_step (sr_cards _ _ _ Hs).
  keyed_leaf_step (sr_files _ _ _ Hs).
  keyed_leaf_step (sr_time _ _ _ Hs).
  keyed_leaf_step (sr_signals _ _ _ Hs).
  keyed_leaf_step (sr_balances _ _ _ Hs).
  keyed_leaf_step (sr_commitments _ _ _ Hs).
  keyed_leaf_step (sr_nullifiers _ _ _ Hs).
  cbn [view_leaves dims leaf_a leaf_n]. eexists. split; [reflexivity|].
  destruct Hs; split; cbn [particles axons_out axons_in neurons locations coins cards files time signals balances
    commitments nullifiers intents axon_edges diameter_override height root_version]; assumption.
Qed.

(** Under v2 the root is that of the view. *)
Lemma compute_root_ok s v w :
  StateRep s v w -> w <= 2 ^ 32 -> v_root_version v = V2 ->
  exists s', compute_root s = Some (view_root v, s') /\ StateRep s' v w.
Proof.
  intros Hs Hw Hv. unfold compute_root, root_leaves. rewrite (sr_root_version _ _ _ Hs), Hv.
  destruct (v2_leaves_ok s v w Hs Hw) as (s' & -> & Hs'). cbn [mbind option_bind].
  rewrite (statistics_ok _ _ _ Hs'), digest_limbs_canonical by apply hemera_hash_canonical.
  cbn [mbind option_bind]. exists s'. split; [|done]. reflexivity.
Qed.

(** ** The root determines the records *)

(** The queries behind an adjacency dimension: the outer commitment and, for every particle, its
    leaf and the commitment of its member set. *)
Definition axon_vals (l : list Particle) : list Goldilocks :=
  u64_limbs (usize_u64 (length l)) ++ quad_list (commitment (member_map l)).

Definition member_queries (l : list Particle) : list query :=
  commitment_queries (member_map l) ++ flat_map (fun x => leaf_queries x []) l.

Definition axon_queries (m : gmap Particle (list Particle)) : list query :=
  commitment_queries (axon_leaf_map m)
  ++ flat_map (fun e => leaf_queries e.1 (axon_vals e.2) ++ member_queries e.2) (map_to_list m).

Lemma axon_vals_short l : Z.of_nat (length (axon_vals l)) < field_P.
Proof. apply small_nat_P. simpl. lia. Qed.

Lemma axon_queries_at Q m p l :
  axon_queries m ⊆ Q -> m !! p = Some l -> leaf_queries p (axon_vals l) ⊆ Q /\ member_queries l ⊆ Q.
Proof.
  intros [_ HQ]%app_subset Hl%elem_of_map_to_list. apply app_subset.
  apply (flat_map_subset _ _ _ (p, l) HQ Hl).
Qed.

Lemma axon_entry_inj Q p l l' :
  leaf_queries p (axon_vals l) ⊆ Q -> leaf_queries p (axon_vals l') ⊆ Q ->
  axon_entry p l = axon_entry p l' ->
  commitment (member_map l) = commitment (member_map l') \/ break_in Q.
Proof.
  intros Q1 Q2 E.
  apply (leaf_digest_inj Q) in E as [[_ E]|]; [left|by right|apply axon_vals_short..|done|done].
  apply app_inj_1 in E as [_ E]; [|done]. by apply quad_list_inj.
Qed.

Lemma axon_leaf_map_images Q m : axon_queries m ⊆ Q -> leaf_images Q (axon_leaf_map m).
Proof.
  intros HQ p d Hp. rewrite axon_leaf_map_lookup in Hp. destruct (m !! p) as [l|] eqn:Hl; [|done].
  injection Hp as <-. exists (axon_vals l).
  split_and!; [apply axon_vals_short|done|]. by apply (axon_queries_at Q m).
Qed.

Lemma member_map_images Q l : member_queries l ⊆ Q -> leaf_images Q (member_map l).
Proof.
  intros [_ HQ]%app_subset x d Hx. rewrite member_map_lookup in Hx. case_decide as Hin; [|done]. injection Hx as <-.
  exists []. split_and!; [by apply small_nat_P; simpl; lia|done|]. by apply (flat_map_subset _ _ _ x HQ).
Qed.

Lemma member_map_binds Q l l' :
  member_queries l ⊆ Q -> member_queries l' ⊆ Q ->
  commitment (member_map l) = commitment (member_map l') -> (forall x, x ∈ l <-> x ∈ l') \/ break_in Q.
Proof.
  intros HQ HQ' E. pose proof (member_map_images Q l HQ) as I. pose proof (member_map_images Q l' HQ') as I'.
  apply app_subset in HQ as [HQ _], HQ' as [HQ' _].
  apply (commitment_binds Q _ _ I I' HQ HQ') in E as [E|]; [left|by right].
  intros x. pose proof (member_map_lookup l x) as Hx. pose proof (member_map_lookup l' x) as Hx'.
  rewrite E, Hx' in Hx. by do 2 case_decide.
Qed.

(** Two adjacency maps with the same members, in whatever order. *)
Definition same_axons (m m' : gmap Particle (list Particle)) : Prop :=
  forall p, list_at m p ≡ₚ list_at m' p.

Definition lists_ok (m : gmap Particle (list Particle)) : Prop := map_Forall (fun _ l => list_ok l) m.

Lemma axon_leaf_map_binds Q m m' :
  lists_ok m -> lists_ok m' -> axon_queries m ⊆ Q -> axon_queries m' ⊆ Q ->
  commitment (axon_leaf_map m) = commitment (axon_leaf_map m') ->
  same_axons m m' \/ break_in Q.
Proof.
  intros Hm Hm' HQ HQ' E.
  apply (commitment_binds Q) in E as [E|]; [|by right|by apply axon_leaf_map_images..
    |by apply app_subset in HQ as [? _]|by apply app_subset in HQ' as [? _]].
  assert (forall p, axon_entry p <$> m !! p = axon_entry p <$> m' !! p) as Ek
    by (intros p; by rewrite <- !axon_leaf_map_lookup, E).
  assert (map_Forall (fun p l => exists l', m' !! p = Some l' /\ l ≡ₚ l') m \/ break_in Q) as [Hf|]; [|left|auto].
  - apply map_forall_or. intros p l Hl. specialize (Ek p). rewrite Hl in Ek. simpl in Ek.
    destruct (m' !! p) as [l'|] eqn:Hl'; [|done]. apply (inj Some) in Ek.
    destruct (axon_queries_at Q m p l HQ Hl), (axon_queries_at Q m' p l' HQ' Hl').
    apply (axon_entry_inj Q) in Ek as [[Ek|]%(member_map_binds Q)|]; [|by right|done|done|by right|done|done].
    left. exists l'. split; [done|]. apply NoDup_Permutation; [apply (Hm p l Hl)|apply (Hm' p l' Hl')|done].
  - intros p. unfold list_at. destruct (m !! p) as [l|] eqn:Hl.
    + destruct (Hf p l Hl) as (l' & -> & Hp). done.
    + specialize (Ek p). rewrite Hl in Ek. by destruct (m' !! p).
Qed.

(** The compressions behind the root of a view. *)
Definition view_queries (v : View) : list query :=
  root_queries (view_leaves v)
  ++ leaf_map_queries (v_particles v) ++ axon_queries (v_axons_out v) ++ axon_queries (v_axons_in v)
  ++ leaf_map_queries (v_neurons v) ++ leaf_map_queries (v_locations v) ++ leaf_map_queries (v_coins v)
  ++ leaf_map_queries (v_cards v) ++ leaf_map_queries (v_files v) ++ leaf_map_queries (v_time v)
  ++ leaf_map_queries (v_signals v) ++ leaf_map_queries (v_balances v)
  ++ leaf_map_queries (v_commitments v) ++ leaf_map_queries (v_nullifiers v).

(** The committed contents of two views agree. *)
Record view_agree (v v' : View) : Prop := {
  va_particles : v_particles v = v_particles v';
  va_axons_out : same_axons (v_axons_out v) (v_axons_out v');
  va_axons_in : same_axons (v_axons_in v) (v_axons_in v');
  va_neurons : v_neurons v = v_neurons v';
  va_locations : v_locations v = v_locations v';
  va_coins : v_coins v = v_coins v';
  va_cards : v_cards v = v_cards v';
  va_files : v_files v = v_files v';
  va_time : v_time v = v_time v';
  va_signals : v_signals v = v_signals v';
  va_balances : v_balances v = v_balances v';
  va_commitments : v_commitments v = v_commitments v';
  va_nullifiers : v_nullifiers v = v_nullifiers v';
  va_stats : goldilocks_from_bytes32 (stats_commit (view_stats v))
    = goldilocks_from_bytes32 (stats_commit (view_stats v'));
}.

Lemma view_root_binds Q v v' :
  lists_ok (v_axons_out v) -> lists_ok (v_axons_in v) ->
  lists_ok (v_axons_out v') -> lists_ok (v_axons_in v') ->
  view_queries v ⊆ Q -> view_queries v' ⊆ Q ->
  view_root v = view_root v' -> view_agree v v' \/ break_in Q.
Proof.
  intros Ho Hi Ho' Hi' HQ HQ' E. unfold view_queries in HQ, HQ'. rewrite !app_subset in HQ, HQ'.
  destruct HQ as (Qr & Q0 & Q1 & Q2 & Q3 & Q4 & Q5 & Q6 & Q7 & Q8 & Q9 & Q10 & Qa & Qn).
  destruct HQ' as (Qr' & Q0' & Q1' & Q2' & Q3' & Q4' & Q5' & Q6' & Q7' & Q8' & Q9' & Q10' & Qa' & Qn').
  unfold view_root in E. apply (root_bytes_bind Q _ _ Qr Qr') in E as [E|]; [|by right; left].
  pose proof (f_equal leaf_stats E) as Est.
  unfold view_leaves in E. injection E as E0 E1 E2 E3 E4 E5 E6 E7 E8 E9 E10 Ea En _ _ _ _.
  apply (leaf_map_binds Q) in E0 as [E0|]; [|by right|done..].
  apply (axon_leaf_map_binds Q) in E1 as [E1|]; [|by right|done..].
  apply (axon_leaf_map_binds Q) in E2 as [E2|]; [|by right|done..].
  apply (leaf_map_binds Q) in E3 as [E3|]; [|by right|done..].
  apply (leaf_map_binds Q) in E4 as [E4|]; [|by right|done..].
  apply (leaf_map_binds Q) in E5 as [E5|]; [|by right|done..].
  apply (leaf_map_binds Q) in E6 as [E6|]; [|by right|done..].
  apply (leaf_map_binds Q) in E7 as [E7|]; [|by right|done..].
  apply (leaf_map_binds Q) in E8 as [E8|]; [|by right|done..].
  apply (leaf_map_binds Q) in E9 as [E9|]; [|by right|done..].
  apply (leaf_map_binds Q) in E10 as [E10|]; [|by right|done..].
  apply (leaf_map_binds Q) in Ea as [Ea|]; [|by right|done..].
  apply (leaf_map_binds Q) in En as [En|]; [|by right|done..].
  left. by split.
Qed.

End Root.
