(* ===== verification/Prune.v ===== *)
(** * Pruning (rs/src/prune.rs)

    The three mechanisms of the pruning policy over a state: the rank floor, the half-life and the
    size pressure, and the removal of an axon with its index references. Operations answer [None]
    where the source panics; maps are iterated in key order, as a [BTreeMap] is. *)

From S2P Require Import Prelude.
From S2P Require Import Crypto.
From S2P Require Import Trie.
From S2P Require Import Keyed.
From S2P Require Import AxonIndex.
From S2P Require Import Types.
From S2P Require Import Cards.
From S2P Require Import State.
From S2P Require Import StateSpec.
From S2P Require Import StateRoot.

Local Open Scope Z_scope.

(** ** [slice::sort_by_key], a stable sort *)

Fixpoint insert_by {A} (key : A -> Z) (x : A) (l : list A) : list A :=
  match l with
  | [] => [x]
  | y :: l' => if key x <? key y then x :: l else y :: insert_by key x l'
  end.

Definition sort_by_key {A} (key : A -> Z) (l : list A) : list A :=
  foldl (fun acc x => insert_by key x acc) [] l.

Section Prune.
  Context `{Nebu, Hemera}.

Record PruneConfig := mkPruneConfig {
  max_bytes : u64;
  rank_floor_pct : u8;
  half_life_epochs : u64;
}.

Definition prune_config_default : PruneConfig := mkPruneConfig (of_Z 64 (2 ^ 30)) (of_Z 8 20) (of_Z 64 1000).

Record PruneState := mkPruneState { last_touched : gmap Particle u64 }.

Definition prune_state_default : PruneState := mkPruneState ∅.

Definition touch (ps : PruneState) (axon_id : Particle) (epoch : u64) : PruneState :=
  mkPruneState (<[axon_id := epoch]> (last_touched ps)).

(** [rank_floor]: the score below which entries may be pruned. *)
Definition rank_floor_of (m : gmap Particle ParticleRecord) (pct : u8) : option u64 :=
  if uval pct =? 0 then Some (umax 64)
  else
    let scores := map (fun e => pi_star e.2) (btree_iter m) in
    match scores with
    | [] => Some (of_Z 64 0)
    | _ =>
        let scores := merge_sort key_le scores in
        let protected_count := ((length scores * Z.to_nat pct + 99) / 100)%nat in
        let boundary := (length scores - protected_count)%nat in
        scores !! boundary
    end.

Definition rank_floor (s : BbgState) (pct : u8) : option u64 := rank_floor_of (k_map (particles s)) pct.

(** [estimate_bytes]; the 64-bit sum panics when it overflows. *)
Definition estimate_bytes (s : BbgState) : option u64 :=
  let lists (a : AxonIndex) := zsum (fun e => 32 + Z.of_nat (length e.2) * 32) (btree_iter (ai_map a)) in
  let z := Z.of_nat (size (k_map (particles s))) * 80 + lists (axons_out s) + lists (axons_in s)
           + Z.of_nat (size (k_map (neurons s))) * 64 in
  if z <? 2 ^ 64 then Some (of_Z 64 z) else None.

(** The candidate loop: an error once [limit] entries are held and another comes. *)
Fixpoint collect_limit {A} (limit : Z) (acc l : list A) : result unit (list A) :=
  match l with
  | [] => Ok acc
  | x :: l =>
      if Z.of_nat (length acc) =? limit then Err tt
      else collect_limit limit (acc ++ [x]) l
  end.

(** [particles.get(id).map_or(0, ..)]. *)
Definition score_of (s : BbgState) (id : Particle) : u64 :=
  match k_map (particles s) !! id with Some p => pi_star p | None => of_Z 64 0 end.
Definition density_of (s : BbgState) (id : Particle) : u64 :=
  match k_map (particles s) !! id with Some p => weight p | None => of_Z 64 0 end.

(** The iterators of [candidates]: all unprotected entries under size pressure, the stale
    unprotected ones otherwise, with their weights. *)
Definition gravity (s : BbgState) (floor : u64) : list (Particle * u64) :=
  map (fun e => (e.1, weight e.2))
    (filter (fun e => pi_star e.2 < floor) (btree_iter (k_map (particles s)))).

Definition half_life (s : BbgState) (ps : PruneState) (floor : u64) (half epoch : u64) : list (Particle * u64) :=
  map (fun e => (e.1, density_of s e.1))
    (filter (fun e => score_of s e.1 < floor /\ uval half < saturating_sub epoch e.2)
       (btree_iter (last_touched ps))).

Definition candidates (s : BbgState) (ps : PruneState) (cfg : PruneConfig) (epoch : u64) (limit : Z)
    : option (result unit (bool * list Particle)) :=
  floor ← rank_floor s (rank_floor_pct cfg);
  est ← estimate_bytes s;
  let over_budget := uval (max_bytes cfg) <? uval est in
  let all := if over_budget then gravity s floor else half_life s ps floor (half_life_epochs cfg) epoch in
  Some (match collect_limit limit [] all with
        | Ok sorted => Ok (over_budget, map fst (sort_by_key (fun e => uval e.2) sorted))
        | Err e => Err e
        end).

(** [remove_axon]: the record, the policy entry and the index references. *)
Definition remove_axon (s : BbgState) (ps : PruneState) (axon_id : Particle) : option (BbgState * PruneState) :=
  let s := set_particles s (keyed_remove (particles s) axon_id).2 in
  let ps := mkPruneState (delete axon_id (last_touched ps)) in
  match axon_edges s !! axon_id with
  | None => Some (s, ps)
  | Some (from, to) =>
      let s := set_axon_edges s (delete axon_id (axon_edges s)) in
      '(_, out) ← axon_remove_axon (axons_out s) from axon_id;
      let s := set_axons_out s out in
      '(_, inn) ← axon_remove_axon (axons_in s) to axon_id;
      Some (set_axons_in s inn, ps)
  end.

(** The removal loop: under size pressure it stops as soon as the estimate fits. *)
Fixpoint prune_loop (s : BbgState) (ps : PruneState) (over_budget : bool) (max : u64)
    (ids : list Particle) : option (BbgState * PruneState) :=
  match ids with
  | [] => Some (s, ps)
  | id :: ids =>
      stop ← (if over_budget then est ← estimate_bytes s; Some (uval est <=? uval max) else Some false);
      if stop : bool then Some (s, ps)
      else '(s, ps) ← remove_axon s ps id; prune_loop s ps over_budget max ids
  end.

Definition usize_MAX : Z := 2 ^ 64 - 1.

Definition prune `{!Lens} (s : BbgState) (ps : PruneState) (cfg : PruneConfig) (epoch : u64)
    : option (BbgState * PruneState) :=
  c ← candidates s ps cfg epoch usize_MAX;
  match c with
  | Err _ => None
  | Ok (over_budget, sorted) =>
      '(s, ps) ← prune_loop s ps over_budget (max_bytes cfg) sorted;
      '(_, s) ← compute_root s;
      Some (s, ps)
  end.

End Prune.

(** ** Facts about the sort and the bounded collection *)

Lemma insert_by_perm {A} (key : A -> Z) x l : insert_by key x l ≡ₚ x :: l.
Proof.
  induction l as [|y l IH]; simpl; [done|]. case_match; [done|]. rewrite IH. apply Permutation_swap.
Qed.

Lemma insert_by_sorted {A} (key : A -> Z) x l :
  StronglySorted (fun a b => key a <= key b) l -> StronglySorted (fun a b => key a <= key b) (insert_by key x l).
Proof.
  induction 1 as [|y l Hs IH Hf]; simpl; [by repeat constructor|].
  destruct (Z.ltb_spec (key x) (key y)).
  - constructor; [by constructor|]. constructor; [lia|]. eapply Forall_impl; [exact Hf|]. simpl. lia.
  - constructor; [done|]. rewrite insert_by_perm. by constructor; [lia|].
Qed.

Lemma sort_by_key_perm {A} (key : A -> Z) l : sort_by_key key l ≡ₚ l.
Proof.
  unfold sort_by_key. enough (forall acc, foldl (fun acc x => insert_by key x acc) acc l ≡ₚ acc ++ l) as ->
    by done.
  induction l as [|x l IH]; intros acc; simpl; [by rewrite app_nil_r|].
  rewrite IH, insert_by_perm. simpl. by rewrite Permutation_middle.
Qed.

Lemma sort_by_key_sorted {A} (key : A -> Z) l : StronglySorted (fun a b => key a <= key b) (sort_by_key key l).
Proof.
  unfold sort_by_key. assert (StronglySorted (fun a b : A => key a <= key b) []) as Hn by constructor.
  revert Hn. generalize (@nil A). induction l as [|x l IH]; intros acc Hacc; simpl; [done|].
  by apply IH, insert_by_sorted.
Qed.

Lemma collect_limit_ok {A} limit (acc l : list A) :
  Z.of_nat (length acc + length l) <= limit -> collect_limit limit acc l = Ok (acc ++ l).
Proof.
  revert acc. induction l as [|x l IH]; intros acc Hl; simpl; [by rewrite app_nil_r|].
  simpl in Hl. rewrite (proj2 (Z.eqb_neq _ _)) by lia. rewrite IH; [by rewrite <- app_assoc|].
  rewrite length_app. simpl. lia.
Qed.

(** ** Pruning on views *)

Section PruneSpec.
  Context `{Nebu, Hemera}.

Definition drop_axon (m : gmap Particle (list Particle)) (p id : Particle) : gmap Particle (list Particle) :=
  put_list p (filter (fun y => y <> id) (list_at m p)) m.

Definition view_remove (v : View) (id : Particle) : View :=
  let v := put_particles v (delete id (v_particles v)) in
  match v_axon_edges v !! id with
  | None => v
  | Some (from, to) =>
      let v := put_axon_edges v (delete id (v_axon_edges v)) in
      let v := put_axons_out v (drop_axon (v_axons_out v) from id) in
      put_axons_in v (drop_axon (v_axons_in v) to id)
  end.

Definition list_bytes (m : gmap Particle (list Particle)) : Z :=
  zsum (fun e => 32 + Z.of_nat (length e.2) * 32) (map_to_list m).

Definition view_bytes (v : View) : Z :=
  Z.of_nat (size (v_particles v)) * 80 + list_bytes (v_axons_out v) + list_bytes (v_axons_in v)
  + Z.of_nat (size (v_neurons v)) * 64.

(** *** The removal of one axon *)

Lemma remove_axon_ok s v w ps id :
  StateRep s v w ->
  exists s', remove_axon s ps id = Some (s', mkPruneState (delete id (last_touched ps)))
    /\ StateRep s' (view_remove v id) (w + 2).
Proof.
  intros Hs. unfold remove_axon, view_remove.
  destruct (keyed_rep_remove _ _ id _ (sr_particles _ _ _ Hs)) as [_ Hp].
  pose proof (sr_axon_edges _ _ _ Hs) as He.
  pose proof (state_rep_weaken s v w (w + 2) ltac:(lia) Hs) as Hs'.
  cbn [axon_edges set_particles v_axon_edges put_particles]. rewrite He.
  destruct (v_axon_edges v !! id) as [[from to]|].
  - cbn [axons_out axons_in set_axon_edges set_particles set_axons_out v_axons_out v_axons_in
      put_particles put_axon_edges put_axons_out].
    destruct (axon_remove_axon_ok _ _ _ from id (sr_axons_out _ _ _ Hs)) as (out & Eo & Ho).
    destruct (axon_remove_axon_ok _ _ _ to id (sr_axons_in _ _ _ Hs)) as (inn & Ei & Hi).
    rewrite Eo. cbn [mbind option_bind]. rewrite Ei. cbn [mbind option_bind]. eexists. split; [done|].
    rewrite put_list_match in Ho, Hi. destruct Hs'; by split.
  - eexists. split; [done|]. destruct Hs'; by split.
Qed.

(** *** Sizes *)

Lemma iter_zsum {K V} `{Countable K, Ordered K} (f : K * V -> Z) (m : gmap K V) :
  zsum f (btree_iter m) = zsum f (map_to_list m).
Proof. by rewrite btree_iter_perm. Qed.

Lemma estimate_bytes_ok s v w :
  StateRep s v w ->
  estimate_bytes s = if view_bytes v <? 2 ^ 64 then Some (of_Z 64 (view_bytes v)) else None.
Proof.
  intros Hs. unfold estimate_bytes. cbv zeta. rewrite !iter_zsum.
  destruct (sr_axons_out _ _ _ Hs) as [-> _ _ _ _ _], (sr_axons_in _ _ _ Hs) as [-> _ _ _ _ _].
  by rewrite (kr_map _ _ _ (sr_particles _ _ _ Hs)), (kr_map _ _ _ (sr_neurons _ _ _ Hs)).
Qed.

Lemma list_bytes_nonneg m : 0 <= list_bytes m.
Proof. unfold list_bytes. induction (map_to_list m) as [|e l IH]; cbn [zsum foldr]; unfold zsum in *; lia. Qed.

Lemma list_bytes_delete m p l :
  m !! p = Some l -> list_bytes m = 32 + Z.of_nat (length l) * 32 + list_bytes (delete p m).
Proof. intros Hp. unfold list_bytes. by rewrite <- (map_to_list_delete m p l Hp). Qed.

Lemma list_bytes_drop m p id : list_bytes (drop_axon m p id) <= list_bytes m.
Proof.
  unfold drop_axon, list_at. destruct (m !! p) as [l|] eqn:Hp; simpl.
  - pose proof (length_filter (fun y => y <> id) l) as Hl. rewrite (list_bytes_delete m p l Hp).
    destruct (filter (fun y => y <> id) l) as [|x l'] eqn:El; simpl; [lia|].
    rewrite (list_bytes_delete (<[p := x :: l']> m) p (x :: l')) by apply lookup_insert_eq.
    rewrite delete_insert_eq. simpl in *. lia.
  - by rewrite delete_id.
Qed.

Lemma view_remove_bytes v id : view_bytes (view_remove v id) <= view_bytes v.
Proof.
  unfold view_bytes, view_remove. cbn [v_axon_edges put_particles].
  assert (size (delete id (v_particles v)) <= size (v_particles v))%nat as Hp.
  { rewrite map_size_delete. case_match; simpl; unfold Datatypes.id; lia. }
  destruct (v_axon_edges v !! id) as [[from to]|]; cbn [v_particles v_axons_out v_axons_in v_neurons
    put_particles put_axon_edges put_axons_out put_axons_in]; [|lia].
  pose proof (list_bytes_drop (v_axons_out v) from id). pose proof (list_bytes_drop (v_axons_in v) to id). lia.
Qed.

Lemma view_bytes_nonneg v : 0 <= view_bytes v.
Proof.
  unfold view_bytes. pose proof (list_bytes_nonneg (v_axons_out v)).
  pose proof (list_bytes_nonneg (v_axons_in v)). lia.
Qed.

(** *** The candidates *)

Definition score_at (v : View) (id : Particle) : u64 := pi_star (particle_at (v_particles v) id).
Definition density_at (v : View) (id : Particle) : u64 := weight (particle_at (v_particles v) id).

Definition over_budget (v : View) (cfg : PruneConfig) : bool := uval (max_bytes cfg) <? view_bytes v.

(** What a pruning cycle may remove: an entry below the rank floor; under size pressure it must
    hold a record, otherwise it must have been touched and have gone stale. *)
Definition evictable (v : View) (ps : PruneState) (cfg : PruneConfig) (epoch floor : u64) (id : Particle) : Prop :=
  uval (score_at v id) < uval floor
  /\ if over_budget v cfg then is_Some (v_particles v !! id)
     else exists t, last_touched ps !! id = Some t /\ uval (half_life_epochs cfg) < uval epoch - uval t.

Lemma score_of_ok s v w id : StateRep s v w -> score_of s id = score_at v id.
Proof.
  intros Hs. unfold score_of, score_at, particle_at. rewrite (kr_map _ _ _ (sr_particles _ _ _ Hs)).
  by destruct (v_particles v !! id).
Qed.

Lemma density_of_ok s v w id : StateRep s v w -> density_of s id = density_at v id.
Proof.
  intros Hs. unfold density_of, density_at, particle_at. rewrite (kr_map _ _ _ (sr_particles _ _ _ Hs)).
  by destruct (v_particles v !! id).
Qed.

(** The list a branch collects: its ids, and the density beside each. *)
Lemma gravity_ok s v w floor :
  StateRep s v w ->
  NoDup (gravity s floor).*1
  /\ (forall e, e ∈ gravity s floor -> e.2 = density_at v e.1)
  /\ (forall id, id ∈ (gravity s floor).*1 <-> is_Some (v_particles v !! id) /\ uval (score_at v id) < uval floor)
  /\ (length (gravity s floor) <= size (v_particles v))%nat.
Proof.
  intros Hs. unfold gravity. rewrite (kr_map _ _ _ (sr_particles _ _ _ Hs)).
  set (l := filter _ _).
  assert (forall e, e ∈ l <-> v_particles v !! e.1 = Some e.2 /\ uval (pi_star e.2) < uval floor) as Hl.
  { intros [id r]. subst l. rewrite list_elem_of_filter, elem_of_btree_iter. tauto. }
  assert ((map (fun e : Particle * ParticleRecord => (e.1, weight e.2)) l).*1 = l.*1) as E
    by (rewrite <- list_fmap_compose; by apply list_fmap_ext).
  rewrite E. split_and!.
  - apply NoDup_fst_filter, NoDup_btree_iter.
  - intros e (e' & -> & [He _]%Hl)%list_elem_of_fmap. unfold density_at, particle_at. simpl. by rewrite He.
  - intros id. rewrite list_elem_of_fmap. unfold score_at, particle_at. split.
    + intros (e & -> & [He Hf]%Hl). rewrite He. simpl. eauto.
    + intros [[r Hr] Hf]. rewrite Hr in Hf. exists (id, r). split; [done|]. by apply Hl.
  - rewrite length_map. subst l. etransitivity; [apply length_filter|]. by rewrite length_btree_iter.
Qed.

Lemma half_life_ok s v w ps floor half epoch :
  StateRep s v w ->
  NoDup (half_life s ps floor half epoch).*1
  /\ (forall e, e ∈ half_life s ps floor half epoch -> e.2 = density_at v e.1)
  /\ (forall id, id ∈ (half_life s ps floor half epoch).*1 <->
       (exists t, last_touched ps !! id = Some t /\ uval half < uval epoch - uval t)
       /\ uval (score_at v id) < uval floor)
  /\ (length (half_life s ps floor half epoch) <= size (last_touched ps))%nat.
Proof.
  intros Hs. unfold half_life. set (l := filter _ _).
  assert (forall e, e ∈ l <-> last_touched ps !! e.1 = Some e.2 /\ uval (score_at v e.1) < uval floor
    /\ uval half < uval epoch - uval e.2) as Hl.
  { intros [id t]. subst l. rewrite list_elem_of_filter, elem_of_btree_iter.
    cbn [fst snd]. rewrite (score_of_ok s v w id Hs). pose proof (uval_saturating_sub epoch t) as Ht.
    assert (uval half < uval (saturating_sub epoch t) <-> uval half < uval epoch - uval t) as -> by u_lia. tauto. }
  assert ((map (fun e : Particle * u64 => (e.1, density_of s e.1)) l).*1 = l.*1) as E
    by (rewrite <- list_fmap_compose; by apply list_fmap_ext).
  rewrite E. split_and!.
  - apply NoDup_fst_filter, NoDup_btree_iter.
  - intros e (e' & -> & _)%list_elem_of_fmap. simpl. by rewrite (density_of_ok s v w _ Hs).
  - intros id. rewrite list_elem_of_fmap. split.
    + intros (e & -> & (He & Hf & Ht)%Hl). split; [by exists e.2|done].
    + intros [(t & Ht & Hh) Hf]. exists (id, t). split; [done|]. by apply Hl.
  - rewrite length_map. subst l. etransitivity; [apply length_filter|]. by rewrite length_btree_iter.
Qed.

Lemma candidates_ok s v w ps cfg epoch floor :
  StateRep s v w -> view_bytes v < 2 ^ 64 -> rank_floor s (rank_floor_pct cfg) = Some floor ->
  Z.of_nat (size (v_particles v) + size (last_touched ps)) < 2 ^ 64 ->
  exists ids, candidates s ps cfg epoch usize_MAX = Some (Ok (over_budget v cfg, ids))
    /\ NoDup ids /\ (forall id, id ∈ ids <-> evictable v ps cfg epoch floor id)
    /\ StronglySorted (fun a b => uval (density_at v a) <= uval (density_at v b)) ids
    /\ (length ids <= size (v_particles v) + size (last_touched ps))%nat.
Proof.
  intros Hs Hb Hf Hsize. unfold candidates. rewrite Hf, (estimate_bytes_ok s v w Hs).
  rewrite (proj2 (Z.ltb_lt _ _) Hb). cbn [mbind option_bind].
  rewrite (uval_of_Z_small 64) by (pose proof (view_bytes_nonneg v); simpl Z.of_N; lia).
  fold (over_budget v cfg). set (all := if over_budget v cfg then _ else _).
  assert (NoDup all.*1 /\ (forall e, e ∈ all -> e.2 = density_at v e.1)
    /\ (forall id, id ∈ all.*1 <-> evictable v ps cfg epoch floor id)
    /\ (length all <= size (v_particles v) + size (last_touched ps))%nat) as (Hn & Hd & Hin & Hl).
  { subst all. unfold evictable. destruct (over_budget v cfg).
    - destruct (gravity_ok s v w floor Hs) as (H1 & H2 & H3 & H4). split_and!; [done|done| |lia].
      intros id. rewrite H3. tauto.
    - destruct (half_life_ok s v w ps floor (half_life_epochs cfg) epoch Hs) as (H1 & H2 & H3 & H4).
      split_and!; [done|done| |lia]. intros id. rewrite H3. tauto. }
  rewrite collect_limit_ok by (unfold usize_MAX; simpl; lia). cbn [app].
  eexists. split; [done|]. fold (fst <$> sort_by_key (fun e : Particle * u64 => uval e.2) all).
  split_and!.
  - by rewrite sort_by_key_perm.
  - intros id. rewrite sort_by_key_perm. apply Hin.
  - pose proof (sort_by_key_sorted (fun e : Particle * u64 => uval e.2) all) as Hsort.
    assert (forall e, e ∈ sort_by_key (fun e : Particle * u64 => uval e.2) all -> e.2 = density_at v e.1) as Hd'
      by (intros e He; apply Hd; by rewrite sort_by_key_perm in He).
    revert Hd'. induction Hsort as [|e l _ IH Hfa]; intros Hd'; [constructor|]. rewrite fmap_cons. constructor.
    + apply IH. intros e' He'. apply Hd', elem_of_cons. by right.
    + apply Forall_fmap, Forall_forall. intros e' He'. simpl.
      rewrite <- (Hd' e), <- (Hd' e') by (apply elem_of_cons; auto). by apply (proj1 (Forall_forall _ _) Hfa).
  - rewrite length_fmap, sort_by_key_perm. exact Hl.
Qed.

(** *** The loop *)

Lemma view_remove_root_version v id : v_root_version (view_remove v id) = v_root_version v.
Proof. unfold view_remove. simpl. by destruct (v_axon_edges v !! id) as [[]|]. Qed.

Lemma view_remove_particles v id : v_particles (view_remove v id) = delete id (v_particles v).
Proof. unfold view_remove. simpl. by destruct (v_axon_edges v !! id) as [[]|]. Qed.

Definition touched_without (ps : PruneState) (ids : list Particle) : PruneState :=
  mkPruneState (foldl (fun m id => delete id m) (last_touched ps) ids).

(** The loop removes a prefix of its ids: all of them without size pressure; under pressure the
    shortest prefix after which the estimate fits, if any. *)
Lemma prune_loop_ok (ids : list Particle) s v w ps over max :
  StateRep s v w -> view_bytes v < 2 ^ 64 ->
  exists pre post s', ids = pre ++ post
    /\ prune_loop s ps over max ids = Some (s', touched_without ps pre)
    /\ StateRep s' (foldl view_remove v pre) (w + 2 * Z.of_nat (length ids))
    /\ (post = [] \/ over = true /\ view_bytes (foldl view_remove v pre) <= uval max)
    /\ (over = true -> forall p1 p2, pre = p1 ++ p2 -> p2 <> [] -> uval max < view_bytes (foldl view_remove v p1)).
Proof.
  revert s v w ps. induction ids as [|id ids IH]; intros s v w ps Hs Hb; cbn [prune_loop length].
  { exists [], [], s. destruct ps. split_and!; [done|done| |by left|].
    - eapply state_rep_weaken, Hs. lia.
    - intros _ [|] [|]; done. }
  rewrite (estimate_bytes_ok s v w Hs), (proj2 (Z.ltb_lt _ _) Hb). cbn [mbind option_bind].
  rewrite (uval_of_Z_small 64) by (pose proof (view_bytes_nonneg v); simpl Z.of_N; lia).
  assert (over = true /\ view_bytes v <= uval max \/ (over = false \/ uval max < view_bytes v)) as [[-> Hle]|Hgo].
  { destruct over; [|auto]. destruct (Z_le_gt_dec (view_bytes v) (uval max)); [auto|]. right. right. lia. }
  { rewrite (proj2 (Z.leb_le _ _) Hle). cbn [mbind option_bind]. exists [], (id :: ids), s. destruct ps.
    split_and!; [done|done| |by right|].
    - eapply state_rep_weaken, Hs. lia.
    - intros _ [|] [|]; done. }
  assert ((if over then Some (view_bytes v <=? uval max) else Some false) = Some false) as ->.
  { destruct over; [|done]. destruct Hgo as [|Hgo]; [done|]. by rewrite (proj2 (Z.leb_gt _ _) Hgo). }
  cbn [mbind option_bind]. destruct (remove_axon_ok s v w ps id Hs) as (s1 & -> & Hs1). cbn [mbind option_bind].
  pose proof (view_remove_bytes v id) as Hb1.
  destruct (IH s1 _ _ (mkPruneState (delete id (last_touched ps))) Hs1) as (pre & post & s2 & -> & -> & Hs2 & Hpost & Hmin);
    [lia|].
  exists (id :: pre), post, s2. split_and!; [done|done| |done|].
  - eapply state_rep_weaken, Hs2. lia.
  - intros -> [|x p1] p2 E Hp2; simpl in E.
    + destruct Hgo as [|Hgo]; [done|exact Hgo].
    + injection E as -> ->. simpl. by apply (Hmin eq_refl p1 p2).
Qed.

Lemma foldl_remove_particles v ids id :
  v_particles (foldl view_remove v ids) !! id = if decide (id ∈ ids) then None else v_particles v !! id.
Proof.
  revert v. induction ids as [|x ids IH]; intros v; cbn [foldl].
  { rewrite decide_False; [done|]. apply not_elem_of_nil. }
  rewrite IH, view_remove_particles. destruct (decide (id = x)) as [->|Hne].
  - rewrite lookup_delete_eq. rewrite (decide_True _ _ (list_elem_of_here x ids)). by case_decide.
  - rewrite lookup_delete_ne by done.
    assert (id ∈ x :: ids <-> id ∈ ids) as Hx by (rewrite elem_of_cons; tauto).
    destruct (decide (id ∈ ids)), (decide (id ∈ x :: ids)); tauto.
Qed.

(** *** The rank floor *)

(** The index the floor is read at: inside the list, and low enough that the scores from it on are
    at least [pct] percent. *)
Lemma boundary_ok (n : nat) (pct : u8) :
  (0 < n)%nat -> 1 <= uval pct ->
  let b := (n - (n * Z.to_nat pct + 99) / 100)%nat in
  (b < n)%nat /\ (uval pct <= 100 -> Z.of_nat n * uval pct <= 100 * (Z.of_nat n - Z.of_nat b)).
Proof.
  intros Hn Hp b. subst b. set (c := ((n * Z.to_nat pct + 99) / 100)%nat).
  assert (100 * c <= n * Z.to_nat pct + 99 < 100 * (c + 1))%nat as Hc.
  { subst c. pose proof (Nat.div_mod_eq (n * Z.to_nat pct + 99) 100).
    pose proof (Nat.mod_upper_bound (n * Z.to_nat pct + 99) 100). lia. }
  assert (1 <= n * Z.to_nat pct)%nat by nia. split; [lia|]. intros H100.
  assert (n * Z.to_nat pct <= n * 100)%nat by nia.
  assert (Z.of_nat (n * Z.to_nat pct) = Z.of_nat n * uval pct) as E by (rewrite Nat2Z.inj_mul; lia).
  lia.
Qed.

Lemma ord_leb_u64 (a b : u64) : key_le a b -> uval a <= uval b.
Proof. unfold key_le. simpl. lia. Qed.

Lemma rank_floor_ok s v w pct :
  StateRep s v w ->
  exists floor, rank_floor s pct = Some floor
    /\ (v_particles v <> ∅ -> uval pct <> 0 -> exists id r, v_particles v !! id = Some r /\ pi_star r = floor)
    /\ (1 <= uval pct <= 100 ->
        Z.of_nat (size (v_particles v)) * uval pct
        <= 100 * Z.of_nat (size (filter (fun e => uval floor <= uval (pi_star e.2)) (v_particles v)))).
Proof.
  intros Hs. unfold rank_floor, rank_floor_of. rewrite (kr_map _ _ _ (sr_particles _ _ _ Hs)). set (m := v_particles v).
  destruct (Z.eqb_spec (uval pct) 0) as [Hp|Hp].
  { eexists. split_and!; [done|done|lia]. }
  set (scores := map _ _).
  assert (length scores = size m) as Hlen by (subst scores; by rewrite length_map, length_btree_iter).
  assert (0 < length scores \/ scores = [])%nat as [Hpos|Hnil] by (destruct scores; [by right|left; simpl; lia]).
  2: { rewrite Hnil in *. simpl in Hlen.
    assert (m = ∅) as -> by (apply map_size_empty_iff; by rewrite <- Hlen). eexists.
    split_and!; [done|done|]. rewrite map_size_empty. lia. }
  replace (match scores with [] => _ | _ :: _ => _ end)
    with (let sorted := merge_sort key_le scores in
          sorted !! (length sorted - (length sorted * Z.to_nat pct + 99) / 100)%nat)
    by (destruct scores; [simpl in Hpos; lia|done]).
  cbv zeta. set (sorted := merge_sort key_le scores).
  assert (sorted ≡ₚ scores) as Hperm by apply merge_sort_Permutation.
  assert (StronglySorted key_le sorted) as Hsort by (apply Sorted_StronglySorted; [apply _|apply Sorted_merge_sort, _]).
  assert (length sorted = size m) as Hls by (by rewrite Hperm). rewrite Hls.
  destruct (boundary_ok (size m) pct) as (Hlt & Hcount); [lia|pose proof (uval_range pct); lia|].
  set (b := (size m - _)%nat) in *.
  destruct (lookup_lt_is_Some_2 sorted b) as [floor Hf]; [lia|]. exists floor. split_and!; [done|..].
  - intros _ _. apply list_elem_of_lookup_2 in Hf. rewrite Hperm in Hf.
    apply list_elem_of_fmap in Hf as ([id r] & -> & Hr%elem_of_btree_iter). eauto.
  - intros Hr. rewrite size_filter_iter.
    pose proof (length_filter_map (fun e : Particle * ParticleRecord => pi_star e.2)
      (fun x => uval floor <= uval x) (btree_iter m)) as El. fold scores in El.
    etransitivity; [|apply Z.mul_le_mono_nonneg_l; [lia|apply Nat2Z.inj_le, Nat.eq_le_incl, El]].
    rewrite <- Hperm.
    assert (filter (fun x => uval floor <= uval x) (drop b sorted) = drop b sorted) as Ed.
    { apply filter_all_list, Forall_forall. intros x Hx. rewrite (drop_S _ _ _ Hf) in Hx.
      apply elem_of_cons in Hx as [->|Hx]; [lia|].
      rewrite <- (take_drop b sorted), (drop_S _ _ _ Hf) in Hsort.
      apply StronglySorted_app in Hsort as (_ & _ & Hsort).
      apply StronglySorted_inv in Hsort as [_ Hall]. pose proof (proj1 (Forall_forall _ _) Hall x Hx) as Hle.
      by apply ord_leb_u64. }
    rewrite <- (take_drop b sorted), filter_app, length_app, Ed, length_drop. specialize (Hcount (proj2 Hr)). lia.
Qed.

End PruneSpec.

Section PruneMain.
  Context `{Nebu, Hemera, !CryptoLaws, !Lens}.

Lemma foldl_remove_root_version v ids : v_root_version (foldl view_remove v ids) = v_root_version v.
Proof. revert v. induction ids as [|x ids IH]; intros v; [done|]. simpl. by rewrite IH, view_remove_root_version. Qed.

Lemma foldl_remove_height v ids : v_height (foldl view_remove v ids) = v_height v.
Proof.
  revert v. induction ids as [|x ids IH]; intros v; [done|]. cbn [foldl]. rewrite IH. unfold view_remove. simpl.
  by destruct (v_axon_edges v !! x) as [[]|].
Qed.

(** What a pruning cycle may do to a view: the axons [ids] it removes, each once and each
    evictable; all evictable ones without size pressure; under pressure the least dense ones, and no
    more of them than it takes for the estimate to fit. *)
Record Pruned (v : View) (ps : PruneState) (cfg : PruneConfig) (epoch floor : u64) (ids : list Particle) : Prop := {
  pr_once : NoDup ids;
  pr_evictable : forall id, id ∈ ids -> evictable v ps cfg epoch floor id;
  pr_all : over_budget v cfg = false -> forall id, evictable v ps cfg epoch floor id -> id ∈ ids;
  pr_least : over_budget v cfg = true -> forall id id',
    id ∈ ids -> evictable v ps cfg epoch floor id' -> id' ∉ ids ->
    uval (density_at v id) <= uval (density_at v id');
  pr_enough : over_budget v cfg = true ->
    (forall id, evictable v ps cfg epoch floor id -> id ∈ ids)
    \/ view_bytes (foldl view_remove v ids) <= uval (max_bytes cfg);
  pr_no_more : over_budget v cfg = true -> forall p1 p2, ids = p1 ++ p2 -> p2 <> [] ->
    uval (max_bytes cfg) < view_bytes (foldl view_remove v p1);
}.

(** A loop that stops where it may has pruned as the policy allows. *)
Lemma pruned_prefix v ps cfg epoch floor pre post :
  NoDup (pre ++ post) -> (forall id, id ∈ pre ++ post <-> evictable v ps cfg epoch floor id) ->
  StronglySorted (fun a b => uval (density_at v a) <= uval (density_at v b)) (pre ++ post) ->
  (post = [] \/ over_budget v cfg = true /\ view_bytes (foldl view_remove v pre) <= uval (max_bytes cfg)) ->
  (over_budget v cfg = true -> forall p1 p2, pre = p1 ++ p2 -> p2 <> [] ->
    uval (max_bytes cfg) < view_bytes (foldl view_remove v p1)) ->
  Pruned v ps cfg epoch floor pre.
Proof.
  intros (Hn & Hdis & _)%NoDup_app Hin Hsort Hpost Hmin. split; [exact Hn|..].
  - intros id Hid. apply Hin, elem_of_app. by left.
  - intros Ho id Hev. apply Hin, elem_of_app in Hev as [|Hev]; [done|].
    destruct Hpost as [->|[Hov _]]; [by apply not_elem_of_nil in Hev|congruence].
  - intros Ho id id' Hid Hev Hni. apply Hin, elem_of_app in Hev as [|Hev]; [done|].
    apply StronglySorted_app in Hsort as (Hsort & _ & _). by apply Hsort.
  - intros Ho. destruct Hpost as [->|[_ Hle]]; [left|by right]. intros id Hev. by rewrite <- Hin, app_nil_r in Hev.
  - exact Hmin.
Qed.

Lemma prune_ok s v w ps cfg epoch :
  StateRep s v w -> v_root_version v = V2 -> 0 <= w -> view_bytes v < 2 ^ 64 ->
  w + 2 * Z.of_nat (size (v_particles v) + size (last_touched ps)) <= 2 ^ 32 ->
  exists floor ids s', rank_floor s (rank_floor_pct cfg) = Some floor
    /\ prune s ps cfg epoch = Some (s', touched_without ps ids)
    /\ StateRep s' (foldl view_remove v ids)
         (w + 2 * Z.of_nat (size (v_particles v) + size (last_touched ps)))
    /\ Pruned v ps cfg epoch floor ids.
Proof.
  intros Hs Hv H0w Hb Hw. destruct (rank_floor_ok s v w (rank_floor_pct cfg) Hs) as (floor & Hf & _).
  destruct (candidates_ok s v w ps cfg epoch floor Hs Hb Hf) as (ids & Ec & Hn & Hin & Hsort & Hlen); [lia|].
  destruct (prune_loop_ok ids s v w ps (over_budget v cfg) (max_bytes cfg) Hs Hb)
    as (pre & post & s1 & -> & El & Hs1 & Hpost & Hmin).
  destruct (compute_root_ok s1 _ _ Hs1) as (s2 & Er & Hs2);
    [rewrite length_app in *; lia|by rewrite foldl_remove_root_version|].
  exists floor, pre, s2. split_and!; [exact Hf| |eapply state_rep_weaken, Hs2; lia|by eapply pruned_prefix].
  unfold prune. rewrite Ec. cbn [mbind option_bind]. rewrite El. cbn [mbind option_bind]. by rewrite Er.
Qed.


(** The rank floor protects its share. For a percentage from 1 to 100 the floor is one of the
    recorded scores and at least that share of the particle records score at or above it, where
    no cycle removes them. *)
Theorem rank_floor_protects s v w pct :
  StateRep s v w -> v_particles v <> ∅ -> 1 <= uval pct <= 100 ->
  exists floor, rank_floor s pct = Some floor
    /\ (exists id r, v_particles v !! id = Some r /\ pi_star r = floor)
    /\ Z.of_nat (size (v_particles v)) * uval pct
       <= 100 * Z.of_nat (size (filter (fun e => uval floor <= uval (pi_star e.2)) (v_particles v))).
Proof.
  intros Hs Hne Hp. destruct (rank_floor_ok s v w pct Hs) as (floor & Hf & Hex & Hc).
  exists floor. split_and!; [done| |by apply Hc]. apply Hex; [done|lia].
Qed.

End PruneMain.

(** ** Witnesses *)

Import Toy.

Definition sample_link : Signal := mkSignal (id32 1)
  [mkCyberlink (id32 2) (id32 3) (id32 4) (of_Z 64 10) (SInt 8 0 eq_refl)] [] (of_Z 64 0).

Definition sample_view : View := (view_insert view_new sample_link).2.

Lemma sample_pruned_state : exists s, StateRep s sample_view (0 + signal_cost sample_link).
Proof.
  destruct (state_insert_ok state_new view_new 0 sample_link state_rep_new) as (s & _ & Hs); [done|by vm_compute|].
  by exists s.
Qed.

Definition sample_touched : PruneState := touch prune_state_default (axon_id (id32 2) (id32 3)) (of_Z 64 0).


Lemma rank_floor_protects_witness :
  exists s floor, rank_floor s (of_Z 8 20) = Some floor
    /\ exists id r, v_particles sample_view !! id = Some r /\ pi_star r = floor.
Proof.
  destruct sample_pruned_state as [s Hs].
  destruct (rank_floor_protects s _ _ (of_Z 8 20) Hs) as (floor & Hf & Hex & _); [|by vm_compute|by exists s, floor].
  intros E. apply map_size_empty_iff in E. by vm_compute in E.
Defined.
