(* ===== verification/Ledger.v ===== *)
(** * What signal insertion does to the ledger

    Histories of signals on a new state refine histories on views; the accounting of conviction,
    balances, nullifiers and topology that insertion maintains. *)

From S2P Require Import Prelude.
From S2P Require Import Crypto.
From S2P Require Import Trie.
From S2P Require Import TrieTree.
From S2P Require Import TrieProofs.
From S2P Require Import TrieBinding.
From S2P Require Import Keyed.
From S2P Require Import AxonIndex.
From S2P Require Import Types.
From S2P Require Import Cards.
From S2P Require Import State.
From S2P Require Import StateSpec.
From S2P Require Import StateRoot.

Local Open Scope Z_scope.

Section Ledger.
  Context `{Nebu, Hemera}.

(** ** Histories *)

Fixpoint state_run (s : BbgState) (sgs : list Signal) : option (list (result InsertError unit) * BbgState) :=
  match sgs with
  | [] => Some ([], s)
  | sg :: sgs => '(r, s) ← state_insert s sg; '(rs, s) ← state_run s sgs; Some (r :: rs, s)
  end.

Fixpoint view_run (v : View) (sgs : list Signal) : list (result InsertError unit) * View :=
  match sgs with
  | [] => ([], v)
  | sg :: sgs => let '(r, v) := view_insert v sg in let '(rs, v) := view_run v sgs in (r :: rs, v)
  end.

Definition signals_cost (sgs : list Signal) : Z := foldr (fun sg c => signal_cost sg + c) 0 sgs.

Lemma signal_cost_pos sg : 0 <= signal_cost sg.
Proof. unfold signal_cost. lia. Qed.

Lemma signals_cost_pos sgs : 0 <= signals_cost sgs.
Proof. induction sgs as [|sg sgs IH]; simpl; [lia|]. pose proof (signal_cost_pos sg). lia. Qed.

Lemma state_run_ok sgs s v w :
  StateRep s v w -> 0 <= w -> w + signals_cost sgs <= 2 ^ 32 ->
  exists s', state_run s sgs = Some ((view_run v sgs).1, s')
    /\ StateRep s' (view_run v sgs).2 (w + signals_cost sgs).
Proof.
  revert s v w. induction sgs as [|sg sgs IH]; intros s v w Hs H0w Hw.
  { exists s. split; [done|]. eapply state_rep_weaken, Hs. simpl. lia. }
  cbn [signals_cost foldr] in *. fold (signals_cost sgs) in *.
  pose proof (signals_cost_pos sgs). pose proof (signal_cost_pos sg).
  destruct (state_insert_ok s v w sg Hs) as (s1 & E & Hs1); [lia..|].
  cbn [state_run view_run]. rewrite E. cbn [mbind option_bind].
  destruct (view_insert v sg) as [r v1]. cbn [fst snd] in *.
  destruct (IH s1 v1 _ Hs1) as (s2 & -> & Hs2); [lia..|]. cbn [mbind option_bind].
  destruct (view_run v1 sgs) as [rs v2]. exists s2. split; [done|].
  eapply state_rep_weaken, Hs2. lia.
Qed.

(** Insertion keeps the root version. *)
Lemma view_insert_version v sg : v_root_version (view_insert v sg).2 = v_root_version v.
Proof.
  unfold view_insert. case_match; [done|]. cbn [snd].
  assert (forall ls v, v_root_version (foldl (view_link (s_neuron sg)) v ls) = v_root_version v) as Hl.
  { induction ls as [|l ls IH]; intros v1; simpl; [done|]. rewrite IH. unfold view_link, view_topology.
    cbn. repeat case_match; done. }
  rewrite Hl. assert (forall ms v, v_root_version (foldl view_box_move v ms) = v_root_version v) as Hm.
  { induction ms as [|m ms IH]; intros v1; simpl; [done|]. rewrite IH. unfold view_box_move.
    by repeat case_match. }
  apply Hm.
Qed.

Lemma view_run_version v sgs : v_root_version (view_run v sgs).2 = v_root_version v.
Proof.
  revert v. induction sgs as [|sg sgs IH]; intros v; [done|]. cbn [view_run].
  pose proof (view_insert_version v sg) as E. destruct (view_insert v sg) as [r v1].
  specialize (IH v1). destruct (view_run v1 sgs) as [rs v2]. simpl in *. congruence.
Qed.

(** ** Nullifiers *)

Definition is_spent (v : View) (n : bytes 32) : Prop := v_nullifiers v !! n = Some tt.

Lemma existsb_view_spent v ms :
  existsb (view_spent v) ms = true <-> exists mv, mv ∈ ms /\ is_spent v (nullifier mv).
Proof.
  rewrite existsb_exists. unfold view_spent, is_spent. split.
  - intros (mv & Hin & E). exists mv. split; [by apply list_elem_of_In|].
    by destruct (v_nullifiers v !! nullifier mv) as [[]|].
  - intros (mv & Hin & E). exists mv. split; [by apply list_elem_of_In|]. by rewrite E.
Qed.

Lemma box_moves_nullifiers ms v n :
  is_spent (foldl view_box_move v ms) n <-> is_spent v n \/ exists mv, mv ∈ ms /\ nullifier mv = n.
Proof.
  revert v. induction ms as [|mv ms IH]; intros v; simpl.
  - split; [auto|]. intros [?|(mv & Hin & _)]; [done|]. by apply not_elem_of_nil in Hin.
  - rewrite IH. assert (is_spent (view_box_move v mv) n <-> is_spent v n \/ nullifier mv = n) as ->.
    { unfold is_spent, view_box_move. destruct (box_commitment mv) as [[p val]|]; simpl;
        destruct (decide (nullifier mv = n)) as [->|Hne];
        rewrite ?lookup_insert_eq, ?lookup_insert_ne by done; tauto. }
    setoid_rewrite elem_of_cons. naive_solver.
Qed.

Lemma links_nullifiers neuron ls v : v_nullifiers (foldl (view_link neuron) v ls) = v_nullifiers v.
Proof.
  revert v. induction ls as [|l ls IH]; intros v; simpl; [done|]. rewrite IH.
  unfold view_link, view_topology. cbn. repeat case_match; done.
Qed.

(** ** Conviction *)

(** The sum of the amounts of the links that satisfy [p]. *)
Definition amounts (p : Cyberlink -> bool) (ls : list Cyberlink) : Z :=
  foldr (fun l n => (if p l then uval (l_amount l) else 0) + n) 0 ls.

Definition saturated (z : Z) : Z := Z.min z (2 ^ 64 - 1).

Definition weight_of (v : View) (id : Particle) : Z := weight (particle_at (v_particles v) id).
Definition energy_of (v : View) (id : Particle) : Z := energy (particle_at (v_particles v) id).
Definition focus_of (v : View) (n : NeuronId) : option u64 := focus <$> v_neurons v !! n.

Lemma particle_at_insert m id id' r :
  particle_at (<[id := r]> m) id' = if decide (id = id') then r else particle_at m id'.
Proof. unfold particle_at. rewrite lookup_insert. by case_decide. Qed.

Lemma view_topology_particles v l : v_particles (view_topology v l) = v_particles v.
Proof. unfold view_topology. simpl. by case_match. Qed.

Lemma view_link_weight neuron v l id :
  weight_of (view_link neuron v l) id
  = saturated (weight_of v id + if bool_decide (axon_id (l_from l) (l_to l) = id) then uval (l_amount l) else 0).
Proof.
  unfold weight_of, saturated, view_link. pose proof (uval_range (weight (particle_at (v_particles v) id))) as Hr.
  simpl Z.of_N in Hr. destruct (Z.eqb_spec (l_amount l) 0) as [Ha|Ha].
  - rewrite view_topology_particles, Ha. case_bool_decide; lia.
  - cbn [view_conviction v_particles put_balances put_neurons put_particles].
    rewrite view_topology_particles. unfold add_energy, add_weight.
    rewrite !particle_at_insert. generalize (axon_id (l_from l) (l_to l)). intros w.
    repeat case_decide; repeat case_bool_decide; subst; try done; simpl;
      rewrite ?uval_saturating_add; simpl Z.of_N; u_lia.
Qed.

Lemma view_link_energy neuron v l id :
  energy_of (view_link neuron v l) id
  = saturated (energy_of v id + if bool_decide (l_to l = id) then uval (l_amount l) else 0).
Proof.
  unfold energy_of, saturated, view_link. pose proof (uval_range (energy (particle_at (v_particles v) id))) as Hr.
  simpl Z.of_N in Hr. destruct (Z.eqb_spec (l_amount l) 0) as [Ha|Ha].
  - rewrite view_topology_particles, Ha. case_bool_decide; lia.
  - cbn [view_conviction v_particles put_balances put_neurons put_particles].
    rewrite view_topology_particles. unfold add_energy, add_weight.
    rewrite !particle_at_insert. generalize (axon_id (l_from l) (l_to l)). intros w.
    repeat case_decide; repeat case_bool_decide; subst; try done; simpl;
      rewrite ?uval_saturating_add; simpl Z.of_N; u_lia.
Qed.

Lemma amounts_pos p ls : 0 <= amounts p ls.
Proof. induction ls as [|l ls IH]; simpl; [lia|]. case_match; u_lia. Qed.

(** Saturating additions one by one saturate the sum. *)
Lemma fold_saturated (f : View -> Z) (step : View -> Cyberlink -> View) p :
  (forall v, f v <= 2 ^ 64 - 1) ->
  (forall v l, f (step v l) = saturated (f v + if p l : bool then uval (l_amount l) else 0)) ->
  forall ls v, f (foldl step v ls) = saturated (f v + amounts p ls).
Proof.
  intros Hmax Hstep ls. induction ls as [|l ls IH]; intros v; simpl.
  - specialize (Hmax v). unfold saturated. lia.
  - rewrite IH, Hstep. pose proof (amounts_pos p ls). unfold saturated. lia.
Qed.

Lemma box_moves_particles ms v : v_particles (foldl view_box_move v ms) = v_particles v.
Proof.
  revert v. induction ms as [|m ms IH]; intros v; simpl; [done|]. rewrite IH. unfold view_box_move.
  by repeat case_match.
Qed.

(** ** Balances *)

(** A zero balance is an absent row. *)
Definition no_zero_rows (v : View) : Prop := map_Forall (fun _ b => uval b <> 0) (v_balances v).

Lemma put_balance_nonzero (m : gmap (bytes 32) u64) key b :
  map_Forall (fun _ b => uval b <> 0) m -> map_Forall (fun _ b => uval b <> 0) (put_balance m key b).
Proof.
  intros Hm. unfold put_balance. destruct (Z.eqb_spec b 0); [by apply map_Forall_delete|].
  by apply map_Forall_insert_2.
Qed.

Lemma view_link_no_zero neuron v l : no_zero_rows v -> no_zero_rows (view_link neuron v l).
Proof.
  intros Hv. unfold no_zero_rows, view_link. assert (v_balances (view_topology v l) = v_balances v) as E.
  { unfold view_topology. simpl. by case_match. }
  case_match; [by rewrite E|]. cbn [view_conviction v_balances put_balances].
  apply put_balance_nonzero, put_balance_nonzero. simpl. by rewrite E.
Qed.

(** ** Topology *)

(** Every recorded edge is indexed at both ends under its own id, and every indexed axon has a
    recorded edge. *)
Record graph_ok (v : View) : Prop := {
  go_edges : forall id from to, v_axon_edges v !! id = Some (from, to) ->
    id = axon_id from to /\ id ∈ list_at (v_axons_out v) from /\ id ∈ list_at (v_axons_in v) to;
  go_out : forall p id, id ∈ list_at (v_axons_out v) p -> is_Some (v_axon_edges v !! id);
  go_in : forall p id, id ∈ list_at (v_axons_in v) p -> is_Some (v_axon_edges v !! id);
}.

Lemma elem_of_join_axon m p x q y :
  y ∈ list_at (join_axon m p x) q <-> y ∈ list_at m q \/ (q = p /\ y = x).
Proof.
  unfold join_axon. case_bool_decide as Hx.
  - unfold list_at at 1. destruct (decide (q = p)) as [->|Hne].
    + rewrite lookup_insert_eq. simpl. rewrite elem_of_app, list_elem_of_singleton. tauto.
    + rewrite lookup_insert_ne by done. fold (list_at m q). tauto.
  - split; [auto|]. intros [?|[-> ->]]; [done|]. done.
Qed.

Lemma view_topology_graph v l : graph_ok v -> graph_ok (view_topology v l).
Proof.
  intros [He Ho Hi]. set (id := axon_id (l_from l) (l_to l)).
  assert (v_axons_out (view_topology v l) = join_axon (v_axons_out v) (l_from l) id
    /\ v_axons_in (view_topology v l) = join_axon (v_axons_in v) (l_to l) id
    /\ v_axon_edges (view_topology v l) = match v_axon_edges v !! id with
         | Some _ => v_axon_edges v | None => <[id := (l_from l, l_to l)]> (v_axon_edges v) end)
    as (Eo & Ei & Ee) by (unfold view_topology; simpl; fold id; by destruct (v_axon_edges v !! id)).
  assert (forall id', is_Some (v_axon_edges v !! id') \/ id' = id -> is_Some (v_axon_edges (view_topology v l) !! id'))
    as Hsome.
  { intros id' Hid. rewrite Ee. destruct (v_axon_edges v !! id) as [e|] eqn:Eid.
    - destruct Hid as [Hid| ->]; [done|]. by rewrite Eid.
    - destruct (decide (id' = id)) as [->|Hne]; [by rewrite lookup_insert_eq|].
      rewrite lookup_insert_ne by done. by destruct Hid. }
  split.
  - intros id' from to. rewrite Ee, Eo, Ei, !elem_of_join_axon.
    destruct (v_axon_edges v !! id) as [e|] eqn:Eid; [intros (?&?&?)%He; auto|].
    destruct (decide (id' = id)) as [->|Hne].
    + rewrite lookup_insert_eq. intros [= <- <-]. auto.
    + rewrite lookup_insert_ne by done. intros (?&?&?)%He. auto.
  - intros p id'. rewrite Eo, elem_of_join_axon. intros [Hin|[_ ->]]; apply Hsome; eauto.
  - intros p id'. rewrite Ei, elem_of_join_axon. intros [Hin|[_ ->]]; apply Hsome; eauto.
Qed.

Lemma view_link_graph neuron v l : graph_ok v -> graph_ok (view_link neuron v l).
Proof.
  intros Hv%(view_topology_graph v l). unfold view_link. case_match; [done|].
  destruct Hv as [He Ho Hi]. split; [exact He|exact Ho|exact Hi].
Qed.

(** A fact that links and box moves keep is kept by insertion. *)
Lemma view_insert_keeps (P : View -> Prop) sg v :
  (forall v mv, P v -> P (view_box_move v mv)) ->
  (forall v l, P v -> P (view_link (s_neuron sg) v l)) ->
  P v -> P (view_insert v sg).2.
Proof.
  intros Hm Hl Hv. unfold view_insert. case_match; [done|]. cbn [snd].
  assert (forall ms v, P v -> P (foldl view_box_move v ms)) as Hms
    by (induction ms; simpl; auto).
  assert (forall ls v, P v -> P (foldl (view_link (s_neuron sg)) v ls)) as Hls
    by (induction ls; simpl; auto).
  auto.
Qed.

Lemma view_run_keeps (P : View -> Prop) sgs v :
  (forall sg v, P v -> P (view_insert v sg).2) -> P v -> P (view_run v sgs).2.
Proof.
  intros Hstep. revert v. induction sgs as [|sg sgs IH]; intros v Hv; [done|]. cbn [view_run].
  pose proof (Hstep sg v Hv) as H1. destruct (view_insert v sg) as [r v1]. specialize (IH v1 H1).
  by destruct (view_run v1 sgs).
Qed.

(** ** What insertion promises *)

Lemma view_insert_ok v sg v' :
  view_insert v sg = (Ok tt, v') ->
  existsb (view_spent v) (s_box_moves sg) = false
  /\ v' = foldl (view_link (s_neuron sg)) (foldl view_box_move v (s_box_moves sg)) (s_links sg).
Proof. unfold view_insert. case_match; [done|]. by intros [= <-]. Qed.

Lemma focus_fold neuron ls v n :
  focus_of (foldl (view_link neuron) v ls) n
  = if decide (n = neuron)
    then (fun f => of_Z 64 (Z.max 0 (uval f - amounts (fun _ => true) ls))) <$> focus_of v n
    else focus_of v n.
Proof.
  assert (forall v l, focus_of (view_link neuron v l) n = if decide (n = neuron)
    then (fun f => saturating_sub f (l_amount l)) <$> focus_of v n else focus_of v n) as Hstep.
  { intros v1 l. unfold focus_of, view_link.
    assert (v_neurons (view_topology v1 l) = v_neurons v1) as E by (unfold view_topology; simpl; by case_match).
    destruct (Z.eqb_spec (l_amount l) 0) as [Ha|Ha]; cbn [view_conviction v_neurons put_balances put_neurons]; simpl;
      rewrite E.
    - case_decide; [|done]. destruct (v_neurons v1 !! n) as [r|]; [|done]. simpl. f_equal.
      apply uint_eq. rewrite uval_saturating_sub. u_lia.
    - unfold spend_focus. case_decide as Hn.
      + subst n. destruct (v_neurons v1 !! neuron) as [r|] eqn:Er; [by rewrite lookup_insert_eq|by rewrite Er].
      + destruct (v_neurons v1 !! neuron); by rewrite ?lookup_insert_ne by done. }
  revert v. induction ls as [|l ls IH]; intros v; simpl.
  - case_decide; [|done]. destruct (focus_of v n) as [f|]; [|done]. simpl. f_equal. symmetry.
    apply uint_eq. rewrite uval_of_Z_small; simpl Z.of_N; u_lia.
  - rewrite IH, Hstep. case_decide; [|done]. destruct (focus_of v n) as [f|]; [|done]. simpl. f_equal. f_equal.
    rewrite uval_saturating_sub. pose proof (amounts_pos (fun _ => true) ls). lia.
Qed.

Lemma box_moves_neurons ms v : v_neurons (foldl view_box_move v ms) = v_neurons v.
Proof.
  revert v. induction ms as [|m ms IH]; intros v; simpl; [done|]. rewrite IH. unfold view_box_move.
  by repeat case_match.
Qed.

(** C38: the double-spend rule. [insert] rejects a signal exactly when one of its nullifiers is in
    the spent set, and then leaves the state as it was; otherwise the spent set afterwards is the
    old one and the signal's nullifiers. *)
Theorem insert_spends_once s v w sg :
  StateRep s v w -> 0 <= w -> w + signal_cost sg <= 2 ^ 32 ->
  (exists mv, mv ∈ s_box_moves sg /\ is_spent v (nullifier mv))
    /\ state_insert s sg = Some (Err DoubleSpend, s)
  \/ (forall mv, mv ∈ s_box_moves sg -> ~ is_spent v (nullifier mv))
    /\ exists s' v', state_insert s sg = Some (Ok tt, s') /\ StateRep s' v' (w + signal_cost sg)
      /\ forall n, is_spent v' n <-> is_spent v n \/ exists mv, mv ∈ s_box_moves sg /\ nullifier mv = n.
Proof.
  intros Hs H0w Hw. destruct (existsb (view_spent v) (s_box_moves sg)) eqn:E.
  - left. split; [by apply existsb_view_spent|]. unfold state_insert.
    by rewrite (existsb_spent s v w sg Hs), E.
  - right. split.
    + intros mv Hin Hsp. apply not_true_iff_false in E. apply E, existsb_view_spent. eauto.
    + destruct (state_insert_ok s v w sg Hs H0w Hw) as (s' & Ei & Hs'). unfold view_insert in *.
      rewrite E in *. eexists s', _. split_and!; [exact Ei|exact Hs'|]. intros n. cbn [snd].
      unfold is_spent at 1. rewrite links_nullifiers. apply box_moves_nullifiers.
Qed.

(** Conviction accounting. An accepted signal adds to the weight of each axon the amounts of
    its links on that axon, and to the energy of each particle the amounts of its links to it,
    saturating at the 64-bit maximum; it takes the whole amount from its neuron's focus, down to
    zero, and no other neuron's. *)
Theorem insert_conviction s v w sg s' :
  StateRep s v w -> 0 <= w -> w + signal_cost sg <= 2 ^ 32 ->
  state_insert s sg = Some (Ok tt, s') ->
  exists v', StateRep s' v' (w + signal_cost sg)
    /\ (forall id, weight_of v' id = saturated (weight_of v id
          + amounts (fun l => bool_decide (axon_id (l_from l) (l_to l) = id)) (s_links sg)))
    /\ (forall id, energy_of v' id = saturated (energy_of v id
          + amounts (fun l => bool_decide (l_to l = id)) (s_links sg)))
    /\ (forall n, focus_of v' n = if decide (n = s_neuron sg)
          then (fun f => of_Z 64 (Z.max 0 (uval f - amounts (fun _ => true) (s_links sg)))) <$> focus_of v n
          else focus_of v n).
Proof.
  intros Hs H0w Hw Hi. destruct (state_insert_ok s v w sg Hs H0w Hw) as (s1 & E & Hs1).
  rewrite E in Hi. injection Hi as Hr ->. destruct (view_insert v sg) as [r v'] eqn:Ev.
  simpl in Hr, Hs1. subst r. apply view_insert_ok in Ev as [_ ->]. eexists. split_and!; [exact Hs1|..].
  - intros id. erewrite (fold_saturated (fun v => weight_of v id)).
    + unfold weight_of. by rewrite box_moves_particles.
    + intros v1. unfold weight_of. u_lia.
    + intros v1 l. apply view_link_weight.
  - intros id. erewrite (fold_saturated (fun v => energy_of v id)).
    + unfold energy_of. by rewrite box_moves_particles.
    + intros v1. unfold energy_of. u_lia.
    + intros v1 l. apply view_link_energy.
  - intros n. rewrite focus_fold. unfold focus_of. by rewrite box_moves_neurons.
Qed.


(** The spent check does not look inside the signal. Two moves of one signal with one fresh
    nullifier are both applied, and both their commitments are recorded. *)
Theorem one_nullifier_two_commitments s v w neuron h n p1 a1 p2 a2 :
  StateRep s v w -> 0 <= w -> w + 8 <= 2 ^ 32 -> ~ is_spent v n -> p1 <> p2 ->
  exists s' v', state_insert s (mkSignal neuron []
      [mkBoxMove n (Some (p1, a1)); mkBoxMove n (Some (p2, a2))] h) = Some (Ok tt, s')
    /\ StateRep s' v' (w + 8)
    /\ v_commitments v' !! p1 = Some (g_new a1) /\ v_commitments v' !! p2 = Some (g_new a2).
Proof.
  intros Hs H0w Hw Hn Hp.
  destruct (state_insert_ok s v w (mkSignal neuron []
      [mkBoxMove n (Some (p1, a1)); mkBoxMove n (Some (p2, a2))] h) Hs H0w) as (s' & E & Hs');
    [unfold signal_cost; simpl; lia|].
  assert (view_spent v (mkBoxMove n (Some (p1, a1))) = false
    /\ view_spent v (mkBoxMove n (Some (p2, a2))) = false) as [E1 E2].
  { unfold view_spent, is_spent in *. simpl. by destruct (v_nullifiers v !! n) as [[]|]. }
  unfold view_insert in *. cbn [s_box_moves existsb] in *. rewrite E1, E2 in *. cbn [orb fst snd] in *.
  eexists s', _. split_and!; [exact E|exact Hs'|..]; simpl.
  - by rewrite lookup_insert_ne, lookup_insert_eq.
  - by rewrite lookup_insert_eq.
Qed.

End Ledger.

Section LedgerRoot.
  Context `{Nebu, Hemera, !CryptoLaws, !Lens}.

(** C2: the root is a function of the records. Any history of signals that fits the arenas runs
    on a new state without a panic, answers what the abstract ledger answers, and ends in the root
    of the abstract ledger's records, with no trace of the calls that led there. *)
Theorem ledger_refines sgs :
  signals_cost sgs <= 2 ^ 32 ->
  exists s s', state_run state_new sgs = Some ((view_run view_new sgs).1, s)
    /\ compute_root s = Some (view_root (view_run view_new sgs).2, s').
Proof.
  intros Hw. destruct (state_run_ok sgs state_new view_new 0) as (s & E & Hs);
    [apply state_rep_new|lia|lia|].
  destruct (compute_root_ok s _ _ Hs) as (s' & E' & _); [lia|by rewrite view_run_version|].
  by exists s, s'.
Qed.

Lemma state_rep_lists s v w : StateRep s v w -> lists_ok (v_axons_out v) /\ lists_ok (v_axons_in v).
Proof. intros Hs. split; [apply (sr_axons_out _ _ _ Hs)|apply (sr_axons_in _ _ _ Hs)]. Qed.

(** C1: the root binds the state. Two states whose v2 roots are equal hold the same records in
    every dimension (adjacency lists as sets); otherwise the compressions behind the two roots
    hold a collision, or one of them hits the start of a chain or the empty root. *)
Theorem root_binds_state s v w s' v' w' r t t' :
  StateRep s v w -> w <= 2 ^ 32 -> v_root_version v = V2 ->
  StateRep s' v' w' -> w' <= 2 ^ 32 -> v_root_version v' = V2 ->
  compute_root s = Some (r, t) -> compute_root s' = Some (r, t') ->
  view_agree v v' \/ break_in (view_queries v ++ view_queries v').
Proof.
  intros Hs Hw Hv Hs' Hw' Hv' E E'.
  destruct (compute_root_ok s v w Hs Hw Hv) as (u & Eu & _).
  destruct (compute_root_ok s' v' w' Hs' Hw' Hv') as (u' & Eu' & _).
  destruct (state_rep_lists _ _ _ Hs), (state_rep_lists _ _ _ Hs').
  destruct (proj1 (app_subset (view_queries v) (view_queries v') _) (reflexivity _)) as [Q1 Q2].
  apply view_root_binds; [assumption..|congruence].
Qed.

End LedgerRoot.

(** ** Witnesses *)

Import Toy.

Definition sample_signal : Signal := mkSignal (id32 1)
  [mkCyberlink (id32 2) (id32 3) (id32 4) (of_Z 64 10) (SInt 8 0 eq_refl);
   mkCyberlink (id32 2) (id32 5) (id32 4) (of_Z 64 0) (SInt 8 1 eq_refl)]
  [mkBoxMove (id32 6) (Some (id32 7, of_Z 64 8))] (of_Z 64 0).

(** The new state has presented its view from the start. *)
Lemma new_rep : StateRep state_new view_new 0.
Proof. apply state_rep_new. Qed.

Lemma sample_cost : 0 + signal_cost sample_signal <= 2 ^ 32.
Proof. by vm_compute. Qed.

Lemma insert_spends_once_witness :
  (exists mv, mv ∈ s_box_moves sample_signal /\ is_spent view_new (nullifier mv))
    /\ state_insert state_new sample_signal = Some (Err DoubleSpend, state_new)
  \/ (forall mv, mv ∈ s_box_moves sample_signal -> ~ is_spent view_new (nullifier mv))
    /\ exists s' v', state_insert state_new sample_signal = Some (Ok tt, s')
      /\ StateRep s' v' (0 + signal_cost sample_signal)
      /\ forall n, is_spent v' n <-> is_spent view_new n \/ exists mv, mv ∈ s_box_moves sample_signal /\ nullifier mv = n.
Proof. apply (insert_spends_once state_new view_new 0 sample_signal new_rep); [done|exact sample_cost]. Defined.

Lemma insert_conviction_witness :
  exists s' v', StateRep s' v' (0 + signal_cost sample_signal)
    /\ weight_of v' (axon_id (id32 2) (id32 3)) = saturated (weight_of view_new (axon_id (id32 2) (id32 3))
         + amounts (fun l => bool_decide (axon_id (l_from l) (l_to l) = axon_id (id32 2) (id32 3))) (s_links sample_signal)).
Proof.
  destruct (state_insert_ok state_new view_new 0 sample_signal new_rep) as (s' & E & _); [done|exact sample_cost|].
  assert ((view_insert view_new sample_signal).1 = Ok tt) as Eo by (by vm_compute).
  rewrite Eo in E.
  destruct (insert_conviction state_new view_new 0 sample_signal s' new_rep) as (v' & Hs' & Hw & _);
    [done|exact sample_cost|exact E|].
  exists s', v'. split; [exact Hs'|apply Hw].
Defined.


Lemma one_nullifier_two_commitments_witness :
  exists s' v', state_insert state_new (mkSignal (id32 1) []
      [mkBoxMove (id32 6) (Some (id32 7, of_Z 64 8)); mkBoxMove (id32 6) (Some (id32 9, of_Z 64 8))] (of_Z 64 0))
      = Some (Ok tt, s')
    /\ StateRep s' v' (0 + 8)
    /\ v_commitments v' !! id32 7 = Some (g_new (of_Z 64 8)) /\ v_commitments v' !! id32 9 = Some (g_new (of_Z 64 8)).
Proof.
  apply (one_nullifier_two_commitments state_new view_new 0 (id32 1) (of_Z 64 0) (id32 6)
    (id32 7) (of_Z 64 8) (id32 9) (of_Z 64 8) new_rep); by vm_compute.
Defined.

Lemma ledger_refines_witness :
  exists s s', state_run state_new [sample_signal] = Some ((view_run view_new [sample_signal]).1, s)
    /\ compute_root s = Some (view_root (view_run view_new [sample_signal]).2, s').
Proof. apply (ledger_refines [sample_signal]). by vm_compute. Defined.

Lemma root_binds_state_witness :
  let v := (view_run view_new [sample_signal]).2 in view_agree v v \/ break_in (view_queries v ++ view_queries v).
Proof.
  destruct (state_run_ok [sample_signal] state_new view_new 0 new_rep) as (s & _ & Hs); [done|by vm_compute|].
  destruct (compute_root_ok s _ _ Hs) as (t & E & _); [by vm_compute|by vm_compute|].
  apply (root_binds_state s _ _ s _ _ _ t t Hs ltac:(by vm_compute) ltac:(by vm_compute)
    Hs ltac:(by vm_compute) ltac:(by vm_compute) E E).
Defined.
