(* ===== verification/Facade.v ===== *)
(** * The facade and its checkpoints (rs/src/lib.rs, rs/src/checkpoint.rs)

    [Bbg]: the state, its checkpoint and the pruning policy as one unit, with block finalization.
    Operations answer [None] where the source panics. *)

From S2P Require Import Prelude.
From S2P Require Import Crypto.
From S2P Require Import Trie.
From S2P Require Import Keyed.
From S2P Require Import AxonIndex.
From S2P Require Import Types.
From S2P Require Import Cards.
From S2P Require Import State.
From S2P Require Import StateSpec.
From S2P Require Import StateRoot.
From S2P Require Import Prune.
From S2P Require Import Ledger.

Local Open Scope Z_scope.

Section Facade.
  Context `{Nebu, Hemera, !Lens}.

Record CheckpointProof := mkCheckpointProof { profile : u8; cp_bytes : list u8 }.

Record Checkpoint := mkCheckpoint {
  cp_root : Particle;
  acc : option CheckpointProof;
  cp_height : u64;
}.

(** Reading the root flushes the state, so a checkpoint also answers the state. *)
Definition checkpoint_new (s : BbgState) : option (Checkpoint * BbgState) :=
  '(r, s) ← compute_root s; Some (mkCheckpoint r None (height s), s).

Definition checkpoint_advance (c : Checkpoint) (s : BbgState) : option (Checkpoint * BbgState) :=
  '(r, s) ← compute_root s; Some (mkCheckpoint r None (height s), s).

Record Bbg := mkBbg {
  bbg_state : BbgState;
  checkpoint : Checkpoint;
  prune_config : PruneConfig;
  prune_state : PruneState;
}.

Definition bbg_new : option Bbg :=
  '(c, s) ← checkpoint_new state_new;
  Some (mkBbg s c prune_config_default prune_state_default).

Definition with_prune_config (b : Bbg) (cfg : PruneConfig) : Bbg :=
  mkBbg (bbg_state b) (checkpoint b) cfg (prune_state b).

Definition with_root_version (b : Bbg) (v : RootVersion) : Bbg :=
  mkBbg (state_set_root_version (bbg_state b) v) (checkpoint b) (prune_config b) (prune_state b).

(** The loop of [insert] that touches the axon of every link. *)
Definition touch_links (ps : PruneState) (links : list Cyberlink) (epoch : u64) : PruneState :=
  foldl (fun ps l => touch ps (axon_id (l_from l) (l_to l)) epoch) ps links.

Definition epoch_of (h : u64) : u64 := of_Z 64 (uval h / uval EPOCH_BLOCKS).

Definition bbg_insert (b : Bbg) (sg : Signal) : option (result InsertError unit * Bbg) :=
  '(r, s) ← state_insert (bbg_state b) sg;
  Some (match r with
        | Err e => (Err e, mkBbg s (checkpoint b) (prune_config b) (prune_state b))
        | Ok _ =>
            (Ok tt, mkBbg s (checkpoint b) (prune_config b)
                      (touch_links (prune_state b) (s_links sg) (epoch_of (height s))))
        end).

(** [finalize_block]: record the root under the height, move on one block, prune at an epoch
    boundary, and advance the checkpoint. *)
Definition finalize_block (b : Bbg) : option Bbg :=
  let h := height (bbg_state b) in
  '(root, s) ← compute_root (bbg_state b);
  let s := set_time s (keyed_insert (time s) h root).2 in
  '(_, s) ← compute_root s;
  h' ← checked_add (height s) (of_Z 64 1);
  let s := set_height s h' in
  '(s, ps) ← (if uval (height s) mod uval EPOCH_BLOCKS =? 0
              then prune s (prune_state b) (prune_config b) (epoch_of (height s))
              else Some (s, prune_state b));
  '(c, s) ← checkpoint_advance (checkpoint b) s;
  Some (mkBbg s c (prune_config b) ps).

Definition bbg_apply_intent (b : Bbg) (i : IntentRecord) : Particle * Bbg :=
  let '(k, s) := apply_intent (bbg_state b) i in
  (k, mkBbg s (checkpoint b) (prune_config b) (prune_state b)).

Definition bbg_apply_signal_record (b : Bbg) (r : SignalRecord) : Particle * Bbg :=
  let '(k, s) := apply_signal_record (bbg_state b) r in
  (k, mkBbg s (checkpoint b) (prune_config b) (prune_state b)).

Definition bbg_statistics (b : Bbg) : GraphStats := statistics (bbg_state b).

Definition bbg_set_diameter_bound (b : Bbg) (bound : u64) : Bbg :=
  mkBbg (set_diameter_bound (bbg_state b) bound) (checkpoint b) (prune_config b) (prune_state b).

End Facade.

(** ** Histories of the facade *)

Inductive bbg_op :=
| BInsert (sg : Signal)
| BFinalize
| BIntent (i : IntentRecord)
| BRecord (r : SignalRecord)
| BDiameter (bound : u64).

Inductive bbg_out := BResult (r : result InsertError unit) | BKey (k : Particle) | BDone.

Section History.
  Context `{Nebu, Hemera, !Lens}.

Definition bbg_step (b : Bbg) (o : bbg_op) : option (bbg_out * Bbg) :=
  match o with
  | BInsert sg => '(r, b) ← bbg_insert b sg; Some (BResult r, b)
  | BFinalize => b ← finalize_block b; Some (BDone, b)
  | BIntent i => let '(k, b) := bbg_apply_intent b i in Some (BKey k, b)
  | BRecord r => let '(k, b) := bbg_apply_signal_record b r in Some (BKey k, b)
  | BDiameter d => Some (BDone, bbg_set_diameter_bound b d)
  end.

Fixpoint bbg_run (b : Bbg) (ops : list bbg_op) : option (list bbg_out * Bbg) :=
  match ops with
  | [] => Some ([], b)
  | o :: ops => '(r, b) ← bbg_step b o; '(rs, b) ← bbg_run b ops; Some (r :: rs, b)
  end.

(** ** The abstract facade: a view, the touched axons and the checkpoint *)

Record FView := mkFView {
  f_view : View;
  f_touched : PruneState;
  f_root : Particle;
  f_height : u64;
}.

Definition fview_new : FView :=
  mkFView view_new prune_state_default (view_root view_new) (of_Z 64 0).

(** The view with its root recorded, one block on. *)
Definition view_next (v : View) : View :=
  put_height (put_time v (<[v_height v := view_root v]> (v_time v))) (of_Z 64 (uval (v_height v) + 1)).

Definition at_epoch (h : u64) : bool := uval h mod uval EPOCH_BLOCKS =? 0.

(** One call. At an epoch boundary the axons a pruning cycle removes are those the policy allows. *)
Inductive bbg_spec (cfg : PruneConfig) (f : FView) : bbg_op -> bbg_out -> FView -> Prop :=
| bs_insert sg v :
    view_insert (f_view f) sg = (Ok tt, v) ->
    bbg_spec cfg f (BInsert sg) (BResult (Ok tt))
      (mkFView v (touch_links (f_touched f) (s_links sg) (epoch_of (v_height v))) (f_root f) (f_height f))
| bs_reject sg e :
    view_insert (f_view f) sg = (Err e, f_view f) -> bbg_spec cfg f (BInsert sg) (BResult (Err e)) f
| bs_finalize :
    let v := view_next (f_view f) in
    at_epoch (v_height v) = false ->
    bbg_spec cfg f BFinalize BDone (mkFView v (f_touched f) (view_root v) (v_height v))
| bs_prune floor ids :
    let v := view_next (f_view f) in
    let v' := foldl view_remove v ids in
    at_epoch (v_height v) = true ->
    rank_floor_of (v_particles v) (rank_floor_pct cfg) = Some floor ->
    Pruned v (f_touched f) cfg (epoch_of (v_height v)) floor ids ->
    bbg_spec cfg f BFinalize BDone (mkFView v' (touched_without (f_touched f) ids) (view_root v') (v_height v))
| bs_intent i :
    let k := intent_key (ir_neuron i) (ir_h0 i) (ir_scope_hash i) in
    bbg_spec cfg f (BIntent i) (BKey k)
      (mkFView (put_intents (f_view f) (<[k := i]> (v_intents (f_view f)))) (f_touched f) (f_root f) (f_height f))
| bs_record r :
    let k := signal_key (sr_neuron r) (sr_step r) in
    bbg_spec cfg f (BRecord r) (BKey k)
      (mkFView (put_signals (f_view f) (<[k := r]> (v_signals (f_view f)))) (f_touched f) (f_root f) (f_height f))
| bs_diameter d :
    bbg_spec cfg f (BDiameter d) BDone
      (mkFView (put_diameter_override (f_view f) (Some d)) (f_touched f) (f_root f) (f_height f)).

Inductive bbg_spec_run (cfg : PruneConfig) : FView -> list bbg_op -> list bbg_out -> FView -> Prop :=
| bsr_nil f : bbg_spec_run cfg f [] [] f
| bsr_cons f o r f1 ops rs f2 :
    bbg_spec cfg f o r f1 -> bbg_spec_run cfg f1 ops rs f2 -> bbg_spec_run cfg f (o :: ops) (r :: rs) f2.

(** ** Sizes along a history *)

Definition op_links (o : bbg_op) : Z :=
  match o with BInsert sg => Z.of_nat (length (s_links sg)) | _ => 0 end.

Definition total_links (ops : list bbg_op) : Z := foldr (fun o n => op_links o + n) 0 ops.

(** Arena cells a call may add in a history of [n] links. *)
Definition op_cost (n : Z) (o : bbg_op) : Z :=
  match o with
  | BInsert sg => signal_cost sg
  | BFinalize => 2 + 6 * n
  | BRecord _ => 2
  | _ => 0
  end.

Definition run_cost (n : Z) (ops : list bbg_op) : Z := foldr (fun o c => op_cost n o + c) 0 ops.

(** After [n] links a view is small. *)
Record small (v : View) (ps : PruneState) (n : Z) : Prop := {
  sm_particles : Z.of_nat (size (v_particles v)) <= 2 * n;
  sm_touched : Z.of_nat (size (last_touched ps)) <= n;
  sm_bytes : view_bytes v <= 288 * n;
}.

Lemma size_insert_le {K V} `{Countable K} (m : gmap K V) k v : (size (<[k := v]> m) <= size m + 1)%nat.
Proof. rewrite map_size_insert. case_match; simpl; unfold id; lia. Qed.

Lemma list_bytes_join m p x : list_bytes (join_axon m p x) <= list_bytes m + 64.
Proof.
  unfold join_axon. case_bool_decide; [|lia].
  rewrite (list_bytes_delete (<[p := list_at m p ++ [x]]> m) p (list_at m p ++ [x])) by apply lookup_insert_eq.
  rewrite delete_insert_eq, length_app. simpl. unfold list_at. destruct (m !! p) as [l|] eqn:E; simpl.
  - rewrite (list_bytes_delete m p l E). lia.
  - rewrite delete_id by done. lia.
Qed.

Lemma view_link_small neuron v l :
  Z.of_nat (size (v_particles (view_link neuron v l))) <= Z.of_nat (size (v_particles v)) + 2
  /\ view_bytes (view_link neuron v l) <= view_bytes v + 288.
Proof.
  assert (v_particles (view_topology v l) = v_particles v /\ v_neurons (view_topology v l) = v_neurons v
    /\ list_bytes (v_axons_out (view_topology v l)) <= list_bytes (v_axons_out v) + 64
    /\ list_bytes (v_axons_in (view_topology v l)) <= list_bytes (v_axons_in v) + 64) as (Ep & En & Eo & Ei).
  { unfold view_topology. simpl. set (id := axon_id _ _).
    pose proof (list_bytes_join (v_axons_out v) (l_from l) id).
    pose proof (list_bytes_join (v_axons_in v) (l_to l) id). by case_match. }
  unfold view_link, view_bytes. case_match.
  { rewrite Ep, En. lia. }
  unfold view_conviction. cbn [v_particles v_axons_out v_axons_in v_neurons put_balances put_neurons put_particles].
  rewrite Ep, En. unfold add_energy, add_weight.
  match goal with |- context [<[?k := ?e]> (<[?k' := ?e']> (v_particles v))] =>
    pose proof (size_insert_le (<[k' := e']> (v_particles v)) k e);
    pose proof (size_insert_le (v_particles v) k' e') end.
  assert (size (spend_focus (v_neurons v) neuron (l_amount l)) = size (v_neurons v)) as ->.
  { unfold spend_focus. destruct (v_neurons v !! neuron) eqn:E; [|done]. by rewrite map_size_insert_Some. }
  lia.
Qed.

Lemma view_box_moves_small ms v :
  v_particles (foldl view_box_move v ms) = v_particles v /\ view_bytes (foldl view_box_move v ms) = view_bytes v.
Proof.
  revert v. induction ms as [|mv ms IH]; intros v; [done|]. simpl. destruct (IH (view_box_move v mv)) as [-> ->].
  unfold view_box_move. by destruct (box_commitment mv) as [[]|].
Qed.

Lemma view_insert_small v sg r v' :
  view_insert v sg = (Ok r, v') ->
  Z.of_nat (size (v_particles v')) <= Z.of_nat (size (v_particles v)) + 2 * Z.of_nat (length (s_links sg))
  /\ view_bytes v' <= view_bytes v + 288 * Z.of_nat (length (s_links sg)).
Proof.
  unfold view_insert. case_match; [done|]. intros [= _ <-].
  destruct (view_box_moves_small (s_box_moves sg) v) as [<- <-].
  generalize (foldl view_box_move v (s_box_moves sg)). clear. induction (s_links sg) as [|l ls IH]; intros v; simpl; [lia|].
  destruct (view_link_small (s_neuron sg) v l). specialize (IH (view_link (s_neuron sg) v l)). lia.
Qed.

Lemma touch_links_small ps ls e :
  Z.of_nat (size (last_touched (touch_links ps ls e))) <= Z.of_nat (size (last_touched ps)) + Z.of_nat (length ls).
Proof.
  revert ps. induction ls as [|l ls IH]; intros ps; simpl; [unfold touch_links; simpl; lia|].
  specialize (IH (touch ps (axon_id (l_from l) (l_to l)) e)). unfold touch in IH at 2. cbn [last_touched] in IH.
  pose proof (size_insert_le (last_touched ps) (axon_id (l_from l) (l_to l)) e). unfold touch_links in *. simpl. lia.
Qed.

Lemma touched_without_small ps ids : (size (last_touched (touched_without ps ids)) <= size (last_touched ps))%nat.
Proof.
  unfold touched_without. cbn [last_touched]. generalize (last_touched ps).
  induction ids as [|id ids IH]; intros m; simpl; [done|]. etransitivity; [apply IH|].
  rewrite map_size_delete. case_match; simpl; unfold Datatypes.id; lia.
Qed.

Lemma view_removes_small v ids :
  (size (v_particles (foldl view_remove v ids)) <= size (v_particles v))%nat
  /\ view_bytes (foldl view_remove v ids) <= view_bytes v.
Proof.
  revert v. induction ids as [|id ids IH]; intros v; simpl; [lia|].
  destruct (IH (view_remove v id)) as [Hp Hb]. pose proof (view_remove_bytes v id).
  rewrite view_remove_particles, map_size_delete in Hp.
  destruct (v_particles v !! id); simpl in Hp; unfold Datatypes.id in Hp; lia.
Qed.

End History.

(** ** The facade refines its abstraction *)

Section FacadeRefine.
  Context `{Nebu, Hemera, !CryptoLaws, !Lens}.

Record BbgRep (b : Bbg) (f : FView) (cfg : PruneConfig) (n w : Z) : Prop := {
  br_state : StateRep (bbg_state b) (f_view f) w;
  br_touched : prune_state b = f_touched f;
  br_config : prune_config b = cfg;
  br_checkpoint : checkpoint b = mkCheckpoint (f_root f) None (f_height f);
  br_version : v_root_version (f_view f) = V2;
  br_height : uval (v_height (f_view f)) <= w;
  br_small : small (f_view f) (f_touched f) n;
}.

Lemma view_insert_height v sg : v_height (view_insert v sg).2 = v_height v.
Proof.
  apply (view_insert_keeps (fun v' => v_height v' = v_height v)); [..|done].
  - intros v1 mv <-. unfold view_box_move. by destruct (box_commitment mv) as [[]|].
  - intros v1 l <-. unfold view_link, view_topology. cbn. repeat case_match; done.
Qed.

Lemma insert_step_ok b f cfg n w sg :
  BbgRep b f cfg n w -> w + signal_cost sg <= 2 ^ 32 ->
  exists out b' f', bbg_step b (BInsert sg) = Some (out, b') /\ bbg_spec cfg f (BInsert sg) out f'
    /\ BbgRep b' f' cfg (n + Z.of_nat (length (s_links sg))) (w + signal_cost sg).
Proof.
  intros [Hs Ht Hc Hcp Hv Hh [Sp St Sb]] Hw.
  pose proof (uval_range (v_height (f_view f))) as Rh.
  destruct (state_insert_ok _ _ _ sg Hs) as (s' & Ei & Hs'); [lia..|].
  pose proof (signal_cost_pos sg) as Hpos. pose proof (view_insert_version (f_view f) sg) as Ev.
  pose proof (view_insert_height (f_view f) sg) as Eh. pose proof (sr_height _ _ _ Hs') as Eh'.
  cbn [bbg_step]. unfold bbg_insert. rewrite Ei. cbn [mbind option_bind].
  destruct (view_insert (f_view f) sg) as [r v'] eqn:E. cbn [fst snd] in *. destruct r as [[]|e].
  - destruct (view_insert_small _ _ _ _ E) as [Sp' Sb'].
    pose proof (touch_links_small (f_touched f) (s_links sg) (epoch_of (v_height v'))) as St'.
    eexists _, _, _. split_and!; [done|by apply bs_insert|].
    split; cbn [bbg_state prune_state prune_config checkpoint f_view f_touched f_root f_height];
      [done|by rewrite Ht, Eh'|done|done|congruence|rewrite Eh; lia|split; lia].
  - assert (v' = f_view f) as -> by (unfold view_insert in E; case_match; congruence).
    eexists _, _, _. split_and!; [done|by apply bs_reject|]. split; try done; [lia|split; lia].
Qed.

Lemma finalize_step_ok b f cfg n w :
  BbgRep b f cfg n w -> 0 <= n -> w + 2 + 6 * n <= 2 ^ 32 ->
  exists b' f', finalize_block b = Some b' /\ bbg_spec cfg f BFinalize BDone f'
    /\ BbgRep b' f' cfg n (w + (2 + 6 * n)).
Proof.
  intros [Hs Ht Hc Hcp Hv Hh [Sp St Sb]] H0n Hw. pose proof (uval_range (v_height (f_view f))) as Rh.
  unfold finalize_block. destruct (compute_root_ok _ _ _ Hs) as (s1 & -> & Hs1); [lia|done|].
  cbn [mbind option_bind]. rewrite (sr_height _ _ _ Hs).
  destruct (keyed_rep_insert _ _ (v_height (f_view f)) (view_root (f_view f)) _ (sr_time _ _ _ Hs1)) as [_ Htime].
  assert (StateRep (set_time s1 (keyed_insert (time s1) (v_height (f_view f)) (view_root (f_view f))).2)
    (put_time (f_view f) (<[v_height (f_view f) := view_root (f_view f)]> (v_time (f_view f)))) (w + 2)) as Hs2.
  { apply (state_rep_weaken _ _ _ (w + 2)) in Hs1; [|lia]. destruct Hs1; by split. }
  destruct (compute_root_ok _ _ _ Hs2) as (s3 & -> & Hs3); [lia|done|]. cbn [mbind option_bind].
  pose proof (sr_height _ _ _ Hs3) as Eh. cbn [v_height put_time] in Eh. rewrite Eh.
  assert (checked_add (v_height (f_view f)) (of_Z 64 1) = Some (of_Z 64 (uval (v_height (f_view f)) + 1))) as ->.
  { rewrite <- (of_Z_uval (v_height (f_view f))) at 1. apply checked_add_of_Z; simpl Z.of_N; lia. }
  cbn [mbind option_bind]. cbn [height set_height].
  set (v := view_next (f_view f)). set (h' := of_Z 64 (uval (v_height (f_view f)) + 1)).
  assert (uval h' = uval (v_height (f_view f)) + 1) as Uh by (apply uval_of_Z_small; simpl Z.of_N; lia).
  assert (StateRep (set_height s3 h') v (w + 2)) as Hs4 by (destruct Hs3; by split).
  assert (v_root_version v = V2) as Hv' by done. assert (v_height v = h') as Evh by done.
  rewrite Ht, Hc. change (uval h' mod uval EPOCH_BLOCKS =? 0) with (at_epoch (v_height v)).
  assert (view_bytes v = view_bytes (f_view f)) as Eb by done.
  assert (v_particles v = v_particles (f_view f)) as Ep by done.
  destruct (at_epoch (v_height v)) eqn:Eep.
  - destruct (prune_ok (set_height s3 h') v (w + 2) (f_touched f) cfg (epoch_of h') Hs4 Hv')
      as (floor & ids & s5 & Hf & -> & Hs5 & Hp); [lia|rewrite Eb; lia|rewrite Ep; lia|].
    cbn [mbind option_bind]. unfold checkpoint_advance.
    destruct (compute_root_ok _ _ _ Hs5) as (s6 & -> & Hs6); [rewrite Ep; lia|by rewrite foldl_remove_root_version|].
    cbn [mbind option_bind]. pose proof (sr_height _ _ _ Hs6) as Eh6.
    eexists _, _. split_and!; [done|apply (bs_prune cfg f floor ids); [done| |done]|].
    { unfold rank_floor in Hf. by rewrite (kr_map _ _ _ (sr_particles _ _ _ Hs4)) in Hf. }
    pose proof (touched_without_small (f_touched f) ids). destruct (view_removes_small v ids) as [Rp Rb].
    split; cbn [bbg_state prune_state prune_config checkpoint f_view f_touched f_root f_height].
    + eapply state_rep_weaken, Hs6. rewrite Ep. lia.
    + done.
    + done.
    + rewrite Eh6, foldl_remove_height. done.
    + by rewrite foldl_remove_root_version.
    + rewrite foldl_remove_height. fold v. rewrite Evh, Uh. lia.
    + fold v. rewrite Ep in Rp. rewrite Eb in Rb. split; lia.
  - cbn [mbind option_bind]. unfold checkpoint_advance.
    destruct (compute_root_ok _ _ _ Hs4) as (s6 & -> & Hs6); [lia|done|].
    cbn [mbind option_bind]. pose proof (sr_height _ _ _ Hs6) as Eh6.
    eexists _, _. split_and!; [done|by apply bs_finalize|].
    split; cbn [bbg_state prune_state prune_config checkpoint f_view f_touched f_root f_height].
    + eapply state_rep_weaken, Hs6. lia.
    + done.
    + done.
    + by rewrite Eh6.
    + done.
    + fold v. rewrite Evh, Uh. lia.
    + split; [rewrite <- Ep in Sp; exact Sp|done|rewrite <- Eb in Sb; exact Sb].
Qed.

Lemma bbg_rep_weaken b f cfg n w w' : w <= w' -> BbgRep b f cfg n w -> BbgRep b f cfg n w'.
Proof. intros Hw []. split; try done; [by eapply state_rep_weaken|lia]. Qed.

Lemma bbg_step_ok b f cfg n w o total :
  BbgRep b f cfg n w -> 0 <= n -> n + op_links o <= total -> w + op_cost total o <= 2 ^ 32 ->
  exists out b' f', bbg_step b o = Some (out, b') /\ bbg_spec cfg f o out f'
    /\ BbgRep b' f' cfg (n + op_links o) (w + op_cost total o).
Proof.
  intros Hb H0n Hn Hw. destruct o as [sg| |i|r|d]; cbn [op_links op_cost] in *.
  - by apply insert_step_ok.
  - destruct (finalize_step_ok b f cfg n w Hb H0n) as (b' & f' & E & Hspec & Hb'); [lia|].
    exists BDone, b', f'. cbn [bbg_step]. rewrite E. split_and!; [done|done|].
    rewrite Z.add_0_r. eapply bbg_rep_weaken, Hb'. lia.
  - destruct Hb as [Hs Ht Hc Hcp Hv Hh [Sp St Sb]]. eexists _, _, _. split_and!; [done|apply bs_intent|].
    rewrite !Z.add_0_r. split; try done. destruct Hs; split; try done. cbn. congruence.
  - destruct Hb as [Hs Ht Hc Hcp Hv Hh [Sp St Sb]].
    destruct (keyed_rep_insert _ _ (signal_key (sr_neuron r) (sr_step r)) r _ (sr_signals _ _ _ Hs)) as [_ Hk].
    eexists _, _, _. split_and!; [done|apply bs_record|].
    rewrite Z.add_0_r. split; try done; [|cbn; lia].
    apply (state_rep_weaken _ _ _ (w + 2)) in Hs; [|lia]. destruct Hs; by split.
  - destruct Hb as [Hs Ht Hc Hcp Hv Hh [Sp St Sb]]. eexists _, _, _. split_and!; [done|apply bs_diameter|].
    rewrite !Z.add_0_r. split; try done. destruct Hs; by split.
Qed.

Lemma op_links_pos o : 0 <= op_links o.
Proof. destruct o; simpl; lia. Qed.

Lemma total_links_pos ops : 0 <= total_links ops.
Proof. induction ops as [|o ops IH]; simpl; [lia|]. pose proof (op_links_pos o). lia. Qed.

Lemma op_cost_pos n o : 0 <= n -> 0 <= op_cost n o.
Proof. destruct o; simpl; try lia. intros _. apply signal_cost_pos. Qed.

Lemma run_cost_pos n ops : 0 <= n -> 0 <= run_cost n ops.
Proof. intros Hn. induction ops as [|o ops IH]; simpl; [lia|]. pose proof (op_cost_pos n o Hn). lia. Qed.

Lemma bbg_run_ok ops b f cfg n w total :
  BbgRep b f cfg n w -> 0 <= n -> n + total_links ops <= total -> w + run_cost total ops <= 2 ^ 32 ->
  exists outs b' f', bbg_run b ops = Some (outs, b') /\ bbg_spec_run cfg f ops outs f'
    /\ BbgRep b' f' cfg (n + total_links ops) (w + run_cost total ops).
Proof.
  revert b f n w. induction ops as [|o ops IH]; intros b f n w Hb H0n Hn Hw.
  { exists [], b, f. cbn. rewrite !Z.add_0_r. split_and!; [done|constructor|done]. }
  cbn [total_links run_cost foldr] in *. fold (total_links ops) (run_cost total ops) in *.
  pose proof (total_links_pos ops). pose proof (op_links_pos o). pose proof (run_cost_pos total ops ltac:(lia)).
  destruct (bbg_step_ok b f cfg n w o total Hb H0n) as (out & b1 & f1 & E & Hsp & Hb1); [lia..|].
  destruct (IH b1 f1 _ _ Hb1) as (outs & b2 & f2 & E2 & Hsp2 & Hb2); [lia..|].
  exists (out :: outs), b2, f2. cbn [bbg_run]. rewrite E. cbn [mbind option_bind]. rewrite E2.
  split_and!; [done|by econstructor|]. by rewrite !Z.add_assoc.
Qed.

Lemma bbg_rep_new cfg : exists b, bbg_new = Some b /\ BbgRep (with_prune_config b cfg) fview_new cfg 0 0.
Proof.
  unfold bbg_new, checkpoint_new. destruct (compute_root_ok _ _ _ state_rep_new ltac:(lia) eq_refl) as (s & -> & Hs).
  cbn [mbind option_bind]. eexists. split; [done|]. pose proof (sr_height _ _ _ Hs) as Eh.
  split; first [done|split; by vm_compute|cbn [checkpoint with_prune_config f_root f_height fview_new]; by rewrite Eh].
Qed.

(** ** What a history records *)

Definition finalizes (ops : list bbg_op) : Z :=
  zsum (fun o => match o with BFinalize => 1 | _ => 0 end) ops.

Lemma bbg_spec_height cfg f o r f' :
  bbg_spec cfg f o r f' ->
  match o with
  | BFinalize => v_height (f_view f') = of_Z 64 (uval (v_height (f_view f)) + 1)
      /\ v_time (f_view f') = <[v_height (f_view f) := view_root (f_view f)]> (v_time (f_view f))
      /\ f_root f' = view_root (f_view f') /\ f_height f' = v_height (f_view f')
  | _ => v_height (f_view f') = v_height (f_view f) /\ v_time (f_view f') = v_time (f_view f)
      /\ f_root f' = f_root f /\ f_height f' = f_height f
  end.
Proof.
  assert (forall ids v, v_height (foldl view_remove v ids) = v_height v /\ v_time (foldl view_remove v ids) = v_time v) as Hr.
  { intros ids. induction ids as [|id ids IH]; intros v; [done|]. simpl. destruct (IH (view_remove v id)) as [-> ->].
    unfold view_remove. simpl. by destruct (v_axon_edges v !! id) as [[]|]. }
  destruct 1 as [sg v E|sg e E| |floor ids|i|r|d]; try done.
  - pose proof (view_insert_height (f_view f) sg) as Eh. rewrite E in Eh. simpl in *. split_and!; try done.
    pose proof (view_insert_keeps (fun v' => v_time v' = v_time (f_view f)) sg (f_view f)) as Hk. rewrite E in Hk.
    apply Hk; [..|done].
    + intros v1 mv <-. unfold view_box_move. by destruct (box_commitment mv) as [[]|].
    + intros v1 l <-. unfold view_link, view_topology. cbn. repeat case_match; done.
  - simpl. destruct (Hr ids v) as [Eh Et]. fold v. subst v'. rewrite Eh, Et. done.
Qed.

Lemma finalizes_cons o ops : finalizes (o :: ops) = (match o with BFinalize => 1 | _ => 0 end) + finalizes ops.
Proof. done. Qed.

Lemma finalizes_pos ops : 0 <= finalizes ops.
Proof. induction ops as [|o ops IH]; [done|]. rewrite finalizes_cons. destruct o; lia. Qed.

Lemma finalizes_cost n ops : 0 <= n -> finalizes ops <= run_cost n ops.
Proof.
  intros Hn. induction ops as [|o ops IH]; [by vm_compute|]. rewrite finalizes_cons. cbn [run_cost foldr].
  fold (run_cost n ops). pose proof (op_cost_pos n o Hn). destruct o; simpl in *; lia.
Qed.

(** The time index holds a root for every height below the current one. *)
Definition time_full (v : View) : Prop := forall h, is_Some (v_time v !! h) <-> uval h < uval (v_height v).

Lemma spec_run_time cfg f ops outs f' :
  bbg_spec_run cfg f ops outs f' -> uval (v_height (f_view f)) + finalizes ops < 2 ^ 64 ->
  time_full (f_view f) -> f_height f = v_height (f_view f) ->
  uval (v_height (f_view f')) = uval (v_height (f_view f)) + finalizes ops
  /\ time_full (f_view f') /\ f_height f' = v_height (f_view f')
  /\ forall h, uval h < uval (v_height (f_view f)) -> v_time (f_view f') !! h = v_time (f_view f) !! h.
Proof.
  induction 1 as [f|f o r f1 ops rs f2 Hstep _ IH]; intros Hb Ht Hh; [split_and!; auto; unfold finalizes; simpl; lia|].
  pose proof (bbg_spec_height _ _ _ _ _ Hstep) as Hs. pose proof (finalizes_pos ops).
  pose proof (uval_range (v_height (f_view f))). rewrite finalizes_cons in Hb |- *.
  destruct o; try (destruct Hs as (E1 & E2 & _ & E4); destruct IH as (I1 & I2 & I3 & I4);
    [rewrite E1; lia|unfold time_full; by rewrite E1, E2|congruence|];
    rewrite E1, E2 in *; split_and!; [lia|done..]).
  destruct Hs as (E1 & E2 & _ & E4).
  assert (uval (v_height (f_view f1)) = uval (v_height (f_view f)) + 1) as U1
    by (rewrite E1; apply uval_of_Z_small; simpl Z.of_N; lia).
  destruct IH as (I1 & I2 & I3 & I4); [lia| |done|].
  { intros h. rewrite E2. destruct (decide (h = v_height (f_view f))) as [->|Hne].
    - rewrite lookup_insert_eq. split; [lia|eauto].
    - rewrite lookup_insert_ne, (Ht h) by done. assert (uval h <> uval (v_height (f_view f))); [|lia].
      intros E. by apply Hne, uint_eq. }
  split_and!; [lia|done|done|]. intros h Hlt. rewrite I4, E2 by lia. rewrite lookup_insert_ne; [done|]. intros <-. lia.
Qed.

Lemma bbg_run_app b ops1 ops2 :
  bbg_run b (ops1 ++ ops2) = '(rs1, b1) ← bbg_run b ops1; '(rs2, b2) ← bbg_run b1 ops2; Some (rs1 ++ rs2, b2).
Proof.
  revert b. induction ops1 as [|o ops1 IH]; intros b; cbn [bbg_run app].
  - cbn [mbind option_bind]. by destruct (bbg_run b ops2) as [[]|].
  - destruct (bbg_step b o) as [[r b1]|]; cbn [mbind option_bind]; [|done]. rewrite IH.
    destruct (bbg_run b1 ops1) as [[rs1 b2]|]; cbn [mbind option_bind]; [|done].
    by destruct (bbg_run b2 ops2) as [[]|].
Qed.

Lemma total_links_app ops1 ops2 : total_links (ops1 ++ ops2) = total_links ops1 + total_links ops2.
Proof.
  unfold total_links. induction ops1 as [|o ops IH]; cbn [app foldr]; [done|]. rewrite IH. lia.
Qed.

Lemma run_cost_app n ops1 ops2 : run_cost n (ops1 ++ ops2) = run_cost n ops1 + run_cost n ops2.
Proof.
  unfold run_cost. induction ops1 as [|o ops IH]; cbn [app foldr]; [done|]. rewrite IH. lia.
Qed.

Lemma new_height : uval (v_height (f_view fview_new)) = 0.
Proof. by apply (uval_of_Z_small 64 0). Qed.

Lemma new_time_full : time_full (f_view fview_new).
Proof.
  intros h. rewrite new_height. cbn [fview_new f_view view_new v_time]. rewrite lookup_empty.
  pose proof (uval_range h). split; [by intros [? [=]]|lia].
Qed.

(** A run from the new facade, with its time index. *)
Lemma new_run_ok b cfg ops total :
  BbgRep b fview_new cfg 0 0 -> total_links ops <= total -> run_cost total ops <= 2 ^ 32 ->
  exists outs b' f', bbg_run b ops = Some (outs, b') /\ bbg_spec_run cfg fview_new ops outs f'
    /\ BbgRep b' f' cfg (total_links ops) (run_cost total ops)
    /\ uval (v_height (f_view f')) = finalizes ops /\ time_full (f_view f')
    /\ f_height f' = v_height (f_view f').
Proof.
  intros Hb Hn Hw. pose proof (total_links_pos ops) as Hpos.
  destruct (bbg_run_ok ops _ _ cfg 0 0 total Hb) as (outs & b' & f' & E & Hsp & Hb'); [lia..|].
  pose proof (finalizes_cost total ops ltac:(lia)).
  destruct (spec_run_time _ _ _ _ _ Hsp) as (I1 & I2 & I3 & _); [rewrite new_height; lia|apply new_time_full|done|].
  rewrite new_height in I1. exists outs, b', f'. rewrite Z.add_0_l in Hb'. split_and!; try done. 
Qed.

(** Splitting a run at a finalized block: the root of the first part is recorded for good. *)
Lemma finalized_root b cfg ops1 ops2 total outs b' :
  BbgRep b fview_new cfg 0 0 -> total_links (ops1 ++ BFinalize :: ops2) <= total ->
  run_cost total (ops1 ++ BFinalize :: ops2) <= 2 ^ 32 ->
  bbg_run b (ops1 ++ BFinalize :: ops2) = Some (outs, b') ->
  exists outs1 b1 root s, bbg_run b ops1 = Some (outs1, b1)
    /\ compute_root (bbg_state b1) = Some (root, s)
    /\ k_map (time (bbg_state b')) !! of_Z 64 (finalizes ops1) = Some root.
Proof.
  intros Hb Hn Hw E. rewrite total_links_app in Hn. rewrite run_cost_app in Hw.
  cbn [total_links run_cost foldr op_links] in Hn, Hw. fold (total_links ops2) in Hn. fold (run_cost total ops2) in Hw.
  pose proof (total_links_pos ops1). pose proof (total_links_pos ops2).
  pose proof (run_cost_pos total ops2 ltac:(lia)). pose proof (run_cost_pos total ops1 ltac:(lia)).
  assert (2 <= op_cost total BFinalize) as Hf by (simpl; lia). set (c := op_cost total BFinalize) in *.
  destruct (new_run_ok b cfg ops1 total Hb) as (outs1 & b1 & f1 & E1 & _ & Hb1 & J1 & J2 & J3); [lia..|].
  destruct (bbg_step_ok b1 f1 cfg _ _ BFinalize total Hb1) as (o2 & b2 & f2 & E2 & Hsp2 & Hb2);
    [lia|simpl; lia|fold c; lia|].
  destruct (bbg_run_ok ops2 _ _ cfg _ _ total Hb2) as (outs3 & b3 & f3 & E3 & Hsp3 & Hb3);
    [simpl; lia|simpl; lia|fold c; lia|].
  rewrite bbg_run_app, E1 in E. cbn [mbind option_bind bbg_run] in E. rewrite E2 in E.
  cbn [mbind option_bind] in E. rewrite E3 in E. cbn [mbind option_bind] in E. injection E as _ <-.
  pose proof Hb1 as [Hs1 _ _ _ Hv1 _ _].
  destruct (compute_root_ok _ _ _ Hs1) as (s1 & Er1 & _); [lia|done|].
  exists outs1, b1, (view_root (f_view f1)), s1. split_and!; [done|done|].
  pose proof (finalizes_cost total ops1 ltac:(lia)). pose proof (finalizes_cost total ops2 ltac:(lia)).
  pose proof (finalizes_pos ops1).
  pose proof (bbg_spec_height _ _ _ _ _ Hsp2) as (K1 & K2 & _ & K4).
  assert (uval (v_height (f_view f2)) = finalizes ops1 + 1) as U2
    by (rewrite K1, J1; apply uval_of_Z_small; simpl Z.of_N; lia).
  destruct (spec_run_time _ _ _ _ _ Hsp3) as (_ & _ & _ & L4); [rewrite U2; lia| |done|].
  { intros h. rewrite U2, K2. destruct (decide (h = v_height (f_view f1))) as [->|Hne].
    - rewrite lookup_insert_eq. split; [lia|eauto].
    - rewrite lookup_insert_ne, (J2 h), J1 by done. assert (uval h <> uval (v_height (f_view f1))); [|lia].
      intros Eq. by apply Hne, uint_eq. }
  rewrite (kr_map _ _ _ (sr_time _ _ _ (br_state _ _ _ _ _ Hb3))).
  assert (of_Z 64 (finalizes ops1) = v_height (f_view f1)) as ->.
  { apply uint_eq. rewrite J1. apply uval_of_Z_small. simpl Z.of_N. lia. }
  rewrite L4, K2 by lia. apply lookup_insert_eq.
Qed.

Lemma last_finalize_root cfg f ops1 outs f' :
  bbg_spec_run cfg f (ops1 ++ [BFinalize]) outs f' -> f_root f' = view_root (f_view f').
Proof.
  revert f outs. induction ops1 as [|o ops1 IH]; intros f outs Hsp;
    inversion_clear Hsp as [|? ? ? f1 ? ? ? Hst Hrun]; [|by eapply IH].
  inversion Hrun; subst. by destruct (bbg_spec_height _ _ _ _ _ Hst) as (_ & _ & E & _).
Qed.

(** C3: the facade refines its abstraction. Any history of calls that fits the arenas runs on a new
    facade without a panic and answers what the abstract facade answers: insertions apply to the
    view or are rejected, a finalized block records the root under its height, advances the
    height and the checkpoint, and prunes as the policy allows at every hundredth block. The
    facade then presents the abstract state, and its root is the view's. *)
Theorem facade_refines cfg ops :
  run_cost (total_links ops) ops <= 2 ^ 32 ->
  exists b outs b' f', bbg_new = Some b
    /\ bbg_run (with_prune_config b cfg) ops = Some (outs, b')
    /\ bbg_spec_run cfg fview_new ops outs f'
    /\ prune_state b' = f_touched f' /\ checkpoint b' = mkCheckpoint (f_root f') None (f_height f')
    /\ exists s, compute_root (bbg_state b') = Some (view_root (f_view f'), s).
Proof.
  intros Hc. destruct (bbg_rep_new cfg) as (b & Eb & Hb).
  destruct (bbg_run_ok ops _ _ cfg 0 0 (total_links ops) Hb) as (outs & b' & f' & E & Hsp & [Hs Ht _ Hcp Hv _ _]); [lia..|].
  exists b, outs, b', f'. split_and!; [done..|].
  destruct (compute_root_ok _ _ _ Hs) as (s & Er & _); [lia|done|eauto].
Qed.

(** C4: the time dimension is the chain of roots. After any history of calls that fits, the height
    is the number of finalized blocks, the checkpoint is at that height, the time dimension holds
    exactly the heights below it, and under each height the root the state had when that block
    was finalized; a history that ends by finalizing leaves the checkpoint at the state's root. *)
Theorem time_chain cfg ops :
  run_cost (total_links ops) ops <= 2 ^ 32 ->
  exists b outs b', bbg_new = Some b
    /\ bbg_run (with_prune_config b cfg) ops = Some (outs, b')
    /\ uval (height (bbg_state b')) = finalizes ops
    /\ cp_height (checkpoint b') = height (bbg_state b')
    /\ (forall h, is_Some (k_map (time (bbg_state b')) !! h) <-> uval h < finalizes ops)
    /\ (forall ops1 ops2, ops = ops1 ++ BFinalize :: ops2 ->
         exists outs1 b1 root s, bbg_run (with_prune_config b cfg) ops1 = Some (outs1, b1)
           /\ compute_root (bbg_state b1) = Some (root, s)
           /\ k_map (time (bbg_state b')) !! of_Z 64 (finalizes ops1) = Some root)
    /\ (forall ops1, ops = ops1 ++ [BFinalize] ->
         exists s, compute_root (bbg_state b') = Some (cp_root (checkpoint b'), s)).
Proof.
  intros Hc. destruct (bbg_rep_new cfg) as (b & Eb & Hb).
  destruct (new_run_ok _ cfg ops (total_links ops) Hb) as (outs & b' & f' & E & Hsp & Hb' & I1 & I2 & I3); [lia..|].
  pose proof Hb' as [Hs _ _ Hcp Hv _ _].
  pose proof (sr_height _ _ _ Hs) as Eh. pose proof (kr_map _ _ _ (sr_time _ _ _ Hs)) as Etime.
  exists b, outs, b'. split_and!; [done|done|by rewrite Eh|by rewrite Hcp, Eh|..].
  - intros h. by rewrite Etime, (I2 h), I1.
  - intros ops1 ops2 ->. by apply (finalized_root _ cfg ops1 ops2 _ _ _ Hb (Z.le_refl _) Hc) in E.
  - intros ops1 ->. apply last_finalize_root in Hsp.
    destruct (compute_root_ok _ _ _ Hs) as (s & Er & _); [lia|done|]. exists s. by rewrite Hcp, Hsp.
Qed.

End FacadeRefine.

(** ** Witnesses *)

Import Toy.

Definition sample_history : list bbg_op :=
  [BInsert sample_signal; BFinalize; BDiameter (of_Z 64 3); BInsert sample_signal; BFinalize].

Lemma facade_refines_witness :
  exists b outs b' f', bbg_new = Some b
    /\ bbg_run (with_prune_config b prune_config_default) sample_history = Some (outs, b')
    /\ bbg_spec_run prune_config_default fview_new sample_history outs f'.
Proof.
  destruct (facade_refines prune_config_default sample_history) as (b & outs & b' & f' & E & Hr & Hs & _);
    [by vm_compute|].
  exists b, outs, b', f'. exact (conj E (conj Hr Hs)).
Defined.

Lemma time_chain_witness :
  exists b outs b', bbg_new = Some b
    /\ bbg_run (with_prune_config b prune_config_default) sample_history = Some (outs, b')
    /\ uval (height (bbg_state b')) = 2.
Proof.
  destruct (time_chain prune_config_default sample_history) as (b & outs & b' & E & Hr & Hh & _);
    [by vm_compute|].
  exists b, outs, b'. rewrite Hh. exact (conj E (conj Hr eq_refl)).
Defined.
