(* ===== verification/Records.v ===== *)
(** * Native records (rs/src/transition/records.rs)

    The persisted form of a state: every record under a byte key, a domain byte before the key of
    its dimension; the encoders of the records, the enumeration of a whole state, and the read of
    one address. [None] is a panic. *)

From S2P Require Import Prelude.
From S2P Require Import Crypto.
From S2P Require Import Trie.
From S2P Require Import Keyed.
From S2P Require Import AxonIndex.
From S2P Require Import Types.
From S2P Require Import Cards.
From S2P Require Import State.
From S2P Require Import StateSpec.
From S2P Require Import StateRoot.
From S2P Require Import Prune.
From S2P Require Import Ledger.
From S2P Require Import Facade.

Local Open Scope Z_scope.

(** ** Errors (transition/mod.rs) *)

Inductive TransitionError :=
| Arguments
| CheckpointHasProof
| TransitionDoubleSpend
| Overflow (field : string)
| Limit (limit : string)
| SignalExists.

#[export] Instance transition_error_eq_dec : EqDecision TransitionError.
Proof. solve_decision. Defined.

(** [Display]. *)
Definition transition_error_message (e : TransitionError) : string :=
  match e with
  | Arguments => "native transition requires a signal/header or an intent"
  | CheckpointHasProof => "native persistence does not encode checkpoint proofs"
  | TransitionDoubleSpend => "duplicate or already spent nullifier"
  | Overflow field => "native transition overflow: " +:+ field
  | Limit limit => "native transition limit: " +:+ limit
  | SignalExists => "native signal (neuron, step) already exists"
  end.

(** ** Records and their bytes *)

Record StateRecord := mkStateRecord { rec_key : list u8; rec_value : list u8 }.

Record RecordChange := mkRecordChange { change_key : list u8; change_value : option (list u8) }.

#[export] Instance state_record_eq_dec : EqDecision StateRecord.
Proof. solve_decision. Defined.
#[export] Instance record_change_eq_dec : EqDecision RecordChange.
Proof. solve_decision. Defined.

Definition record_key (domain : u8) (entity : list u8) : list u8 := domain :: entity.

Definition integers (values : list u64) : list u8 := flat_map (fun v => blist (to_le_bytes 8 v)) values.

Definition particle_record (p : ParticleRecord) : list u8 :=
  integers [energy p; pi_star p; weight p; s_yes p; s_no p; meta_score p].

Definition adjacency_record (entries : list Particle) : list u8 :=
  integers [usize_u64 (length entries)] ++ flat_map blist entries.

Definition neuron_record (n : NeuronRecord) : list u8 := integers [focus n; karma n; stake n; nonce n].

Definition location_record (l : LocationRecord) : list u8 :=
  blist (to_le_bytes 4 (of_Z 32 (sval (lat l)))) ++ blist (to_le_bytes 4 (of_Z 32 (sval (lon l)))).

Definition coin_record (c : CoinRecord) : list u8 := integers [total_supply c].

Definition card_record (c : CardRecord) : list u8 :=
  blist (c_owner c) ++ blist (c_particle c) ++ blist (c_author c) ++ [valence_byte (c_valence c)]
  ++ blist (to_le_bytes 8 (c_since c)).

Definition file_record (f : FileRecord) : list u8 :=
  of_Z 8 (if available f then 1 else 0) :: blist (to_le_bytes 4 (chunk_count f)).

Definition signal_record (s : SignalRecord) : list u8 :=
  blist (sr_neuron s) ++ blist (sr_network s) ++ blist (to_le_bytes 4 (sr_link_count s))
  ++ blist (to_le_bytes 8 (sr_block_height s)) ++ blist (sr_proof_hash s) ++ blist (to_le_bytes 8 (sr_step s)).

Definition intent_record (i : IntentRecord) : list u8 :=
  blist (ir_neuron i) ++ blist (to_le_bytes 8 (ir_h0 i)) ++ blist (ir_scope_hash i) ++ blist (ir_signature i).

Definition edge_record (e : Particle * Particle) : list u8 := blist e.1 ++ blist e.2.

Section Records.
  Context `{Nebu, Hemera, !Lens}.

Definition commitment_record (c : Goldilocks) : list u8 := integers [g_as_u64 c].

(** Reading the root flushes the state. *)
Definition metadata (b : Bbg) : option (list u8 * Bbg) :=
  '(root, s) ← compute_root (bbg_state b);
  let b := mkBbg s (checkpoint b) (prune_config b) (prune_state b) in
  Some (blist (to_le_bytes 4 (of_Z 32 1)) ++ blist (to_le_bytes 8 (height s)) ++ blist root
        ++ blist (to_le_bytes 8 (cp_height (checkpoint b))) ++ blist (cp_root (checkpoint b))
        ++ (match diameter_override s with
            | Some diameter => of_Z 8 1 :: blist (to_le_bytes 8 diameter)
            | None => [of_Z 8 0]
            end)
        ++ blist (to_le_bytes 8 (max_bytes (prune_config b))) ++ [rank_floor_pct (prune_config b)]
        ++ blist (to_le_bytes 8 (half_life_epochs (prune_config b))), b).

(** The records of one dimension, in key order. *)
Definition stream {K V} `{Countable K, Ordered K} (domain : Z) (entity : K -> list u8) (value : V -> list u8)
    (m : gmap K V) : list StateRecord :=
  map (fun e => mkStateRecord (record_key (of_Z 8 domain) (entity e.1)) (value e.2)) (btree_iter m).

(** [records]: the streams in domain order; the metadata is built when the iterator is. *)
Definition records_of (b : Bbg) : option (result TransitionError (list StateRecord) * Bbg) :=
  match acc (checkpoint b) with
  | Some _ => Some (Err CheckpointHasProof, b)
  | None =>
      '(meta, b) ← metadata b;
      let s := bbg_state b in
      Some (Ok (mkStateRecord (record_key (of_Z 8 0) []) meta
        :: stream 1 blist particle_record (k_map (particles s))
        ++ stream 2 blist adjacency_record (ai_map (axons_out s))
        ++ stream 3 blist adjacency_record (ai_map (axons_in s))
        ++ stream 4 blist neuron_record (k_map (neurons s))
        ++ stream 5 blist location_record (k_map (locations s))
        ++ stream 6 blist coin_record (k_map (coins s))
        ++ stream 7 blist card_record (k_map (records (cards s)))
        ++ stream 8 blist file_record (k_map (files s))
        ++ stream 9 (to_be_bytes 8) blist (k_map (time s))
        ++ stream 10 blist signal_record (k_map (signals s))
        ++ stream 11 blist commitment_record (k_map (commitments s))
        ++ stream 12 blist (fun _ : unit => []) (k_map (nullifiers s))
        ++ stream 13 blist (fun v : u64 => integers [v]) (k_map (balances s))
        ++ stream 14 blist intent_record (intents s)
        ++ stream 15 blist edge_record (axon_edges s)
        ++ stream 16 blist (fun v : u64 => integers [v]) (last_touched (prune_state b))), b)
  end.

(** [read]: the record at an address selected by a preparation. *)
Definition entity_key (key : list u8) : option (bytes 32) := try_into 32 (drop 1 key).
Definition position_key (key : list u8) : option u64 :=
  k ← try_into 8 (drop 1 key); Some (from_be_bytes 64 (blist k)).

Definition read_record (b : Bbg) (key : list u8) : option (option (list u8) * Bbg) :=
  let s := bbg_state b in
  domain ← head key;
  let get {V} (m : gmap (bytes 32) V) (enc : V -> list u8) :=
    k ← entity_key key; Some (enc <$> m !! k, b) in
  match uval domain with
  | 0 => '(m, b) ← metadata b; Some (Some m, b)
  | 1 => get (k_map (particles s)) particle_record
  | 2 => get (ai_map (axons_out s)) adjacency_record
  | 3 => get (ai_map (axons_in s)) adjacency_record
  | 4 => get (k_map (neurons s)) neuron_record
  | 9 => h ← position_key key; Some (blist <$> k_map (time s) !! h, b)
  | 10 => get (k_map (signals s)) signal_record
  | 11 => get (k_map (commitments s)) commitment_record
  | 12 => get (k_map (nullifiers s)) (fun _ : unit => [])
  | 13 => get (k_map (balances s)) (fun v : u64 => integers [v])
  | 14 => get (intents s) intent_record
  | 15 => get (axon_edges s) edge_record
  | 16 => get (last_touched (prune_state b)) (fun v : u64 => integers [v])
  | _ => None
  end.

End Records.
