(* ===== verification/Undo.v ===== *)
(** * The bounded undo log (rs/src/transition/undo.rs)

    The values a preparation saves before it changes their addresses, the decoder of its own
    snapshots, and the restoration of a state. [None] is a panic. *)

From S2P Require Import Prelude.
From S2P Require Import Crypto.
From S2P Require Import Trie.
From S2P Require Import Keyed.
From S2P Require Import AxonIndex.
From S2P Require Import Types.
From S2P Require Import Cards.
From S2P Require Import State.
From S2P Require Import StateSpec.
From S2P Require Import StateRoot.
From S2P Require Import Prune.
From S2P Require Import Ledger.
From S2P Require Import Facade.
From S2P Require Import Records.

Local Open Scope Z_scope.

(** The limits of transition/mod.rs. *)
Definition MAX_KEYS : Z := 65536.
Definition MAX_BYTES : Z := 8 * 1024 * 1024.
Definition MAX_EVENTS : Z := 64.

(** ** The reader of a snapshot: what it takes, and the rest *)

Definition reader_array (n : nat) (r : list u8) : option (bytes n * list u8) :=
  if (length r <? n)%nat then None else a ← try_into n (take n r); Some (a, drop n r).

Definition reader_u64 (r : list u8) : option (u64 * list u8) :=
  '(a, r) ← reader_array 8 r; Some (from_le_bytes 64 (blist a), r).

Definition reader_u32 (r : list u8) : option (u32 * list u8) :=
  '(a, r) ← reader_array 4 r; Some (from_le_bytes 32 (blist a), r).

Fixpoint reader_arrays (n : nat) (r : list u8) : option (list (bytes 32) * list u8) :=
  match n with
  | O => Some ([], r)
  | S n => '(a, r) ← reader_array 32 r; '(l, r) ← reader_arrays n r; Some (a :: l, r)
  end.

Definition decode_particle (r : list u8) : option ParticleRecord :=
  '(energy, r) ← reader_u64 r;
  '(pi_star, r) ← reader_u64 r;
  '(weight, r) ← reader_u64 r;
  '(s_yes, r) ← reader_u64 r;
  '(s_no, r) ← reader_u64 r;
  '(meta_score, r) ← reader_u64 r;
  Some (mkParticleRecord energy pi_star weight s_yes s_no meta_score).

Definition decode_adjacency (r : list u8) : option (list Particle) :=
  '(n, r) ← reader_u64 r;
  '(l, r) ← reader_arrays (Z.to_nat (uval n)) r;
  Some l.

Definition decode_neuron (r : list u8) : option NeuronRecord :=
  '(focus, r) ← reader_u64 r;
  '(karma, r) ← reader_u64 r;
  '(stake, r) ← reader_u64 r;
  '(nonce, r) ← reader_u64 r;
  Some (mkNeuronRecord focus karma stake nonce).

Definition decode_signal (r : list u8) : option SignalRecord :=
  '(neuron, r) ← reader_array 32 r;
  '(network, r) ← reader_array 32 r;
  '(link_count, r) ← reader_u32 r;
  '(block_height, r) ← reader_u64 r;
  '(proof_hash, r) ← reader_array 32 r;
  '(step, r) ← reader_u64 r;
  Some (mkSignalRecord neuron network link_count block_height proof_hash step).

Definition decode_intent (r : list u8) : option IntentRecord :=
  '(neuron, r) ← reader_array 32 r;
  '(h0, r) ← reader_u64 r;
  '(scope_hash, r) ← reader_array 32 r;
  '(signature, r) ← reader_array 64 r;
  Some (mkIntentRecord neuron h0 scope_hash signature).

Definition decode_edge (r : list u8) : option (Particle * Particle) :=
  '(from, r) ← reader_array 32 r;
  '(to, r) ← reader_array 32 r;
  Some (from, to).

Definition decode_array (r : list u8) : option Particle := '(a, r) ← reader_array 32 r; Some a.
Definition decode_u64 (r : list u8) : option u64 := '(v, r) ← reader_u64 r; Some v.

Section Undo.
  Context `{Nebu, Hemera, !Lens}.

Definition decode_commitment (r : list u8) : option Goldilocks := '(v, r) ← reader_u64 r; Some (g_new v).

(** ** The log *)

Record Undo := mkUndo {
  undo_values : gmap (list u8) (option (list u8));
  undo_bytes : Z;
  undo_height : u64;
  undo_checkpoint_root : Particle;
  undo_checkpoint_height : u64;
}.

Definition undo_new (b : Bbg) : Undo :=
  mkUndo ∅ 0 (height (bbg_state b)) (cp_root (checkpoint b)) (cp_height (checkpoint b)).

(** [bounded_read]: an adjacency list too long for the log is an error. *)
Definition bounded_read (b : Bbg) (key : list u8)
    : option (result TransitionError (option (list u8)) * Bbg) :=
  domain ← head key;
  too_long ← (if (uval domain =? 2) || (uval domain =? 3) then
                entity ← entity_key key;
                let adjacency := if uval domain =? 2 then axons_out (bbg_state b) else axons_in (bbg_state b) in
                Some (match ai_map adjacency !! entity with
                      | Some l => (MAX_BYTES - 8) / 32 <? Z.of_nat (length l)
                      | None => false
                      end)
              else Some false);
  if too_long : bool then Some (Err (Limit "adjacency bytes"), b)
  else '(v, b) ← read_record b key; Some (Ok v, b).

Definition value_len (v : option (list u8)) : Z := Z.of_nat (length (from_option Datatypes.id [] v)).

(** [capture]: the first value of a key, within the limits of the log. *)
Definition capture (u : Undo) (b : Bbg) (key : list u8) : option (result TransitionError unit * (Undo * Bbg)) :=
  match undo_values u !! key with
  | Some _ => Some (Ok tt, (u, b))
  | None =>
      if Z.of_nat (size (undo_values u)) =? MAX_KEYS then Some (Err (Limit "undo keys"), (u, b))
      else
        '(r, b) ← bounded_read b key;
        match r with
        | Err e => Some (Err e, (u, b))
        | Ok value =>
            let bytes := undo_bytes u + (Z.of_nat (length key) + value_len value) in
            let with_values values :=
              mkUndo values bytes (undo_height u) (undo_checkpoint_root u) (undo_checkpoint_height u) in
            if MAX_BYTES <? bytes then Some (Err (Limit "undo bytes"), (with_values (undo_values u), b))
            else Some (Ok tt, (with_values (<[key := value]> (undo_values u)), b))
        end
  end.

(** The [entry!] macro on a committed map, an adjacency index and a plain map. *)
Definition restore_keyed {K V} `{TrieKey K} (k : Keyed K V) (key : K) (value : option V) : Keyed K V :=
  match value with Some v => (keyed_insert k key v).2 | None => (keyed_remove k key).2 end.

Definition restore_axons (a : AxonIndex) (key : Particle) (value : option (list Particle)) : option AxonIndex :=
  match value with
  | Some l => '(_, a) ← axon_insert a key l; Some a
  | None => '(_, a) ← axon_remove a key; Some a
  end.

Definition restore_map {K V} `{Countable K} (m : gmap K V) (key : K) (value : option V) : gmap K V :=
  match value with Some v => <[key := v]> m | None => delete key m end.

(** The decoded value of a snapshot, [None] inside for an absent record. *)
Definition decoded {A} (decode : list u8 -> option A) (value : option (list u8)) : option (option A) :=
  match value with
  | None => Some None
  | Some r => v ← decode r; Some (Some v)
  end.

Definition restore (b : Bbg) (key : list u8) (value : option (list u8)) : option Bbg :=
  let s := bbg_state b in
  let with_state s := mkBbg s (checkpoint b) (prune_config b) (prune_state b) in
  domain ← head key;
  match uval domain with
  | 0 => Some b
  | 1 => k ← entity_key key; v ← decoded decode_particle value;
         Some (with_state (set_particles s (restore_keyed (particles s) k v)))
  | 2 => k ← entity_key key; v ← decoded decode_adjacency value;
         a ← restore_axons (axons_out s) k v; Some (with_state (set_axons_out s a))
  | 3 => k ← entity_key key; v ← decoded decode_adjacency value;
         a ← restore_axons (axons_in s) k v; Some (with_state (set_axons_in s a))
  | 4 => k ← entity_key key; v ← decoded decode_neuron value;
         Some (with_state (set_neurons s (restore_keyed (neurons s) k v)))
  | 9 => h ← position_key key; v ← decoded decode_array value;
         Some (with_state (set_time s (restore_keyed (time s) h v)))
  | 10 => k ← entity_key key; v ← decoded decode_signal value;
          Some (with_state (set_signals s (restore_keyed (signals s) k v)))
  | 11 => k ← entity_key key; v ← decoded decode_commitment value;
          Some (with_state (set_commitments s (restore_keyed (commitments s) k v)))
  | 12 => k ← entity_key key;
          Some (with_state (set_nullifiers s (restore_keyed (nullifiers s) k ((fun _ => tt) <$> value))))
  | 13 => k ← entity_key key; v ← decoded decode_u64 value;
          Some (with_state (set_balances s (restore_keyed (balances s) k v)))
  | 14 => k ← entity_key key; v ← decoded decode_intent value;
          Some (with_state (set_intents s (restore_map (intents s) k v)))
  | 15 => k ← entity_key key; v ← decoded decode_edge value;
          Some (with_state (set_axon_edges s (restore_map (axon_edges s) k v)))
  | 16 => k ← entity_key key; v ← decoded decode_u64 value;
          Some (mkBbg s (checkpoint b) (prune_config b)
                  (mkPruneState (restore_map (last_touched (prune_state b)) k v)))
  | _ => None
  end.

(** [Undo::restore]. *)
Definition undo_restore (u : Undo) (b : Bbg) : option Bbg :=
  b ← fold_m (fun b e => restore b e.1 e.2) b (btree_iter (undo_values u));
  let s := set_height (bbg_state b) (undo_height u) in
  let c := mkCheckpoint (undo_checkpoint_root u) (acc (checkpoint b)) (undo_checkpoint_height u) in
  '(_, s) ← compute_root s;
  Some (mkBbg s c (prune_config b) (prune_state b)).

End Undo.
