(* ===== verification/UndoSpec.v ===== *)
(** * What the undo log restores

    Addresses of the state and the record at each, the round trips of the snapshot decoder, and
    the exactness of a restoration: a state that agrees with an earlier one outside a log is that
    state again once the log is restored. *)

From S2P Require Import Prelude.
From S2P Require Import Crypto.
From S2P Require Import Trie.
From S2P Require Import Keyed.
From S2P Require Import AxonIndex.
From S2P Require Import Types.
From S2P Require Import Cards.
From S2P Require Import State.
From S2P Require Import StateSpec.
From S2P Require Import StateRoot.
From S2P Require Import Prune.
From S2P Require Import Ledger.
From S2P Require Import Facade.
From S2P Require Import Records.
From S2P Require Import Undo.

Local Open Scope Z_scope.

(** The element its own representative names: what [Goldilocks::new] answers. *)
Class StableLaws `{Nebu} : Prop := {
  g_new_stable v : g_new (g_as_u64 (g_new v)) = g_new v;
}.

(** ** Round trips of the decoder *)

Lemma reader_array_app {n} (a : bytes n) r : reader_array n (blist a ++ r) = Some (a, r).
Proof.
  unfold reader_array. rewrite length_app, length_blist, (proj2 (Nat.ltb_ge _ _)) by lia.
  rewrite take_app_length', drop_app_length', try_into_blist by (symmetry; apply length_blist). done.
Qed.

Lemma reader_u64_app (v : u64) r : reader_u64 (blist (to_le_bytes 8 v) ++ r) = Some (v, r).
Proof.
  unfold reader_u64. rewrite reader_array_app. cbn [mbind option_bind].
  by rewrite (from_to_le_bytes 8 64 v).
Qed.

Lemma reader_u32_app (v : u32) r : reader_u32 (blist (to_le_bytes 4 v) ++ r) = Some (v, r).
Proof.
  unfold reader_u32. rewrite reader_array_app. cbn [mbind option_bind].
  by rewrite (from_to_le_bytes 4 32 v).
Qed.

Lemma reader_arrays_app (l : list (bytes 32)) r : reader_arrays (length l) (flat_map blist l ++ r) = Some (l, r).
Proof.
  induction l as [|a l IH]; [done|]. cbn [length reader_arrays flat_map]. rewrite <- app_assoc, reader_array_app.
  cbn [mbind option_bind]. rewrite IH. done.
Qed.

Lemma integers_cons v l : integers (v :: l) = blist (to_le_bytes 8 v) ++ integers l.
Proof. done. Qed.

Lemma app_nil_intro {A} (l : list A) : l = l ++ [].
Proof. by rewrite app_nil_r. Qed.

(** Reads the fields of an encoding one after the other. *)
Ltac read_fields :=
  repeat first
    [ rewrite integers_cons
    | rewrite reader_u64_app | rewrite reader_u32_app | rewrite reader_array_app | rewrite <- app_assoc
    | progress cbn [mbind option_bind] ].

Lemma decode_particle_ok p : decode_particle (particle_record p) = Some p.
Proof. unfold decode_particle, particle_record. read_fields. by destruct p. Qed.

Lemma decode_neuron_ok n : decode_neuron (neuron_record n) = Some n.
Proof. unfold decode_neuron, neuron_record. read_fields. by destruct n. Qed.

Lemma decode_adjacency_ok l : Z.of_nat (length l) < 2 ^ 64 -> decode_adjacency (adjacency_record l) = Some l.
Proof.
  intros Hl. unfold decode_adjacency, adjacency_record. read_fields. cbn [integers flat_map app].
  unfold usize_u64. rewrite uval_of_Z_small by (simpl Z.of_N; lia). rewrite Nat2Z.id.
  rewrite (app_nil_intro (flat_map blist l)), reader_arrays_app. done.
Qed.

Lemma decode_signal_ok s : decode_signal (signal_record s) = Some s.
Proof.
  unfold decode_signal, signal_record. rewrite (app_nil_intro (blist (to_le_bytes 8 (sr_step s)))).
  read_fields. by destruct s.
Qed.

Lemma decode_intent_ok i : decode_intent (intent_record i) = Some i.
Proof.
  unfold decode_intent, intent_record. rewrite (app_nil_intro (blist (ir_signature i))).
  read_fields. by destruct i.
Qed.

Lemma decode_edge_ok e : decode_edge (edge_record e) = Some e.
Proof.
  unfold decode_edge, edge_record. rewrite (app_nil_intro (blist e.2)). read_fields. by destruct e.
Qed.

Lemma decode_array_ok (p : Particle) : decode_array (blist p) = Some p.
Proof. unfold decode_array. rewrite (app_nil_intro (blist p)). by read_fields. Qed.

Lemma decode_u64_ok v : decode_u64 (integers [v]) = Some v.
Proof. unfold decode_u64. by read_fields. Qed.

Lemma decoded_ok {A} (decode : list u8 -> option A) (encode : A -> list u8) (o : option A) :
  (forall v, o = Some v -> decode (encode v) = Some v) -> decoded decode (encode <$> o) = Some o.
Proof. destruct o as [v|]; cbn [decoded fmap option_fmap option_map]; intros Hv; [by rewrite Hv|done]. Qed.

(** ** Addresses *)

Inductive Addr :=
| AMeta
| AParticle (k : Particle) | AOut (k : Particle) | AIn (k : Particle) | ANeuron (k : NeuronId)
| ATime (h : u64) | ASignal (k : Particle) | ACommitment (k : bytes 32) | ANullifier (k : bytes 32)
| ABalance (k : bytes 32) | AIntent (k : Particle) | AEdge (k : Particle) | ATouched (k : Particle).

#[export] Instance addr_eq_dec : EqDecision Addr.
Proof. solve_decision. Defined.

Definition addr_domain (a : Addr) : Z :=
  match a with
  | AMeta => 0 | AParticle _ => 1 | AOut _ => 2 | AIn _ => 3 | ANeuron _ => 4 | ATime _ => 9 | ASignal _ => 10
  | ACommitment _ => 11 | ANullifier _ => 12 | ABalance _ => 13 | AIntent _ => 14 | AEdge _ => 15 | ATouched _ => 16
  end.

Definition addr_entity (a : Addr) : list u8 :=
  match a with
  | AMeta => []
  | ATime h => to_be_bytes 8 h
  | AParticle k | AOut k | AIn k | ANeuron k | ASignal k | ACommitment k | ANullifier k | ABalance k
  | AIntent k | AEdge k | ATouched k => blist k
  end.

Definition addr_key (a : Addr) : list u8 := record_key (of_Z 8 (addr_domain a)) (addr_entity a).

Lemma addr_domain_val a : uval (of_Z 8 (addr_domain a)) = addr_domain a.
Proof. by destruct a. Qed.

Lemma addr_key_domain a b : addr_key a = addr_key b -> addr_domain a = addr_domain b.
Proof.
  intros E. rewrite <- (addr_domain_val a), <- (addr_domain_val b).
  exact (f_equal (fun k : list u8 => uval (hd (of_Z 8 0) k)) E).
Qed.

#[export] Instance addr_key_inj : Inj (=) (=) addr_key.
Proof.
  intros a b E. pose proof (addr_key_domain _ _ E) as Ed. apply (f_equal (@tl u8)) in E.
  cbn [addr_key record_key tl] in E. destruct a, b; try discriminate Ed; cbn [addr_entity] in E; try done; try (f_equal; by apply bytes_eq).
  f_equal. rewrite <- (from_to_be_bytes 8 64 h), <- (from_to_be_bytes 8 64 h0) by done. by rewrite E.
Qed.

Lemma entity_key_ok domain (k : bytes 32) : entity_key (record_key domain (blist k)) = Some k.
Proof. unfold entity_key, record_key. apply try_into_blist. Qed.

Lemma position_key_ok domain (h : u64) : position_key (record_key domain (to_be_bytes 8 h)) = Some h.
Proof.
  change (position_key (record_key domain (to_be_bytes 8 h)))
    with (k ← try_into 8 (to_be_bytes 8 h); Some (from_be_bytes 64 (blist k))).
  destruct (try_into 8 (to_be_bytes 8 h)) as [k|] eqn:E.
  - apply try_into_Some in E. change (Some (from_be_bytes 64 (blist k)) = Some h). f_equal.
    transitivity (from_be_bytes 64 (to_be_bytes 8 h)); [by f_equal|by apply (from_to_be_bytes 8 64 h)].
  - apply try_into_None in E. by rewrite length_to_be_bytes in E.
Qed.

Section UndoSpec.
  Context `{Nebu, Hemera, !Lens}.

Definition meta_bytes (cfg : PruneConfig) (f : FView) : list u8 :=
  let v := f_view f in
  blist (to_le_bytes 4 (of_Z 32 1)) ++ blist (to_le_bytes 8 (v_height v)) ++ blist (view_root v)
  ++ blist (to_le_bytes 8 (f_height f)) ++ blist (f_root f)
  ++ (match v_diameter_override v with
      | Some diameter => of_Z 8 1 :: blist (to_le_bytes 8 diameter)
      | None => [of_Z 8 0]
      end)
  ++ blist (to_le_bytes 8 (max_bytes cfg)) ++ [rank_floor_pct cfg] ++ blist (to_le_bytes 8 (half_life_epochs cfg)).

(** The record at an address. *)
Definition cell (cfg : PruneConfig) (f : FView) (a : Addr) : option (list u8) :=
  let v := f_view f in
  match a with
  | AMeta => Some (meta_bytes cfg f)
  | AParticle k => particle_record <$> v_particles v !! k
  | AOut k => adjacency_record <$> v_axons_out v !! k
  | AIn k => adjacency_record <$> v_axons_in v !! k
  | ANeuron k => neuron_record <$> v_neurons v !! k
  | ATime h => blist <$> v_time v !! h
  | ASignal k => signal_record <$> v_signals v !! k
  | ACommitment k => commitment_record <$> v_commitments v !! k
  | ANullifier k => (fun _ => []) <$> v_nullifiers v !! k
  | ABalance k => (fun b : u64 => integers [b]) <$> v_balances v !! k
  | AIntent k => intent_record <$> v_intents v !! k
  | AEdge k => edge_record <$> v_axon_edges v !! k
  | ATouched k => (fun e : u64 => integers [e]) <$> last_touched (f_touched f) !! k
  end.

(** Two states hold the same at an address. The metadata is not restored from the log. *)
Definition agree (f g : FView) (a : Addr) : Prop :=
  let v := f_view f in
  let u := f_view g in
  match a with
  | AMeta => True
  | AParticle k => v_particles v !! k = v_particles u !! k
  | AOut k => v_axons_out v !! k = v_axons_out u !! k
  | AIn k => v_axons_in v !! k = v_axons_in u !! k
  | ANeuron k => v_neurons v !! k = v_neurons u !! k
  | ATime h => v_time v !! h = v_time u !! h
  | ASignal k => v_signals v !! k = v_signals u !! k
  | ACommitment k => v_commitments v !! k = v_commitments u !! k
  | ANullifier k => v_nullifiers v !! k = v_nullifiers u !! k
  | ABalance k => v_balances v !! k = v_balances u !! k
  | AIntent k => v_intents v !! k = v_intents u !! k
  | AEdge k => v_axon_edges v !! k = v_axon_edges u !! k
  | ATouched k => last_touched (f_touched f) !! k = last_touched (f_touched g) !! k
  end.

#[export] Instance agree_refl a : Reflexive (fun f g => agree f g a).
Proof. intros f. by destruct a. Qed.

#[export] Instance agree_trans a : Transitive (fun f g => agree f g a).
Proof. intros f g h. destruct a; simpl; congruence. Qed.

Lemma agree_cell cfg f g a : agree f g a -> a <> AMeta -> cell cfg f a = cell cfg g a.
Proof. destruct a; simpl; try done; intros -> _; done. Qed.

(** What no transition touches. *)
Record same_frame (f g : FView) : Prop := {
  sf_locations : v_locations (f_view f) = v_locations (f_view g);
  sf_coins : v_coins (f_view f) = v_coins (f_view g);
  sf_cards : v_cards (f_view f) = v_cards (f_view g);
  sf_files : v_files (f_view f) = v_files (f_view g);
  sf_diameter : v_diameter_override (f_view f) = v_diameter_override (f_view g);
  sf_version : v_root_version (f_view f) = v_root_version (f_view g);
}.

#[export] Instance same_frame_refl : Reflexive same_frame.
Proof. done. Qed.
#[export] Instance same_frame_trans : Transitive same_frame.
Proof. intros f g h [] []. split; congruence. Qed.

(** A state that agrees with another everywhere is that state, up to its scalars. *)
Definition with_scalars (f g : FView) : FView :=
  mkFView (put_height (f_view f) (v_height (f_view g))) (f_touched f) (f_root g) (f_height g).

Lemma fview_ext f g : same_frame f g -> (forall a, agree f g a) -> with_scalars f g = g.
Proof.
  intros [E1 E2 E3 E4 E5 E6] Ha. destruct f as [v t r h], g as [u t' r' h'].
  unfold with_scalars. cbn [f_view f_touched f_root f_height] in *.
  assert (t = t') as ->.
  { destruct t, t'. f_equal. apply map_eq. intros k. apply (Ha (ATouched k)). }
  f_equal. destruct v, u. unfold put_height. cbn in *. subst.
  f_equal; apply map_eq; intros k;
    first [apply (Ha (AParticle k)) | apply (Ha (AOut k)) | apply (Ha (AIn k)) | apply (Ha (ANeuron k))
          | apply (Ha (ATime k)) | apply (Ha (ASignal k)) | apply (Ha (ACommitment k)) | apply (Ha (ANullifier k))
          | apply (Ha (ABalance k)) | apply (Ha (AIntent k)) | apply (Ha (AEdge k))].
Qed.

(** Moving one address of [g] into [f]. *)
Definition on_view (h : View -> View) (f : FView) : FView :=
  mkFView (h (f_view f)) (f_touched f) (f_root f) (f_height f).

Definition put_at {K V} `{Countable K} (k : K) (o : option V) (m : gmap K V) : gmap K V :=
  partial_alter (fun _ => o) k m.

Definition copy_cell (f g : FView) (a : Addr) : FView :=
  let u := f_view g in
  match a with
  | AMeta => f
  | AParticle k => on_view (fun v => put_particles v (put_at k (v_particles u !! k) (v_particles v))) f
  | AOut k => on_view (fun v => put_axons_out v (put_at k (v_axons_out u !! k) (v_axons_out v))) f
  | AIn k => on_view (fun v => put_axons_in v (put_at k (v_axons_in u !! k) (v_axons_in v))) f
  | ANeuron k => on_view (fun v => put_neurons v (put_at k (v_neurons u !! k) (v_neurons v))) f
  | ATime h => on_view (fun v => put_time v (put_at h (v_time u !! h) (v_time v))) f
  | ASignal k => on_view (fun v => put_signals v (put_at k (v_signals u !! k) (v_signals v))) f
  | ACommitment k => on_view (fun v => put_commitments v (put_at k (v_commitments u !! k) (v_commitments v))) f
  | ANullifier k => on_view (fun v => put_nullifiers v (put_at k (v_nullifiers u !! k) (v_nullifiers v))) f
  | ABalance k => on_view (fun v => put_balances v (put_at k (v_balances u !! k) (v_balances v))) f
  | AIntent k => on_view (fun v => put_intents v (put_at k (v_intents u !! k) (v_intents v))) f
  | AEdge k => on_view (fun v => put_axon_edges v (put_at k (v_axon_edges u !! k) (v_axon_edges v))) f
  | ATouched k => mkFView (f_view f)
      (mkPruneState (put_at k (last_touched (f_touched g) !! k) (last_touched (f_touched f)))) (f_root f) (f_height f)
  end.

Lemma lookup_put_at {K V} `{Countable K} (k k' : K) (o : option V) m :
  put_at k o m !! k' = if decide (k' = k) then o else m !! k'.
Proof.
  unfold put_at. case_decide as Hk; [subst; apply lookup_partial_alter_eq|].
  by apply lookup_partial_alter_ne.
Qed.

Lemma copy_cell_agree f g a b : b = a \/ agree f g b -> agree (copy_cell f g a) g b.
Proof.
  intros Hb. destruct a, b; simpl; try done; try (destruct Hb as [|]; done);
    rewrite lookup_put_at; case_decide as Hk; subst; try done; destruct Hb as [E|]; try done; by injection E as ->.
Qed.

Lemma copy_cell_frame f g a : same_frame (copy_cell f g a) f.
Proof. by destruct a. Qed.

(** ** Reading an address *)

Section Laws.
  Context `{!CryptoLaws, !StableLaws}.

Lemma bbg_rep_state b f cfg n w s :
  BbgRep b f cfg n w -> StateRep s (f_view f) w ->
  BbgRep (mkBbg s (checkpoint b) (prune_config b) (prune_state b)) f cfg n w.
Proof. intros [] Hs. by split. Qed.

Lemma metadata_ok b f cfg n w :
  BbgRep b f cfg n w -> w <= 2 ^ 32 -> exists b', metadata b = Some (meta_bytes cfg f, b') /\ BbgRep b' f cfg n w.
Proof.
  intros Hb Hw. pose proof Hb as [Hs _ Hc Hcp Hv _ _].
  destruct (compute_root_ok _ _ _ Hs Hw Hv) as (s & Er & Hs'). unfold metadata. rewrite Er. cbn [mbind option_bind].
  eexists. split; [|by eapply bbg_rep_state]. cbn [checkpoint prune_config]. rewrite Hcp, Hc. cbn [cp_height cp_root].
  unfold meta_bytes. by rewrite (sr_height _ _ _ Hs'), (sr_diameter_override _ _ _ Hs').
Qed.

Lemma read_record_ok b f cfg n w a :
  BbgRep b f cfg n w -> w <= 2 ^ 32 ->
  exists b', read_record b (addr_key a) = Some (cell cfg f a, b') /\ BbgRep b' f cfg n w.
Proof.
  intros Hb Hw. pose proof Hb as [[] Ht _ _ _ _ _]. unfold addr_key.
  destruct a; unfold read_record; cbn [head record_key mbind option_bind hd_error];
    [|exists b; split; [|exact Hb]..].
  1: { destruct (metadata_ok b f cfg n w Hb Hw) as (b' & E & Hb'). exists b'. split; [|done].
       cbn -[metadata]. by rewrite E. }
  all: rewrite addr_domain_val; cbn [addr_domain addr_entity]; rewrite ?(entity_key_ok (of_Z 8 _)), ?(position_key_ok (of_Z 8 _));
    cbn [mbind option_bind cell]; do 4 f_equal;
    first [eapply kr_map; eassumption | eapply ar_map; eassumption | assumption | by rewrite Ht].
Qed.

(** ** Restoring an address *)

Definition list_max : Z := (MAX_BYTES - 8) / 32.

(** The list at an address is short enough for the log. *)
Definition fits (f : FView) (a : Addr) : Prop :=
  match a with
  | AOut k => forall l, v_axons_out (f_view f) !! k = Some l -> Z.of_nat (length l) <= list_max
  | AIn k => forall l, v_axons_in (f_view f) !! k = Some l -> Z.of_nat (length l) <= list_max
  | _ => True
  end.

(** Commitments are elements their representatives name. *)
Definition stable_commitments (f : FView) : Prop :=
  map_Forall (fun _ c => g_new (g_as_u64 c) = c) (v_commitments (f_view f)).

Record restorable (f : FView) : Prop := {
  rs_out : map_Forall (fun _ l => list_ok l) (v_axons_out (f_view f));
  rs_in : map_Forall (fun _ l => list_ok l) (v_axons_in (f_view f));
  rs_stable : stable_commitments f;
}.

(** The part of [BbgRep] that survives while records are put back one by one. *)
Record BRep (b : Bbg) (f : FView) (w : Z) : Prop := {
  bp_state : StateRep (bbg_state b) (f_view f) w;
  bp_touched : prune_state b = f_touched f;
}.

Lemma restore_keyed_ok {K V} `{TrieKey K} `{!LeafValue V} (k : Keyed K V) m w key (o : option V) :
  KeyedRep k m w -> KeyedRep (restore_keyed k key o) (put_at key o m) (w + 2).
Proof. intros Hk. destruct o as [v|]; [by apply keyed_rep_insert | by apply keyed_rep_remove]. Qed.

Lemma first_occ_id seen (l : list Particle) : NoDup l -> (forall x, x ∈ l -> x ∉ seen) -> first_occ seen l = l.
Proof.
  intros Hn. revert seen. induction Hn as [|x l Hx Hn IH]; intros seen Hs; [done|]. simpl.
  rewrite decide_False by (apply Hs; constructor). f_equal. apply IH.
  intros y Hy. rewrite elem_of_app, list_elem_of_singleton. intros [Hy'| ->]; [|done].
  by apply (Hs y); [constructor|].
Qed.

Lemma restore_axons_ok a m w key (o : option (list Particle)) :
  AxonRep a m w -> w + 4 <= 2 ^ 32 ->
  (forall l, o = Some l -> list_ok l /\ 2 * Z.of_nat (length l) <= w + 4) ->
  exists a', restore_axons a key o = Some a' /\ AxonRep a' (put_at key o m) (w + 4).
Proof.
  intros Ha Hw Ho. destruct o as [l|]; simpl.
  - destruct (Ho l eq_refl) as ([Hne Hn] & Hl). destruct (axon_insert_ok a m w key l Ha Hw Hl) as (a' & -> & Ha').
    cbn [mbind option_bind]. exists a'. split; [done|]. rewrite first_occ_id in Ha'; [by destruct l|done|].
    intros x _. apply not_elem_of_nil.
  - destruct (axon_remove_ok a m w key Ha) as (a' & -> & Ha' & _). cbn [mbind option_bind].
    exists a'. split; [done|]. eapply axon_rep_weaken, Ha'. lia.
Qed.

Lemma restorable_lists f w b : StateRep b (f_view f) w -> stable_commitments f -> restorable f.
Proof. intros [] Hs. split; [by eapply ar_lists..|done]. Qed.

(** What the log decodes at an address is what the state held there. *)
Lemma decoded_list (m : gmap Particle (list Particle)) k :
  (forall l, m !! k = Some l -> Z.of_nat (length l) <= list_max) ->
  decoded decode_adjacency (adjacency_record <$> m !! k) = Some (m !! k).
Proof.
  intros Hf. apply decoded_ok. intros l Hl. apply decode_adjacency_ok.
  specialize (Hf l Hl). unfold list_max, MAX_BYTES in Hf. vm_compute ((_ - _) / _) in Hf. lia.
Qed.

Lemma list_fits (m : gmap Particle (list Particle)) k w :
  map_Forall (fun _ l => list_ok l) m -> (forall l, m !! k = Some l -> Z.of_nat (length l) <= list_max) ->
  2 ^ 19 <= w -> forall l, m !! k = Some l -> list_ok l /\ 2 * Z.of_nat (length l) <= w + 4.
Proof.
  intros Hok Hf Hw l Hl. split; [by apply (Hok k)|]. specialize (Hf l Hl).
  unfold list_max, MAX_BYTES in Hf. vm_compute ((_ - _) / _) in Hf. lia.
Qed.

(** Rewrites the snapshot of an address to the record it was taken of. *)
Ltac decode_cell :=
  first [ rewrite (decoded_ok _ particle_record) by (intros; apply decode_particle_ok)
        | rewrite (decoded_ok _ neuron_record) by (intros; apply decode_neuron_ok)
        | rewrite (decoded_ok _ (@blist 32)) by (intros; apply decode_array_ok)
        | rewrite (decoded_ok _ signal_record) by (intros; apply decode_signal_ok)
        | rewrite (decoded_ok _ (fun v : u64 => integers [v])) by (intros; apply decode_u64_ok)
        | rewrite (decoded_ok _ intent_record) by (intros; apply decode_intent_ok)
        | rewrite (decoded_ok _ edge_record) by (intros; apply decode_edge_ok)
        | idtac ].

Lemma decode_commitment_ok c : g_new (g_as_u64 c) = c -> decode_commitment (commitment_record c) = Some c.
Proof. intros Hc. unfold decode_commitment, commitment_record. read_fields. by rewrite Hc. Qed.

Lemma restore_map_put {K V} `{Countable K} (m : gmap K V) k o : restore_map m k o = put_at k o m.
Proof. by destruct o. Qed.

Lemma fmap_unit (o : option unit) : (fun _ : list u8 => tt) <$> ((fun _ => []) <$> o) = o.
Proof. by destruct o as [[]|]. Qed.

Lemma restore_ok cfg b f g w a :
  BRep b f w -> restorable g -> fits g a -> 2 ^ 19 <= w -> w + 4 <= 2 ^ 32 ->
  exists b', restore b (addr_key a) (cell cfg g a) = Some b' /\ BRep b' (copy_cell f g a) (w + 4)
    /\ checkpoint b' = checkpoint b /\ prune_config b' = prune_config b.
Proof.
  intros [Hs Ht] [Ho Hi Hc] Hf Hl Hw. pose proof (state_rep_weaken _ _ w (w + 4) ltac:(lia) Hs) as Hs4.
  assert (w + 2 <= w + 4) as H24 by lia. pose proof Hs as [].
  unfold restore, addr_key. destruct a; cbn [head record_key mbind option_bind hd_error];
    rewrite addr_domain_val; cbn [addr_domain addr_entity];
    rewrite ?(entity_key_ok (of_Z 8 _)), ?(position_key_ok (of_Z 8 _)); cbn [mbind option_bind cell]; decode_cell;
    cbn [mbind option_bind].
  all: try rewrite (decoded_list _ _ Hf); cbn [mbind option_bind].
  all: try (edestruct restore_axons_ok as (a' & -> & Ha'); [eassumption|exact Hw|by eapply list_fits|];
            cbn [mbind option_bind]).
  all: try rewrite (decoded_ok _ commitment_record) by (intros c Hk; apply decode_commitment_ok, (Hc _ _ Hk)).
  all: cbn [mbind option_bind]; rewrite ?fmap_unit, ?restore_map_put.
  all: eexists; split; [reflexivity|]; split; [|done]; split; [|first [done | by cbn; rewrite Ht]].
  all: destruct Hs4; split; try done; simpl; try (eapply keyed_rep_weaken, restore_keyed_ok; [exact H24|assumption]).
  all: congruence.
Qed.

(** ** Restoring a log *)

Definition is_saved (cfg : PruneConfig) (g : FView) (e : list u8 * option (list u8)) : Prop :=
  exists a, e.1 = addr_key a /\ e.2 = cell cfg g a /\ fits g a.

(** A log taken of [g]. *)
Record Saved (cfg : PruneConfig) (g : FView) (u : Undo) : Prop := {
  sv_values : map_Forall (fun key value => is_saved cfg g (key, value)) (undo_values u);
  sv_count : Z.of_nat (size (undo_values u)) <= MAX_KEYS;
  sv_height : undo_height u = v_height (f_view g);
  sv_root : undo_checkpoint_root u = f_root g;
  sv_cp_height : undo_checkpoint_height u = f_height g;
}.

Definition captured (u : Undo) (a : Addr) : Prop := is_Some (undo_values u !! addr_key a).

Lemma restores_ok cfg g l b f w :
  Forall (is_saved cfg g) l -> BRep b f w -> restorable g -> 2 ^ 19 <= w -> w + 4 * Z.of_nat (length l) <= 2 ^ 32 ->
  exists b' f', fold_m (fun b e => restore b e.1 e.2) b l = Some b' /\ BRep b' f' (w + 4 * Z.of_nat (length l))
    /\ same_frame f' f /\ checkpoint b' = checkpoint b /\ prune_config b' = prune_config b
    /\ forall a, addr_key a ∈ l.*1 \/ agree f g a -> agree f' g a.
Proof.
  intros Hall. revert b f w. induction Hall as [|[key val] l (a & Ek & Ev & Hf) _ IH]; intros b f w Hb Hg Hl Hw.
  { exists b, f. simpl. rewrite Z.add_0_r. split_and!; try done. by intros a [?%elem_of_nil|]. }
  simpl in Ek, Ev. subst key val. cbn [length] in Hw.
  destruct (restore_ok cfg b f g w a Hb Hg Hf Hl) as (b1 & E1 & Hb1 & C1 & P1); [lia|].
  destruct (IH b1 (copy_cell f g a) _ Hb1 Hg) as (b2 & f2 & E2 & Hb2 & Hfr & C2 & P2 & Ha); [lia..|].
  exists b2, f2. cbn [fold_m fst snd]. rewrite E1. cbn [mbind option_bind].
  replace (w + 4 * Z.of_nat (length ((addr_key a, cell cfg g a) :: l))) with (w + 4 + 4 * Z.of_nat (length l))
    by (cbn [length]; lia).
  split_and!; [done|done| |congruence..|].
  - etransitivity; [exact Hfr|]. apply copy_cell_frame.
  - intros c Hc. apply Ha. rewrite fmap_cons, elem_of_cons in Hc. cbn [fst] in Hc.
    destruct (decide (c = a)) as [->|Hne]; [right; apply copy_cell_agree; by left|].
    destruct Hc as [[E%(inj addr_key)|Hc]|Hc]; [done|by left|right; apply copy_cell_agree; by right].
Qed.

(** The cells a restoration may add to an arena. *)
Definition undo_room : Z := 2 ^ 20.

Lemma undo_restore_ok cfg b f g u w :
  BRep b f w -> acc (checkpoint b) = None -> Saved cfg g u -> restorable g -> same_frame f g ->
  v_root_version (f_view g) = V2 -> (forall a, captured u a \/ agree f g a) ->
  0 <= w -> w + undo_room <= 2 ^ 32 ->
  exists b', undo_restore u b = Some b' /\ StateRep (bbg_state b') (f_view g) (w + undo_room)
    /\ prune_state b' = f_touched g /\ prune_config b' = prune_config b
    /\ checkpoint b' = mkCheckpoint (f_root g) None (f_height g).
Proof.
  intros [Hs Ht] Hacc [Hval Hcount Hh Hr Hch] Hg Hfr Hv Hall Hpos Hw. unfold undo_restore, undo_room in *.
  assert (length (btree_iter (undo_values u)) = size (undo_values u)) as El by apply length_btree_iter.
  unfold MAX_KEYS in Hcount.
  destruct (restores_ok cfg g (btree_iter (undo_values u)) b f (w + 2 ^ 19)) as (b' & f' & E & [Hs' Ht'] & Hfr' & C' & P' & Ha).
  { apply Forall_forall. intros [key val] Hin%elem_of_btree_iter. by apply Hval. }
  { split; [eapply state_rep_weaken, Hs; lia|done]. }
  { done. } { lia. } { rewrite El. lia. }
  rewrite El in Hs'. rewrite E. cbn [mbind option_bind].
  assert (with_scalars f' g = g) as Eg.
  { apply fview_ext; [by etransitivity|]. intros a. apply Ha. destruct (Hall a) as [[val Hc]|Hc]; [left|by right].
    apply list_elem_of_fmap. exists (addr_key a, val). split; [done|]. by apply elem_of_btree_iter. }
  assert (f_touched f' = f_touched g) as Et by (by rewrite <- Eg).
  assert (put_height (f_view f') (v_height (f_view g)) = f_view g) as Ev by exact (f_equal f_view Eg).
  assert (StateRep (set_height (bbg_state b') (undo_height u)) (f_view g) (w + 2 ^ 20)) as Hs2.
  { rewrite <- Ev, Hh. apply (state_rep_weaken _ _ _ (w + 2 ^ 20)) in Hs'; [|lia]. destruct Hs'; by split. }
  destruct (compute_root_ok _ _ _ Hs2) as (s2 & -> & Hs3); [lia|done|]. cbn [mbind option_bind].
  eexists. split; [reflexivity|]. cbn [bbg_state prune_state prune_config checkpoint].
  rewrite C', Hacc, Hr, Hch. split_and!; [exact Hs3|by rewrite Ht'|done|done].
Qed.

(** ** Capturing an address *)

Lemma bounded_read_ok b f cfg n w a :
  BbgRep b f cfg n w -> w <= 2 ^ 32 ->
  exists r b', bounded_read b (addr_key a) = Some (r, b') /\ BbgRep b' f cfg n w
    /\ (r = Ok (cell cfg f a) /\ fits f a \/ exists e, r = Err e).
Proof.
  intros Hb Hw. destruct (read_record_ok b f cfg n w a Hb Hw) as (b' & E & Hb').
  assert (forall (too : bool), (too = false -> fits f a) ->
    exists r b', (if too then Some (Err (Limit "adjacency bytes"), b)
                  else '(v, b) ← read_record b (addr_key a); Some (Ok v, b)) = Some (r, b')
      /\ BbgRep b' f cfg n w /\ (r = Ok (cell cfg f a) /\ fits f a \/ exists e, r = Err e)) as Hgo.
  { intros [] Hf; [eexists _, _; split_and!; eauto|]. rewrite E. cbn [mbind option_bind]. eexists _, _.
    split_and!; [done|done|]. left. auto. }
  pose proof (br_state _ _ _ _ _ Hb) as Hs.
  unfold bounded_read. change (head (addr_key a)) with (Some (of_Z 8 (addr_domain a))). cbn [mbind option_bind].
  rewrite addr_domain_val.
  destruct a; cbn [addr_domain Z.eqb Pos.eqb orb mbind option_bind]; try (apply (Hgo false); done);
    unfold addr_key; cbn [addr_entity]; rewrite entity_key_ok; cbn [mbind option_bind]; apply Hgo; simpl; intros Hlt l Hl.
  - rewrite (ar_map _ _ _ (sr_axons_out _ _ _ Hs)), Hl in Hlt. apply Z.ltb_ge in Hlt. exact Hlt.
  - rewrite (ar_map _ _ _ (sr_axons_in _ _ _ Hs)), Hl in Hlt. apply Z.ltb_ge in Hlt. exact Hlt.
Qed.

Lemma capture_ok cfg g u b f n w a :
  BbgRep b f cfg n w -> w <= 2 ^ 32 -> Saved cfg g u ->
  captured u a \/ cell cfg f a = cell cfg g a /\ (fits f a -> fits g a) ->
  exists r u' b', capture u b (addr_key a) = Some (r, (u', b')) /\ BbgRep b' f cfg n w /\ Saved cfg g u'
    /\ (forall c, captured u c -> captured u' c) /\ (r = Ok tt -> captured u' a).
Proof.
  intros Hb Hw Hu Ha. pose proof Hu as [Hval Hcount Hh Hr Hch]. unfold capture.
  destruct (undo_values u !! addr_key a) as [val|] eqn:Ev.
  { eexists _, _, _. split_and!; [done..|]. intros _. by exists val. }
  destruct Ha as [[val Ha]|[Hc Hf]]; [congruence|].
  destruct (Z.eqb_spec (Z.of_nat (size (undo_values u))) MAX_KEYS) as [Hk|Hk]; [by eexists _, _, _|].
  destruct (bounded_read_ok b f cfg n w a Hb Hw) as (r & b' & -> & Hb' & Hrr). cbn [mbind option_bind].
  destruct Hrr as [[-> Hfits]|[e ->]]; [|by eexists _, _, _].
  case_match; eexists _, _, _; (split_and!; [done|done| | |]); try done.
  - split; cbn [undo_values undo_height undo_checkpoint_root undo_checkpoint_height]; try done.
    + apply map_Forall_insert_2; [|done]. exists a. cbn [fst snd]. auto.
    + rewrite map_size_insert_None by done. lia.
  - intros c [val Hcap]. unfold captured. cbn [undo_values]. destruct (decide (addr_key c = addr_key a)) as [->|Hne].
    + rewrite lookup_insert_eq. eauto.
    + rewrite lookup_insert_ne by done. eauto.
  - intros _. unfold captured. cbn [undo_values]. rewrite lookup_insert_eq. eauto.
Qed.

End Laws.
End UndoSpec.
