(* ===== verification/Transition.v ===== *)
(** * Native transitions (rs/src/transition/mod.rs)

    A batch of native changes is prepared on the state itself under a bounded undo log: a failure
    or a dropped preparation restores the state, a published one keeps it; its changes are the
    exact difference of the persisted records. *)

From S2P Require Import Prelude.
From S2P Require Import Crypto.
From S2P Require Import Trie.
From S2P Require Import Keyed.
From S2P Require Import AxonIndex.
From S2P Require Import Types.
From S2P Require Import Cards.
From S2P Require Import State.
From S2P Require Import StateSpec.
From S2P Require Import StateRoot.
From S2P Require Import Prune.
From S2P Require Import Ledger.
From S2P Require Import Facade.
From S2P Require Import Records.
From S2P Require Import Undo.

Local Open Scope Z_scope.

Inductive NativeChange :=
| NSignal (signal : Signal) (header : SignalRecord)
| NIntent (intent : IntentRecord)
| NLocalCredit (neuron token : Particle) (amount focus : u64).

Record Snapshot := mkSnapshot { snap_height : u64; snap_root : Particle }.

Section Transition.
  Context `{Nebu, Hemera, !Lens}.

Record Prepared := mkPrepared {
  prep_bbg : Bbg;
  prep_undo : option Undo;
  prep_changes : list RecordChange;
  prep_snapshots : list Snapshot;
}.

Abbreviation Preparing := (SM TransitionError Prepared).

Definition set_prep_bbg (p : Prepared) (b : Bbg) : Prepared :=
  mkPrepared b (prep_undo p) (prep_changes p) (prep_snapshots p).

(** A call on the state under preparation that may panic. *)
Definition on_bbg {A} (f : Bbg -> option (A * Bbg)) : Preparing A := fun p =>
  '(a, b) ← f (prep_bbg p); Some (Ok a, set_prep_bbg p b).

Definition with_bbg_state (b : Bbg) (s : BbgState) : Bbg :=
  mkBbg s (checkpoint b) (prune_config b) (prune_state b).

(** [state.root()] and [refresh_root]; [checkpoint.advance]. *)
Definition bbg_root (b : Bbg) : option (Particle * Bbg) :=
  '(r, s) ← compute_root (bbg_state b); Some (r, with_bbg_state b s).
Definition advance_checkpoint (b : Bbg) : option (unit * Bbg) :=
  '(c, s) ← checkpoint_advance (checkpoint b) (bbg_state b);
  Some (tt, mkBbg s c (prune_config b) (prune_state b)).

Definition prep_capture (domain : Z) (entity : list u8) : Preparing unit := fun p =>
  u ← prep_undo p;
  '(r, (u, b)) ← capture u (prep_bbg p) (record_key (of_Z 8 domain) entity);
  Some (r, mkPrepared b (Some u) (prep_changes p) (prep_snapshots p)).

(** ** Validation of a signal *)

Fixpoint fresh_nullifiers (spent : gmap (bytes 32) unit) (seen : gset (bytes 32)) (moves : list BoxMove) : bool :=
  match moves with
  | [] => true
  | mv :: moves =>
      match spent !! nullifier mv with
      | Some _ => false
      | None =>
          if bool_decide (nullifier mv ∈ seen) then false
          else fresh_nullifiers spent ({[nullifier mv]} ∪ seen) moves
      end
  end.

(** The balance of a key in the overlay, read from the state the first time. *)
Definition overlay_balance (balances overlay : gmap (bytes 32) u64) (key : bytes 32) : u64 :=
  match overlay !! key with
  | Some b => b
  | None => match balances !! key with Some b => b | None => of_Z 64 0 end
  end.

Fixpoint credits_fit (balances overlay : gmap (bytes 32) u64) (links : list Cyberlink) : bool :=
  match links with
  | [] => true
  | l :: links =>
      let to := balance_key (l_to l) (l_token l) in
      let from := balance_key (l_from l) (l_token l) in
      match checked_add (overlay_balance balances overlay to) (l_amount l) with
      | None => false
      | Some credit =>
          let overlay := <[to := credit]> overlay in
          let debit := overlay_balance balances overlay from in
          credits_fit balances (<[from := saturating_sub debit (l_amount l)]> overlay) links
      end
  end.

Definition validate (b : Bbg) (sg : Signal) (key : Particle) (header : SignalRecord) : result TransitionError unit :=
  let s := bbg_state b in
  let items := Z.min (Z.of_nat (length (s_links sg)) + Z.of_nat (length (s_box_moves sg))) usize_MAX in
  match checked_add (height s) (of_Z 64 1) with
  | None => Err (Overflow "height")
  | Some _ =>
      if 2 ^ 32 <=? Z.of_nat (length (s_links sg)) then Err (Overflow "link count")
      else if negb (bool_decide (sr_neuron header = s_neuron sg))
              || negb (uval (sr_link_count header) =? Z.of_nat (length (s_links sg)))
              || negb (bool_decide (sr_block_height header = s_height sg))
      then Err Arguments
      else if bool_decide (is_Some (k_map (signals s) !! key)) then Err SignalExists
      else if MAX_KEYS <? items then Err (Limit "signal items")
      else if negb (fresh_nullifiers (k_map (nullifiers s)) ∅ (s_box_moves sg)) then Err TransitionDoubleSpend
      else if negb (credits_fit (k_map (balances s)) ∅ (s_links sg)) then Err (Overflow "balance")
      else Ok tt
  end.

(** ** Preparing a signal *)

Definition capture_move (mv : BoxMove) : Preparing unit :=
  _ ← prep_capture 12 (blist (nullifier mv));
  match box_commitment mv with
  | Some (point, _) => prep_capture 11 (blist point)
  | None => mret tt
  end.

Definition capture_link (l : Cyberlink) : Preparing unit :=
  let axon := axon_id (l_from l) (l_to l) in
  _ ← prep_capture 1 (blist axon);
  _ ← prep_capture 1 (blist (l_to l));
  _ ← prep_capture 2 (blist (l_from l));
  _ ← prep_capture 3 (blist (l_to l));
  _ ← prep_capture 13 (blist (balance_key (l_from l) (l_token l)));
  _ ← prep_capture 13 (blist (balance_key (l_to l) (l_token l)));
  _ ← prep_capture 15 (blist axon);
  prep_capture 16 (blist axon).

(** The removal loop of [prune]: under size pressure it stops as soon as the estimate fits. *)
Fixpoint prep_prune_loop (over_budget : bool) (axons : list Particle) : Preparing unit :=
  match axons with
  | [] => mret tt
  | axon :: axons =>
      p ← sm_get;
      let s := bbg_state (prep_bbg p) in
      stop ← (if over_budget
              then est ← sm_some (estimate_bytes s); mret (uval est <=? uval (max_bytes (prune_config (prep_bbg p))))
              else mret false);
      if stop : bool then mret tt
      else
        _ ← prep_capture 1 (blist axon);
        _ ← prep_capture 15 (blist axon);
        _ ← prep_capture 16 (blist axon);
        p ← sm_get;
        _ ← (match axon_edges (bbg_state (prep_bbg p)) !! axon with
             | Some (from, to) =>
                 _ ← prep_capture 2 (blist from);
                 prep_capture 3 (blist to)
             | None => mret tt
             end);
        _ ← on_bbg (fun b =>
               '(s, ps) ← remove_axon (bbg_state b) (prune_state b) axon;
               Some (tt, mkBbg s (checkpoint b) (prune_config b) ps));
        prep_prune_loop over_budget axons
  end.

Definition prep_prune : Preparing unit :=
  p ← sm_get;
  let b := prep_bbg p in
  c ← sm_some (candidates (bbg_state b) (prune_state b) (prune_config b) (epoch_of (height (bbg_state b))) MAX_KEYS);
  match c with
  | Err _ => sm_throw (Limit "pruning candidates")
  | Ok (over_budget, axons) => prep_prune_loop over_budget axons
  end.

(** The block of the signal: its root under its height, and one block on. *)
Definition prep_block : Preparing unit :=
  root ← on_bbg bbg_root;
  on_bbg (fun b =>
    let s := bbg_state b in
    let s := set_time s (keyed_insert (time s) (height s) root).2 in
    h ← checked_add (height s) (of_Z 64 1);
    Some (tt, with_bbg_state b (set_height s h))).

Definition prep_signal (sg : Signal) (header : SignalRecord) : Preparing unit :=
  let key := signal_key (sr_neuron header) (sr_step header) in
  p ← sm_get;
  _ ← sm_lift (validate (prep_bbg p) sg key header);
  _ ← prep_capture 4 (blist (s_neuron sg));
  _ ← prep_capture 9 (to_be_bytes 8 (height (bbg_state (prep_bbg p))));
  _ ← prep_capture 10 (blist key);
  _ ← sm_for (s_box_moves sg) capture_move;
  _ ← sm_for (s_links sg) capture_link;
  r ← on_bbg (fun b => bbg_insert b sg);
  _ ← sm_lift (map_err (fun _ => TransitionDoubleSpend) r);
  _ ← on_bbg (fun b => Some (bbg_apply_signal_record b header));
  _ ← prep_block;
  p ← sm_get;
  _ ← (if uval (height (bbg_state (prep_bbg p))) mod uval EPOCH_BLOCKS =? 0 then prep_prune else mret tt);
  _ ← on_bbg bbg_root;
  on_bbg advance_checkpoint.

(** ** The batch *)

(** The module's own [intent_key]. *)
Definition native_intent_key (i : IntentRecord) : Particle :=
  hemera_hash (blist (ir_neuron i) ++ blist (to_le_bytes 8 (ir_h0 i)) ++ blist (ir_scope_hash i)).

Definition prep_intent (i : IntentRecord) : Preparing unit :=
  _ ← prep_capture 14 (blist (native_intent_key i));
  _ ← on_bbg (fun b => Some (bbg_apply_intent b i));
  mret tt.

Definition no_neuron : NeuronRecord := mkNeuronRecord (of_Z 64 0) (of_Z 64 0) (of_Z 64 0) (of_Z 64 0).

Definition prep_credit (neuron token : Particle) (amount credit : u64) : Preparing unit :=
  let key := balance_key neuron token in
  p ← sm_get;
  let s := bbg_state (prep_bbg p) in
  balance ← sm_lift (ok_or (checked_add (overlay_balance (k_map (balances s)) ∅ key) amount) (Overflow "balance"));
  next ← sm_lift (ok_or (checked_add (match k_map (neurons s) !! neuron with Some n => focus n | None => of_Z 64 0 end)
                           credit) (Overflow "focus"));
  _ ← prep_capture 13 (blist key);
  _ ← prep_capture 4 (blist neuron);
  _ ← on_bbg (fun b =>
         let s := bbg_state b in
         let s := set_balances s (keyed_insert (balances s) key balance).2 in
         let s := set_neurons s (keyed_entry_or_insert (neurons s) neuron no_neuron (fun n => with_focus n next)) in
         Some (tt, with_bbg_state b s));
  _ ← on_bbg bbg_root;
  on_bbg advance_checkpoint.

Definition prep_event (e : NativeChange) : Preparing unit :=
  _ ← (match e with
       | NSignal sg header => prep_signal sg header
       | NIntent i => prep_intent i
       | NLocalCredit neuron token amount credit => prep_credit neuron token amount credit
       end);
  root ← on_bbg bbg_root;
  sm_modify (fun p => mkPrepared (prep_bbg p) (prep_undo p) (prep_changes p)
    (prep_snapshots p ++ [mkSnapshot (height (bbg_state (prep_bbg p))) root])).

(** The loop of [collect_changes] over the log, with the bytes of the write set so far. *)
Fixpoint collect_changes (saved : list (list u8 * option (list u8))) (bytes : Z) : Preparing unit :=
  match saved with
  | [] => mret tt
  | (key, old) :: saved =>
      r ← on_bbg (fun b => bounded_read b key);
      value ← sm_lift r;
      if bool_decide (value = old) then collect_changes saved bytes
      else
        let bytes := bytes + (Z.of_nat (length key) + value_len value) in
        if MAX_BYTES <? bytes then sm_throw (Limit "write-set bytes")
        else
          _ ← sm_modify (fun p => mkPrepared (prep_bbg p) (prep_undo p)
                 (prep_changes p ++ [mkRecordChange key value]) (prep_snapshots p));
          collect_changes saved bytes
  end.

Definition prep_collect : Preparing unit :=
  p ← sm_get;
  u ← sm_some (prep_undo p);
  collect_changes (btree_iter (undo_values u)) 0.

Definition prep_batch (events : list NativeChange) : Preparing unit :=
  _ ← prep_capture 0 [];
  _ ← sm_for events prep_event;
  prep_collect.

(** [drop]: an unpublished preparation restores the state. *)
Definition prep_drop (p : Prepared) : option Bbg :=
  match prep_undo p with
  | Some u => undo_restore u (prep_bbg p)
  | None => Some (prep_bbg p)
  end.

(** [publish]: dropped without its log. *)
Definition publish (p : Prepared) : option Bbg :=
  prep_drop (mkPrepared (prep_bbg p) None (prep_changes p) (prep_snapshots p)).

(** An error comes with the state it leaves. *)
Definition prepare_native_batch (b : Bbg) (events : list NativeChange)
    : option (result (TransitionError * Bbg) Prepared) :=
  if (length events =? 0)%nat || (MAX_EVENTS <? Z.of_nat (length events)) then Some (Err (Limit "event count", b))
  else if bool_decide (is_Some (acc (checkpoint b))) then Some (Err (CheckpointHasProof, b))
  else if 100 <? uval (rank_floor_pct (prune_config b)) then Some (Err (Limit "pruning rank floor", b))
  else
    '(r, p) ← prep_batch events (mkPrepared b (Some (undo_new b)) [] []);
    match r with
    | Ok _ => Some (Ok p)
    | Err e => b ← prep_drop p; Some (Err (e, b))
    end.

Definition prepare_native (b : Bbg) (signal : option Signal) (header : option SignalRecord)
    (intent : option IntentRecord) : option (result (TransitionError * Bbg) Prepared) :=
  match signal, header, intent with
  | Some signal, Some header, None => prepare_native_batch b [NSignal signal header]
  | None, None, Some intent => prepare_native_batch b [NIntent intent]
  | _, _, _ => Some (Err (Arguments, b))
  end.

End Transition.
