(* ===== verification/TransitionSpec.v ===== *)
(** * What a preparation does

    The invariant of a preparation against the state it started from: its log holds every address
    whose record may have changed, with the record of the start. Each step of Transition.v keeps
    it whatever it answers, and a step that succeeds has the effect of the facade's operations. *)

From S2P Require Import Prelude.
From S2P Require Import Crypto.
From S2P Require Import Trie.
From S2P Require Import Keyed.
From S2P Require Import AxonIndex.
From S2P Require Import Types.
From S2P Require Import Cards.
From S2P Require Import State.
From S2P Require Import StateSpec.
From S2P Require Import StateRoot.
From S2P Require Import Prune.
From S2P Require Import Ledger.
From S2P Require Import Facade.
From S2P Require Import Records.
From S2P Require Import Undo.
From S2P Require Import UndoSpec.
From S2P Require Import Transition.

Local Open Scope Z_scope.

Section Tracking.
  Context `{Nebu, Hemera, !CryptoLaws, !Lens, !StableLaws}.

Abbreviation Preparing := (SM TransitionError Prepared).

(** ** The invariant *)

Record PRep (cfg : PruneConfig) (g : FView) (p : Prepared) (f : FView) (n w : Z) : Prop := {
  pp_rep : BbgRep (prep_bbg p) f cfg n w;
  pp_undo : exists u, prep_undo p = Some u /\ Saved cfg g u /\ forall a, captured u a \/ agree f g a;
  pp_frame : same_frame f g;
  pp_stable : stable_commitments f;
}.

Definition caught (p : Prepared) (a : Addr) : Prop := exists u, prep_undo p = Some u /\ captured u a.

(** [p'] keeps what [p] has caught and recorded. *)
Definition extends (p p' : Prepared) : Prop :=
  prep_changes p' = prep_changes p /\ prep_snapshots p' = prep_snapshots p /\ forall a, caught p a -> caught p' a.

#[export] Instance extends_refl : Reflexive extends.
Proof. done. Qed.
#[export] Instance extends_trans : Transitive extends.
Proof. intros p q r (C & S & Q) (C' & S' & Q'). split_and!; [congruence..|auto]. Qed.

Lemma agree_fits f g a : agree f g a -> fits f a -> fits g a.
Proof. destruct a; simpl; try done; intros ->; done. Qed.

(** A call that catches the addresses [A] when it succeeds and changes nothing else. *)
Definition catches (m : Preparing unit) (A : list Addr) : Prop :=
  forall cfg g p f n w, PRep cfg g p f n w -> w <= 2 ^ 32 ->
  exists r p', m p = Some (r, p') /\ PRep cfg g p' f n w /\ extends p p'
    /\ (r = Ok tt -> forall a, a ∈ A -> caught p' a).

Lemma prep_capture_ok a domain entity :
  a <> AMeta -> domain = addr_domain a -> entity = addr_entity a -> catches (prep_capture domain entity) [a].
Proof.
  intros Hne -> -> cfg g p f n w [Hb (u & Eu & Hu & Hall) Hfr Hst] Hw. unfold prep_capture. rewrite Eu.
  cbn [mbind option_bind]. change (record_key (of_Z 8 (addr_domain a)) (addr_entity a)) with (addr_key a).
  destruct (capture_ok cfg g u _ f n w a Hb Hw Hu) as (r & u' & b' & -> & Hb' & Hu' & Hmono & Hr).
  { destruct (Hall a) as [Hc|Hc]; [by left|right]. split; [by apply agree_cell|by apply agree_fits]. }
  cbn [mbind option_bind]. eexists _, _. split_and!; [done| |split_and!|].
  - split; [done| |done|done]. exists u'. split_and!; [done|done|]. intros c.
    destruct (Hall c) as [Hc|Hc]; [left; by apply Hmono|by right].
  - done.
  - done.
  - intros c (u1 & E1 & Hc). exists u'. split; [done|]. apply Hmono. congruence.
  - intros -> c ->%list_elem_of_singleton. exists u'. split; [done|]. by apply Hr.
Qed.

Lemma catches_ret : catches (mret tt) [].
Proof. intros cfg g p f n w Hp Hw. eexists _, p. split_and!; [done..|]. by intros _ a ?%elem_of_nil. Qed.

Lemma catches_bind (m m' : Preparing unit) A A' :
  catches m A -> catches m' A' -> catches (_ ← m; m') (A ++ A').
Proof.
  intros Hm Hm' cfg g p f n w Hp Hw. destruct (Hm _ _ _ _ _ _ Hp Hw) as (r & p1 & E & Hp1 & Hx & Hr).
  rewrite sm_bind_eq, E. destruct r as [[]|e]; [|by exists (Err e), p1].
  destruct (Hm' _ _ _ _ _ _ Hp1 Hw) as (r' & p2 & E' & Hp2 & Hx' & Hr'). exists r', p2.
  split_and!; [done|done|by etransitivity|]. intros -> a [Ha|Ha]%elem_of_app; [|by apply Hr'].
  apply Hx'. by apply Hr.
Qed.

Lemma catches_for {X} (l : list X) (m : X -> Preparing unit) (A : X -> list Addr) :
  (forall x, catches (m x) (A x)) -> catches (sm_for l m) (flat_map A l).
Proof. intros Hm. induction l as [|x l IH]; [apply catches_ret|]. by apply catches_bind. Qed.

Lemma catches_same m A A' : A = A' -> catches m A -> catches m A'.
Proof. by intros ->. Qed.

Ltac catch a := refine (prep_capture_ok a _ _ _ _ _); done.

Definition move_addrs (mv : BoxMove) : list Addr :=
  ANullifier (nullifier mv) :: match box_commitment mv with Some (point, _) => [ACommitment point] | None => [] end.

Lemma capture_move_ok mv : catches (capture_move mv) (move_addrs mv).
Proof.
  unfold capture_move, move_addrs. refine (catches_bind _ _ [_] _ _ _); [catch (ANullifier (nullifier mv))|].
  destruct (box_commitment mv) as [[point v]|]; [catch (ACommitment point)|apply catches_ret].
Qed.

Definition link_addrs (l : Cyberlink) : list Addr :=
  let axon := axon_id (l_from l) (l_to l) in
  [AParticle axon; AParticle (l_to l); AOut (l_from l); AIn (l_to l);
   ABalance (balance_key (l_from l) (l_token l)); ABalance (balance_key (l_to l) (l_token l));
   AEdge axon; ATouched axon].

Lemma capture_link_ok l : catches (capture_link l) (link_addrs l).
Proof.
  unfold capture_link, link_addrs. set (axon := axon_id _ _).
  refine (catches_bind _ _ [_] _ _ _); [catch (AParticle axon)|].
  refine (catches_bind _ _ [_] _ _ _); [catch (AParticle (l_to l))|].
  refine (catches_bind _ _ [_] _ _ _); [catch (AOut (l_from l))|].
  refine (catches_bind _ _ [_] _ _ _); [catch (AIn (l_to l))|].
  refine (catches_bind _ _ [_] _ _ _); [catch (ABalance (balance_key (l_from l) (l_token l)))|].
  refine (catches_bind _ _ [_] _ _ _); [catch (ABalance (balance_key (l_to l) (l_token l)))|].
  refine (catches_bind _ _ [_] _ _ _); [catch (AEdge axon)|catch (ATouched axon)].
Qed.

(** ** Effects *)

(** [f'] differs from [f] at the addresses [A] only. *)
Record touches (f f' : FView) (A : list Addr) : Prop := {
  to_frame : same_frame f' f;
  to_rest : forall a, a ∉ A -> agree f' f a;
}.

Lemma touches_refl f : touches f f [].
Proof. split; [done|]. intros a _. apply agree_refl. Qed.

Lemma touches_trans f f1 f2 A A' : touches f f1 A -> touches f1 f2 A' -> touches f f2 (A ++ A').
Proof.
  intros [F R] [F' R']. split; [by etransitivity|]. intros a [Ha Ha']%not_elem_of_app.
  eapply (agree_trans a); [by apply R'|by apply R].
Qed.

(** The step of a preparation: a new state that differs from the old one where the log has caught. *)
Lemma prep_step cfg g p f n w b' f' n' w' A :
  PRep cfg g p f n w -> BbgRep b' f' cfg n' w' -> touches f f' A -> (forall a, a ∈ A -> caught p a) ->
  stable_commitments f' -> PRep cfg g (set_prep_bbg p b') f' n' w'.
Proof.
  intros [_ (u & Eu & Hu & Hall) Hfr _] Hb' [Hf Ht] HA Hst. split; [done| |by etransitivity|done].
  exists u. split_and!; [done|done|]. intros a. destruct (decide (a ∈ A)) as [Ha|Ha].
  - left. destruct (HA a Ha) as (u' & Eu' & Hc). congruence.
  - destruct (Hall a) as [Hc|Hc]; [by left|right]. eapply (agree_trans a); [by apply Ht|exact Hc].
Qed.

Lemma extends_set_bbg p b : extends p (set_prep_bbg p b).
Proof. done. Qed.

(** An address outside a list differs from its members. *)
Ltac outside Ha :=
  let E := fresh in intros E; subst; apply Ha; repeat (first [apply elem_of_cons; left; reflexivity | apply elem_of_cons; right]).

Definition view_at (v : View) (f : FView) : FView := mkFView v (f_touched f) (f_root f) (f_height f).

Lemma box_move_touches f v mv : touches (view_at v f) (view_at (view_box_move v mv) f) (move_addrs mv).
Proof.
  unfold view_box_move, move_addrs. destruct (box_commitment mv) as [[point c]|]; (split; [done|]);
    intros a Ha; destruct a; simpl; try done; rewrite lookup_insert_ne; try done; outside Ha.
Qed.

Lemma lookup_join_axon m p x k : k <> p -> join_axon m p x !! k = m !! k.
Proof. intros Hk. unfold join_axon. case_bool_decide; [by rewrite lookup_insert_ne|done]. Qed.

Lemma lookup_put_balance m key b k : k <> key -> put_balance m key b !! k = m !! k.
Proof. intros Hk. unfold put_balance. case_match; [by rewrite lookup_delete_ne|by rewrite lookup_insert_ne]. Qed.

Lemma lookup_spend_focus m n a k : k <> n -> spend_focus m n a !! k = m !! k.
Proof. intros Hk. unfold spend_focus. destruct (m !! n); [by rewrite lookup_insert_ne|done]. Qed.

Lemma topology_touches f v l :
  touches (view_at v f) (view_at (view_topology v l) f)
    [AOut (l_from l); AIn (l_to l); AEdge (axon_id (l_from l) (l_to l))].
Proof.
  unfold view_topology. cbn [v_axon_edges put_axons_in put_axons_out].
  split; [by destruct (v_axon_edges v !! _)|]. intros a Ha.
  destruct (v_axon_edges v !! _), a; simpl; try done;
    first [rewrite lookup_join_axon | rewrite lookup_insert_ne | idtac]; try done; outside Ha.
Qed.

Lemma conviction_touches f v neuron l :
  touches (view_at v f) (view_at (view_conviction v neuron l) f)
    [AParticle (axon_id (l_from l) (l_to l)); AParticle (l_to l); ANeuron neuron;
     ABalance (balance_key (l_to l) (l_token l)); ABalance (balance_key (l_from l) (l_token l))].
Proof.
  unfold view_conviction. split; [done|]. intros a Ha. destruct a; simpl; try done.
  - unfold add_energy, add_weight. rewrite !lookup_insert_ne; [done|outside Ha..].
  - apply lookup_spend_focus. outside Ha.
  - rewrite !lookup_put_balance; [done|outside Ha..].
Qed.

Lemma link_touches f v neuron l :
  touches (view_at v f) (view_at (view_link neuron v l) f)
    ([AOut (l_from l); AIn (l_to l); AEdge (axon_id (l_from l) (l_to l))]
     ++ [AParticle (axon_id (l_from l) (l_to l)); AParticle (l_to l); ANeuron neuron;
         ABalance (balance_key (l_to l) (l_token l)); ABalance (balance_key (l_from l) (l_token l))]).
Proof.
  eapply touches_trans; [apply topology_touches|]. unfold view_link. case_match; [|apply conviction_touches].
  split; [done|]. intros a _. apply agree_refl.
Qed.

Lemma touches_mono f f' A A' : touches f f' A -> A ⊆ A' -> touches f f' A'.
Proof. intros [F R] HA. split; [done|]. intros a Ha. apply R. auto. Qed.

Lemma touches_foldl {X} f (step : View -> X -> View) (A : X -> list Addr) l v :
  (forall v x, touches (view_at v f) (view_at (step v x) f) (A x)) ->
  touches (view_at v f) (view_at (foldl step v l) f) (flat_map A l).
Proof.
  intros Hs. revert v. induction l as [|x l IH]; intros v; [apply touches_refl|]. simpl.
  eapply touches_trans; [apply Hs|apply IH].
Qed.

Lemma touch_links_touches v ps r h links e :
  touches (mkFView v ps r h) (mkFView v (touch_links ps links e) r h)
    (map (fun l => ATouched (axon_id (l_from l) (l_to l))) links).
Proof.
  split; [done|]. intros a Ha. destruct a; simpl; try done.
  revert ps. induction links as [|l links IH]; intros ps; [done|]. unfold touch_links. simpl.
  fold (touch_links (touch ps (axon_id (l_from l) (l_to l)) e) links e). simpl in Ha.
  apply not_elem_of_cons in Ha as [Hne Ha]. rewrite IH by done. unfold touch. cbn [last_touched].
  rewrite lookup_insert_ne; [done|]. intros <-. by apply Hne.
Qed.

(** What an insertion changes. *)
Definition insert_addrs (sg : Signal) : list Addr :=
  ANeuron (s_neuron sg) :: flat_map move_addrs (s_box_moves sg) ++ flat_map link_addrs (s_links sg).

Lemma insert_touches f sg v e :
  view_insert (f_view f) sg = (Ok tt, v) ->
  touches f (mkFView v (touch_links (f_touched f) (s_links sg) e) (f_root f) (f_height f)) (insert_addrs sg).
Proof.
  unfold view_insert. case_match; [done|]. intros [= <-].
  pose proof (touches_foldl f view_box_move move_addrs (s_box_moves sg) (f_view f) (box_move_touches f)) as Hm.
  set (v1 := foldl view_box_move (f_view f) (s_box_moves sg)) in *.
  pose proof (touches_foldl f (view_link (s_neuron sg)) _ (s_links sg) v1 (fun v l => link_touches f v (s_neuron sg) l)) as Hl.
  pose proof (touches_trans _ _ _ _ _ (touches_trans _ _ _ _ _ Hm Hl)
    (touch_links_touches _ (f_touched f) (f_root f) (f_height f) (s_links sg) e)) as Ht.
  unfold view_at in Ht at 1. destruct f. eapply touches_mono; [exact Ht|]. clear.
  intros a. unfold insert_addrs. rewrite !elem_of_app, elem_of_cons, elem_of_app. intros [[Ha|Ha]|Ha].
  - auto.
  - apply list_elem_of_In, in_flat_map in Ha as (l & Hl & Ha). apply list_elem_of_In in Ha. 
    assert (a = ANeuron (s_neuron sg) \/ a ∈ link_addrs l) as [->|Ha'] by (unfold link_addrs; set_solver); [by left|].
    right; right. apply list_elem_of_In, in_flat_map. exists l. split; [done|]. by apply list_elem_of_In.
  - right; right. apply list_elem_of_fmap in Ha as (l & -> & Hl). apply list_elem_of_In, in_flat_map.
    exists l. split; [by apply list_elem_of_In|]. apply list_elem_of_In. unfold link_addrs. set_solver.
Qed.

(** *** Commitments stay stable *)

Lemma box_moves_stable v mvs :
  map_Forall (fun _ c => g_new (g_as_u64 c) = c) (v_commitments v) ->
  map_Forall (fun _ c => g_new (g_as_u64 c) = c) (v_commitments (foldl view_box_move v mvs)).
Proof.
  revert v. induction mvs as [|mv mvs IH]; intros v Hv; [done|]. simpl. apply IH. unfold view_box_move.
  destruct (box_commitment mv) as [[point c]|]; [|done]. apply map_Forall_insert_2; [apply g_new_stable|done].
Qed.

Lemma links_commitments neuron ls v : v_commitments (foldl (view_link neuron) v ls) = v_commitments v.
Proof.
  revert v. induction ls as [|l ls IH]; intros v; [done|]. simpl. rewrite IH.
  unfold view_link, view_topology. cbn. repeat case_match; done.
Qed.

Lemma insert_stable f sg v ps :
  view_insert (f_view f) sg = (Ok tt, v) -> stable_commitments f -> stable_commitments (mkFView v ps (f_root f) (f_height f)).
Proof.
  unfold view_insert, stable_commitments. case_match; [done|]. intros [= <-] Hs. cbn [f_view].
  rewrite links_commitments. by apply box_moves_stable.
Qed.

(** ** Pruning under the log *)

Definition fview_remove (f : FView) (id : Particle) : FView :=
  mkFView (view_remove (f_view f) id) (mkPruneState (delete id (last_touched (f_touched f)))) (f_root f) (f_height f).

Definition remove_addrs (f : FView) (id : Particle) : list Addr :=
  [AParticle id] ++ [AEdge id] ++ [ATouched id]
  ++ match v_axon_edges (f_view f) !! id with Some (from, to) => [AOut from] ++ [AIn to] | None => [] end.

Lemma lookup_drop_axon m p x k : k <> p -> drop_axon m p x !! k = m !! k.
Proof.
  intros Hk. unfold drop_axon, put_list. case_match; [by rewrite lookup_delete_ne|by rewrite lookup_insert_ne].
Qed.

Lemma remove_touches f id : touches f (fview_remove f id) (remove_addrs f id).
Proof.
  unfold fview_remove, remove_addrs, view_remove. cbn [v_axon_edges put_particles].
  destruct (v_axon_edges (f_view f) !! id) as [[from to]|]; (split; [done|]);
    intros a Ha; destruct a; simpl; try done;
    first [rewrite lookup_delete_ne | rewrite lookup_drop_axon]; try done; outside Ha.
Qed.

Lemma foldl_fview_remove ids f :
  foldl fview_remove f ids
  = mkFView (foldl view_remove (f_view f) ids) (touched_without (f_touched f) ids) (f_root f) (f_height f).
Proof.
  revert f. induction ids as [|id ids IH]; intros f; simpl; [by destruct f as [v [] r h]|]. by rewrite IH.
Qed.

Lemma view_remove_height v id : v_height (view_remove v id) = v_height v.
Proof. unfold view_remove. simpl. by destruct (v_axon_edges v !! id) as [[]|]. Qed.

Lemma remove_rep b f cfg n w id :
  BbgRep b f cfg n w ->
  exists s ps, remove_axon (bbg_state b) (prune_state b) id = Some (s, ps)
    /\ BbgRep (mkBbg s (checkpoint b) (prune_config b) ps) (fview_remove f id) cfg n (w + 2).
Proof.
  intros [Hs Ht Hc Hcp Hv Hh [Sp St Sb]]. destruct (remove_axon_ok _ _ _ (prune_state b) id Hs) as (s & E & Hs').
  exists s. eexists. split; [exact E|].
  split; cbn [bbg_state prune_state prune_config checkpoint f_view f_touched f_root f_height fview_remove];
    [done|by rewrite Ht|done|done|by rewrite view_remove_root_version|rewrite view_remove_height; lia|].
  pose proof (view_remove_bytes (f_view f) id). destruct (view_removes_small (f_view f) [id]) as [Hp _].
  pose proof (touched_without_small (f_touched f) [id]) as Htt. simpl in Hp, Htt.
  split; cbn [last_touched]; lia.
Qed.

Lemma prep_rep_weaken cfg g p f n w w' : w <= w' -> PRep cfg g p f n w -> PRep cfg g p f n w'.
Proof. intros Hw [Hb Hu Hf Hs]. split; [by eapply bbg_rep_weaken|done..]. Qed.

Lemma fview_remove_stable f id : stable_commitments f -> stable_commitments (fview_remove f id).
Proof.
  unfold stable_commitments, fview_remove, view_remove. cbn. by destruct (v_axon_edges (f_view f) !! id) as [[]|].
Qed.

(** The captures before a removal. *)
Lemma remove_captures_ok cfg g p f n w id (m : Preparing unit) :
  PRep cfg g p f n w -> w <= 2 ^ 32 ->
  exists r p', (_ ← prep_capture 1 (blist id); _ ← prep_capture 15 (blist id); _ ← prep_capture 16 (blist id);
                q ← sm_get;
                _ ← (match axon_edges (bbg_state (prep_bbg q)) !! id with
                     | Some (from, to) => _ ← prep_capture 2 (blist from); prep_capture 3 (blist to)
                     | None => mret tt
                     end); m) p = (match r with Ok _ => m p' | Err e => Some (Err e, p') end)
    /\ PRep cfg g p' f n w /\ extends p p' /\ (r = Ok tt -> forall a, a ∈ remove_addrs f id -> caught p' a).
Proof.
  intros Hp Hw.
  assert (catches (prep_capture 1 (blist id)) [AParticle id]) as C1 by catch (AParticle id).
  assert (catches (prep_capture 15 (blist id)) [AEdge id]) as C2 by catch (AEdge id).
  assert (catches (prep_capture 16 (blist id)) [ATouched id]) as C3 by catch (ATouched id).
  set (edges := match v_axon_edges (f_view f) !! id with
                | Some (from, to) => _ ← prep_capture 2 (blist from); prep_capture 3 (blist to)
                | None => mret tt
                end : Preparing unit).
  assert (catches edges (match v_axon_edges (f_view f) !! id with Some (from, to) => [AOut from] ++ [AIn to] | None => [] end)) as C4.
  { subst edges. destruct (v_axon_edges (f_view f) !! id) as [[from to]|]; [|apply catches_ret].
    refine (catches_bind _ _ [_] _ _ _); [catch (AOut from)|catch (AIn to)]. }
  destruct (C1 _ _ _ _ _ _ Hp Hw) as (r1 & p1 & E1 & Hp1 & X1 & K1). rewrite sm_bind_eq, E1.
  destruct r1 as [[]|e]; [|exists (Err e), p1; split_and!; done].
  destruct (C2 _ _ _ _ _ _ Hp1 Hw) as (r2 & p2 & E2 & Hp2 & X2 & K2). rewrite sm_bind_eq, E2.
  destruct r2 as [[]|e]; [|exists (Err e), p2; split_and!; [done|done|by etransitivity|done]].
  destruct (C3 _ _ _ _ _ _ Hp2 Hw) as (r3 & p3 & E3 & Hp3 & X3 & K3). rewrite sm_bind_eq, E3.
  destruct r3 as [[]|e]; [|exists (Err e), p3; split_and!; [done|done|by do 2 (etransitivity; [done|])|done]].
  rewrite sm_bind_eq. cbn [sm_get]. rewrite (sr_axon_edges _ _ _ (br_state _ _ _ _ _ (pp_rep _ _ _ _ _ _ Hp3))).
  fold edges. destruct (C4 _ _ _ _ _ _ Hp3 Hw) as (r4 & p4 & E4 & Hp4 & X4 & K4). rewrite sm_bind_eq, E4.
  assert (extends p p4) as X by (do 3 (etransitivity; [done|]); done).
  exists r4, p4. split_and!; [by destruct r4 as [[]|]|done|done|]. intros -> a.
  unfold remove_addrs. rewrite !elem_of_app. intros [Ha|[Ha|[Ha|Ha]]]; [| | |by apply K4].
  - apply X4, X3, X2. by apply K1.
  - apply X4, X3. by apply K2.
  - apply X4. by apply K3.
Qed.

Lemma on_bbg_eq {A} (h : Bbg -> option (A * Bbg)) p x b :
  h (prep_bbg p) = Some (x, b) -> on_bbg h p = Some (Ok x, set_prep_bbg p b).
Proof. intros E. unfold on_bbg. by rewrite E. Qed.

Lemma remove_one_ok cfg g p f n w id (rest : Preparing unit) :
  PRep cfg g p f n w -> w + 2 <= 2 ^ 32 ->
  exists (r : result TransitionError unit) p', (_ ← prep_capture 1 (blist id); _ ← prep_capture 15 (blist id); _ ← prep_capture 16 (blist id);
                q ← sm_get;
                _ ← (match axon_edges (bbg_state (prep_bbg q)) !! id with
                     | Some (from, to) => _ ← prep_capture 2 (blist from); prep_capture 3 (blist to)
                     | None => mret tt
                     end);
                _ ← on_bbg (fun b =>
                       '(s, ps) ← remove_axon (bbg_state b) (prune_state b) id;
                       Some (tt, mkBbg s (checkpoint b) (prune_config b) ps));
                rest) p = (match r with Ok _ => rest p' | Err e => Some (Err e, p') end)
    /\ extends p p'
    /\ PRep cfg g p' (match r with Ok _ => fview_remove f id | Err _ => f end) n (w + 2).
Proof.
  intros Hp Hw.
  destruct (remove_captures_ok cfg g p f n w id (_ ← on_bbg (fun b =>
      '(s, ps) ← remove_axon (bbg_state b) (prune_state b) id;
      Some (tt, mkBbg s (checkpoint b) (prune_config b) ps)); rest) Hp) as (r & p1 & E & Hp1 & X1 & K); [lia|].
  rewrite E. clear E. destruct r as [[]|e].
  2: { exists (Err e), p1. split_and!; [done|done|]. eapply prep_rep_weaken, Hp1. lia. }
  destruct (remove_rep _ _ _ _ _ id (pp_rep _ _ _ _ _ _ Hp1)) as (s & ps & Er & Hb).
  eexists (Ok tt), (set_prep_bbg p1 _). split_and!.
  - rewrite sm_bind_eq, (on_bbg_eq _ _ tt (mkBbg s (checkpoint (prep_bbg p1)) (prune_config (prep_bbg p1)) ps))
      by (by rewrite Er). done.
  - exact X1.
  - eapply prep_step; [exact Hp1|exact Hb|apply remove_touches|by apply K|].
    apply fview_remove_stable, Hp1.
Qed.

Lemma prep_prune_loop_ok cfg g over ids p f n w :
  PRep cfg g p f n w -> view_bytes (f_view f) < 2 ^ 64 -> w + 2 * Z.of_nat (length ids) <= 2 ^ 32 ->
  exists r p' pre, prep_prune_loop over ids p = Some (r, p')
    /\ PRep cfg g p' (foldl fview_remove f pre) n (w + 2 * Z.of_nat (length ids)) /\ extends p p'
    /\ (r = Ok tt -> exists post, ids = pre ++ post
        /\ (post = [] \/ over = true /\ view_bytes (foldl view_remove (f_view f) pre) <= uval (max_bytes cfg))
        /\ (over = true -> forall p1 p2, pre = p1 ++ p2 -> p2 <> [] ->
             uval (max_bytes cfg) < view_bytes (foldl view_remove (f_view f) p1))).
Proof.
  revert p f w. induction ids as [|id ids IH]; intros p f w Hp Hb Hw.
  { eexists (Ok tt), p, []. split_and!; [done|by rewrite Z.add_0_r|done|]. intros _. exists [].
    split_and!; [done|by left|]. by intros _ [|] [|]. }
  cbn [length] in *. pose proof (pp_rep _ _ _ _ _ _ Hp) as Hrep. pose proof (view_bytes_nonneg (f_view f)) as Hpos.
  assert ((if over
           then est ← sm_some (estimate_bytes (bbg_state (prep_bbg p)));
                mret (uval est <=? uval (max_bytes (prune_config (prep_bbg p))))
           else mret false) p
          = Some (Ok (over && (view_bytes (f_view f) <=? uval (max_bytes cfg))) : result TransitionError bool, p)) as Estop.
  { destruct over; [|done]. rewrite (estimate_bytes_ok _ _ _ (br_state _ _ _ _ _ Hrep)), (proj2 (Z.ltb_lt _ _) Hb).
    rewrite (br_config _ _ _ _ _ Hrep). sm_run.
    by rewrite (uval_of_Z_small 64) by (simpl Z.of_N; lia). }
  cbn [prep_prune_loop]. rewrite sm_bind_eq. cbn [sm_get]. rewrite sm_bind_eq, Estop.
  destruct (over && (view_bytes (f_view f) <=? uval (max_bytes cfg))) eqn:Eov.
  { apply andb_prop in Eov as [-> Hle%Z.leb_le]. eexists (Ok tt), p, []. split_and!; [done| |done|].
    - eapply prep_rep_weaken, Hp. lia.
    - intros _. exists (id :: ids). split_and!; [done|by right|]. by intros _ [|] [|]. }
  destruct (remove_one_ok cfg g p f n w id (prep_prune_loop over ids) Hp) as (r & p1 & E & X1 & Hp1); [lia|].
  rewrite E. clear E. destruct r as [[]|e].
  2: { eexists (Err e), p1, []. split_and!; [done| |done|done]. eapply prep_rep_weaken, Hp1. lia. }
  pose proof (view_remove_bytes (f_view f) id) as Hb1.
  destruct (IH p1 (fview_remove f id) (w + 2) Hp1) as (r & p2 & pre & E & Hp2 & X2 & K); [cbn; lia|lia|].
  exists r, p2, (id :: pre). split_and!; [done| |by etransitivity|].
  - eapply prep_rep_weaken, Hp2. lia.
  - intros ->. destruct (K eq_refl) as (post & -> & Hpost & Hmin). exists post. split_and!; [done|done|].
    intros -> [|y p1'] p2' Ep Hne.
    + simpl. apply andb_false_iff in Eov as [|Hgt%Z.leb_gt]; [done|exact Hgt].
    + injection Ep as <- Ep. exact (Hmin eq_refl p1' p2' Ep Hne).
Qed.

Lemma candidates_limit s ps cfg epoch c :
  candidates s ps cfg epoch usize_MAX = Some (Ok c) ->
  candidates s ps cfg epoch MAX_KEYS = Some (Ok c) \/ candidates s ps cfg epoch MAX_KEYS = Some (Err tt).
Proof.
  assert (forall A lim (acc l : list A), collect_limit lim acc l = Ok (acc ++ l) \/ collect_limit lim acc l = Err tt) as Hc.
  { intros A lim acc l. revert acc. induction l as [|x l IH]; intros acc; simpl; [left; by rewrite app_nil_r|].
    case_match; [by right|]. destruct (IH (acc ++ [x])) as [->| ->]; [left; by rewrite <- app_assoc|by right]. }
  unfold candidates. destruct (rank_floor s (rank_floor_pct cfg)) as [floor|]; [|done].
  destruct (estimate_bytes s) as [est|]; [|done]. cbn [mbind option_bind].
  set (all := if _ <? _ then _ else _).
  destruct (Hc _ usize_MAX [] all) as [->| ->]; [|done]. intros [= <-].
  destruct (Hc _ MAX_KEYS [] all) as [->| ->]; auto.
Qed.

Lemma prep_prune_ok cfg g p f n w :
  PRep cfg g p f n w -> 0 <= n -> 0 <= w -> w + 6 * n <= 2 ^ 32 ->
  exists r p' ids, prep_prune p = Some (r, p') /\ PRep cfg g p' (foldl fview_remove f ids) n (w + 6 * n) /\ extends p p'
    /\ (r = Ok tt -> exists floor, rank_floor_of (v_particles (f_view f)) (rank_floor_pct cfg) = Some floor
        /\ Pruned (f_view f) (f_touched f) cfg (epoch_of (v_height (f_view f))) floor ids).
Proof.
  intros Hp Hn Hw0 Hw. pose proof (pp_rep _ _ _ _ _ _ Hp) as [Hs Ht Hc _ _ _ [Sp St Sb]].
  destruct (rank_floor_ok _ _ _ (rank_floor_pct cfg) Hs) as (floor & Hf & _).
  destruct (candidates_ok _ _ _ (f_touched f) cfg (epoch_of (v_height (f_view f))) floor Hs) as (ids & Ec & Hnd & Hin & Hsort & Hlen);
    [lia|done|lia|].
  unfold prep_prune. rewrite sm_bind_eq. cbn [sm_get]. rewrite (sr_height _ _ _ Hs), Ht, Hc.
  apply candidates_limit in Ec as [->| ->]; rewrite sm_bind_eq; cbn [sm_some mbind option_bind].
  2: { eexists _, p, []. split_and!; [done| |done|done]. eapply prep_rep_weaken, Hp. lia. }
  destruct (prep_prune_loop_ok cfg g (over_budget (f_view f) cfg) ids p f n w Hp) as (r & p' & pre & E & Hp' & X & K); [lia..|].
  exists r, p', pre. split_and!; [exact E| |done|].
  - eapply prep_rep_weaken, Hp'. lia.
  - intros ->. destruct (K eq_refl) as (post & -> & Hpost & Hmin). exists floor. split.
    + unfold rank_floor in Hf. by rewrite (kr_map _ _ _ (sr_particles _ _ _ Hs)) in Hf.
    + by eapply pruned_prefix.
Qed.

(** ** Runs of a preparation *)

(** [m] runs from [p] without a panic, keeps the invariant whatever it answers, and when it succeeds
    ends in a state that satisfies [Q]. *)
Definition runs (cfg : PruneConfig) (g : FView) (p : Prepared) (m : Preparing unit) (n w : Z) (Q : FView -> Prop) : Prop :=
  exists r p' f', m p = Some (r, p') /\ PRep cfg g p' f' n w /\ extends p p' /\ (r = Ok tt -> Q f').

Lemma bbg_rep_more b f cfg n n' w w' : n <= n' -> w <= w' -> BbgRep b f cfg n w -> BbgRep b f cfg n' w'.
Proof.
  intros Hn Hw Hb. apply (bbg_rep_weaken _ _ _ _ _ w' Hw) in Hb. destruct Hb as [? ? ? ? ? ? []]. split; try done.
  split; lia.
Qed.

Lemma prep_rep_more cfg g p f n n' w w' : n <= n' -> w <= w' -> PRep cfg g p f n w -> PRep cfg g p f n' w'.
Proof. intros Hn Hw [Hb Hu Hf Hs]. split; [by eapply bbg_rep_more|done..]. Qed.

Lemma runs_catch cfg g p f n w n' w' A (m k : Preparing unit) Q :
  catches m A -> PRep cfg g p f n w -> w <= 2 ^ 32 -> n <= n' -> w <= w' ->
  (forall p', PRep cfg g p' f n w -> extends p p' -> (forall a, a ∈ A -> caught p' a) -> runs cfg g p' k n' w' Q) ->
  runs cfg g p (_ ← m; k) n' w' Q.
Proof.
  intros Hm Hp Hw Hn Hw' Hk. destruct (Hm _ _ _ _ _ _ Hp Hw) as (r & p1 & E & Hp1 & X & K).
  unfold runs. rewrite sm_bind_eq, E. destruct r as [[]|e].
  - destruct (Hk p1 Hp1 X (K eq_refl)) as (r & p2 & f2 & E2 & Hp2 & X2 & HQ). exists r, p2, f2.
    split_and!; [done|done|by etransitivity|done].
  - exists (Err e), p1, f. split_and!; [done|by eapply prep_rep_more|done|done].
Qed.

Lemma runs_on cfg g p n w {A} (h : Bbg -> option (A * Bbg)) x b (k : A -> Preparing unit) Q :
  h (prep_bbg p) = Some (x, b) -> runs cfg g (set_prep_bbg p b) (k x) n w Q -> runs cfg g p (x ← on_bbg h; k x) n w Q.
Proof.
  intros E (r & p' & f' & E' & Hp' & X & HQ). exists r, p', f'. split_and!; [|done..].
  by rewrite sm_bind_eq, (on_bbg_eq _ _ _ _ E).
Qed.

Lemma runs_bind cfg g p n w n' w' (m k : Preparing unit) Q R :
  runs cfg g p m n w Q -> n <= n' -> w <= w' ->
  (forall p' f', PRep cfg g p' f' n w -> extends p p' -> Q f' -> runs cfg g p' k n' w' R) ->
  runs cfg g p (_ ← m; k) n' w' R.
Proof.
  intros (r & p1 & f1 & E & Hp1 & X & HQ) Hn Hw Hk. unfold runs. rewrite sm_bind_eq, E. destruct r as [[]|e].
  - destruct (Hk p1 f1 Hp1 X (HQ eq_refl)) as (r & p2 & f2 & E2 & Hp2 & X2 & HR). exists r, p2, f2.
    split_and!; [done|done|by etransitivity|done].
  - exists (Err e), p1, f1. split_and!; [done|by eapply prep_rep_more|done|done].
Qed.

Lemma runs_ret cfg g p f n w Q : PRep cfg g p f n w -> Q f -> runs cfg g p (mret tt) n w Q.
Proof. intros Hp HQ. by exists (Ok tt), p, f. Qed.

(** *** The steps of a block *)

Lemma bbg_root_ok b f cfg n w :
  BbgRep b f cfg n w -> w <= 2 ^ 32 ->
  exists b', bbg_root b = Some (view_root (f_view f), b') /\ BbgRep b' f cfg n w.
Proof.
  intros Hb Hw. destruct (compute_root_ok _ _ _ (br_state _ _ _ _ _ Hb) Hw (br_version _ _ _ _ _ Hb)) as (s & E & Hs).
  unfold bbg_root. rewrite E. cbn [mbind option_bind]. eexists. split; [done|]. by apply bbg_rep_state.
Qed.

Lemma same_touches f f' : same_frame f' f -> (forall a, agree f' f a) -> touches f f' [].
Proof. intros Hf Ha. split; [done|]. intros a _. apply Ha. Qed.

Lemma prep_same cfg g p f n w b' : PRep cfg g p f n w -> BbgRep b' f cfg n w -> PRep cfg g (set_prep_bbg p b') f n w.
Proof.
  intros Hp Hb'. eapply prep_step; [done|done|apply touches_refl| |apply Hp]. by intros a ?%elem_of_nil.
Qed.

(** The checkpoint is not in the log. *)
Lemma advance_ok cfg g p f n w :
  PRep cfg g p f n w -> w <= 2 ^ 32 ->
  runs cfg g p (on_bbg advance_checkpoint) n w
    (fun f' => f' = mkFView (f_view f) (f_touched f) (view_root (f_view f)) (v_height (f_view f))).
Proof.
  intros Hp Hw. pose proof (pp_rep _ _ _ _ _ _ Hp) as [Hs Ht Hc Hcp Hv Hh Hsm].
  destruct (compute_root_ok _ _ _ Hs Hw Hv) as (s & E & Hs').
  eexists (Ok tt), (set_prep_bbg p (mkBbg s _ _ _)), _. split_and!; [| |done|done].
  - apply on_bbg_eq. unfold advance_checkpoint, checkpoint_advance. rewrite E. reflexivity.
  - eapply (prep_step _ _ _ _ _ _ _ _ _ _ []); [exact Hp| |by apply same_touches; [|intros []]| |apply Hp].
    + split; cbn [bbg_state prune_state prune_config checkpoint f_view f_touched f_root f_height]; try done.
      by rewrite (sr_height _ _ _ Hs').
    + by intros a ?%elem_of_nil.
Qed.

Lemma next_rep b f cfg n w :
  BbgRep b f cfg n w -> w + 2 <= 2 ^ 32 ->
  exists h, checked_add (height (bbg_state b)) (of_Z 64 1) = Some h
    /\ BbgRep (with_bbg_state b (set_height (set_time (bbg_state b)
          (keyed_insert (time (bbg_state b)) (height (bbg_state b)) (view_root (f_view f))).2) h))
        (view_at (view_next (f_view f)) f) cfg n (w + 2).
Proof.
  intros [Hs Ht Hc Hcp Hv Hh Hsm] Hw. pose proof (uval_range (v_height (f_view f))) as Rh.
  exists (of_Z 64 (uval (v_height (f_view f)) + 1)). rewrite (sr_height _ _ _ Hs). split.
  { rewrite <- (of_Z_uval (v_height (f_view f))) at 1. apply checked_add_of_Z; simpl Z.of_N; lia. }
  destruct (keyed_rep_insert _ _ (v_height (f_view f)) (view_root (f_view f)) _ (sr_time _ _ _ Hs)) as [_ Htime].
  split; cbn [bbg_state prune_state prune_config checkpoint f_view f_touched f_root f_height with_bbg_state view_at]; try done.
  - apply (state_rep_weaken _ _ _ (w + 2)) in Hs; [|lia]. destruct Hs; by split.
  - cbn [v_height view_next put_height]. rewrite uval_of_Z_small; [lia|]. simpl Z.of_N. lia.
  - destruct Hsm. by split.
Qed.

Lemma prep_block_ok cfg g p f n w :
  PRep cfg g p f n w -> w + 2 <= 2 ^ 32 -> caught p (ATime (v_height (f_view f))) ->
  runs cfg g p prep_block n (w + 2) (fun f' => f' = view_at (view_next (f_view f)) f).
Proof.
  intros Hp Hw Hc. destruct (bbg_root_ok _ _ _ _ _ (pp_rep _ _ _ _ _ _ Hp) ltac:(lia)) as (b & E & Hb).
  unfold prep_block. apply (runs_on _ _ _ _ _ _ _ _ _ _ E).
  destruct (next_rep b f cfg n w Hb Hw) as (h & Eh & Hb').
  eexists (Ok tt), (set_prep_bbg (set_prep_bbg p b) _), _. split_and!; [|eapply prep_step| |].
  - apply on_bbg_eq. cbn [prep_bbg set_prep_bbg]. cbv zeta. cbn [height set_time]. rewrite Eh. reflexivity.
  - by apply prep_same.
  - exact Hb'.
  - instantiate (1 := [ATime (v_height (f_view f))]). split; [done|]. intros a Ha. destruct a; simpl; try done.
    rewrite lookup_insert_ne; [done|]. outside Ha.
  - intros a ->%list_elem_of_singleton. exact Hc.
  - apply Hp.
  - done.
  - done.
Qed.

Lemma prep_finalize_ok cfg g p f n w :
  PRep cfg g p f n w -> 0 <= n -> 0 <= w -> w + (2 + 6 * n) <= 2 ^ 32 -> caught p (ATime (v_height (f_view f))) ->
  runs cfg g p (_ ← prep_block; q ← sm_get;
                _ ← (if uval (height (bbg_state (prep_bbg q))) mod uval EPOCH_BLOCKS =? 0 then prep_prune else mret tt);
                _ ← on_bbg bbg_root; on_bbg advance_checkpoint) n (w + (2 + 6 * n))
    (bbg_spec cfg f BFinalize BDone).
Proof.
  intros Hp Hn Hw0 Hw Hc. eapply runs_bind; [apply prep_block_ok; [exact Hp|lia|exact Hc]|lia|lia|].
  intros p1 f1 Hp1 _ ->. set (f1 := view_at (view_next (f_view f)) f) in *.
  assert (forall f2 p2, PRep cfg g p2 f2 n (w + (2 + 6 * n)) ->
    runs cfg g p2 (_ ← on_bbg bbg_root; on_bbg advance_checkpoint) n (w + (2 + 6 * n))
      (fun f' => f' = mkFView (f_view f2) (f_touched f2) (view_root (f_view f2)) (v_height (f_view f2)))) as Hend.
  { intros f2 p2 Hp2. destruct (bbg_root_ok _ _ _ _ _ (pp_rep _ _ _ _ _ _ Hp2) ltac:(lia)) as (b & E & Hb).
    apply (runs_on _ _ _ _ _ _ _ _ _ _ E). apply advance_ok; [by apply prep_same|lia]. }
  pose proof (sr_height _ _ _ (br_state _ _ _ _ _ (pp_rep _ _ _ _ _ _ Hp1))) as Eh.
  enough (runs cfg g p1 (_ ← (if at_epoch (v_height (f_view f1)) then prep_prune else mret tt);
                         _ ← on_bbg bbg_root; on_bbg advance_checkpoint) n (w + (2 + 6 * n))
            (bbg_spec cfg f BFinalize BDone)) as (r & p2 & f2 & E & Hrest).
  { exists r, p2, f2. split; [|exact Hrest]. rewrite sm_bind_eq. cbn [sm_get]. rewrite Eh. exact E. }
  destruct (at_epoch (v_height (f_view f1))) eqn:Eep.
  - destruct (prep_prune_ok cfg g p1 f1 n (w + 2) Hp1) as (r & p2 & ids & E & Hp2 & X2 & K); [lia..|].
    eapply (runs_bind _ _ _ n (w + (2 + 6 * n)) _ _ _ _ (fun f' => f' = foldl fview_remove f1 ids /\ exists floor,
      rank_floor_of (v_particles (f_view f1)) (rank_floor_pct cfg) = Some floor
      /\ Pruned (f_view f1) (f_touched f1) cfg (epoch_of (v_height (f_view f1))) floor ids)); [|lia|lia|].
    { exists r, p2, (foldl fview_remove f1 ids). split_and!; [exact E| |exact X2|].
      - eapply prep_rep_weaken, Hp2. lia.
      - intros Hr. exact (conj eq_refl (K Hr)). }
    intros p3 f3 Hp3 _ (-> & floor & Hfl & Hpr). destruct (Hend _ _ Hp3) as (r3 & p4 & f4 & E4 & Hp4 & X4 & K4).
    exists r3, p4, f4. split_and!; [done|done|done|]. intros Hr. rewrite (K4 Hr), foldl_fview_remove.
    cbn [f_view f_touched f_root f_height].
    assert (forall ids v, v_height (foldl view_remove v ids) = v_height v) as Hhr.
    { clear. intros ids. induction ids as [|id ids IH]; intros v; [done|]. simpl. by rewrite IH, view_remove_height. }
    rewrite Hhr. by eapply (bs_prune cfg f floor ids).
  - destruct (Hend f1 p1) as (r3 & p4 & f4 & E4 & Hp4 & X4 & K4); [eapply prep_rep_weaken, Hp1; lia|].
    exists r3, p4, f4. split_and!; [exact E4|done|done|]. intros Hr. rewrite (K4 Hr). exact (bs_finalize cfg f Eep).
Qed.

End Tracking.
