(* ===== verification/NativeBatch.v ===== *)
(** * Batches of native changes

    What a prepared batch is: a published one moves the state as the facade's operations do, a
    failed or dropped one leaves it, and its changes are the difference of the records. *)

From S2P Require Import Prelude.
From S2P Require Import Crypto.
From S2P Require Import Trie.
From S2P Require Import Keyed.
From S2P Require Import AxonIndex.
From S2P Require Import Types.
From S2P Require Import Cards.
From S2P Require Import State.
From S2P Require Import StateSpec.
From S2P Require Import StateRoot.
From S2P Require Import Prune.
From S2P Require Import Ledger.
From S2P Require Import Facade.
From S2P Require Import Records.
From S2P Require Import Undo.
From S2P Require Import UndoSpec.
From S2P Require Import Transition.
From S2P Require Import TransitionSpec.

Local Open Scope Z_scope.

Section Native.
  Context `{Nebu, Hemera, !CryptoLaws, !Lens, !StableLaws}.

(** ** The abstract transitions *)

(** A signal its header describes, new, spending each of its nullifiers once and for the first time. *)
Record valid_signal (v : View) (sg : Signal) (header : SignalRecord) : Prop := {
  vs_neuron : sr_neuron header = s_neuron sg;
  vs_links : uval (sr_link_count header) = Z.of_nat (length (s_links sg));
  vs_height : sr_block_height header = s_height sg;
  vs_new : v_signals v !! signal_key (sr_neuron header) (sr_step header) = None;
  vs_once : NoDup (map nullifier (s_box_moves sg));
  vs_unspent : forall mv, mv ∈ s_box_moves sg -> v_nullifiers v !! nullifier mv = None;
  vs_credits : credits_fit (v_balances v) ∅ (s_links sg) = true;
}.

Definition focus_at (m : gmap NeuronId NeuronRecord) (n : NeuronId) : u64 :=
  from_option focus (of_Z 64 0) (m !! n).
Definition neuron_at (m : gmap NeuronId NeuronRecord) (n : NeuronId) : NeuronRecord :=
  from_option Datatypes.id no_neuron (m !! n).

Definition view_credit (v : View) (neuron token : Particle) (balance next : u64) : View :=
  put_neurons (put_balances v (<[balance_key neuron token := balance]> (v_balances v)))
    (<[neuron := with_focus (neuron_at (v_neurons v) neuron) next]> (v_neurons v)).

Inductive native_spec (cfg : PruneConfig) (f : FView) : NativeChange -> FView -> Prop :=
| ns_signal sg header f' :
    valid_signal (f_view f) sg header ->
    bbg_spec_run cfg f [BInsert sg; BRecord header; BFinalize]
      [BResult (Ok tt); BKey (signal_key (sr_neuron header) (sr_step header)); BDone] f' ->
    native_spec cfg f (NSignal sg header) f'
| ns_intent i f' :
    bbg_spec cfg f (BIntent i) (BKey (intent_key (ir_neuron i) (ir_h0 i) (ir_scope_hash i))) f' ->
    native_spec cfg f (NIntent i) f'
| ns_credit neuron token amount credit balance next :
    uval balance = uval (balance_at (v_balances (f_view f)) (balance_key neuron token)) + uval amount ->
    uval next = uval (focus_at (v_neurons (f_view f)) neuron) + uval credit ->
    let v := view_credit (f_view f) neuron token balance next in
    native_spec cfg f (NLocalCredit neuron token amount credit) (mkFView v (f_touched f) (view_root v) (v_height v)).

(** The heights and roots after each event. *)
Definition snapshot_of (f : FView) : Snapshot := mkSnapshot (v_height (f_view f)) (view_root (f_view f)).

Inductive native_run (cfg : PruneConfig) : FView -> list NativeChange -> list Snapshot -> FView -> Prop :=
| nr_nil f : native_run cfg f [] [] f
| nr_cons f e f1 es ss f2 :
    native_spec cfg f e f1 -> native_run cfg f1 es ss f2 -> native_run cfg f (e :: es) (snapshot_of f1 :: ss) f2.

(** Cells and links an event may add, from [n] links on. *)
Definition event_links (e : NativeChange) : Z :=
  match e with NSignal sg _ => Z.of_nat (length (s_links sg)) | NIntent _ => 0 | NLocalCredit _ _ _ _ => 1 end.

Definition event_cost (n : Z) (e : NativeChange) : Z :=
  match e with
  | NSignal sg _ => signal_cost sg + 2 + (2 + 6 * (n + Z.of_nat (length (s_links sg))))
  | NIntent _ => 0
  | NLocalCredit _ _ _ _ => 2
  end.

(** ** Validation *)

Lemma fresh_nullifiers_ok spent seen moves :
  fresh_nullifiers spent seen moves = true <->
  NoDup (map nullifier moves) /\ forall mv, mv ∈ moves -> spent !! nullifier mv = None /\ nullifier mv ∉ seen.
Proof.
  revert seen. induction moves as [|mv moves IH]; intros seen; cbn [fresh_nullifiers map].
  { split; [|done]. intros _. split; [constructor|]. by intros mv ?%elem_of_nil. }
  destruct (spent !! nullifier mv) eqn:Es.
  { split; [done|]. intros [_ Hall]. destruct (Hall mv) as [? _]; [constructor|congruence]. }
  case_bool_decide as Hs.
  { split; [done|]. intros [_ Hall]. by destruct (Hall mv) as [_ ?]; [constructor|]. }
  rewrite IH, NoDup_cons. split.
  - intros [Hn Hall]. split_and!; [|done|].
    + intros (mv' & E & Hin)%list_elem_of_fmap. destruct (Hall mv' Hin) as [_ Hx]. set_solver.
    + intros mv' [->|Hin]%elem_of_cons; [done|]. destruct (Hall mv' Hin). set_solver.
  - intros [[Hni Hn] Hall]. split; [done|]. intros mv' Hin.
    destruct (Hall mv') as [Hx Hy]; [by apply elem_of_cons; right|]. split; [done|].
    rewrite not_elem_of_union, not_elem_of_singleton. split; [|done]. intros E. apply Hni.
    apply list_elem_of_fmap. eauto.
Qed.

Lemma validate_ok b f cfg n w sg header :
  BbgRep b f cfg n w ->
  validate b sg (signal_key (sr_neuron header) (sr_step header)) header = Ok tt -> valid_signal (f_view f) sg header.
Proof.
  intros [Hs _ _ _ _ _ _]. unfold validate. rewrite (kr_map _ _ _ (sr_signals _ _ _ Hs)),
    (kr_map _ _ _ (sr_nullifiers _ _ _ Hs)), (kr_map _ _ _ (sr_balances _ _ _ Hs)).
  destruct (checked_add _ _); [|done]. case_match; [done|].
  destruct (bool_decide_reflect (sr_neuron header = s_neuron sg)); [|done].
  destruct (Z.eqb_spec (uval (sr_link_count header)) (Z.of_nat (length (s_links sg)))); [|done].
  destruct (bool_decide_reflect (sr_block_height header = s_height sg)); [|done]. cbn [negb orb].
  case_bool_decide as Hk; [done|]. case_match; [done|].
  destruct (fresh_nullifiers _ _ _) eqn:Ef; [|done]. apply fresh_nullifiers_ok in Ef as [Hn Hall].
  destruct (credits_fit _ _ _) eqn:Ec; [|done]. intros _. split; try done.
  - by apply eq_None_not_Some.
  - intros mv Hmv. by apply Hall.
Qed.

Lemma valid_insert v sg header :
  valid_signal v sg header -> view_insert v sg = (Ok tt, (view_insert v sg).2).
Proof.
  intros Hv. unfold view_insert. destruct (existsb (view_spent v) (s_box_moves sg)) eqn:E; [|done]. exfalso.
  apply existsb_exists in E as (mv & Hin & Hsp). unfold view_spent in Hsp.
  by rewrite (vs_unspent _ _ _ Hv mv) in Hsp by (by apply list_elem_of_In).
Qed.

(** ** The events *)

Lemma runs_err cfg g p f n w n' w' (m : SM TransitionError Prepared unit) e Q :
  PRep cfg g p f n w -> n <= n' -> w <= w' -> m p = Some (Err e, p) -> runs cfg g p m n' w' Q.
Proof. intros Hp Hn Hw E. exists (Err e), p, f. split_and!; [done|by eapply prep_rep_more|done|done]. Qed.

Lemma sm_bind_assoc {E S A} (a b : SM E S unit) (k : SM E S A) s :
  (_ ← (_ ← a; b); k) s = (_ ← a; _ ← b; k) s.
Proof. unfold mbind, sm_bind. by destruct (a s) as [[[|] ?]|]. Qed.

(** The captures of a signal. *)
Definition signal_addrs (f : FView) (sg : Signal) (key : Particle) : list Addr :=
  (((([ANeuron (s_neuron sg)] ++ [ATime (v_height (f_view f))]) ++ [ASignal key])
    ++ flat_map move_addrs (s_box_moves sg)) ++ flat_map link_addrs (s_links sg)).

Lemma capture_signal_ok f sg key height :
  height = v_height (f_view f) ->
  catches (_ ← (_ ← (_ ← (_ ← prep_capture 4 (blist (s_neuron sg)); prep_capture 9 (to_be_bytes 8 height));
                   prep_capture 10 (blist key)); sm_for (s_box_moves sg) capture_move); sm_for (s_links sg) capture_link)
    (signal_addrs f sg key).
Proof.
  intros ->. unfold signal_addrs. repeat apply catches_bind.
  - by apply (prep_capture_ok (ANeuron (s_neuron sg))).
  - by apply (prep_capture_ok (ATime (v_height (f_view f)))).
  - by apply (prep_capture_ok (ASignal key)).
  - apply catches_for, capture_move_ok.
  - apply catches_for, capture_link_ok.
Qed.

(** Insertion on a valid signal, as the facade's step. *)
Lemma insert_valid b f cfg n w sg header :
  BbgRep b f cfg n w -> valid_signal (f_view f) sg header -> w + signal_cost sg <= 2 ^ 32 ->
  exists b' f' e, bbg_insert b sg = Some (Ok tt, b') /\ bbg_spec cfg f (BInsert sg) (BResult (Ok tt)) f'
    /\ f' = mkFView (view_insert (f_view f) sg).2 (touch_links (f_touched f) (s_links sg) e) (f_root f) (f_height f)
    /\ BbgRep b' f' cfg (n + Z.of_nat (length (s_links sg))) (w + signal_cost sg).
Proof.
  intros Hb Hv Hw. pose proof (valid_insert _ _ _ Hv) as Ei.
  destruct (insert_step_ok b f cfg n w sg Hb Hw) as (out & b' & f' & E & Hsp & Hb').
  cbn [bbg_step] in E. destruct (bbg_insert b sg) as [[r b1]|]; [|done]. injection E as E1 E2. subst out b1.
  inversion Hsp as [sg' v E' | sg' e E' | | | | |]; subst; rewrite Ei in E'; [|done].
  injection E' as E'. subst v. eexists b', _, _. split_and!; [done|exact Hsp|done|done].
Qed.

(** The signal record, as the facade's step. *)
Lemma runs_record cfg g p f n w header :
  let key := signal_key (sr_neuron header) (sr_step header) in
  PRep cfg g p f n w -> w + 2 <= 2 ^ 32 -> caught p (ASignal key) ->
  exists p' f', on_bbg (fun b => Some (bbg_apply_signal_record b header)) p
      = Some (Ok key : result TransitionError Particle, p')
    /\ PRep cfg g p' f' n (w + 2) /\ extends p p' /\ bbg_spec cfg f (BRecord header) (BKey key) f'
    /\ v_height (f_view f') = v_height (f_view f).
Proof.
  intros key Hp Hw Hc. pose proof (pp_rep _ _ _ _ _ _ Hp) as Hb.
  pose proof (pp_rep _ _ _ _ _ _ Hp) as [Hs Ht Hcf Hcp Hv Hh Hsm].
  destruct (keyed_rep_insert _ _ key header _ (sr_signals _ _ _ Hs)) as [_ Hk].
  eexists _, _. split_and!; [by apply on_bbg_eq| |done|apply bs_record|done].
  eapply prep_step; [exact Hp| | | |apply Hp].
  - split; cbn [bbg_state prune_state prune_config checkpoint f_view f_touched f_root f_height]; try done; [|cbn; lia|].
    + apply (state_rep_weaken _ _ _ (w + 2)) in Hs; [|lia]. destruct Hs; by split.
    + destruct Hsm; by split.
  - instantiate (1 := [ASignal key]). split; [done|]. intros a Ha. destruct a; simpl; try done.
    rewrite lookup_insert_ne; [done|]. intros E. subst k. apply Ha. constructor.
  - by intros a ->%list_elem_of_singleton.
Qed.

Lemma prep_signal_ok cfg g p f n w sg header :
  PRep cfg g p f n w -> 0 <= n -> 0 <= w -> w + event_cost n (NSignal sg header) <= 2 ^ 32 ->
  runs cfg g p (prep_signal sg header) (n + event_links (NSignal sg header)) (w + event_cost n (NSignal sg header))
    (native_spec cfg f (NSignal sg header)).
Proof.
  intros Hp Hn Hw0 Hw. cbn [event_links event_cost] in *. pose proof (signal_cost_pos sg) as Hc.
  set (key := signal_key (sr_neuron header) (sr_step header)). set (n' := n + _). set (w' := w + _).
  assert (n <= n' /\ w <= w') as [Hnn Hww] by (subst n' w'; lia).
  destruct (validate (prep_bbg p) sg key header) as [[]|e] eqn:Ev.
  2: { apply (runs_err cfg g p f n w n' w' _ e); [done..|]. unfold prep_signal. sm_run. fold key. by rewrite Ev. }
  apply (validate_ok _ _ _ _ _ _ _ (pp_rep _ _ _ _ _ _ Hp)) in Ev as Hv.
  pose proof (sr_height _ _ _ (br_state _ _ _ _ _ (pp_rep _ _ _ _ _ _ Hp))) as Eh.
  match goal with |- runs _ _ _ ?m _ _ ?Q =>
    enough (exists rest : SM TransitionError Prepared unit, m p = (_ ← (_ ← (_ ← (_ ← (_ ←
      prep_capture 4 (blist (s_neuron sg)); prep_capture 9 (to_be_bytes 8 (height (bbg_state (prep_bbg p)))));
      prep_capture 10 (blist key)); sm_for (s_box_moves sg) capture_move); sm_for (s_links sg) capture_link); rest) p
      /\ forall p1, PRep cfg g p1 f n w -> (forall a, a ∈ signal_addrs f sg key -> caught p1 a) ->
           runs cfg g p1 rest n' w' Q) as (rest & Em & Hrest)
  end.
  { destruct (runs_catch cfg g p f n w n' w' _ _ rest (native_spec cfg f (NSignal sg header)) (capture_signal_ok f sg key _ Eh) Hp ltac:(lia) Hnn Hww)
      as (r & p' & f' & E & Hrun); [intros p1 Hp1 _ Hc1; by apply Hrest|].
    exists r, p', f'. split; [|exact Hrun]. by rewrite Em. }
  eexists. split.
  { unfold prep_signal. rewrite sm_bind_eq. cbn [sm_get]. cbv zeta. fold key. rewrite sm_bind_eq. cbn [sm_lift]. rewrite Ev.
    rewrite !sm_bind_assoc. reflexivity. }
  intros p1 Hp1 Hca. assert (forall A, A ⊆ signal_addrs f sg key -> forall a, a ∈ A -> caught p1 a) as Hsub by auto.
  destruct (insert_valid _ _ _ _ _ _ _ (pp_rep _ _ _ _ _ _ Hp1) Hv) as (b2 & f2 & e & E2 & Hsp2 & Ef2 & Hb2); [lia|].
  apply (runs_on _ _ _ _ _ _ _ _ _ _ E2). cbn beta.
  assert (PRep cfg g (set_prep_bbg p1 b2) f2 n' (w + signal_cost sg)) as Hp2.
  { eapply prep_step; [exact Hp1|exact Hb2|rewrite Ef2; apply insert_touches, (valid_insert _ _ _ Hv)|apply Hsub|].
    - intros a. unfold insert_addrs, signal_addrs. rewrite elem_of_cons, !elem_of_app, list_elem_of_singleton. tauto.
    - rewrite Ef2. eapply insert_stable; [apply (valid_insert _ _ _ Hv)|apply Hp1]. }
  destruct (runs_record cfg g (set_prep_bbg p1 b2) f2 n' (w + signal_cost sg) header Hp2) as (p3 & f3 & E3 & Hp3 & X3 & Hsp3 & Eh3).
  { lia. } { apply (Hsub [ASignal key]); [unfold signal_addrs; set_solver|constructor]. }
  destruct (prep_finalize_ok cfg g p3 f3 n' (w + signal_cost sg + 2) Hp3) as (r & p4 & f4 & E4 & Hp4 & X4 & K4).
  { lia. } { lia. } { subst n'. lia. }
  { apply X3. rewrite Eh3, Ef2. cbn [f_view]. rewrite view_insert_height.
    apply (Hsub [ATime (v_height (f_view f))]); [unfold signal_addrs; set_solver|constructor]. }
  exists r, p4, f4. split_and!.
  - rewrite sm_bind_eq. cbn [sm_lift map_err]. rewrite sm_bind_eq, E3. exact E4.
  - eapply prep_rep_more, Hp4; [lia|subst w' n'; lia].
  - by etransitivity.
  - intros Hr. econstructor; [exact Hv|]. econstructor; [exact Hsp2|]. econstructor; [exact Hsp3|].
    econstructor; [exact (K4 Hr)|]. constructor.
Qed.

Lemma prep_intent_ok cfg g p f n w i :
  PRep cfg g p f n w -> w <= 2 ^ 32 -> runs cfg g p (prep_intent i) n w (native_spec cfg f (NIntent i)).
Proof.
  intros Hp Hw. unfold prep_intent. change (native_intent_key i) with (intent_key (ir_neuron i) (ir_h0 i) (ir_scope_hash i)).
  set (key := intent_key _ _ _).
  eapply runs_catch; [by apply (prep_capture_ok (AIntent key))|exact Hp|exact Hw|lia|lia|].
  intros p1 Hp1 _ Hc. eapply runs_on; [reflexivity|]. eapply runs_ret; [|by apply ns_intent, bs_intent].
  pose proof (pp_rep _ _ _ _ _ _ Hp1) as [Hs Ht Hcf Hcp Hv Hh Hsm].
  eapply prep_step; [exact Hp1| |instantiate (1 := [AIntent key])|exact Hc|apply Hp1].
  - split; try done; [|by destruct Hsm]. destruct Hs; split; try done. cbn. congruence.
  - split; [done|]. intros a Ha. destruct a; simpl; try done. rewrite lookup_insert_ne; [done|].
    intros E. subst k. apply Ha. constructor.
Qed.

Lemma credit_rep b f cfg n w neuron token balance next :
  BbgRep b f cfg n w ->
  BbgRep (with_bbg_state b (set_neurons (set_balances (bbg_state b)
            (keyed_insert (balances (bbg_state b)) (balance_key neuron token) balance).2)
            (keyed_entry_or_insert (neurons (bbg_state b)) neuron no_neuron (fun n => with_focus n next))))
    (view_at (view_credit (f_view f) neuron token balance next) f) cfg (n + 1) (w + 2).
Proof.
  intros [Hs Ht Hcf Hcp Hv Hh [Sp St Sb]].
  destruct (keyed_rep_insert _ _ (balance_key neuron token) balance _ (sr_balances _ _ _ Hs)) as [_ Hk].
  pose proof (keyed_rep_entry _ _ neuron no_neuron (fun n => with_focus n next) _ (sr_neurons _ _ _ Hs)) as Hn.
  split; cbn [bbg_state prune_state prune_config checkpoint f_view f_touched f_root f_height with_bbg_state view_at];
    try done; [|cbn; lia|].
  - apply (state_rep_weaken _ _ _ (w + 2)) in Hs; [|lia]. destruct Hs; by split.
  - split; cbn [v_particles view_credit put_neurons put_balances]; [lia|lia|].
    unfold view_bytes in *. cbn [v_particles v_axons_out v_axons_in v_neurons view_credit put_neurons put_balances].
    match goal with |- context [<[neuron := ?r]> (v_neurons (f_view f))] =>
      pose proof (size_insert_le (v_neurons (f_view f)) neuron r) end. lia.
Qed.

Lemma credit_touches f neuron token balance next :
  touches f (view_at (view_credit (f_view f) neuron token balance next) f)
    ([ABalance (balance_key neuron token)] ++ [ANeuron neuron]).
Proof.
  split; [done|]. intros a Ha. destruct a; simpl; try done; rewrite lookup_insert_ne; try done;
    intros E; subst; apply Ha; [right|]; constructor.
Qed.

Lemma prep_credit_ok cfg g p f n w neuron token amount credit :
  PRep cfg g p f n w -> w + 2 <= 2 ^ 32 ->
  runs cfg g p (prep_credit neuron token amount credit) (n + 1) (w + 2)
    (native_spec cfg f (NLocalCredit neuron token amount credit)).
Proof.
  intros Hp Hw. pose proof (pp_rep _ _ _ _ _ _ Hp) as Hb. pose proof (br_state _ _ _ _ _ Hb) as Hs.
  set (key := balance_key neuron token).
  assert (overlay_balance (k_map (balances (bbg_state (prep_bbg p)))) ∅ key = balance_at (v_balances (f_view f)) key) as Eb.
  { unfold overlay_balance, balance_at. rewrite lookup_empty, (kr_map _ _ _ (sr_balances _ _ _ Hs)).
    by destruct (v_balances (f_view f) !! key). }
  assert (match k_map (neurons (bbg_state (prep_bbg p))) !! neuron with Some n => focus n | None => of_Z 64 0 end
          = focus_at (v_neurons (f_view f)) neuron) as Ef.
  { unfold focus_at. rewrite (kr_map _ _ _ (sr_neurons _ _ _ Hs)). by destruct (v_neurons (f_view f) !! neuron). }
  destruct (checked_add (balance_at (v_balances (f_view f)) key) amount) as [balance|] eqn:E1.
  2: { eapply runs_err; [exact Hp|lia|lia|]. unfold prep_credit. sm_run. fold key. rewrite Eb, E1. reflexivity. }
  destruct (checked_add (focus_at (v_neurons (f_view f)) neuron) credit) as [next|] eqn:E2.
  2: { eapply runs_err; [exact Hp|lia|lia|]. unfold prep_credit. sm_run. fold key. rewrite Eb, E1, Ef, E2. reflexivity. }
  apply checked_add_Some in E1 as U1. apply checked_add_Some in E2 as U2.
  set (body := _ ← prep_capture 13 (blist key); _ ← prep_capture 4 (blist neuron);
    _ ← on_bbg (fun b => Some (tt, with_bbg_state b (set_neurons (set_balances (bbg_state b)
            (keyed_insert (balances (bbg_state b)) key balance).2)
            (keyed_entry_or_insert (neurons (bbg_state b)) neuron no_neuron (fun n => with_focus n next)))));
    _ ← on_bbg bbg_root; on_bbg advance_checkpoint : SM TransitionError Prepared unit).
  enough (runs cfg g p body (n + 1) (w + 2) (native_spec cfg f (NLocalCredit neuron token amount credit)))
    as (r & p' & f' & E & Hrest).
  { exists r, p', f'. split; [|exact Hrest]. rewrite <- E. unfold prep_credit. sm_run. fold key. rewrite Eb, E1, Ef, E2.
    reflexivity. }
  eapply runs_catch; [by apply (prep_capture_ok (ABalance key))|exact Hp|lia|lia|lia|]. intros p1 Hp1 _ C1.
  eapply runs_catch; [by apply (prep_capture_ok (ANeuron neuron))|exact Hp1|lia|lia|lia|]. intros p2 Hp2 X2 C2.
  eapply runs_on; [reflexivity|].
  assert (PRep cfg g (set_prep_bbg p2 (with_bbg_state (prep_bbg p2) (set_neurons (set_balances (bbg_state (prep_bbg p2))
            (keyed_insert (balances (bbg_state (prep_bbg p2))) key balance).2)
            (keyed_entry_or_insert (neurons (bbg_state (prep_bbg p2))) neuron no_neuron (fun n => with_focus n next)))))
          (view_at (view_credit (f_view f) neuron token balance next) f) (n + 1) (w + 2)) as Hp3.
  { eapply prep_step; [exact Hp2|apply credit_rep, (pp_rep _ _ _ _ _ _ Hp2)|apply credit_touches| |apply Hp2].
    intros a [Ha|Ha]%elem_of_app; [apply X2; by apply C1|by apply C2]. }
  destruct (bbg_root_ok _ _ _ _ _ (pp_rep _ _ _ _ _ _ Hp3) ltac:(lia)) as (b4 & E4 & Hb4).
  eapply runs_on; [exact E4|].
  destruct (advance_ok cfg g _ _ (n + 1) (w + 2) (prep_same _ _ _ _ _ _ _ Hp3 Hb4)) as (r & p5 & f5 & E5 & Hp5 & X5 & K5); [lia|].
  exists r, p5, f5. split_and!; [exact E5|exact Hp5|exact X5|]. intros Hr. rewrite (K5 Hr). exact (ns_credit cfg f neuron token amount credit balance next U1 U2).
Qed.

(** ** The batch *)

(** [p'] keeps what [p] has caught, and its changes. *)
Definition carries (p p' : Prepared) : Prop :=
  prep_changes p' = prep_changes p /\ forall a, caught p a -> caught p' a.

#[export] Instance carries_refl : Reflexive carries.
Proof. done. Qed.
#[export] Instance carries_trans : Transitive carries.
Proof. intros p q r (C & Q) (C' & Q'). split; [congruence|auto]. Qed.

(** What a preparation has recorded does not matter to its invariant. *)
Lemma prep_rep_recorded cfg g p f n w cs ss :
  PRep cfg g p f n w -> PRep cfg g (mkPrepared (prep_bbg p) (prep_undo p) cs ss) f n w.
Proof. by intros []. Qed.

Lemma prep_event_ok cfg g p f n w e :
  PRep cfg g p f n w -> 0 <= n -> 0 <= w -> w + event_cost n e <= 2 ^ 32 ->
  exists r p' f', prep_event e p = Some (r, p') /\ PRep cfg g p' f' (n + event_links e) (w + event_cost n e)
    /\ carries p p' /\ (r = Ok tt -> native_spec cfg f e f' /\ prep_snapshots p' = prep_snapshots p ++ [snapshot_of f']).
Proof.
  intros Hp Hn Hw0 Hw.
  assert (runs cfg g p (match e with
       | NSignal sg header => prep_signal sg header
       | NIntent i => prep_intent i
       | NLocalCredit neuron token amount credit => prep_credit neuron token amount credit
       end) (n + event_links e) (w + event_cost n e) (native_spec cfg f e)) as (r & p1 & f1 & E & Hp1 & (X1 & X2 & X3) & K).
  { destruct e as [sg header|i|neuron token amount credit].
    - by apply prep_signal_ok.
    - cbn [event_links event_cost] in *. rewrite !Z.add_0_r in *. by apply prep_intent_ok.
    - by apply prep_credit_ok. }
  unfold prep_event. rewrite sm_bind_eq, E. destruct r as [[]|err].
  2: { exists (Err err), p1, f1. by split_and!. }
  destruct (bbg_root_ok _ _ _ _ _ (pp_rep _ _ _ _ _ _ Hp1) Hw) as (b2 & E2 & Hb2).
  rewrite sm_bind_eq, (on_bbg_eq _ _ _ _ E2). cbn [sm_modify].
  eexists (Ok tt), _, f1. split_and!; [reflexivity| |split; [done|exact X3]|].
  - exact (prep_rep_recorded _ _ _ _ _ _ _ _ (prep_same _ _ _ _ _ _ _ Hp1 Hb2)).
  - intros _. split; [by apply K|]. cbn [prep_snapshots prep_bbg set_prep_bbg].
    rewrite X2. unfold snapshot_of. by rewrite (sr_height _ _ _ (br_state _ _ _ _ _ Hb2)).
Qed.

Fixpoint events_cost (n : Z) (es : list NativeChange) : Z :=
  match es with [] => 0 | e :: es => event_cost n e + events_cost (n + event_links e) es end.
Definition events_links (es : list NativeChange) : Z := zsum event_links es.

Lemma event_links_pos e : 0 <= event_links e.
Proof. destruct e; simpl; lia. Qed.

Lemma event_cost_pos n e : 0 <= n -> 0 <= event_cost n e.
Proof. intros Hn. destruct e as [sg h| |]; simpl; [pose proof (signal_cost_pos sg)|..]; lia. Qed.

Lemma events_links_pos es : 0 <= events_links es.
Proof. apply zsum_nonneg, event_links_pos. Qed.

Lemma events_links_cons e es : events_links (e :: es) = event_links e + events_links es.
Proof. done. Qed.

Lemma events_cost_pos n es : 0 <= n -> 0 <= events_cost n es.
Proof.
  revert n. induction es as [|e es IH]; intros n Hn; simpl; [lia|].
  pose proof (event_cost_pos n e Hn). pose proof (event_links_pos e). specialize (IH (n + event_links e)). lia.
Qed.

Lemma prep_events_ok cfg g es p f n w :
  PRep cfg g p f n w -> 0 <= n -> 0 <= w -> w + events_cost n es <= 2 ^ 32 ->
  exists r p' f', sm_for es prep_event p = Some (r, p')
    /\ PRep cfg g p' f' (n + events_links es) (w + events_cost n es) /\ carries p p'
    /\ (r = Ok tt -> exists ss, native_run cfg f es ss f' /\ prep_snapshots p' = prep_snapshots p ++ ss).
Proof.
  revert p f n w. induction es as [|e es IH]; intros p f n w Hp Hn Hw0 Hw.
  { exists (Ok tt), p, f. unfold events_links. cbn. rewrite !Z.add_0_r. split_and!; [done..|]. intros _. exists [].
    rewrite app_nil_r. split; [constructor|done]. }
  cbn [events_cost] in *. rewrite events_links_cons.
  pose proof (event_links_pos e). pose proof (event_cost_pos n e Hn). pose proof (events_links_pos es).
  pose proof (events_cost_pos (n + event_links e) es ltac:(lia)).
  destruct (prep_event_ok cfg g p f n w e Hp) as (r & p1 & f1 & E & Hp1 & X1 & K1); [lia..|].
  cbn [sm_for]. rewrite sm_bind_eq, E. destruct r as [[]|err].
  2: { exists (Err err), p1, f1. split_and!; [done| |done|done]. eapply prep_rep_more, Hp1; lia. }
  destruct (IH p1 f1 (n + event_links e) (w + event_cost n e) Hp1) as (r & p2 & f2 & E2 & Hp2 & X2 & K2); [lia..|].
  exists r, p2, f2. split_and!; [done| |by etransitivity|].
  - eapply prep_rep_more, Hp2; lia.
  - intros Hr. destruct (K1 eq_refl) as [Hs1 S1]. destruct (K2 Hr) as (ss & Hrun & S2).
    exists (snapshot_of f1 :: ss). split; [by econstructor|]. by rewrite S2, S1, <- app_assoc.
Qed.

(** *** The changes *)

(** The write set of a preparation: each address whose record differs, once, in key order, with the
    record it now has. *)
Record exact_changes (cfg : PruneConfig) (g f : FView) (cs : list RecordChange) : Prop := {
  ec_exact : forall c, c ∈ cs <->
    exists a, c = mkRecordChange (addr_key a) (cell cfg f a) /\ cell cfg f a <> cell cfg g a;
  ec_once : NoDup (map change_key cs);
  ec_sorted : StronglySorted key_le (map change_key cs);
}.

Lemma bounded_step cfg g p f n w a :
  PRep cfg g p f n w -> w <= 2 ^ 32 ->
  exists r p', on_bbg (fun b => bounded_read b (addr_key a)) p = Some (Ok r, p') /\ PRep cfg g p' f n w
    /\ extends p p' /\ (r = Ok (cell cfg f a) \/ exists e, r = Err e).
Proof.
  intros Hp Hw. destruct (bounded_read_ok _ _ _ _ _ a (pp_rep _ _ _ _ _ _ Hp) Hw) as (r & b & E & Hb & Hr).
  exists r, (set_prep_bbg p b). split_and!; [by apply on_bbg_eq|by apply prep_same|done|].
  destruct Hr as [[-> _]|Hr]; [by left|by right].
Qed.

Lemma collect_changes_ok cfg g f n w saved bytes p :
  Forall (is_saved cfg g) saved -> PRep cfg g p f n w -> w <= 2 ^ 32 ->
  exists r p', collect_changes saved bytes p = Some (r, p') /\ PRep cfg g p' f n w
    /\ prep_snapshots p' = prep_snapshots p
    /\ (r = Ok tt -> exists cs, prep_changes p' = prep_changes p ++ cs
        /\ sublist (map change_key cs) saved.*1
        /\ forall c, c ∈ cs <-> exists a, addr_key a ∈ saved.*1
             /\ c = mkRecordChange (addr_key a) (cell cfg f a) /\ cell cfg f a <> cell cfg g a).
Proof.
  intros Hall. revert bytes p. induction Hall as [|[key val] saved (a & Ek & Ev & Hf) _ IH]; intros bytes p Hp Hw.
  { exists (Ok tt), p. split_and!; [done..|]. intros _. exists []. rewrite app_nil_r. split_and!; [done|done|].
    intros c. split; [by intros ?%elem_of_nil|]. by intros (a & ?%elem_of_nil & _). }
  simpl in Ek, Ev. subst key val. cbn [collect_changes].
  destruct (bounded_step cfg g p f n w a Hp Hw) as (r & p1 & E & Hp1 & (X1 & X2 & X3) & Hr).
  rewrite sm_bind_eq, E. destruct Hr as [->|[e ->]]; rewrite sm_bind_eq; cbn [sm_lift]; [|by exists (Err e), p1].
  case_bool_decide as Hd.
  - destruct (IH bytes p1 Hp1 Hw) as (r & p2 & E2 & Hp2 & S2 & K). exists r, p2. split_and!; [done|done|congruence|].
    intros Hr. destruct (K Hr) as (cs & C & Hsub & Hin). exists cs. split_and!; [congruence|by apply sublist_cons|].
    intros c. rewrite Hin. split; intros (a' & Ha & Ec & Hne); exists a'; (split; [|done]); rewrite fmap_cons, elem_of_cons in *; [by right|].
    destruct Ha as [Ha%(inj addr_key)|]; [subst a'; by destruct Hne|done].
  - case_match; [by eexists _, p1|]. rewrite sm_bind_eq. cbn [sm_modify].
    match goal with |- context [collect_changes saved ?bs ?q] =>
      destruct (IH bs q (prep_rep_recorded _ _ _ _ _ _ _ _ Hp1) Hw) as (r & p2 & E2 & Hp2 & S2 & K) end.
    exists r, p2. split_and!; [done|done|cbn in S2; congruence|].
    intros Hr. destruct (K Hr) as (cs & C & Hsub & Hin). cbn [prep_changes] in C. rewrite X1, <- app_assoc in C.
    eexists. split_and!; [exact C|cbn; by apply sublist_skip|].
    intros c. cbn [app]. rewrite elem_of_cons, Hin. split.
    + intros [->|(a' & Ha & Ec & Hne)]; [exists a|exists a']; (split; [|done]); rewrite fmap_cons, elem_of_cons; [by left|by right].
    + intros (a' & Ha & -> & Hne). rewrite fmap_cons, elem_of_cons in Ha.
      destruct Ha as [Ha%(inj addr_key)|]; [left; by subst a'|right; eauto].
Qed.

Lemma prep_collect_ok cfg g p f n w :
  PRep cfg g p f n w -> w <= 2 ^ 32 -> caught p AMeta ->
  exists r p', prep_collect p = Some (r, p') /\ PRep cfg g p' f n w /\ prep_snapshots p' = prep_snapshots p
    /\ (r = Ok tt -> exists cs, prep_changes p' = prep_changes p ++ cs /\ exact_changes cfg g f cs).
Proof.
  intros Hp Hw (u & Eu & Hm). pose proof (pp_undo _ _ _ _ _ _ Hp) as (u' & Eu' & Hu & Hall).
  assert (u' = u) as -> by congruence. unfold prep_collect. sm_run. rewrite Eu. cbn [mbind option_bind].
  destruct (collect_changes_ok cfg g f n w (btree_iter (undo_values u)) 0 p) as (r & p' & E & Hp' & S & K); [|done|done|].
  { apply Forall_forall. intros [key val] Hin%elem_of_btree_iter. by apply (sv_values _ _ _ Hu). }
  exists r, p'. split_and!; [done..|]. intros Hr. destruct (K Hr) as (cs & C & Hsub & Hin). exists cs. split; [done|].
  split.
  - intros c. rewrite Hin. split; [intros (a & _ & Ha); by exists a|]. intros (a & -> & Hne). exists a. split; [|done].
    assert (captured u a) as [val Hv].
    { destruct (Hall a) as [Hc|Hg]; [done|]. destruct (decide (a = AMeta)) as [->|Ha]; [done|].
      by destruct Hne; apply agree_cell. }
    apply list_elem_of_fmap. exists (addr_key a, val). split; [done|]. by apply elem_of_btree_iter.
  - eapply sublist_NoDup; [|exact Hsub]. apply NoDup_btree_iter.
  - eapply sublist_sorted; [exact Hsub|apply btree_keys_sorted].
Qed.

Lemma prep_start b f cfg n w :
  BbgRep b f cfg n w -> stable_commitments f -> PRep cfg f (mkPrepared b (Some (undo_new b)) [] []) f n w.
Proof.
  intros Hb Hst. pose proof Hb as [Hs _ _ Hcp _ _ _]. split; [done| |done|done].
  exists (undo_new b). split_and!; [done| |intros a; right; apply agree_refl].
  split; cbn [undo_new undo_values undo_height undo_checkpoint_root undo_checkpoint_height]; [|done|apply Hs|by rewrite Hcp..].
  apply map_Forall_empty.
Qed.

Lemma capture_meta_ok cfg f p n w :
  PRep cfg f p f n w -> w <= 2 ^ 32 ->
  exists r p', prep_capture 0 [] p = Some (r, p') /\ PRep cfg f p' f n w /\ extends p p' /\ (r = Ok tt -> caught p' AMeta).
Proof.
  intros [Hb (u & Eu & Hu & Hall) Hfr Hst] Hw. unfold prep_capture. rewrite Eu. cbn [mbind option_bind].
  change (record_key (of_Z 8 0) []) with (addr_key AMeta).
  destruct (capture_ok cfg f u _ f n w AMeta Hb Hw Hu) as (r & u' & b' & -> & Hb' & Hu' & Hmono & Hr); [by right|].
  cbn [mbind option_bind]. eexists _, _. split_and!; [done| |split_and!; [done|done|]|].
  - split; [done| |done|done]. exists u'. split_and!; [done|done|]. intros c. right. apply agree_refl.
  - intros c (u1 & E1 & Hc). exists u'. split; [done|]. apply Hmono. congruence.
  - intros ->. exists u'. split; [done|]. by apply Hr.
Qed.

Lemma prep_batch_ok cfg f p n w es :
  PRep cfg f p f n w -> 0 <= n -> 0 <= w -> w + events_cost n es <= 2 ^ 32 -> prep_changes p = [] -> prep_snapshots p = [] ->
  exists r p' f', prep_batch es p = Some (r, p') /\ PRep cfg f p' f' (n + events_links es) (w + events_cost n es)
    /\ (r = Ok tt -> native_run cfg f es (prep_snapshots p') f' /\ exact_changes cfg f f' (prep_changes p')).
Proof.
  intros Hp Hn Hw0 Hw Ec Es. pose proof (events_cost_pos n es Hn). pose proof (events_links_pos es).
  destruct (capture_meta_ok cfg f p n w Hp) as (r & p1 & E1 & Hp1 & (C1 & S1 & _) & K1); [lia|].
  unfold prep_batch. rewrite sm_bind_eq, E1. destruct r as [[]|e].
  2: { exists (Err e), p1, f. split_and!; [done| |done]. eapply prep_rep_more, Hp1; lia. }
  destruct (prep_events_ok cfg f es p1 f n w Hp1) as (r & p2 & f2 & E2 & Hp2 & (C2 & X2) & K2); [lia..|].
  rewrite sm_bind_eq, E2. destruct r as [[]|e]; [|by exists (Err e), p2, f2].
  destruct (prep_collect_ok cfg f p2 f2 _ _ Hp2) as (r & p3 & E3 & Hp3 & S3 & K3); [lia|apply X2; by apply K1|].
  exists r, p3, f2. split_and!; [done|done|]. intros Hr. destruct (K2 eq_refl) as (ss & Hrun & S2).
  destruct (K3 Hr) as (cs & C3 & Hcs). rewrite S3, S2, S1, Es, C3, C2, C1, Ec. done.
Qed.

Lemma prep_drop_ok cfg g p f n w b0 n0 w0 :
  PRep cfg g p f n w -> BbgRep b0 g cfg n0 w0 -> stable_commitments g -> 0 <= w -> w0 <= w -> w + undo_room <= 2 ^ 32 ->
  exists b', prep_drop p = Some b' /\ BbgRep b' g cfg n0 (w + undo_room).
Proof.
  intros [[Hs Ht Hc Hcp Hv Hh Hsm] (u & Eu & Hu & Hall) Hfr Hst] [Hs0 Ht0 Hc0 Hcp0 Hv0 Hh0 Hsm0] Hg Hpos Hw0 Hw.
  unfold prep_drop. rewrite Eu.
  destruct (undo_restore_ok cfg (prep_bbg p) f g u w) as (b' & -> & Hs' & Ht' & Hc' & Hcp'); try done.
  - by rewrite Hcp.
  - by eapply restorable_lists.
  - exists b'. split; [done|]. split; try done; [congruence|]. unfold undo_room. lia.
Qed.

(** The outcome of a preparation. *)
Lemma prepare_ok b f cfg n w es :
  BbgRep b f cfg n w -> stable_commitments f -> 0 <= n -> 0 <= w -> w + events_cost n es + undo_room <= 2 ^ 32 ->
  exists out, prepare_native_batch b es = Some out
    /\ match out with
       | Err (e, b') => BbgRep b' f cfg n (w + events_cost n es + undo_room)
       | Ok p => exists f', native_run cfg f es (prep_snapshots p) f' /\ exact_changes cfg f f' (prep_changes p)
           /\ stable_commitments f' /\ same_frame f' f
           /\ (exists b', publish p = Some b' /\ BbgRep b' f' cfg (n + events_links es) (w + events_cost n es))
           /\ exists b', prep_drop p = Some b' /\ BbgRep b' f cfg n (w + events_cost n es + undo_room)
       end.
Proof.
  intros Hb Hst Hn Hw0 Hw. pose proof (events_cost_pos n es Hn). unfold undo_room in *.
  assert (BbgRep b f cfg n (w + events_cost n es + 2 ^ 20)) as Hskip by (eapply bbg_rep_weaken, Hb; lia).
  unfold prepare_native_batch. case_match; [by eexists|]. case_bool_decide; [by eexists|]. case_match; [by eexists|].
  destruct (prep_batch_ok cfg f _ n w es (prep_start b f cfg n w Hb Hst)) as (r & p & f' & E & Hp & K); [lia..|done|done|].
  destruct (prep_drop_ok cfg f p f' _ _ b n w Hp Hb Hst) as (b' & Ed & Hd); [lia..|unfold undo_room; lia|].
  rewrite E. cbn [mbind option_bind]. destruct r as [[]|e]; eexists; (split; [by rewrite ?Ed|]); [|done].
  destruct (K eq_refl) as [Hrun Hcs]. exists f'. split_and!; [done|done|apply Hp|apply Hp| |by exists b'].
  exists (prep_bbg p). split; [done|apply Hp].
Qed.

(** C17: a preparation that fails or is dropped leaves the state as it was. From any state that
    fits, preparing a batch never panics; its error, or dropping what it prepared, answers a state
    with the records, height, root, checkpoint and pruning history of the start, whatever part of
    the batch had run: insertions, blocks, pruning, credits. *)
Theorem transition_rolls_back b f cfg n w es :
  BbgRep b f cfg n w -> stable_commitments f -> 0 <= n -> 0 <= w -> w + events_cost n es + undo_room <= 2 ^ 32 ->
  exists out, prepare_native_batch b es = Some out
    /\ (forall p, out = Ok p -> is_Some (prep_drop p))
    /\ forall b', (exists e, out = Err (e, b')) \/ (exists p, out = Ok p /\ prep_drop p = Some b') ->
         BbgRep b' f cfg n (w + events_cost n es + undo_room)
         /\ height (bbg_state b') = height (bbg_state b) /\ checkpoint b' = checkpoint b /\ prune_state b' = prune_state b
         /\ exists s, compute_root (bbg_state b') = Some (view_root (f_view f), s).
Proof.
  intros Hb Hst Hn Hw0 Hw. destruct (prepare_ok b f cfg n w es Hb Hst Hn Hw0 Hw) as (out & E & Hout).
  assert (forall b', BbgRep b' f cfg n (w + events_cost n es + undo_room) ->
    BbgRep b' f cfg n (w + events_cost n es + undo_room)
    /\ height (bbg_state b') = height (bbg_state b) /\ checkpoint b' = checkpoint b /\ prune_state b' = prune_state b
    /\ exists s, compute_root (bbg_state b') = Some (view_root (f_view f), s)) as Hsame.
  { intros b' Hb'. pose proof Hb as [Hs Ht _ Hcp Hv _ _]. pose proof Hb' as [Hs' Ht' _ Hcp' _ _ _].
    destruct (compute_root_ok _ _ _ Hs' Hw Hv) as (s & Er & _).
    split_and!; [done|by rewrite (sr_height _ _ _ Hs), (sr_height _ _ _ Hs')|congruence..|eauto]. }
  exists out. split_and!; [done| |].
  - intros p ->. destruct Hout as (f' & _ & _ & _ & _ & _ & b' & -> & _). eauto.
  - intros b' [[e ->]|(p & -> & Ed)]; [by apply Hsame|].
    destruct Hout as (f' & _ & _ & _ & _ & _ & b1 & Ed' & Hb1). apply Hsame. congruence.
Qed.

(** C19: a published batch moves the state as the facade's operations do. Every signal was valid
    where it ran and is inserted, recorded and its block finalized, with the pruning of the policy
    at an epoch; every intent is applied; every local credit adds to a balance and a focus without
    overflow and advances the checkpoint. The snapshots are the heights and roots after each
    event. *)
Theorem transition_publishes b f cfg n w es p :
  BbgRep b f cfg n w -> stable_commitments f -> 0 <= n -> 0 <= w -> w + events_cost n es + undo_room <= 2 ^ 32 ->
  prepare_native_batch b es = Some (Ok p) ->
  exists f' b', native_run cfg f es (prep_snapshots p) f' /\ publish p = Some b'
    /\ BbgRep b' f' cfg (n + events_links es) (w + events_cost n es) /\ stable_commitments f'.
Proof.
  intros Hb Hst Hn Hw0 Hw E. destruct (prepare_ok b f cfg n w es Hb Hst Hn Hw0 Hw) as (out & E' & Hout).
  rewrite E in E'. injection E' as <-. destruct Hout as (f' & Hrun & _ & Hst' & _ & (b' & Ep & Hb') & _).
  exists f', b'. by split_and!.
Qed.

(** A preparation spends a nullifier at most once. A batch whose first signal repeats a
    nullifier among its own box moves, or moves a spent one, is refused and the state kept, where
    the facade's insertion accepts the repetition. *)
Theorem double_spend_rejected b f cfg n w sg header es :
  BbgRep b f cfg n w -> stable_commitments f -> 0 <= n -> 0 <= w ->
  w + events_cost n (NSignal sg header :: es) + undo_room <= 2 ^ 32 ->
  ~ NoDup (map nullifier (s_box_moves sg)) \/ existsb (view_spent (f_view f)) (s_box_moves sg) = true ->
  exists e b', prepare_native_batch b (NSignal sg header :: es) = Some (Err (e, b'))
    /\ BbgRep b' f cfg n (w + events_cost n (NSignal sg header :: es) + undo_room).
Proof.
  intros Hb Hst Hn Hw0 Hw Hbad. destruct (prepare_ok _ f cfg n w _ Hb Hst Hn Hw0 Hw) as ([p|[e b']] & E & Hout); [|by eexists e, b'].
  exfalso. destruct Hout as (f' & Hrun & _). inversion Hrun as [|? ? f1 ? ss ? Hsp]; subst.
  inversion Hsp as [? ? ? Hv| |]; subst. destruct Hbad as [Hbad|Hbad]; [by apply Hbad, Hv|].
  apply existsb_exists in Hbad as (mv & Hin & Hmv). unfold view_spent in Hmv.
  by rewrite (vs_unspent _ _ _ Hv mv) in Hmv by (by apply list_elem_of_In).
Qed.

End Native.

(** ** Witnesses *)

Import Toy.

#[export] Instance stable_laws : StableLaws.
Proof.
  split. intros v. apply uint_eq. cbn. rewrite !mod_P_u64. apply Z.mod_mod. unfold field_P. lia.
Qed.

Definition sample_header (step : Z) : SignalRecord :=
  mkSignalRecord (s_neuron sample_signal) (id32 90) (of_Z 32 (Z.of_nat (length (s_links sample_signal))))
    (s_height sample_signal) (id32 91) (of_Z 64 step).

Definition sample_events : list NativeChange :=
  [NLocalCredit (s_neuron sample_signal) (id32 3) (of_Z 64 500) (of_Z 64 70);
   NSignal sample_signal (sample_header 1);
   NIntent (mkIntentRecord (id32 1) (of_Z 64 0) (id32 9) (buffer 64 []))].

Lemma new_stable : stable_commitments fview_new.
Proof. apply map_Forall_empty. Qed.

Definition prepared_sample : option (result (TransitionError * Bbg) Prepared) :=
  b ← bbg_new; prepare_native_batch (with_prune_config b prune_config_default) sample_events.

Definition is_prepared (o : option (result (TransitionError * Bbg) Prepared)) : bool :=
  match o with Some (Ok _) => true | _ => false end.

Lemma sample_is_prepared : is_prepared prepared_sample = true.
Proof. vm_compute. reflexivity. Qed.

(** The prepared sample. *)
Lemma sample_prepared b :
  bbg_new = Some b ->
  exists p, prepare_native_batch (with_prune_config b prune_config_default) sample_events = Some (Ok p).
Proof.
  intros Eb. pose proof sample_is_prepared as E. unfold prepared_sample in E. rewrite Eb in E. cbn [mbind option_bind] in E.
  destruct (prepare_native_batch _ _) as [[p|]|]; [by exists p|done..].
Qed.

Lemma sample_fits : 0 + events_cost 0 sample_events + undo_room <= 2 ^ 32.
Proof. by vm_compute. Qed.

Lemma transition_rolls_back_witness :
  exists b p b', bbg_new = Some b
    /\ prepare_native_batch (with_prune_config b prune_config_default) sample_events = Some (Ok p)
    /\ prep_drop p = Some b' /\ checkpoint b' = checkpoint b.
Proof.
  destruct (bbg_rep_new prune_config_default) as (b & Eb & Hb). destruct (sample_prepared b Eb) as (p & Ep).
  destruct (transition_rolls_back _ _ _ 0 0 sample_events Hb new_stable (Z.le_refl 0) (Z.le_refl 0) sample_fits)
    as (out & E & Hd & Hr).
  rewrite Ep in E. injection E as <-. destruct (Hd p eq_refl) as [b' Ed].
  destruct (Hr b' (or_intror (ex_intro _ p (conj eq_refl Ed)))) as (_ & _ & Hc & _).
  exists b, p, b'. exact (conj Eb (conj Ep (conj Ed Hc))).
Defined.

Lemma transition_publishes_witness :
  exists b p f' b', bbg_new = Some b
    /\ prepare_native_batch (with_prune_config b prune_config_default) sample_events = Some (Ok p)
    /\ native_run prune_config_default fview_new sample_events (prep_snapshots p) f' /\ publish p = Some b'.
Proof.
  destruct (bbg_rep_new prune_config_default) as (b & Eb & Hb). destruct (sample_prepared b Eb) as (p & Ep).
  destruct (transition_publishes _ _ _ 0 0 sample_events p Hb new_stable (Z.le_refl 0) (Z.le_refl 0) sample_fits Ep)
    as (f' & b' & Hrun & Epub & _).
  exists b, p, f', b'. exact (conj Eb (conj Ep (conj Hrun Epub))).
Defined.

(** A signal that moves one nullifier twice. *)
Definition twice_signal : Signal :=
  mkSignal (id32 1) [] [mkBoxMove (id32 6) None; mkBoxMove (id32 6) (Some (id32 7, of_Z 64 8))] (of_Z 64 0).

Lemma twice_not_once : ~ NoDup (map nullifier (s_box_moves twice_signal)).
Proof. intros [Hn _]%NoDup_cons. apply Hn. constructor. Qed.

Lemma double_spend_rejected_witness :
  exists b e b', bbg_new = Some b
    /\ prepare_native_batch (with_prune_config b prune_config_default) [NSignal twice_signal (sample_header 1)]
       = Some (Err (e, b')).
Proof.
  destruct (bbg_rep_new prune_config_default) as (b & Eb & Hb).
  assert (0 + events_cost 0 [NSignal twice_signal (sample_header 1)] + undo_room <= 2 ^ 32) as Hc by (by vm_compute).
  destruct (double_spend_rejected _ _ _ 0 0 twice_signal (sample_header 1) [] Hb new_stable (Z.le_refl 0) (Z.le_refl 0)
    Hc (or_introl twice_not_once)) as (e & b' & E & _).
  exists b, e, b'. exact (conj Eb E).
Defined.
