(* ===== verification/Persist.v ===== *)
(** * The persisted records of a state

    The enumeration of Records.v as a sorted list with one record per key, what it says of the
    state, and how the changes of a preparation update it. *)

From S2P Require Import Prelude.
From S2P Require Import Crypto.
From S2P Require Import Trie.
From S2P Require Import Keyed.
From S2P Require Import AxonIndex.
From S2P Require Import Types.
From S2P Require Import Cards.
From S2P Require Import State.
From S2P Require Import StateSpec.
From S2P Require Import StateRoot.
From S2P Require Import Prune.
From S2P Require Import Ledger.
From S2P Require Import Facade.
From S2P Require Import Records.
From S2P Require Import Undo.
From S2P Require Import UndoSpec.
From S2P Require Import Transition.
From S2P Require Import TransitionSpec.
From S2P Require Import NativeBatch.

Local Open Scope Z_scope.

(** ** Rows *)

(** The addresses of a persisted state: those a transition may change, and the static ones. *)
Inductive Row :=
| RAddr (a : Addr) | RLocation (k : Particle) | RCoin (k : Particle) | RCard (k : Particle) | RFile (k : Particle).

Definition row_domain (r : Row) : Z :=
  match r with RAddr a => addr_domain a | RLocation _ => 5 | RCoin _ => 6 | RCard _ => 7 | RFile _ => 8 end.

Definition row_key (r : Row) : list u8 :=
  match r with
  | RAddr a => addr_key a
  | RLocation k => record_key (of_Z 8 5) (blist k)
  | RCoin k => record_key (of_Z 8 6) (blist k)
  | RCard k => record_key (of_Z 8 7) (blist k)
  | RFile k => record_key (of_Z 8 8) (blist k)
  end.

Lemma row_key_head r : exists t, row_key r = of_Z 8 (row_domain r) :: t.
Proof. destruct r; by eexists. Qed.

Lemma row_domain_range r : 0 <= row_domain r < 256.
Proof. destruct r as [[]| | | |]; simpl; lia. Qed.

#[export] Instance row_key_inj : Inj (=) (=) row_key.
Proof.
  intros r r' E. assert (row_domain r = row_domain r') as Ed.
  { destruct (row_key_head r) as [t Et], (row_key_head r') as [t' Et'].
    pose proof (row_domain_range r). pose proof (row_domain_range r').
    rewrite Et, Et' in E. pose proof (f_equal (fun k : list u8 => uval (hd (of_Z 8 0) k)) E) as Eh. cbn [hd] in Eh.
    rewrite !uval_of_Z_small in Eh by (simpl Z.of_N; lia). exact Eh. }
  apply (f_equal (@tl u8)) in E as Et.
  destruct r as [a| | | |], r' as [a'| | | |]; try discriminate Ed; try (f_equal; by apply bytes_eq);
    try (destruct a; discriminate Ed); try (destruct a'; discriminate Ed).
  f_equal. by apply (inj addr_key).
Qed.

Section Persist.
  Context `{Nebu, Hemera, !CryptoLaws, !Lens, !StableLaws}.

(** The record of a row. *)
Definition row_cell (cfg : PruneConfig) (f : FView) (r : Row) : option (list u8) :=
  let v := f_view f in
  match r with
  | RAddr a => cell cfg f a
  | RLocation k => location_record <$> v_locations v !! k
  | RCoin k => coin_record <$> v_coins v !! k
  | RCard k => card_record <$> v_cards v !! k
  | RFile k => file_record <$> v_files v !! k
  end.

(** ** The enumeration *)

Definition rec_lt (r r' : StateRecord) : Prop := ord_ltb (rec_key r) (rec_key r') = true.

Lemma elem_of_stream {K V} `{Countable K, Ordered K} domain (entity : K -> list u8) (value : V -> list u8) (m : gmap K V) r :
  r ∈ stream domain entity value m <->
  exists k, value <$> m !! k = Some (rec_value r) /\ rec_key r = record_key (of_Z 8 domain) (entity k).
Proof.
  unfold stream. rewrite list_elem_of_fmap. split.
  - intros ([k v] & -> & Hkv%elem_of_btree_iter). exists k. cbn. by rewrite Hkv.
  - intros (k & E & Ek). apply fmap_Some in E as (v & Hv & Ev). exists (k, v).
    split; [destruct r; cbn in *; congruence|by apply elem_of_btree_iter].
Qed.

(** How the keys of a dimension are written: keeping their order. *)
Class KeepsOrder {K} `{Ordered K} (entity : K -> list u8) : Prop := {
  entity_inj :: Inj (=) (=) entity;
  entity_mono a b : ord_leb a b = true -> list_leb (entity a) (entity b) = true;
}.

#[export] Instance keeps_order_bytes : KeepsOrder (@blist 32).
Proof. split; [apply _|done]. Qed.

#[export] Instance keeps_order_be : KeepsOrder (to_be_bytes 8 (w := 64)).
Proof.
  split; [|exact to_be_bytes_mono]. intros a b E.
  rewrite <- (from_to_be_bytes 8 64 a), <- (from_to_be_bytes 8 64 b) by done. by rewrite E.
Qed.

Lemma stream_sorted {K V} `{Countable K, Ordered K} domain (entity : K -> list u8) `{!KeepsOrder entity}
    (value : V -> list u8) (m : gmap K V) :
  StronglySorted rec_lt (stream domain entity value m).
Proof.
  unfold stream. pose proof (NoDup_btree_iter m) as Hn. revert Hn.
  induction (btree_iter_sorted m) as [|x l Hs IH Hx]; [constructor|]. rewrite fmap_cons, NoDup_cons. intros [Hni Hn]. cbn [map].
  constructor; [by apply IH|]. apply Forall_forall. intros r (y & -> & Hy)%list_elem_of_fmap.
  pose proof (entity_mono _ _ (proj1 (Forall_forall _ _) Hx y Hy)) as Hxy.
  unfold rec_lt, ord_ltb, record_key. cbn [rec_key]. cbn [ord_leb list_ordered list_leb]. rewrite decide_True by done.
  destruct (list_leb (entity y.1) (entity x.1)) eqn:E; [|done]. exfalso. apply Hni, list_elem_of_fmap. exists y.
  split; [|done]. apply (inj entity). by apply list_leb_antisym.
Qed.

(** Records of one domain. *)
Definition in_domain (d : Z) (l : list StateRecord) : Prop := forall r, r ∈ l -> exists t, rec_key r = of_Z 8 d :: t.

Lemma in_domain_stream {K V} `{Countable K, Ordered K} domain (entity : K -> list u8) (value : V -> list u8) (m : gmap K V) :
  in_domain domain (stream domain entity value m).
Proof. intros r (k & _ & E)%elem_of_stream. eauto. Qed.

(** Streams in domain order make a sorted list. *)
Definition from_domain (d : Z) (l : list StateRecord) : Prop :=
  StronglySorted rec_lt l /\ forall r, r ∈ l -> exists d' t, d <= d' < 256 /\ rec_key r = of_Z 8 d' :: t.

Lemma from_domain_app d l l' :
  0 <= d < 255 -> StronglySorted rec_lt l -> in_domain d l -> from_domain (d + 1) l' -> from_domain d (l ++ l').
Proof.
  intros Hd Hs Hin [Hs' Hin']. split.
  - apply StronglySorted_app. split_and!; [|done|done]. intros r r' Hr Hr'.
    destruct (Hin r Hr) as [t Et], (Hin' r' Hr') as (d' & t' & Hd' & Et').
    assert (uval (of_Z 8 d) = d /\ uval (of_Z 8 d') = d') as [U U'] by (split; apply uval_of_Z_small; simpl Z.of_N; lia).
    unfold rec_lt, ord_ltb. rewrite Et, Et'. cbn [ord_leb list_ordered list_leb]. rewrite decide_False.
    + change (negb (uval (of_Z 8 d') <=? uval (of_Z 8 d)) = true). rewrite U, U'. apply negb_true_iff, Z.leb_gt. lia.
    + intros E. apply (f_equal uval) in E. lia.
  - intros r [Hr|Hr]%elem_of_app.
    + destruct (Hin r Hr) as [t Et]. exists d, t. split; [lia|done].
    + destruct (Hin' r Hr) as (d' & t' & Hd' & Et'). exists d', t'. split; [lia|done].
Qed.

Lemma from_domain_nil d : from_domain d [].
Proof. split; [constructor|]. by intros r ?%elem_of_nil. Qed.

Lemma from_domain_stream {K V} `{Countable K, Ordered K} domain (entity : K -> list u8) `{!KeepsOrder entity}
    (value : V -> list u8) (m : gmap K V) l' :
  0 <= domain < 255 -> from_domain (domain + 1) l' -> from_domain domain (stream domain entity value m ++ l').
Proof. intros Hd Hl. apply from_domain_app; [done|apply stream_sorted, _|apply in_domain_stream|done]. Qed.

Lemma from_domain_last {K V} `{Countable K, Ordered K} domain (entity : K -> list u8) `{!KeepsOrder entity}
    (value : V -> list u8) (m : gmap K V) :
  0 <= domain < 255 -> from_domain domain (stream domain entity value m).
Proof. intros Hd. rewrite <- (app_nil_r (stream _ _ _ _)). apply from_domain_stream; [done..|apply from_domain_nil]. Qed.

(** What a persisted record is: the record of a row under its key. *)
Definition persisted (cfg : PruneConfig) (f : FView) (r : StateRecord) : Prop :=
  exists row, rec_key r = row_key row /\ row_cell cfg f row = Some (rec_value r).

Definition state_streams (cfg : PruneConfig) (f : FView) : list StateRecord :=
  let v := f_view f in
  [mkStateRecord (record_key (of_Z 8 0) []) (meta_bytes cfg f)]
  ++ stream 1 blist particle_record (v_particles v)
  ++ stream 2 blist adjacency_record (v_axons_out v)
  ++ stream 3 blist adjacency_record (v_axons_in v)
  ++ stream 4 blist neuron_record (v_neurons v)
  ++ stream 5 blist location_record (v_locations v)
  ++ stream 6 blist coin_record (v_coins v)
  ++ stream 7 blist card_record (v_cards v)
  ++ stream 8 blist file_record (v_files v)
  ++ stream 9 (to_be_bytes 8) blist (v_time v)
  ++ stream 10 blist signal_record (v_signals v)
  ++ stream 11 blist commitment_record (v_commitments v)
  ++ stream 12 blist (fun _ : unit => []) (v_nullifiers v)
  ++ stream 13 blist (fun b : u64 => integers [b]) (v_balances v)
  ++ stream 14 blist intent_record (v_intents v)
  ++ stream 15 blist edge_record (v_axon_edges v)
  ++ stream 16 blist (fun b : u64 => integers [b]) (last_touched (f_touched f)).

Lemma records_of_streams b f cfg n w :
  BbgRep b f cfg n w -> w <= 2 ^ 32 ->
  exists b', records_of b = Some (Ok (state_streams cfg f), b') /\ BbgRep b' f cfg n w.
Proof.
  intros Hb Hw. destruct (metadata_ok b f cfg n w Hb Hw) as (b' & E & Hb').
  exists b'. split; [|done]. pose proof (br_checkpoint _ _ _ _ _ Hb) as Hcp. pose proof Hb' as [[] Ht _ _ _ _ _].
  unfold records_of. rewrite Hcp. cbn [acc]. rewrite E. cbn [mbind option_bind]. unfold state_streams.
  rewrite Ht, <- (kr_map _ _ _ sr_particles), <- (ar_map _ _ _ sr_axons_out), <- (ar_map _ _ _ sr_axons_in),
    <- (kr_map _ _ _ sr_neurons), <- (kr_map _ _ _ sr_locations), <- (kr_map _ _ _ sr_coins),
    <- (kr_map _ _ _ (cr_records _ _ _ sr_cards)), <- (kr_map _ _ _ sr_files), <- (kr_map _ _ _ sr_time),
    <- (kr_map _ _ _ sr_signals), <- (kr_map _ _ _ sr_commitments), <- (kr_map _ _ _ sr_nullifiers),
    <- (kr_map _ _ _ sr_balances), <- sr_intents, <- sr_axon_edges. reflexivity.
Qed.

Lemma streams_sorted cfg f : StronglySorted rec_lt (state_streams cfg f).
Proof.
  unfold state_streams.
  apply (from_domain_app 0); [lia|repeat constructor|by intros r ->%list_elem_of_singleton; eexists|].
  do 15 (apply from_domain_stream; [apply _|lia|]). apply from_domain_last; [apply _|lia].
Qed.

Lemma elem_of_streams cfg f r : r ∈ state_streams cfg f <-> persisted cfg f r.
Proof.
  unfold state_streams, persisted. rewrite !elem_of_app, !elem_of_stream, list_elem_of_singleton. split.
  - intros [->|Hr]; [by exists (RAddr AMeta)|].
    repeat (destruct Hr as [(k & Ev & Ek)|Hr]).
    all: first [destruct Hr as (k & Ev & Ek)|idtac].
    + by exists (RAddr (AParticle k)).
    + by exists (RAddr (AOut k)).
    + by exists (RAddr (AIn k)).
    + by exists (RAddr (ANeuron k)).
    + by exists (RLocation k).
    + by exists (RCoin k).
    + by exists (RCard k).
    + by exists (RFile k).
    + by exists (RAddr (ATime k)).
    + by exists (RAddr (ASignal k)).
    + by exists (RAddr (ACommitment k)).
    + by exists (RAddr (ANullifier k)).
    + by exists (RAddr (ABalance k)).
    + by exists (RAddr (AIntent k)).
    + by exists (RAddr (AEdge k)).
    + by exists (RAddr (ATouched k)).
  - intros (row & Ek & Ev). destruct row as [[]| | | |].
    { left. destruct r as [key value]. cbn [rec_key rec_value row_key row_cell cell] in *. injection Ev as <-. by rewrite Ek. }
    all: right; cbn [row_cell cell row_key] in *; repeat (first [left; by exists k|left; by exists h|right]);
      first [by exists k|by exists h].
Qed.

(** ** The persisted map *)

Definition record_map (l : list StateRecord) : gmap (list u8) (list u8) :=
  list_to_map (map (fun r => (rec_key r, rec_value r)) l).

Definition apply_changes (cs : list RecordChange) (m : gmap (list u8) (list u8)) : gmap (list u8) (list u8) :=
  foldl (fun m c => restore_map m (change_key c) (change_value c)) m cs.

Lemma sorted_NoDup l : StronglySorted rec_lt l -> NoDup (map rec_key l).
Proof.
  induction 1 as [|r l Hs IH Hr]; [constructor|]. cbn [map]. constructor; [|done].
  intros (r' & E & Hin)%list_elem_of_fmap. pose proof (proj1 (Forall_forall _ _) Hr r' Hin) as Hlt.
  unfold rec_lt in Hlt. by rewrite E, ord_ltb_irrefl in Hlt.
Qed.

Lemma record_map_lookup cfg f key val :
  record_map (state_streams cfg f) !! key = Some val <-> persisted cfg f (mkStateRecord key val).
Proof.
  unfold record_map. rewrite <- elem_of_streams, <- elem_of_list_to_map.
  - rewrite list_elem_of_fmap. split; [|intros Hin; by exists (mkStateRecord key val)].
    intros ([k v] & E & Hin). cbn [rec_key rec_value] in E. by injection E as -> ->.
  - rewrite <- list_fmap_compose. apply (sorted_NoDup _ (streams_sorted cfg f)).
Qed.

Lemma record_map_row cfg f row : record_map (state_streams cfg f) !! row_key row = row_cell cfg f row.
Proof.
  apply option_eq. intros val. rewrite record_map_lookup. unfold persisted. cbn [rec_key rec_value]. split.
  - by intros (row' & <-%(inj row_key) & E).
  - intros E. by exists row.
Qed.

Lemma record_map_other cfg f key : (forall row, key <> row_key row) -> record_map (state_streams cfg f) !! key = None.
Proof.
  intros Hk. apply eq_None_not_Some. intros [val (row & E & _)%record_map_lookup]. by apply (Hk row).
Qed.

Lemma apply_changes_out cs m key : key ∉ map change_key cs -> apply_changes cs m !! key = m !! key.
Proof.
  revert m. unfold apply_changes. induction cs as [|c cs IH]; intros m Hk; [done|]. cbn [map] in Hk.
  apply not_elem_of_cons in Hk as [Hne Hk]. cbn [foldl]. rewrite IH by done. rewrite restore_map_put, lookup_put_at.
  by rewrite decide_False.
Qed.

Lemma apply_changes_in cs m c :
  NoDup (map change_key cs) -> c ∈ cs -> apply_changes cs m !! change_key c = change_value c.
Proof.
  revert m. induction cs as [|c' cs IH]; intros m Hn Hc; [by apply elem_of_nil in Hc|]. cbn [map] in Hn.
  apply NoDup_cons in Hn as [Hni Hn]. unfold apply_changes. cbn [foldl]. apply elem_of_cons in Hc as [->|Hc].
  - etransitivity; [by apply apply_changes_out|]. rewrite restore_map_put, lookup_put_at. by rewrite decide_True.
  - by apply IH.
Qed.

Lemma exact_changes_apply cfg g f cs :
  exact_changes cfg g f cs -> same_frame f g ->
  apply_changes cs (record_map (state_streams cfg g)) = record_map (state_streams cfg f).
Proof.
  intros [He Hn _] [F1 F2 F3 F4 _ _]. apply map_eq. intros key.
  destruct (decide (key ∈ map change_key cs)) as [Hin|Hout].
  - apply list_elem_of_fmap in Hin as (c & -> & Hc). rewrite (apply_changes_in _ _ _ Hn Hc).
    apply He in Hc as (a & -> & _). cbn [change_key change_value]. exact (eq_sym (record_map_row cfg f (RAddr a))).
  - rewrite apply_changes_out by done. apply option_eq. intros val. rewrite !record_map_lookup.
    assert (forall row, key = row_key row -> row_cell cfg g row = row_cell cfg f row) as Hrow.
    { intros row ->. destruct row as [a| | | |]; cbn [row_cell]; rewrite ?F1, ?F2, ?F3, ?F4; try done.
      destruct (decide (cell cfg f a = cell cfg g a)) as [|Hne]; [done|]. exfalso. apply Hout, list_elem_of_fmap.
      exists (mkRecordChange (addr_key a) (cell cfg f a)). split; [done|]. apply He. by exists a. }
    split; intros (row & Ek & Ev); exists row; cbn [rec_key rec_value] in *; (split; [done|]); [by rewrite <- Hrow|by rewrite Hrow].
Qed.

(** ** What the records determine *)

Lemma adjacency_record_inj l l' : adjacency_record l = adjacency_record l' -> l = l'.
Proof.
  intros E. unfold adjacency_record, integers in E. cbn [flat_map] in E. rewrite !app_nil_r in E.
  apply app_inj_1 in E as [_ E]; [|by rewrite !length_blist]. revert l' E.
  induction l as [|a l IH]; intros [|b l'] E; [done|..]; cbn [flat_map] in E.
  - apply (f_equal length) in E. by rewrite length_app, length_blist in E.
  - apply (f_equal length) in E. by rewrite length_app, length_blist in E.
  - apply app_fields in E as [-> E]. f_equal. by apply IH.
Qed.

Lemma location_record_inj l l' : location_record l = location_record l' -> l = l'.
Proof.
  intros E. unfold location_record in E. apply word_fields in E as [E1 E2]; [|done].
  apply word_eq in E2; [|done]. apply sval_cast_inj in E1, E2; [|done..].
  destruct l, l'. cbn in *. congruence.
Qed.

Lemma coin_record_inj c c' : coin_record c = coin_record c' -> c = c'.
Proof.
  intros E. unfold coin_record, integers in E. cbn [flat_map] in E. apply word_fields in E as [E _]; [|done].
  destruct c, c'. cbn in *. congruence.
Qed.

Lemma card_record_inj c c' : card_record c = card_record c' -> c = c'.
Proof.
  intros E. unfold card_record in E. apply app_fields in E as [E1 E]. apply app_fields in E as [E2 E].
  apply app_fields in E as [E3 E]. cbn [app] in E.
  apply cons_fields in E as [E4 E5]. apply word_eq in E5; [|done].
  apply valence_byte_inj in E4. destruct c, c'. cbn in *. congruence.
Qed.

Lemma file_record_inj c c' : file_record c = file_record c' -> c = c'.
Proof.
  intros E. unfold file_record in E. apply cons_fields in E as [E1 E2]. apply word_eq in E2; [|done].
  destruct c as [[] ?], c' as [[] ?]; cbn in *; (congruence || (apply (f_equal uval) in E1; discriminate)).
Qed.

Lemma meta_bytes_inj cfg cfg' f f' :
  meta_bytes cfg f = meta_bytes cfg' f' ->
  cfg = cfg' /\ v_height (f_view f) = v_height (f_view f') /\ f_height f = f_height f' /\ f_root f = f_root f'
  /\ v_diameter_override (f_view f) = v_diameter_override (f_view f').
Proof.
  unfold meta_bytes. intros E. apply word_fields in E as [_ E]; [|done]. apply word_fields in E as [E1 E]; [|done].
  apply app_fields in E as [_ E]. apply word_fields in E as [E2 E]; [|done]. apply app_fields in E as [E3 E].
  assert (v_diameter_override (f_view f) = v_diameter_override (f_view f') /\
    blist (to_le_bytes 8 (max_bytes cfg)) ++ [rank_floor_pct cfg] ++ blist (to_le_bytes 8 (half_life_epochs cfg))
    = blist (to_le_bytes 8 (max_bytes cfg')) ++ [rank_floor_pct cfg'] ++ blist (to_le_bytes 8 (half_life_epochs cfg')))
    as [E4 E'].
  { destruct (v_diameter_override (f_view f)) as [d|], (v_diameter_override (f_view f')) as [d'|]; cbn [app] in E;
      apply cons_fields in E as [Eb E]; try (apply (f_equal uval) in Eb; discriminate); [|done].
    apply word_fields in E as [-> E]; [done|done]. }
  apply word_fields in E' as [E5 E']; [|done]. cbn [app] in E'.
  apply cons_fields in E' as [E6 E7]. apply word_eq in E7; [|done]. split_and!; try done. destruct cfg, cfg'. cbn in *. congruence.
Qed.

Lemma fmap_eq_inj {A B} (enc : A -> B) (o o' : option A) :
  (forall x y, o = Some x -> o' = Some y -> enc x = enc y -> x = y) -> enc <$> o = enc <$> o' -> o = o'.
Proof. destruct o as [x|], o' as [y|]; cbn; intros He E; try done. injection E as E. f_equal. by apply He. Qed.

Lemma decodes_inj {A} (enc : A -> list u8) (dec : list u8 -> option A) x y :
  dec (enc x) = Some x -> dec (enc y) = Some y -> enc x = enc y -> x = y.
Proof. intros Hx Hy E. rewrite E in Hx. congruence. Qed.

(** Equal records at an address mean equal contents. *)
Lemma cell_agree cfg cfg' f g a :
  stable_commitments f -> stable_commitments g -> cell cfg f a = cell cfg' g a -> agree f g a.
Proof.
  intros Sf Sg E. destruct a; cbn [cell agree] in *; try done; (apply fmap_eq_inj in E; [exact E|]); intros x y Ex Ey.
  - apply (decodes_inj _ decode_particle); apply decode_particle_ok.
  - apply adjacency_record_inj.
  - apply adjacency_record_inj.
  - apply (decodes_inj _ decode_neuron); apply decode_neuron_ok.
  - apply bytes_eq.
  - apply (decodes_inj _ decode_signal); apply decode_signal_ok.
  - apply (decodes_inj _ decode_commitment); apply decode_commitment_ok; [by apply (Sf _ _ Ex)|by apply (Sg _ _ Ey)].
  - by destruct x, y.
  - apply (decodes_inj (fun v : u64 => integers [v]) decode_u64); apply decode_u64_ok.
  - apply (decodes_inj _ decode_intent); apply decode_intent_ok.
  - apply (decodes_inj _ decode_edge); apply decode_edge_ok.
  - apply (decodes_inj (fun v : u64 => integers [v]) decode_u64); apply decode_u64_ok.
Qed.

Lemma streams_determine cfg cfg' f g :
  stable_commitments f -> stable_commitments g -> v_root_version (f_view f) = v_root_version (f_view g) ->
  record_map (state_streams cfg f) = record_map (state_streams cfg' g) -> cfg = cfg' /\ f = g.
Proof.
  intros Sf Sg Ev E. assert (forall row, row_cell cfg f row = row_cell cfg' g row) as Hrow.
  { intros row. rewrite <- !record_map_row. by rewrite E. }
  pose proof (Hrow (RAddr AMeta)) as Em. cbn [row_cell cell] in Em. apply (inj Some) in Em.
  apply meta_bytes_inj in Em as (-> & Eh & Ech & Er & Ed). split; [done|].
  rewrite <- (fview_ext f g).
  - unfold with_scalars. rewrite <- Eh, <- Er, <- Ech. destruct f as [v ? ? ?]. cbn in *. by destruct v.
  - split; try done; apply map_eq; intros k.
    + pose proof (Hrow (RLocation k)) as Ek. apply fmap_eq_inj in Ek; [done|]. intros x y _ _. apply location_record_inj.
    + pose proof (Hrow (RCoin k)) as Ek. apply fmap_eq_inj in Ek; [done|]. intros x y _ _. apply coin_record_inj.
    + pose proof (Hrow (RCard k)) as Ek. apply fmap_eq_inj in Ek; [done|]. intros x y _ _. apply card_record_inj.
    + pose proof (Hrow (RFile k)) as Ek. apply fmap_eq_inj in Ek; [done|]. intros x y _ _. apply file_record_inj.
  - intros a. apply (cell_agree cfg' cfg'); [done..|]. exact (Hrow (RAddr a)).
Qed.

End Persist.

(** ** Properties *)

Section Claims.
  Context `{Nebu, Hemera, !CryptoLaws, !Lens, !StableLaws}.

(** C20: the persisted records are a sorted map that determines the state. Enumerating a state that
    fits answers its records strictly ordered by key, one per key, and two states whose records
    are the same map have the same dimensions, heights, checkpoint and policy. *)
Theorem records_determine b f cfg n w b' f' cfg' n' w' :
  BbgRep b f cfg n w -> BbgRep b' f' cfg' n' w' -> w <= 2 ^ 32 -> w' <= 2 ^ 32 ->
  stable_commitments f -> stable_commitments f' ->
  exists recs recs' b1 b1', records_of b = Some (Ok recs, b1) /\ records_of b' = Some (Ok recs', b1')
    /\ StronglySorted rec_lt recs /\ NoDup (map rec_key recs)
    /\ (record_map recs = record_map recs' <-> f = f' /\ cfg = cfg').
Proof.
  intros Hb Hb' Hw Hw' Hs Hs'. destruct (records_of_streams _ _ _ _ _ Hb Hw) as (b1 & E & _).
  destruct (records_of_streams _ _ _ _ _ Hb' Hw') as (b1' & E' & _).
  eexists _, _, b1, b1'. split_and!; [done|done|apply streams_sorted|apply sorted_NoDup, streams_sorted|]. split.
  - intros Em. apply streams_determine in Em as [-> ->]; try done.
    by rewrite (br_version _ _ _ _ _ Hb), (br_version _ _ _ _ _ Hb').
  - by intros [-> ->].
Qed.

(** C18: the changes of a preparation are exact. Applied to the persisted records of the state it
    started from they give those of the state it publishes; they come in strict key order and
    every one of them changes its record. *)
Theorem changes_exact b f cfg n w es p :
  BbgRep b f cfg n w -> stable_commitments f -> 0 <= n -> 0 <= w -> w + events_cost n es + undo_room <= 2 ^ 32 ->
  prepare_native_batch b es = Some (Ok p) ->
  exists b' recs b1 recs' b2, publish p = Some b' /\ records_of b = Some (Ok recs, b1) /\ records_of b' = Some (Ok recs', b2)
    /\ record_map recs' = apply_changes (prep_changes p) (record_map recs)
    /\ NoDup (map change_key (prep_changes p)) /\ StronglySorted key_le (map change_key (prep_changes p))
    /\ forall c, c ∈ prep_changes p -> record_map recs !! change_key c <> change_value c.
Proof.
  intros Hb Hst Hn Hw0 Hw E. destruct (prepare_ok b f cfg n w es Hb Hst Hn Hw0 Hw) as (out & E' & Hout).
  rewrite E in E'. injection E' as <-.
  destruct Hout as (f' & _ & Hcs & _ & Hfr & (b' & Ep & Hb') & _).
  pose proof (events_cost_pos n es Hn). unfold undo_room in Hw.
  destruct (records_of_streams _ _ _ _ _ Hb ltac:(lia)) as (b1 & E1 & _).
  destruct (records_of_streams _ _ _ _ _ Hb' ltac:(lia)) as (b2 & E2 & _).
  eexists b', _, b1, _, b2. split_and!; [done|done|done| |apply Hcs|apply Hcs|].
  - symmetry. by apply exact_changes_apply.
  - intros c Hc. apply Hcs in Hc as (a & -> & Hne). cbn [change_key change_value]. intros Ec. apply Hne.
    rewrite <- Ec. exact (record_map_row cfg f (RAddr a)).
Qed.

End Claims.

(** ** Witnesses *)

Import Toy.

Lemma records_determine_witness :
  exists b recs b1, bbg_new = Some b
    /\ records_of (with_prune_config b prune_config_default) = Some (Ok recs, b1) /\ NoDup (map rec_key recs).
Proof.
  destruct (bbg_rep_new prune_config_default) as (b & Eb & Hb).
  assert (0 <= 2 ^ 32) as Hw by (by vm_compute).
  destruct (records_determine _ _ _ 0 0 _ _ _ 0 0 Hb Hb Hw Hw new_stable new_stable) as (recs & _ & b1 & _ & E & _ & _ & Hn & _).
  exists b, recs, b1. exact (conj Eb (conj E Hn)).
Defined.

Lemma changes_exact_witness :
  exists b p b' recs b1 recs' b2, bbg_new = Some b
    /\ prepare_native_batch (with_prune_config b prune_config_default) sample_events = Some (Ok p)
    /\ publish p = Some b' /\ records_of (with_prune_config b prune_config_default) = Some (Ok recs, b1)
    /\ records_of b' = Some (Ok recs', b2)
    /\ record_map recs' = apply_changes (prep_changes p) (record_map recs).
Proof.
  destruct (bbg_rep_new prune_config_default) as (b & Eb & Hb). destruct (sample_prepared b Eb) as (p & Ep).
  destruct (changes_exact _ _ _ 0 0 sample_events p Hb new_stable (Z.le_refl 0) (Z.le_refl 0) sample_fits Ep)
    as (b' & recs & b1 & recs' & b2 & Epub & E1 & E2 & Em & _).
  exists b, p, b', recs, b1, recs', b2. exact (conj Eb (conj Ep (conj Epub (conj E1 (conj E2 Em))))).
Defined.
