(* ===== verification/Access.v ===== *)
(** * Bounded storage access (rs/src/storage/access.rs, rs/src/storage/mod.rs)

    The errors and limits of the stores, the byte form of field elements, and bounded range reads
    over an ordered cache. A [usize] is a [u64]. *)

From S2P Require Import Prelude.
From S2P Require Import Crypto.
From stdpp Require Import pretty.

Local Open Scope Z_scope.

Abbreviation usize := u64.

(** ** Errors and limits *)

Definition MAX_VALUE_ELEMENTS : Z := 131072.
Definition MAX_PENDING_ELEMENTS : Z := 2097152.
Definition MAX_PENDING_KEYS : Z := 65536.
Definition MAX_SCAN_ENTRIES : Z := 4096.

Inductive StorageError :=
| InvalidDimension (d : u8)
| Limit (s : string)
| Corrupt (s : string)
| Io (s : string)
| Busy
| PendingWrites
| Unsupported (s : string)
| CommitUnknown (change_id : bytes 32) (message : string).

#[export] Instance storage_error_eq_dec : EqDecision StorageError.
Proof. solve_decision. Defined.

Abbreviation StorageResult := (result StorageError).

(** [Display for StorageError]. *)
Definition storage_error_fmt (e : StorageError) : string :=
  match e with
  | InvalidDimension d => "invalid storage dimension " +:+ pretty (uval d)
  | Limit s => "storage limit: " +:+ s
  | Corrupt s => "corrupt storage: " +:+ s
  | Io s => "storage I/O: " +:+ s
  | Busy => "storage already has an exclusive writer"
  | PendingWrites => "commit pending writes before scanning disk"
  | Unsupported s => "unsupported storage operation: " +:+ s
  | CommitUnknown _ message => "unknown commit outcome; reopen and resolve: " +:+ message
  end.

(** The dimension kept local to a process ([dim::EPHEMERAL]). *)
Definition EPHEMERAL : u8 := of_Z 8 13.

Inductive Durability := Memory | Disk.

#[export] Instance durability_eq_dec : EqDecision Durability.
Proof. solve_decision. Defined.

Record ScanLimits := mkScanLimits { max_entries : usize; max_elements : usize }.

Definition check_dimension (dimension : u8) : StorageResult unit :=
  if uval EPHEMERAL <? uval dimension then Err (InvalidDimension dimension) else Ok tt.

Definition check_read_limit (max : Z) : StorageResult unit :=
  if MAX_VALUE_ELEMENTS <? max then Err (Limit "read element count") else Ok tt.

(** [ScanLimits::validate]. *)
Definition limits_validate (l : ScanLimits) : StorageResult unit :=
  if (uval (max_entries l) =? 0) || (MAX_SCAN_ENTRIES <? uval (max_entries l))
  then Err (Limit "scan entry count")
  else check_read_limit (uval (max_elements l)).

Definition zlen {A} (l : list A) : Z := Z.of_nat (length l).

(** ** Bounds of ordered ranges ([std::ops::Bound]) *)

Inductive bound (K : Type) := Included (k : K) | Excluded (k : K) | Unbounded.
Arguments Included {K} _.
Arguments Excluded {K} _.
Arguments Unbounded {K}.

Definition in_range {K} `{Ordered K} (lo hi : bound K) (k : K) : bool :=
  (match lo with Included a => ord_leb a k | Excluded a => ord_ltb a k | Unbounded => true end)
  && (match hi with Included b => ord_leb k b | Excluded b => ord_ltb k b | Unbounded => true end).

(** [BTreeMap::range]. *)
Definition btree_range {K V} `{Countable K, Ordered K} (m : gmap K V) (lo hi : bound K) : list (K * V) :=
  filter (fun e => in_range lo hi e.1 = true) (btree_iter m).

(** [slice::chunks_exact], by fuel: the length of the slice is enough. *)
Fixpoint chunks_fuel {A} (n fuel : nat) (l : list A) : list (list A) :=
  match fuel with
  | O => []
  | S fuel => if (length l <? n)%nat then [] else take n l :: chunks_fuel n fuel (drop n l)
  end.

Definition chunks_exact {A} (n : nat) (l : list A) : list (list A) := chunks_fuel n (length l) l.

(** The key of a row: dimension and key. *)
Abbreviation EntryKey := (u8 * bytes 32)%type.
(** A row of one dimension. *)
Abbreviation ShardEntry := (bytes 32 * list Goldilocks)%type.

Section Access.
  Context `{Nebu}.

Definition copy_value (value : list Goldilocks) (max : Z) : StorageResult (list Goldilocks) :=
  _ ← check_read_limit max;
  if max <? zlen value then Err (Limit "value exceeds read budget") else Ok value.

(** The loop of [collect_page] over the entries taken, with the elements and the page so far. *)
Fixpoint page_loop (max : Z) (elements : Z) (page : list ShardEntry)
    (entries : list (StorageResult ShardEntry)) : StorageResult (list ShardEntry) :=
  match entries with
  | [] => Ok page
  | entry :: rest =>
      '(key, value) ← entry;
      if max <? zlen value then Err (Limit "scan value exceeds page budget")
      else if max - elements <? zlen value then Ok page
      else page_loop max (elements + zlen value) (page ++ [(key, value)]) rest
  end.

Definition collect_page (entries : list (StorageResult ShardEntry)) (limits : ScanLimits)
    : StorageResult (list ShardEntry) :=
  _ ← limits_validate limits;
  page_loop (uval (max_elements limits)) 0 [] (take (Z.to_nat (uval (max_entries limits))) entries).

(** ** Field elements as little-endian words *)

Definition serialize_goldilocks (vals : list Goldilocks) : list u8 :=
  flat_map (fun g => blist (to_le_bytes 8 (g_as_u64 g))) vals.

Definition decode_goldilocks (c : list u8) : StorageResult Goldilocks :=
  let value := from_le_bytes 64 c in
  if field_P <=? uval value then Err (Corrupt "noncanonical field element") else Ok (g_new value).

Definition deserialize_goldilocks (b : list u8) (max : Z) : StorageResult (list Goldilocks) :=
  _ ← check_read_limit max;
  if negb (zlen b mod 8 =? 0) then Err (Corrupt "field encoding length")
  else if max <? zlen b / 8 then Err (Limit "value exceeds read budget")
  else mapM decode_goldilocks (chunks_exact 8 b).

Definition decode_marker (b : list u8) : StorageResult (bytes 32) :=
  ok_or (try_into 32 b) (Corrupt "commit marker length").

(** ** Range reads of a cache *)

Definition zeros32 : bytes 32 := buffer 32 (replicate 32 (of_Z 8 0)).
Definition ones32 : bytes 32 := buffer 32 (replicate 32 (of_Z 8 255)).

Definition dim_range (cache : gmap EntryKey (list Goldilocks)) (dimension : u8) (after : option (bytes 32))
    : list (EntryKey * list Goldilocks) :=
  let start := match after with
               | None => Included (dimension, zeros32)
               | Some key => Excluded (dimension, key)
               end in
  btree_range cache start (Included (dimension, ones32)).

Definition scan_cache (cache : gmap EntryKey (list Goldilocks)) (dimension : u8)
    (after : option (bytes 32)) (limits : ScanLimits) : StorageResult (list ShardEntry) :=
  _ ← check_dimension dimension;
  _ ← limits_validate limits;
  collect_page
    (map (fun e => v ← copy_value e.2 (uval (max_elements limits)); Ok (e.1.2, v)) (dim_range cache dimension after))
    limits.

End Access.

(** ** Chunks *)

Lemma chunks_fuel_concat {A} n (L : list (list A)) fuel :
  (0 < n)%nat -> Forall (fun c => length c = n) L -> (length (concat L) <= fuel)%nat ->
  chunks_fuel n fuel (concat L) = L.
Proof.
  intros Hn HL. revert fuel. induction HL as [|c L Hc HL IH]; intros fuel Hf.
  - destruct fuel; [done|]. cbn [concat chunks_fuel length]. destruct (Nat.ltb_spec 0 n); [done|lia].
  - cbn [concat] in *. rewrite length_app in Hf. destruct fuel as [|fuel]; [lia|]. cbn [chunks_fuel].
    rewrite length_app. destruct (Nat.ltb_spec (length c + length (concat L)) n); [lia|].
    rewrite take_app_length', drop_app_length' by done. f_equal. apply IH. lia.
Qed.

Lemma chunks_exact_concat {A} n (L : list (list A)) :
  (0 < n)%nat -> Forall (fun c => length c = n) L -> chunks_exact n (concat L) = L.
Proof. intros Hn HL. unfold chunks_exact. by apply chunks_fuel_concat. Qed.

(** A list of a multiple of [n] elements is the concatenation of chunks of [n]. *)
Lemma split_chunks {A} n k (l : list A) :
  length l = (k * n)%nat -> exists L, l = concat L /\ Forall (fun c => length c = n) L /\ length L = k.
Proof.
  revert l. induction k as [|k IH]; intros l Hl.
  - exists []. apply length_zero_iff_nil in Hl as ->. split_and!; [done|constructor|done].
  - destruct (IH (drop n l)) as (L & E & HL & Hk); [rewrite length_drop; lia|].
    exists (take n l :: L). cbn [concat length]. rewrite <- E, take_drop. split_and!; [done| |lia].
    constructor; [rewrite length_take; lia|done].
Qed.

(** ** Range reads *)

Section Ranges.

Lemma zeros_leb (k : list u8) n : length k = n -> list_leb (replicate n (of_Z 8 0)) k = true.
Proof.
  revert n. induction k as [|b k IH]; intros n <-; [done|]. cbn [replicate length list_leb].
  case_decide as E; [by apply IH|]. apply Z.leb_le. rewrite uval_of_Z_small by (simpl; lia).
  pose proof (uval_range b). lia.
Qed.

Lemma leb_ones (k : list u8) n : length k = n -> list_leb k (replicate n (of_Z 8 255)) = true.
Proof.
  revert n. induction k as [|b k IH]; intros n <-; [done|]. cbn [replicate length list_leb].
  case_decide as E; [by apply IH|]. apply Z.leb_le. rewrite (uval_of_Z_small 8 255) by (simpl; lia).
  pose proof (uval_range b) as Hb. simpl Z.of_N in Hb. lia.
Qed.

Lemma zeros32_leb (k : bytes 32) : ord_leb zeros32 k = true.
Proof. apply (zeros_leb (blist k) 32), length_blist. Qed.

Lemma leb_ones32 (k : bytes 32) : ord_leb k ones32 = true.
Proof. apply (leb_ones (blist k) 32), length_blist. Qed.

Lemma ord_leb_ltb_total {K} `{Ordered K} (a b : K) : ord_leb a b = false -> ord_ltb b a = true.
Proof. unfold ord_ltb. by intros ->. Qed.

Lemma entry_key_leb d k d' k' :
  ord_leb (K := EntryKey) (d, k) (d', k') = if decide (d = d') then ord_leb k k' else (uval d <=? uval d').
Proof. done. Qed.

(** The keys of a range: those of the dimension, after the cursor. *)
Lemma in_dim_range d after (k : EntryKey) :
  in_range (match after with None => Included (d, zeros32) | Some key => Excluded (d, key) end)
    (Included (d, ones32)) k = true
  <-> k.1 = d /\ (forall key, after = Some key -> ord_ltb key k.2 = true).
Proof.
  destruct k as [d' k]. unfold in_range. rewrite andb_true_iff. cbn [fst snd].
  assert (ord_leb (d', k) (d, ones32) = true <-> uval d' <= uval d) as ->.
  { rewrite entry_key_leb. case_decide as E.
    - subst d'. rewrite leb_ones32. split; [lia|done].
    - rewrite Z.leb_le. lia. }
  destruct after as [key|].
  - assert (ord_ltb (d, key) (d', k) = true
      <-> uval d < uval d' \/ d' = d /\ ord_ltb key k = true) as ->.
    { unfold ord_ltb. rewrite entry_key_leb. case_decide as E.
      - subst d'. split; [by right|]. intros [|[_ ?]]; [lia|done].
      - rewrite negb_true_iff, Z.leb_gt. split; [by left|]. by intros [|[-> _]]. }
    split.
    + intros [[|[-> Hk]] Hd]; [lia|]. split; [done|]. by intros ? [= <-].
    + intros [-> Hk]. split; [|lia]. right. auto.
  - assert (ord_leb (d, zeros32) (d', k) = true <-> uval d <= uval d') as ->.
    { rewrite entry_key_leb. case_decide as E.
      - subst d'. rewrite zeros32_leb. split; [lia|done].
      - by rewrite Z.leb_le. }
    split; [|intros [-> _]; split; lia]. intros [H1 H2]. split; [apply uint_eq; lia|done].
Qed.

End Ranges.

(** ** Sorted lists after a cursor *)

Section After.
  Context {K V : Type} `{Countable K, Ordered K}.

Lemma ord_ltb_trans (a b c : K) : ord_ltb a b = true -> ord_ltb b c = true -> ord_ltb a c = true.
Proof.
  unfold ord_ltb. rewrite !negb_true_iff. intros H1 H2.
  destruct (ord_leb c a) eqn:E; [|done]. exfalso.
  assert (ord_leb a b = true) as Hab by (destruct (ord_leb_total a b); congruence).
  pose proof (ord_leb_trans _ _ _ E Hab). congruence.
Qed.

Lemma ord_ltb_iff (a b : K) : ord_ltb a b = true <-> ord_leb a b = true /\ a <> b.
Proof.
  unfold ord_ltb. rewrite negb_true_iff. split.
  - intros E. split; [destruct (ord_leb_total a b); congruence|]. intros ->. destruct (ord_leb_total b b); congruence.
  - intros [Hle Hne]. destruct (ord_leb b a) eqn:E; [|done]. exfalso. by apply Hne, ord_leb_antisym.
Qed.

Lemma sorted_filter (P : K * V -> Prop) `{!forall x, Decision (P x)} (l : list (K * V)) :
  StronglySorted entry_le l -> StronglySorted entry_le (filter P l).
Proof.
  induction 1 as [|e l Hs IH Hf]; [constructor|]. rewrite filter_cons. case_decide; [|done].
  constructor; [done|]. apply Forall_forall. intros x [_ Hx]%list_elem_of_filter. by apply (proj1 (Forall_forall _ _) Hf).
Qed.

(** In a sorted list with distinct keys the entries after the key of one of them are its tail. *)
Lemma filter_after (l1 l2 : list (K * V)) (x : K * V) :
  StronglySorted entry_le (l1 ++ x :: l2) -> NoDup (l1 ++ x :: l2).*1 ->
  filter (fun e => ord_ltb x.1 e.1 = true) (l1 ++ x :: l2) = l2.
Proof.
  intros Hs Hn. rewrite fmap_app, fmap_cons in Hn. apply NoDup_app in Hn as (_ & Hd & [Hx _]%NoDup_cons).
  apply StronglySorted_app in Hs as (Hs1 & _ & [_ Hs2]%StronglySorted_inv).
  rewrite filter_app, filter_cons, decide_False by (by rewrite ord_ltb_irrefl).
  rewrite (filter_all_list _ l2).
  - enough (filter (fun e => ord_ltb x.1 e.1 = true) l1 = []) as -> by done.
    destruct (filter _ l1) as [|e l] eqn:E; [done|]. exfalso.
    assert (e ∈ filter (fun e => ord_ltb x.1 e.1 = true) l1) as [Hlt He]%list_elem_of_filter
      by (rewrite E; apply elem_of_cons; by left).
    specialize (Hs1 e x He (list_elem_of_here _ _)). unfold entry_le in Hs1. unfold ord_ltb in Hlt.
    by rewrite Hs1 in Hlt.
  - apply Forall_forall. intros e He. apply ord_ltb_iff.
    split; [by apply (proj1 (Forall_forall _ _) Hs2)|]. intros E. apply Hx. rewrite E.
    apply list_elem_of_fmap. eauto.
Qed.

End After.

(** ** Round trips and pages *)

Section AccessSpec.
  Context `{Nebu, Hemera, !CryptoLaws}.

Lemma check_read_limit_ok z : z <= MAX_VALUE_ELEMENTS -> check_read_limit z = Ok tt.
Proof. intros Hz. unfold check_read_limit. by rewrite (proj2 (Z.ltb_ge _ _) Hz). Qed.

Lemma check_dimension_ok d : uval d <= 13 -> check_dimension d = Ok tt.
Proof.
  intros Hd. unfold check_dimension, EPHEMERAL. rewrite (uval_of_Z_small 8 13) by (simpl; lia).
  by rewrite (proj2 (Z.ltb_ge _ _) Hd).
Qed.

Lemma limits_validate_ok l :
  1 <= uval (max_entries l) <= MAX_SCAN_ENTRIES -> uval (max_elements l) <= MAX_VALUE_ELEMENTS ->
  limits_validate l = Ok tt.
Proof.
  intros He Hm. unfold limits_validate. rewrite (proj2 (Z.eqb_neq _ _)), (proj2 (Z.ltb_ge _ _)) by lia.
  by apply check_read_limit_ok.
Qed.

Lemma limits_validate_inv l x :
  limits_validate l = Ok x ->
  1 <= uval (max_entries l) <= MAX_SCAN_ENTRIES /\ uval (max_elements l) <= MAX_VALUE_ELEMENTS.
Proof.
  unfold limits_validate, check_read_limit. pose proof (uval_range (max_entries l)) as Hr.
  destruct (Z.eqb_spec (uval (max_entries l)) 0); [done|].
  destruct (Z.ltb_spec MAX_SCAN_ENTRIES (uval (max_entries l))); [done|].
  destruct (Z.ltb_spec MAX_VALUE_ELEMENTS (uval (max_elements l))); [done|]. lia.
Qed.

Lemma serialize_concat vals :
  serialize_goldilocks vals = concat (map (fun g => blist (to_le_bytes 8 (g_as_u64 g))) vals).
Proof. apply flat_map_concat_map. Qed.

Lemma chunks_length vals :
  Forall (fun c => length c = 8%nat) (map (fun g : Goldilocks => blist (to_le_bytes 8 (g_as_u64 g))) vals).
Proof. apply Forall_fmap, Forall_forall. intros g _. apply length_blist. Qed.

Lemma length_concat_chunks {A} n (L : list (list A)) :
  Forall (fun c => length c = n) L -> length (concat L) = (length L * n)%nat.
Proof. induction 1 as [|c L Hc _ IH]; [done|]. cbn [concat length]. rewrite length_app. lia. Qed.

Lemma length_serialize vals : length (serialize_goldilocks vals) = (length vals * 8)%nat.
Proof. by rewrite serialize_concat, (length_concat_chunks 8), length_map by apply chunks_length. Qed.

Lemma decode_encode (u : u64) :
  uval u < field_P -> decode_goldilocks (to_le_bytes 8 u) = Ok (g_new u).
Proof.
  intros Hu. unfold decode_goldilocks. rewrite (from_to_le_bytes 8 64) by (simpl; lia).
  by rewrite (proj2 (Z.leb_gt _ _) Hu).
Qed.

Lemma encode_decode c g :
  length c = 8%nat -> decode_goldilocks c = Ok g -> blist (to_le_bytes 8 (g_as_u64 g)) = c.
Proof.
  intros Hc. unfold decode_goldilocks. destruct (Z.leb_spec field_P (uval (from_le_bytes 64 c))); [done|].
  intros [= <-]. rewrite g_as_u64_new by done. pose proof (to_from_le_bytes 8 64 (buffer 8 c) eq_refl) as E.
  rewrite blist_buffer in E by done. rewrite E. by apply blist_buffer.
Qed.

Lemma mapM_decode L vals :
  Forall (fun c => length c = 8%nat) L -> mapM decode_goldilocks L = Ok vals ->
  map (fun g => blist (to_le_bytes 8 (g_as_u64 g))) vals = L /\ length vals = length L.
Proof.
  intros HL. revert vals. induction HL as [|c L Hc _ IH]; intros vals E.
  - by injection E as <-.
  - cbn [mapM] in E. apply bind_Ok in E as (g & Hg & (gs & Hgs & [= <-])%bind_Ok).
    destruct (IH gs Hgs) as [Em El]. cbn [map length]. by rewrite (encode_decode c), Em, El.
Qed.

Lemma deserialize_ok b max vals :
  deserialize_goldilocks b max = Ok vals ->
  serialize_goldilocks vals = b /\ zlen vals <= max <= MAX_VALUE_ELEMENTS.
Proof.
  unfold deserialize_goldilocks, check_read_limit. destruct (Z.ltb_spec MAX_VALUE_ELEMENTS max); [done|].
  cbn [mbind result_bind]. destruct (Z.eqb_spec (zlen b mod 8) 0) as [Hb|]; [|done]. cbn [negb].
  destruct (Z.ltb_spec max (zlen b / 8)); [done|]. intros E.
  destruct (split_chunks 8 (length b / 8) b) as (L & -> & HL & Hk).
  { unfold zlen in Hb. pose proof (Nat.div_mod_eq (length b) 8). apply (f_equal Z.to_nat) in Hb.
    rewrite Z2Nat.inj_mod in Hb by lia. rewrite Nat2Z.id in Hb. change (Z.to_nat 8) with 8%nat in Hb.
    change (Z.to_nat 0) with 0%nat in Hb. lia. }
  rewrite chunks_exact_concat in E by (done || lia).
  destruct (mapM_decode L vals HL E) as [Em El].
  split; [by rewrite serialize_concat, Em|]. unfold zlen in *. rewrite (length_concat_chunks 8) in * by done.
  rewrite El. split; [|lia]. rewrite Nat2Z.inj_mul, Z.div_mul in * by done. lia.
Qed.


Lemma deserialize_canonical us max :
  Forall (fun u : u64 => uval u < field_P) us -> zlen us <= max <= MAX_VALUE_ELEMENTS ->
  deserialize_goldilocks (serialize_goldilocks (map g_new us)) max = Ok (map g_new us).
Proof.
  intros Hu [Hl Hm]. unfold deserialize_goldilocks. rewrite check_read_limit_ok by done. cbn [mbind result_bind].
  unfold zlen in *. rewrite length_serialize, length_map, Nat2Z.inj_mul, Z.mod_mul, Z.div_mul by done.
  cbn [Z.eqb negb]. rewrite (proj2 (Z.ltb_ge _ _)) by lia.
  rewrite serialize_concat, chunks_exact_concat by (lia || apply chunks_length).
  clear Hl. induction Hu as [|u us Hu _ IH]; [done|]. cbn [map mapM]. rewrite g_as_u64_new, decode_encode by done.
  cbn [mbind result_bind]. by rewrite IH.
Qed.

Lemma mapM_decode_Err L e :
  mapM decode_goldilocks L = Err e ->
  e = Corrupt "noncanonical field element" /\ exists c, c ∈ L /\ field_P <= uval (from_le_bytes 64 c).
Proof.
  induction L as [|c L IH]; [done|]. cbn [mapM]. destruct (decode_goldilocks c) as [g|e'] eqn:Ec; cbn [mbind result_bind].
  - destruct (mapM decode_goldilocks L) as [gs|e']; [done|]. intros [= <-].
    destruct (IH eq_refl) as (-> & c' & Hc' & ?). split; [done|]. exists c'. split; [by apply list_elem_of_further|done].
  - intros [= <-]. unfold decode_goldilocks in Ec.
    destruct (Z.leb_spec field_P (uval (from_le_bytes 64 c))) as [Hc|]; [|done]. injection Ec as <-.
    split; [done|]. exists c. split; [apply list_elem_of_here|done].
Qed.

(** *** Pages *)

Definition row_of (e : EntryKey * list Goldilocks) : ShardEntry := (e.1.2, e.2).

(** The rows of a dimension after a cursor, in key order. *)
Definition dim_rows (cache : gmap EntryKey (list Goldilocks)) (d : u8) (after : option (bytes 32)) : list ShardEntry :=
  map row_of (dim_range cache d after).

Definition elements_of (page : list ShardEntry) : Z := zsum (fun e => zlen e.2) page.

Lemma elements_of_cons e l : elements_of (e :: l) = zlen e.2 + elements_of l.
Proof. done. Qed.

(** A page of [L]: a prefix within both limits, cut only where a limit cuts it. *)
Record Page (L : list ShardEntry) (limits : ScanLimits) (page : list ShardEntry) : Prop := {
  pg_entries : zlen page <= uval (max_entries limits);
  pg_elements : elements_of page <= uval (max_elements limits);
  pg_prefix : exists rest, L = page ++ rest
    /\ (rest = [] \/ zlen page = uval (max_entries limits)
        \/ exists e rest', rest = e :: rest' /\ uval (max_elements limits) < elements_of page + zlen e.2);
}.

Lemma copy_value_ok (v : list Goldilocks) max :
  max <= MAX_VALUE_ELEMENTS ->
  copy_value v max = if max <? zlen v then Err (Limit "value exceeds read budget") else Ok v.
Proof. intros Hm. unfold copy_value. by rewrite check_read_limit_ok. Qed.

Lemma page_loop_ok max (es : list (EntryKey * list Goldilocks)) k page :
  max <= MAX_VALUE_ELEMENTS -> k <= max ->
  let rows : list ShardEntry := map row_of es in
  match page_loop max k page (map (fun e => v ← copy_value e.2 max; Ok (e.1.2, v)) es) with
  | Ok page' => exists taken rest : list ShardEntry,
      rows = taken ++ rest /\ page' = page ++ taken /\ k + elements_of taken <= max
      /\ (rest = [] \/ exists e rest', rest = e :: rest' /\ max < k + elements_of taken + zlen e.2)
  | Err e => e = Limit "value exceeds read budget" /\ exists row, row ∈ rows /\ max < zlen row.2
  end.
Proof.
  intros Hm Hk. revert k page Hk. induction es as [|[[d key] v] es IH]; intros k page Hk; cbn [map page_loop].
  { exists [], []. rewrite (app_nil_r page). split_and!; [done|done|unfold elements_of; cbn; lia|by left]. }
  cbn [fst snd]. rewrite (copy_value_ok v) by done.
  destruct (Z.ltb_spec max (zlen v)) as [Hv|Hv]; cbn [mbind result_bind].
  { split; [done|]. eexists. split; [apply list_elem_of_here|done]. }
  rewrite (proj2 (Z.ltb_ge _ _) Hv).
  destruct (Z.ltb_spec (max - k) (zlen v)) as [Hs|Hs].
  { exists []. eexists. rewrite (app_nil_r page). unfold elements_of. cbn [zsum foldr].
    split_and!; [done|done|lia|]. right. eexists _, _. split; [done|]. simpl. lia. }
  specialize (IH (k + zlen v) (page ++ [(key, v)])). destruct (page_loop _ _ _ _) as [page'|e].
  - destruct IH as (taken & rest & E & -> & Hle & Hr); [lia|]. exists ((key, v) :: taken), rest.
    rewrite elements_of_cons, <- (app_assoc page). cbn [snd]. split_and!; [cbn [app]; by rewrite <- E|done|lia|].
    destruct Hr as [->|(e & r & -> & Hr)]; [by left|right]. eexists _, _. split; [done|lia].
  - destruct IH as (-> & row & Hrow & Hlt); [lia|]. split; [done|]. exists row.
    split; [by apply list_elem_of_further|done].
Qed.

Lemma map_take {A B} (f : A -> B) n l : map f (take n l) = take n (map f l).
Proof. revert n. induction l as [|x l IH]; intros [|n]; [done..|]. cbn. by rewrite IH. Qed.

Lemma scan_cache_ok cache d after limits :
  uval d <= 13 -> limits_validate limits = Ok tt ->
  match scan_cache cache d after limits with
  | Ok page => Page (dim_rows cache d after) limits page
  | Err e => e = Limit "value exceeds read budget"
      /\ exists row, row ∈ dim_rows cache d after /\ uval (max_elements limits) < zlen row.2
  end.
Proof.
  intros Hd Hl. unfold scan_cache, collect_page. rewrite check_dimension_ok, Hl by done. cbn [mbind result_bind].
  destruct (limits_validate_inv _ _ Hl) as [He Hm]. rewrite <- map_take.
  set (n := Z.to_nat (uval (max_entries limits))).
  pose proof (page_loop_ok (uval (max_elements limits)) (take n (dim_range cache d after)) 0 [] Hm) as Hp.
  specialize (Hp (proj1 (uval_range _))). cbv zeta in Hp. rewrite (map_take row_of) in Hp.
  fold (dim_rows cache d after) in Hp. destruct (page_loop _ _ _ _) as [page|e].
  - destruct Hp as (taken & rest & E & -> & Hle & Hr). cbn [app].
    assert (length taken <= n)%nat as Hn.
    { apply (f_equal length) in E. rewrite length_app, length_take in E. lia. }
    split; [unfold zlen; lia|lia|]. exists (drop (length taken) (dim_rows cache d after)).
    assert (dim_rows cache d after = taken ++ rest ++ drop n (dim_rows cache d after)) as E2
      by (by rewrite app_assoc, <- E, take_drop).
    split.
    + rewrite E2 at 1 2. rewrite drop_app_length. done.
    + rewrite E2, drop_app_length. destruct Hr as [->|(e & r & -> & Hr)]; [|right; right; eexists _, _; split; [done|lia]].
      cbn [app]. destruct (decide (length taken = n)) as [Ht|Ht]; [right; left; unfold zlen; lia|left].
      apply length_zero_iff_nil. rewrite length_drop.
      apply (f_equal length) in E. rewrite length_app, length_take in E. simpl in E. lia.
  - destruct Hp as (-> & row & Hrow & Hlt). split; [done|]. exists row. split; [|done].
    rewrite <- (take_drop n (dim_rows cache d after)). apply elem_of_app. by left.
Qed.

(** *** Following the cursor *)

(** A client that asks for the page after the last key it holds until a page is empty. *)
Fixpoint scan_all (fuel : nat) (cache : gmap EntryKey (list Goldilocks)) (d : u8) (after : option (bytes 32))
    (limits : ScanLimits) : StorageResult (list ShardEntry) :=
  match fuel with
  | O => Ok []
  | S fuel =>
      page ← scan_cache cache d after limits;
      match last page with
      | None => Ok []
      | Some e => rest ← scan_all fuel cache d (Some e.1) limits; Ok (page ++ rest)
      end
  end.

Lemma elem_of_dim_rows cache d after k v :
  (k, v) ∈ dim_rows cache d after <->
  cache !! (d, k) = Some v /\ (forall key, after = Some key -> ord_ltb key k = true).
Proof.
  unfold dim_rows, dim_range, btree_range. rewrite list_elem_of_fmap. split.
  - intros ([[d' k'] v'] & [= -> ->] & [Hr He]%list_elem_of_filter). apply in_dim_range in Hr as [Hd Hk].
    simpl in Hd, Hk. subst d'. apply elem_of_btree_iter in He. auto.
  - intros [Hc Hk]. exists ((d, k), v). split; [done|]. apply list_elem_of_filter. split.
    + apply in_dim_range. auto.
    + by apply elem_of_btree_iter.
Qed.

(** After the last key of a page come the rows the page left. *)
Lemma dim_rows_after cache d after page e rest :
  dim_rows cache d after = page ++ e :: rest -> dim_rows cache d (Some e.1) = rest.
Proof.
  unfold dim_rows. intros E.
  apply fmap_app_inv in E as (l1 & l2 & -> & E2 & E). symmetry in E2.
  apply fmap_cons_inv in E2 as (x & l3 & -> & -> & ->). change (row_of x).1 with x.1.2.
  assert (dim_range cache d (Some x.1.2) = filter (fun y => ord_ltb x.1 y.1 = true) (dim_range cache d after)) as ->.
  { assert (x ∈ dim_range cache d after) as Hx by (rewrite E; apply elem_of_app; right; apply list_elem_of_here).
    unfold dim_range, btree_range in *. apply list_elem_of_filter in Hx as [Hx _].
    apply in_dim_range in Hx as [Hd Hx]. rewrite list_filter_filter. apply list_filter_iff. intros y.
    rewrite (in_dim_range d (Some x.1.2)), (in_dim_range d after). destruct x as [[d1 k1] v1], y as [[d2 k2] v2].
    cbn [fst snd] in *. subst d1. split.
    - intros [-> Hk]. specialize (Hk k1 eq_refl). split_and!; [|done|].
      + apply ord_ltb_iff in Hk as [Hle Hne]. apply ord_ltb_iff. rewrite entry_key_leb, decide_True by done.
        split; [done|congruence].
      + intros key Hkey. eapply ord_ltb_trans; [by apply Hx|done].
    - intros (Hlt & -> & _). split; [done|]. intros ? [= <-]. apply ord_ltb_iff in Hlt as [Hle Hne].
      apply ord_ltb_iff. rewrite entry_key_leb, decide_True in Hle by done. split; [done|congruence]. }
  f_equal. rewrite E. apply filter_after; rewrite <- E; unfold dim_range, btree_range.
  - apply sorted_filter, btree_iter_sorted.
  - apply NoDup_fst_filter, NoDup_btree_iter.
Qed.


Lemma scan_all_ok cache d limits after fuel :
  uval d <= 13 -> limits_validate limits = Ok tt ->
  (forall k v, cache !! (d, k) = Some v -> zlen v <= uval (max_elements limits)) ->
  (length (dim_rows cache d after) < fuel)%nat ->
  scan_all fuel cache d after limits = Ok (dim_rows cache d after).
Proof.
  intros Hd Hl Hv. revert after. induction fuel as [|fuel IH]; intros after Hf; [lia|]. cbn [scan_all].
  pose proof (scan_cache_ok cache d after limits Hd Hl) as Hs.
  destruct (scan_cache cache d after limits) as [page|e]; cbn [mbind result_bind].
  2: { destruct Hs as (_ & [k v] & [Hrow _]%elem_of_dim_rows & Hlt). apply Hv in Hrow. simpl in Hlt. lia. }
  destruct Hs as [Hn Hm (rest & E & Hr)]. destruct (last page) as [e|] eqn:El.
  - apply last_Some in El as (page' & ->). rewrite <- (app_assoc page') in E. cbn [app] in E.
    pose proof (dim_rows_after _ _ _ _ _ _ E) as Ea. rewrite (IH (Some e.1)).
    + cbn [mbind result_bind]. by rewrite Ea, E, <- (app_assoc page').
    + rewrite Ea. rewrite E, length_app in Hf. simpl in Hf. lia.
  - apply last_None in El as ->. cbn [app] in E. rewrite E. f_equal.
    destruct Hr as [->|[Hr|([k v] & r & -> & Hr)]]; [done| |]; exfalso.
    + apply limits_validate_inv in Hl as [Hl _]. unfold zlen in Hr. simpl in Hr. lia.
    + assert ((k, v) ∈ dim_rows cache d after) as [Hk _]%elem_of_dim_rows by (rewrite E; apply list_elem_of_here).
      apply Hv in Hk. unfold elements_of in Hr. simpl in Hr. lia.
Qed.

(** ** Main theorems *)

(** Field elements survive their byte form. Canonical elements within the budget are read back
    as they were written; whatever is read back re-encodes to the very bytes it was read from, is
    within the budget and the budget within the store's bound; and an error names its cause: the
    budget, the length, the size or an element that is not canonical. *)
Theorem goldilocks_roundtrip (b : list u8) (max : Z) :
  (forall us, Forall (fun u : u64 => uval u < field_P) us -> zlen us <= max <= MAX_VALUE_ELEMENTS ->
     deserialize_goldilocks (serialize_goldilocks (map g_new us)) max = Ok (map g_new us))
  /\ match deserialize_goldilocks b max with
     | Ok vals => serialize_goldilocks vals = b /\ zlen vals <= max <= MAX_VALUE_ELEMENTS
     | Err e =>
         e = Limit "read element count" /\ MAX_VALUE_ELEMENTS < max
         \/ e = Corrupt "field encoding length" /\ zlen b mod 8 <> 0
         \/ e = Limit "value exceeds read budget" /\ max < zlen b / 8
         \/ e = Corrupt "noncanonical field element"
            /\ exists c, c ∈ chunks_exact 8 b /\ field_P <= uval (from_le_bytes 64 c)
     end.
Proof.
  split; [intros us; apply deserialize_canonical|].
  destruct (deserialize_goldilocks b max) as [vals|e] eqn:E; [by apply deserialize_ok|].
  unfold deserialize_goldilocks, check_read_limit in E.
  destruct (Z.ltb_spec MAX_VALUE_ELEMENTS max); cbn [mbind result_bind] in E; [injection E as <-; by left|right].
  destruct (Z.eqb_spec (zlen b mod 8) 0); cbn [negb] in E; [right|injection E as <-; by left].
  destruct (Z.ltb_spec max (zlen b / 8)); [injection E as <-; by left|right]. by apply mapM_decode_Err.
Qed.

(** C32: a scan is bounded and loses nothing. A page holds rows of the dimension after the cursor in
    key order, within both limits, and stops short only where a limit stops it; it fails only on
    a bad dimension, bad limits or a row larger than the whole budget. A client that follows the
    last key of each page ends, after at most one call per row and one more, with exactly the
    rows of the dimension. *)
Theorem scan_enumerates cache d limits after :
  match scan_cache cache d after limits with
  | Ok page => Page (dim_rows cache d after) limits page
  | Err e =>
      e = InvalidDimension d /\ 13 < uval d
      \/ e = Limit "scan entry count" /\ ~ 1 <= uval (max_entries limits) <= MAX_SCAN_ENTRIES
      \/ e = Limit "read element count" /\ MAX_VALUE_ELEMENTS < uval (max_elements limits)
      \/ e = Limit "value exceeds read budget"
         /\ exists row, row ∈ dim_rows cache d after /\ uval (max_elements limits) < zlen row.2
  end
  /\ (forall k v, (k, v) ∈ dim_rows cache d None <-> cache !! (d, k) = Some v)
  /\ (uval d <= 13 -> limits_validate limits = Ok tt ->
      (forall k v, cache !! (d, k) = Some v -> zlen v <= uval (max_elements limits)) ->
      scan_all (S (length (dim_rows cache d None))) cache d None limits = Ok (dim_rows cache d None)).
Proof.
  split_and!.
  - destruct (Z_le_gt_dec (uval d) 13) as [Hd|Hd].
    + destruct (limits_validate limits) as [[]|e] eqn:El.
      * pose proof (scan_cache_ok cache d after limits Hd El) as Hs. destruct (scan_cache _ _ _ _); [done|]. tauto.
      * unfold scan_cache. rewrite check_dimension_ok, El by done. cbn [mbind result_bind].
        unfold limits_validate, check_read_limit in El. pose proof (uval_range (max_entries limits)).
        destruct (Z.eqb_spec (uval (max_entries limits)) 0); cbn [orb] in El; [injection El as <-; right; left; split; [done|lia]|].
        destruct (Z.ltb_spec MAX_SCAN_ENTRIES (uval (max_entries limits)));
          [injection El as <-; right; left; split; [done|lia]|].
        destruct (Z.ltb_spec MAX_VALUE_ELEMENTS (uval (max_elements limits))); [|done].
        injection El as <-. right. right. left. done.
    + unfold scan_cache, check_dimension, EPHEMERAL. rewrite (uval_of_Z_small 8 13) by (simpl; lia).
      rewrite (proj2 (Z.ltb_lt _ _)) by lia. cbn [mbind result_bind]. left. split; [done|lia].
  - intros k v. rewrite elem_of_dim_rows. naive_solver.
  - intros Hd Hl Hv. apply scan_all_ok; [done..|lia].
Qed.

End AccessSpec.
(** ** Witnesses *)

Import Toy.

Definition sample_words : list u64 := [of_Z 64 7; of_Z 64 300].

Lemma goldilocks_roundtrip_witness :
  deserialize_goldilocks (serialize_goldilocks (map g_new sample_words)) 2 = Ok (map g_new sample_words).
Proof.
  apply (goldilocks_roundtrip [] 2).
  - repeat constructor.
  - split; [done|]. unfold MAX_VALUE_ELEMENTS. lia.
Defined.

Definition sample_cache : gmap EntryKey (list Goldilocks) :=
  <[(of_Z 8 2, id32 5) := sample_words]> {[(of_Z 8 2, id32 4) := [of_Z 64 1]]}.

Lemma scan_enumerates_witness :
  let limits := mkScanLimits (of_Z 64 1) (of_Z 64 2) in
  scan_all 3 sample_cache (of_Z 8 2) None limits
  = Ok [(id32 4, [of_Z 64 1]); (id32 5, sample_words)].
Proof.
  destruct (scan_enumerates sample_cache (of_Z 8 2) (mkScanLimits (of_Z 64 1) (of_Z 64 2)) None) as (_ & _ & Hall).
  assert (dim_rows sample_cache (of_Z 8 2) None = [(id32 4, [of_Z 64 1]); (id32 5, sample_words)]) as E
    by (vm_compute; reflexivity).
  rewrite E in Hall. apply Hall; [done|reflexivity|].
  intros k v. unfold sample_cache. rewrite lookup_insert_Some, lookup_singleton_Some.
  intros [[_ <-]|(_ & _ & <-)]; vm_compute; discriminate.
Defined.
