(* ===== verification/Buffer.v ===== *)
(** * Pending writes (rs/src/storage/buffer.rs)

    The write buffer the stores share: the cache, the dirty rows with their position index, the
    deleted keys, an unresolved commit, and the identity of a batch of changes. *)

From S2P Require Import Prelude.
From S2P Require Import Crypto.
From S2P Require Import Access.

Local Open Scope Z_scope.

Section Buffer.
  Context `{Nebu, Hemera}.

Record WriteBuffer := mkWriteBuffer {
  wb_cache : gmap EntryKey (list Goldilocks);
  wb_dirty : list (EntryKey * list Goldilocks);
  wb_deleted : gset EntryKey;
  wb_unknown : option StorageError;
  wb_positions : gmap EntryKey nat;
  wb_elements : Z;
}.

Definition wb_default : WriteBuffer := mkWriteBuffer ∅ [] ∅ None ∅ 0.

Definition set_cache (b : WriteBuffer) c : WriteBuffer :=
  mkWriteBuffer c (wb_dirty b) (wb_deleted b) (wb_unknown b) (wb_positions b) (wb_elements b).
Definition set_dirty (b : WriteBuffer) d : WriteBuffer :=
  mkWriteBuffer (wb_cache b) d (wb_deleted b) (wb_unknown b) (wb_positions b) (wb_elements b).
Definition set_deleted (b : WriteBuffer) d : WriteBuffer :=
  mkWriteBuffer (wb_cache b) (wb_dirty b) d (wb_unknown b) (wb_positions b) (wb_elements b).
Definition set_unknown (b : WriteBuffer) u : WriteBuffer :=
  mkWriteBuffer (wb_cache b) (wb_dirty b) (wb_deleted b) u (wb_positions b) (wb_elements b).
Definition set_positions (b : WriteBuffer) p : WriteBuffer :=
  mkWriteBuffer (wb_cache b) (wb_dirty b) (wb_deleted b) (wb_unknown b) p (wb_elements b).
Definition set_elements (b : WriteBuffer) n : WriteBuffer :=
  mkWriteBuffer (wb_cache b) (wb_dirty b) (wb_deleted b) (wb_unknown b) (wb_positions b) n.

Abbreviation Buffering := (SM StorageError WriteBuffer).

Definition wb_ready (b : WriteBuffer) : StorageResult unit :=
  match wb_unknown b with Some e => Err e | None => Ok tt end.

Definition wb_clean (b : WriteBuffer) : StorageResult unit :=
  _ ← wb_ready b;
  if bool_decide (wb_dirty b <> []) || bool_decide (wb_deleted b <> ∅) then Err PendingWrites else Ok tt.

Definition check_key_capacity (b : WriteBuffer) (k : EntryKey) : StorageResult unit :=
  let exists_ := bool_decide (k ∈ wb_deleted b) || bool_decide (is_Some (wb_positions b !! k)) in
  if negb exists_ && (MAX_PENDING_KEYS <=? zlen (wb_dirty b) + Z.of_nat (size (wb_deleted b)))
  then Err (Limit "pending key count") else Ok tt.

(** The dirty row of [put]: overwritten in place when there is one, appended otherwise. *)
Definition put_dirty (position : option nat) (k : EntryKey) (v : list Goldilocks) (b : WriteBuffer) : WriteBuffer :=
  match position with
  | Some i => set_dirty b (alter (fun e => (e.1, v)) i (wb_dirty b))
  | None =>
      let b := set_positions b (<[k := length (wb_dirty b)]> (wb_positions b)) in
      set_dirty b (wb_dirty b ++ [(k, v)])
  end.

Definition wb_put (dimension : u8) (key : bytes 32) (v : list Goldilocks) : Buffering unit :=
  let k := (dimension, key) in
  b ← sm_get;
  _ ← sm_lift (wb_ready b);
  _ ← sm_lift (check_dimension dimension);
  _ ← sm_require (zlen v <=? MAX_VALUE_ELEMENTS) (Limit "value element count");
  _ ← (if decide (dimension = EPHEMERAL) then mret tt
       else
         let position := wb_positions b !! k in
         old ← sm_some (match position with
                        | None => Some 0
                        | Some i => e ← wb_dirty b !! i; Some (zlen e.2)
                        end);
         others ← sm_some (usize_sub (wb_elements b) old);
         let elements := others + zlen v in
         _ ← sm_require (elements <=? MAX_PENDING_ELEMENTS) (Limit "pending element count");
         _ ← sm_lift (check_key_capacity b k);
         _ ← sm_modify (fun b => set_deleted b (wb_deleted b ∖ {[k]}));
         _ ← sm_modify (put_dirty position k v);
         sm_modify (fun b => set_elements b elements));
  sm_modify (fun b => set_cache b (<[k := v]> (wb_cache b))).

(** [Vec::swap_remove]: the element at [i], whose place the last element takes. *)
Definition swap_remove {A} (i : nat) (l : list A) : option (A * list A) :=
  x ← l !! i;
  z ← last l;
  Some (x, take (length l - 1) (<[i := z]> l)).

(** Dropping the dirty row of a deleted key; the row moved into its place is re-indexed. *)
Definition drop_dirty (k : EntryKey) (b : WriteBuffer) : option WriteBuffer :=
  match wb_positions b !! k with
  | None => Some b
  | Some i =>
      let b := set_positions b (delete k (wb_positions b)) in
      '(row, dirty) ← swap_remove i (wb_dirty b);
      let b := set_dirty b dirty in
      elements ← usize_sub (wb_elements b) (zlen row.2);
      let b := set_elements b elements in
      Some (match wb_dirty b !! i with
            | Some (moved, _) => set_positions b (<[moved := i]> (wb_positions b))
            | None => b
            end)
  end.

Definition wb_delete (dimension : u8) (key : bytes 32) : Buffering unit :=
  let k := (dimension, key) in
  b ← sm_get;
  _ ← sm_lift (wb_ready b);
  _ ← sm_lift (check_dimension dimension);
  _ ← (if decide (dimension = EPHEMERAL) then mret tt
       else
         _ ← sm_lift (check_key_capacity b k);
         b ← sm_some (drop_dirty k b);
         sm_modify (fun _ => set_deleted b ({[k]} ∪ wb_deleted b)));
  sm_modify (fun b => set_cache b (delete k (wb_cache b))).

Definition clear_pending (b : WriteBuffer) : WriteBuffer :=
  mkWriteBuffer (wb_cache b) [] ∅ (wb_unknown b) ∅ 0.

(** [finish]: only local-only values stay cached. *)
Definition wb_finish (b : WriteBuffer) : WriteBuffer :=
  let b := clear_pending b in
  set_cache b (filter (fun e => e.1.1 = EPHEMERAL) (wb_cache b)).

(** ** The identity of a batch *)

Definition wb_changes (b : WriteBuffer) : gmap EntryKey (option (list Goldilocks)) :=
  let changes := foldl (fun m e => <[e.1 := Some e.2]> m) ∅ (wb_dirty b) in
  foldl (fun m k => <[k := None]> m) changes (btree_keys (wb_deleted b)).

Definition SHARD_BATCH_TAG : list u8 := ascii_bytes "bbg/shard-batch/v1" ++ [of_Z 8 0].

Definition encode_change (e : EntryKey * option (list Goldilocks)) : list u8 :=
  e.1.1 :: blist e.1.2 ++
  match e.2 with
  | Some v => of_Z 8 1 :: le_bytes 8 (zlen v) ++ serialize_goldilocks v
  | None => [of_Z 8 0]
  end.

Definition encode_changes (changes : gmap EntryKey (option (list Goldilocks))) : list u8 :=
  SHARD_BATCH_TAG ++ le_bytes 8 (Z.of_nat (size changes)) ++ flat_map encode_change (btree_iter changes).

Definition wb_change_id (b : WriteBuffer) : bytes 32 := hemera_hash (encode_changes (wb_changes b)).

End Buffer.

(** ** The rows and changes a buffer presents *)

Section BufferSpec.
  Context `{Nebu, Hemera}.

(** Pending changes by key: a written value, or an erasure. *)
Abbreviation Changes := (gmap EntryKey (option (list Goldilocks))).

Definition change_elements (c : option (list Goldilocks)) : Z := from_option zlen 0 c.

Definition total_elements (p : Changes) : Z := zsum (fun e => change_elements e.2) (map_to_list p).

Lemma total_delete p k :
  total_elements (delete k p) = total_elements p - from_option change_elements 0 (p !! k).
Proof. apply (map_sum_delete (fun e => change_elements e.2)). Qed.

Lemma total_insert p k c :
  total_elements (<[k := c]> p) = total_elements p - from_option change_elements 0 (p !! k) + change_elements c.
Proof. apply (map_sum_insert (fun e => change_elements e.2)). Qed.

Lemma change_elements_nonneg c : 0 <= change_elements c.
Proof. destruct c; cbn; unfold zlen; lia. Qed.

Lemma total_nonneg p : 0 <= total_elements p.
Proof. apply zsum_nonneg. intros e. apply change_elements_nonneg. Qed.

Lemma total_lookup p k c : p !! k = Some c -> change_elements c <= total_elements p.
Proof. apply (map_sum_lookup (fun e => change_elements e.2)). intros e. apply change_elements_nonneg. Qed.

(** The buffer with its cached rows [m] and pending changes [p]. *)
Record WbRep (b : WriteBuffer) (m : gmap EntryKey (list Goldilocks)) (p : Changes) : Prop := {
  wr_cache : wb_cache b = m;
  wr_known : wb_unknown b = None;
  wr_positions : forall k i, wb_positions b !! k = Some i <-> (wb_dirty b).*1 !! i = Some k;
  wr_written : forall k v, p !! k = Some (Some v) <-> (k, v) ∈ wb_dirty b;
  wr_erased : forall k, p !! k = Some None <-> k ∈ wb_deleted b;
  wr_elements : wb_elements b = total_elements p;
  wr_size : Z.of_nat (size p) = zlen (wb_dirty b) + Z.of_nat (size (wb_deleted b));
}.

Definition over_keys (p : Changes) (k : EntryKey) : bool :=
  bool_decide (p !! k = None) && (MAX_PENDING_KEYS <=? Z.of_nat (size p)).

(** A write, and an erasure, on rows and changes. *)
Definition view_put (m : gmap EntryKey (list Goldilocks)) (p : Changes) (d : u8) (key : bytes 32) (v : list Goldilocks)
    : StorageResult unit * (gmap EntryKey (list Goldilocks) * Changes) :=
  let k := (d, key) in
  if 13 <? uval d then (Err (InvalidDimension d), (m, p))
  else if MAX_VALUE_ELEMENTS <? zlen v then (Err (Limit "value element count"), (m, p))
  else if decide (d = EPHEMERAL) then (Ok tt, (<[k := v]> m, p))
  else if MAX_PENDING_ELEMENTS <? total_elements (<[k := Some v]> p) then (Err (Limit "pending element count"), (m, p))
  else if over_keys p k then (Err (Limit "pending key count"), (m, p))
  else (Ok tt, (<[k := v]> m, <[k := Some v]> p)).

Definition view_delete (m : gmap EntryKey (list Goldilocks)) (p : Changes) (d : u8) (key : bytes 32)
    : StorageResult unit * (gmap EntryKey (list Goldilocks) * Changes) :=
  let k := (d, key) in
  if 13 <? uval d then (Err (InvalidDimension d), (m, p))
  else if decide (d = EPHEMERAL) then (Ok tt, (delete k m, p))
  else if over_keys p k then (Err (Limit "pending key count"), (m, p))
  else (Ok tt, (delete k m, <[k := None]> p)).

Lemma wb_rep_default : WbRep wb_default ∅ ∅.
Proof.
  split; try done.
  - intros k v. split; [done|]. intros Hv. by apply not_elem_of_nil in Hv.
Qed.

Lemma check_dimension_eq d : check_dimension d = if 13 <? uval d then Err (InvalidDimension d) else Ok tt.
Proof. unfold check_dimension, EPHEMERAL. by rewrite (uval_of_Z_small 8 13) by (simpl; lia). Qed.

(** The position of a key tells its change. *)
Lemma wr_position_Some b m p k i :
  WbRep b m p -> wb_positions b !! k = Some i -> exists v, wb_dirty b !! i = Some (k, v) /\ p !! k = Some (Some v).
Proof.
  intros Hb E. apply (wr_positions _ _ _ Hb) in E. rewrite list_lookup_fmap in E.
  destruct (wb_dirty b !! i) as [[k' v]|] eqn:Ed; [|done]. injection E as ->. exists v. split; [done|].
  apply (wr_written _ _ _ Hb). by eapply list_elem_of_lookup_2.
Qed.

Lemma wr_position_None b m p k v :
  WbRep b m p -> wb_positions b !! k = None -> p !! k <> Some (Some v).
Proof.
  intros Hb E Hp. apply (wr_written _ _ _ Hb) in Hp. apply list_elem_of_lookup_1 in Hp as [i Hi].
  assert ((wb_dirty b).*1 !! i = Some k) as Hk by (by rewrite list_lookup_fmap, Hi).
  apply (wr_positions _ _ _ Hb) in Hk. congruence.
Qed.

Lemma check_key_capacity_eq b m p k :
  WbRep b m p ->
  check_key_capacity b k = if over_keys p k then Err (Limit "pending key count") else Ok tt.
Proof.
  intros Hb. unfold check_key_capacity, over_keys. rewrite <- (wr_size _ _ _ Hb).
  enough (negb (bool_decide (k ∈ wb_deleted b) || bool_decide (is_Some (wb_positions b !! k)))
    = bool_decide (p !! k = None)) as -> by done.
  apply eq_true_iff_eq. rewrite negb_true_iff, orb_false_iff, !bool_decide_eq_false, bool_decide_eq_true.
  rewrite <- (wr_erased _ _ _ Hb). destruct (p !! k) as [[v|]|] eqn:E.
  - split; [|done]. intros [_ Hn]. exfalso. destruct (wb_positions b !! k) eqn:Ep; [by apply Hn|].
    by apply (wr_position_None _ _ _ _ v Hb) in Ep.
  - split; [|done]. by intros [].
  - split; [done|]. intros _. split; [done|]. intros [i Ep].
    destruct (wr_position_Some _ _ _ _ _ Hb Ep) as (v & _ & Hv). congruence.
Qed.


(** The rows after a write to dirty row [i], or after a new row. *)
Lemma elem_of_alter_row (l : list (EntryKey * list Goldilocks)) i k k' v v' :
  NoDup l.*1 -> l.*1 !! i = Some k ->
  (k', v') ∈ alter (fun e => (e.1, v)) i l <-> k' = k /\ v' = v \/ k' <> k /\ (k', v') ∈ l.
Proof.
  intros Hn Hi. rewrite !list_elem_of_lookup. rewrite list_lookup_fmap in Hi. split.
  - intros [j Hj]. destruct (decide (i = j)) as [<-|Hne].
    + rewrite list_lookup_alter_eq in Hj. destruct (l !! i) as [[k0 v0]|]; [|done]. injection Hi as ->.
      injection Hj as -> ->. by left.
    + rewrite list_lookup_alter_ne in Hj by done. right. split; [|eauto]. intros ->. apply Hne.
      apply (NoDup_lookup _ _ _ k Hn); rewrite list_lookup_fmap; [done|by rewrite Hj].
  - intros [[-> ->]|[Hne [j Hj]]].
    + exists i. rewrite list_lookup_alter_eq. destruct (l !! i) as [[k0 v0]|]; [|done]. by injection Hi as ->.
    + exists j. rewrite list_lookup_alter_ne; [done|]. intros ->. rewrite Hj in Hi. by injection Hi as ->.
Qed.

Lemma wr_NoDup b m p : WbRep b m p -> NoDup (wb_dirty b).*1.
Proof.
  intros Hb. apply NoDup_alt. intros i j k Hi Hj. apply (wr_positions _ _ _ Hb) in Hi, Hj. congruence.
Qed.

Lemma fmap_alter_row (l : list (EntryKey * list Goldilocks)) i v : (alter (fun e => (e.1, v)) i l).*1 = l.*1.
Proof.
  revert i. induction l as [|e l IH]; intros [|i]; [done..|]. change (e.1 :: (alter (fun e => (e.1, v)) i l).*1 = e.1 :: l.*1).
  by rewrite IH.
Qed.

Lemma size_minus_absent (s : gset EntryKey) k : k ∉ s -> s ∖ {[k]} = s.
Proof. set_solver. Qed.

(** The dirty part of a write. *)
Lemma put_dirty_ok b m p k v n :
  WbRep b m p -> n = total_elements (<[k := Some v]> p) ->
  WbRep (set_elements (put_dirty (wb_positions b !! k) k v (set_deleted b (wb_deleted b ∖ {[k]}))) n) m (<[k := Some v]> p).
Proof.
  intros Hb ->. pose proof (wr_NoDup _ _ _ Hb) as Hn. pose proof (wr_size _ _ _ Hb) as Hz.
  assert (forall k', <[k := Some v]> p !! k' = Some None <-> k' ∈ wb_deleted b ∖ {[k]}) as Hd.
  { intros k'. rewrite elem_of_difference, elem_of_singleton, <- (wr_erased _ _ _ Hb), lookup_insert_Some. naive_solver. }
  assert (forall k' v', <[k := Some v]> p !! k' = Some (Some v') <-> k' = k /\ v' = v \/ k' <> k /\ (k', v') ∈ wb_dirty b) as Hw.
  { intros k' v'. rewrite lookup_insert_Some, (wr_written _ _ _ Hb). naive_solver. }
  destruct (wb_positions b !! k) as [i|] eqn:E; cbn [put_dirty].
  - destruct (wr_position_Some _ _ _ _ _ Hb E) as (v0 & _ & Hv0).
    apply (wr_positions _ _ _ Hb) in E.
    assert (k ∉ wb_deleted b) as Hnd by (rewrite <- (wr_erased _ _ _ Hb); congruence).
    split; cbn; [apply Hb|apply Hb| |..].
    + intros k' i'. rewrite fmap_alter_row. apply Hb.
    + intros k' v'. rewrite Hw. symmetry. by apply elem_of_alter_row.
    + exact Hd.
    + done.
    + rewrite map_size_insert_Some by eauto. unfold zlen. rewrite length_alter, size_minus_absent by done. exact Hz.
  - assert (forall v', (k, v') ∉ wb_dirty b) as Hnk.
    { intros v' Hv'. apply (wr_written _ _ _ Hb) in Hv'. by apply (wr_position_None _ _ _ _ v' Hb) in E. }
    split; cbn; [apply Hb|apply Hb| |..].
    + intros k' i'. rewrite fmap_app, lookup_insert_Some, (wr_positions _ _ _ Hb), lookup_app_Some, length_fmap. cbn.
      rewrite list_lookup_singleton_Some. split.
      * intros [[-> <-]|[_ Hi]]; [right; split; [lia|]; split; [lia|done]|by left].
      * intros [Hi|(Hle & Hi & <-)]; [right|left; split; [done|lia]]. split; [|done]. intros <-.
        apply (wr_positions _ _ _ Hb) in Hi. congruence.
    + intros k' v'. rewrite Hw, elem_of_app, list_elem_of_singleton. split.
      * intros [[-> ->]|[_ Hk]]; [by right|by left].
      * intros [Hk|[= -> ->]]; [right|by left]. split; [|done]. intros ->. by apply Hnk in Hk.
    + exact Hd.
    + done.
    + unfold zlen in *. rewrite length_app. cbn [length].
      destruct (decide (k ∈ wb_deleted b)) as [Hk|Hk].
      * pose proof (proj2 (wr_erased _ _ _ Hb k) Hk) as Hp. rewrite map_size_insert_Some by eauto.
        rewrite size_difference, size_singleton by set_solver.
        assert (size (wb_deleted b) <> 0)%nat by (intros ?%size_empty_inv; set_solver). lia.
      * rewrite size_minus_absent by done. rewrite map_size_insert_None; [lia|].
        destruct (p !! k) as [[v'|]|] eqn:Ep; [|by apply (wr_erased _ _ _ Hb) in Ep|done].
        by apply (wr_position_None _ _ _ _ v' Hb) in E.
Qed.

Lemma wb_put_ok b m p d key v :
  WbRep b m p ->
  exists b', wb_put d key v b = Some ((view_put m p d key v).1, b')
    /\ WbRep b' (view_put m p d key v).2.1 (view_put m p d key v).2.2.
Proof.
  intros Hb. unfold wb_put, view_put. rewrite sm_bind_eq. cbn [sm_get]. unfold wb_ready. rewrite (wr_known _ _ _ Hb).
  rewrite sm_bind_eq. cbn [sm_lift]. rewrite sm_bind_eq, check_dimension_eq. cbn [sm_lift].
  destruct (13 <? uval d); [by exists b|]. rewrite sm_bind_eq.
  destruct (Z.ltb_spec MAX_VALUE_ELEMENTS (zlen v)) as [Hv|Hv].
  { rewrite (proj2 (Z.leb_gt _ _)) by done. by exists b. }
  rewrite (proj2 (Z.leb_le _ _)) by done. cbn [sm_require mret sm_ret]. rewrite sm_bind_eq.
  destruct (decide (d = EPHEMERAL)) as [Hd|Hd].
  { eexists. split; [done|]. destruct Hb; subst. by split. }
  set (k := (d, key)).
  assert ((match wb_positions b !! k with None => Some 0 | Some i => e ← wb_dirty b !! i; Some (zlen e.2) end)
    = Some (from_option change_elements 0 (p !! k))) as ->.
  { destruct (wb_positions b !! k) as [i|] eqn:E.
    - destruct (wr_position_Some _ _ _ _ _ Hb E) as (v0 & -> & ->). done.
    - destruct (p !! k) as [[v0|]|] eqn:Ep; [|done..]. by apply (wr_position_None _ _ _ _ v0 Hb) in E. }
  rewrite sm_bind_eq. cbn [sm_some mbind option_bind]. rewrite sm_bind_eq.
  rewrite usize_sub_ok.
  2: { rewrite (wr_elements _ _ _ Hb). destruct (p !! k) as [c|] eqn:E; simpl; [by eapply total_lookup|apply total_nonneg]. }
  cbn [sm_some mbind option_bind].
  assert (wb_elements b - from_option change_elements 0 (p !! k) + zlen v = total_elements (<[k := Some v]> p)) as ->
    by (rewrite (wr_elements _ _ _ Hb), total_insert; done).
  rewrite sm_bind_eq. destruct (Z.ltb_spec MAX_PENDING_ELEMENTS (total_elements (<[k := Some v]> p))) as [He|He].
  { rewrite (proj2 (Z.leb_gt _ _)) by done. by exists b. }
  rewrite (proj2 (Z.leb_le _ _)) by done. cbn [sm_require mret sm_ret]. rewrite sm_bind_eq.
  rewrite (check_key_capacity_eq _ _ _ _ Hb). cbn [sm_lift]. destruct (over_keys p k); [by exists b|].
  cbn. eexists. split; [done|].
  pose proof (put_dirty_ok b m p k v _ Hb eq_refl) as [<- ? ? ? ? ? ?]. by split.
Qed.


(** [swap_remove] at a valid index: what stays where, and that one element is gone. *)
Lemma swap_remove_ok {A} (l : list A) i x :
  l !! i = Some x ->
  exists z l', last l = Some z /\ swap_remove i l = Some (x, l') /\ x :: l' ≡ₚ l
    /\ (length l' + 1 = length l)%nat
    /\ forall j, l' !! j = if (j =? i)%nat && (i <? length l')%nat then Some z
                           else if (j <? length l')%nat then l !! j else None.
Proof.
  intros Hi. destruct (last l) as [z|] eqn:El; [|apply last_None in El as ->; done].
  pose proof El as (l0 & ->)%last_Some. unfold swap_remove. rewrite Hi, El. cbn [mbind option_bind].
  set (l' := take _ _). exists z, l'. pose proof (lookup_lt_Some _ _ _ Hi) as Hlt. rewrite length_app in Hlt. simpl in Hlt.
  assert (length l' = length l0) as Hl by (subst l'; rewrite length_take, length_insert, length_app; simpl; lia).
  assert (l' = <[i := z]> l0) as El'.
  { subst l'. rewrite length_app. simpl. replace (length l0 + 1 - 1)%nat with (length l0) by lia.
    destruct (decide (i = length l0)) as [->|Hne].
    - rewrite (list_insert_ge l0) by lia. rewrite insert_app_r_alt by lia. by rewrite take_app_length.
    - rewrite insert_app_l by lia. by rewrite take_app_length' by (by rewrite length_insert). }
  split_and!; [done|done| |rewrite length_app; simpl; lia|].
  - rewrite El'. destruct (decide (i = length l0)) as [->|Hne].
    + rewrite (list_insert_ge l0) by lia. rewrite lookup_app_r, Nat.sub_diag in Hi by lia. injection Hi as ->.
      by rewrite Permutation_app_comm.
    + rewrite lookup_app_l in Hi by lia. rewrite insert_take_drop by lia.
      transitivity (z :: take i l0 ++ x :: drop (S i) l0).
      * rewrite <- !Permutation_middle. apply Permutation_swap.
      * rewrite (take_drop_middle _ _ _ Hi). by rewrite (Permutation_app_comm l0).
  - intros j. rewrite Hl, El'. destruct (Nat.eqb_spec j i) as [->|Hne]; cbn [andb].
    + destruct (Nat.ltb_spec i (length l0)); [by rewrite list_lookup_insert_eq|].
      apply lookup_ge_None. rewrite length_insert. lia.
    + rewrite list_lookup_insert_ne by done. destruct (Nat.ltb_spec j (length l0)); [by rewrite lookup_app_l|].
      apply lookup_ge_None. lia.
Qed.

(** The position index after a swap. *)
Lemma swap_positions (pos : gmap EntryKey nat) (ks ks' : list EntryKey) i k z n :
  (forall k i, pos !! k = Some i <-> ks !! i = Some k) ->
  ks !! i = Some k -> ks !! n = Some z -> length ks = S n ->
  (forall j, ks' !! j = if (j =? i)%nat && (i <? n)%nat then Some z else if (j <? n)%nat then ks !! j else None) ->
  let pos' := match ks' !! i with Some moved => <[moved := i]> (delete k pos) | None => delete k pos end in
  forall k' j, pos' !! k' = Some j <-> ks' !! j = Some k'.
Proof.
  intros Hp Hi Hz Hn Hk pos' k' j. pose proof (lookup_lt_Some _ _ _ Hi) as Hlt.
  assert (forall j x y, ks !! j = Some x -> ks !! y = Some x -> j = y) as Hinj.
  { intros j1 x y H1' H2'. apply Hp in H1', H2'. congruence. }
  subst pos'. rewrite (Hk i), (Hk j), Nat.eqb_refl. cbn [andb].
  destruct (Nat.ltb_spec i n) as [Hin|Hin].
  - assert (z <> k) as Hzk by (intros ->; specialize (Hinj _ _ _ Hi Hz); lia).
    rewrite lookup_insert_Some. destruct (Nat.eqb_spec j i) as [->|Hji]; cbn [andb].
    + split; [|by intros [= <-]; left]. intros [[<- _]|[_ [Hne Hk']%lookup_delete_Some]]; [done|].
      apply Hp in Hk'. congruence.
    + rewrite lookup_delete_Some, Hp. split.
      * intros [[_ <-]|(Hne & _ & Hk')]; [done|]. apply lookup_lt_Some in Hk' as Hj.
        destruct (Nat.ltb_spec j n); [done|]. replace j with n in Hk' by lia. congruence.
      * destruct (Nat.ltb_spec j n); [|done]. intros Hk'. right. split_and!; [|intros <-; by apply Hji, (Hinj _ k)|done].
        intros <-. specialize (Hinj _ _ _ Hk' Hz). lia.
  - rewrite andb_false_r, lookup_delete_Some, Hp. replace n with i in * by lia. split.
    + intros [Hne Hk']. apply lookup_lt_Some in Hk' as Hj. destruct (Nat.ltb_spec j i); [done|].
      replace j with i in Hk' by lia. congruence.
    + destruct (Nat.ltb_spec j i); [|done]. intros Hk'. split; [|done]. intros <-. specialize (Hinj _ _ _ Hk' Hi). lia.
Qed.

(** Dropping the dirty row of a key that is being erased. *)
Lemma drop_dirty_ok b m p k :
  WbRep b m p ->
  exists b', drop_dirty k b = Some b'
    /\ WbRep (set_deleted b' ({[k]} ∪ wb_deleted b')) m (<[k := None]> p).
Proof.
  intros Hb. pose proof (wr_NoDup _ _ _ Hb) as Hn. pose proof (wr_size _ _ _ Hb) as Hz.
  assert (forall s : gset EntryKey, s = wb_deleted b -> forall k', <[k := None]> p !! k' = Some None <-> k' ∈ {[k]} ∪ s) as Hd.
  { intros s -> k'. rewrite elem_of_union, elem_of_singleton, <- (wr_erased _ _ _ Hb), lookup_insert_Some.
    destruct (decide (k = k')); naive_solver. }
  assert (forall k' v', <[k := None]> p !! k' = Some (Some v') <-> k' <> k /\ (k', v') ∈ wb_dirty b) as Hw.
  { intros k' v'. rewrite lookup_insert_Some, (wr_written _ _ _ Hb). naive_solver. }
  assert (k ∉ wb_deleted b -> size ({[k]} ∪ wb_deleted b) = S (size (wb_deleted b))) as Hs1.
  { intros Hk. rewrite size_union by set_solver. by rewrite size_singleton. }
  unfold drop_dirty. destruct (wb_positions b !! k) as [i|] eqn:E.
  - destruct (wr_position_Some _ _ _ _ _ Hb E) as (v0 & Hi & Hv0). cbn [wb_dirty set_positions].
    destruct (swap_remove_ok _ _ _ Hi) as (z & l' & Hlast & -> & Hperm & Hlen & Hl'). cbn [mbind option_bind wb_elements set_dirty set_positions].
    assert (k ∉ wb_deleted b) as Hnd by (rewrite <- (wr_erased _ _ _ Hb); congruence).
    rewrite (wr_elements _ _ _ Hb). rewrite usize_sub_ok by (by apply (total_lookup p k (Some v0))).
    cbn [mbind option_bind wb_dirty set_dirty set_elements].
    assert (forall k' v', (k', v') ∈ l' <-> k' <> k /\ (k', v') ∈ wb_dirty b) as Hin.
    { intros k' v'. rewrite <- Hperm. rewrite elem_of_cons. rewrite <- Hperm in Hn. apply NoDup_cons in Hn as [Hnk _].
      split.
      - intros Hk. split; [|by right]. intros ->. apply Hnk. apply list_elem_of_fmap. by exists (k, v').
      - intros [Hne [[= -> ->]|Hk]]; [by destruct Hne|done]. }
    eexists. split; [reflexivity|].
    assert (forall pos, (forall k' j, pos !! k' = Some j <-> l'.*1 !! j = Some k') ->
      WbRep (mkWriteBuffer (wb_cache b) l' ({[k]} ∪ wb_deleted b) (wb_unknown b) pos (total_elements p - zlen v0)) m (<[k := None]> p)) as Hgoal.
    { intros pos Hpos. split; cbn; [apply Hb|apply Hb|exact Hpos| |by apply Hd|..].
      - intros k' v'. by rewrite Hw, Hin.
      - rewrite total_insert, Hv0. simpl. lia.
      - rewrite map_size_insert_Some by eauto. rewrite Hs1 by done. unfold zlen in *. lia. }
    assert ((wb_dirty b).*1 !! length l' = Some z.1) as Hz1.
    { rewrite list_lookup_fmap. rewrite last_lookup in Hlast.
      replace (pred (length (wb_dirty b))) with (length l') in Hlast by lia. by rewrite Hlast. }
    pose proof (swap_positions (wb_positions b) (wb_dirty b).*1 l'.*1 i k z.1 (length l') (wr_positions _ _ _ Hb)) as Hpos.
    cbv zeta in Hpos. rewrite (list_lookup_fmap fst l' i) in Hpos.
    destruct (l' !! i) as [[moved vm]|] eqn:Em; cbn; apply Hgoal, Hpos;
      try (by rewrite list_lookup_fmap, Hi); try done; try (rewrite length_fmap; lia);
      intros j; rewrite list_lookup_fmap, Hl'; repeat case_match; try done; by rewrite list_lookup_fmap.
  - eexists. split; [done|]. split; cbn; [apply Hb|apply Hb|apply Hb| |by apply Hd|..].
    + intros k' v'. rewrite Hw. split; [by intros []|]. intros Hk. split; [|done]. intros ->.
      apply (wr_written _ _ _ Hb) in Hk. by apply (wr_position_None _ _ _ _ v' Hb) in E.
    + rewrite total_insert, (wr_elements _ _ _ Hb). simpl.
      destruct (p !! k) as [[v'|]|] eqn:Ep; [by apply (wr_position_None _ _ _ _ v' Hb) in E|simpl; lia..].
    + destruct (p !! k) as [[v'|]|] eqn:Ep; [by apply (wr_position_None _ _ _ _ v' Hb) in E|..].
      * rewrite map_size_insert_Some by eauto. apply (wr_erased _ _ _ Hb) in Ep.
        replace ({[k]} ∪ wb_deleted b) with (wb_deleted b) by set_solver. exact Hz.
      * rewrite map_size_insert_None by done. rewrite Hs1; [unfold zlen in *; lia|].
        rewrite <- (wr_erased _ _ _ Hb). congruence.
Qed.


Lemma wb_delete_ok b m p d key :
  WbRep b m p ->
  exists b', wb_delete d key b = Some ((view_delete m p d key).1, b')
    /\ WbRep b' (view_delete m p d key).2.1 (view_delete m p d key).2.2.
Proof.
  intros Hb. unfold wb_delete, view_delete. rewrite sm_bind_eq. cbn [sm_get]. unfold wb_ready. rewrite (wr_known _ _ _ Hb).
  rewrite sm_bind_eq. cbn [sm_lift]. rewrite sm_bind_eq, check_dimension_eq. cbn [sm_lift].
  destruct (13 <? uval d); [by exists b|]. rewrite sm_bind_eq.
  destruct (decide (d = EPHEMERAL)) as [Hd|Hd].
  { eexists. split; [done|]. destruct Hb; subst. by split. }
  rewrite sm_bind_eq, (check_key_capacity_eq _ _ _ _ Hb). cbn [sm_lift].
  destruct (over_keys p (d, key)); [by exists b|]. rewrite sm_bind_eq.
  destruct (drop_dirty_ok b m p (d, key) Hb) as (b' & E & Hb'). rewrite E. cbn.
  eexists. split; [done|]. destruct Hb' as [<- ? ? ? ? ? ?]. by split.
Qed.

Lemma clear_pending_ok b m p : WbRep b m p -> WbRep (clear_pending b) m ∅.
Proof.
  intros Hb. destruct wb_rep_default as [_ _ ? ? ? ? ?]. split; try done; apply Hb.
Qed.

(** *** The changes of a batch are the pending changes *)

Lemma foldl_written (l : list (EntryKey * list Goldilocks)) (m0 : Changes) k :
  NoDup l.*1 ->
  (forall v, (k, v) ∈ l -> foldl (fun m e => <[e.1 := Some e.2]> m) m0 l !! k = Some (Some v))
  /\ (k ∉ l.*1 -> foldl (fun m e => <[e.1 := Some e.2]> m) m0 l !! k = m0 !! k).
Proof.
  revert m0. induction l as [|[k1 v1] l IH]; intros m0 Hn.
  { split; [by intros v ?%not_elem_of_nil|done]. }
  rewrite fmap_cons in *. apply NoDup_cons in Hn as [Hk1 Hn]. cbn [foldl fst snd] in *.
  destruct (IH (<[k1 := Some v1]> m0) Hn) as [IH1 IH2]. split.
  - intros v [[= -> ->]|Hv]%elem_of_cons; [|by apply IH1]. rewrite IH2 by done. apply lookup_insert_eq.
  - intros [Hne Hk]%not_elem_of_cons. rewrite IH2 by done. by apply lookup_insert_ne.
Qed.

Lemma foldl_erased (l : list EntryKey) (m0 : Changes) k :
  foldl (fun m k => <[k := None]> m) m0 l !! k = if decide (k ∈ l) then Some None else m0 !! k.
Proof.
  revert m0. induction l as [|k1 l IH]; intros m0; cbn [foldl].
  { rewrite decide_False; [done|]. apply not_elem_of_nil. }
  rewrite IH. destruct (decide (k ∈ l)) as [Hk|Hk].
  - rewrite decide_True; [done|]. by apply list_elem_of_further.
  - destruct (decide (k = k1)) as [->|Hne].
    + rewrite decide_True by apply list_elem_of_here. apply lookup_insert_eq.
    + rewrite decide_False by (by apply not_elem_of_cons). by apply lookup_insert_ne.
Qed.

Lemma wb_changes_ok b m p : WbRep b m p -> wb_changes b = p.
Proof.
  intros Hb. apply map_eq. intros k. unfold wb_changes. rewrite foldl_erased.
  destruct (foldl_written (wb_dirty b) ∅ k (wr_NoDup _ _ _ Hb)) as [Hw Hn].
  case_decide as Hk.
  - apply elem_of_btree_keys, (wr_erased _ _ _ Hb) in Hk. done.
  - rewrite elem_of_btree_keys, <- (wr_erased _ _ _ Hb) in Hk. destruct (p !! k) as [[v|]|] eqn:E; [|done|].
    + apply (wr_written _ _ _ Hb) in E. by apply Hw.
    + rewrite Hn; [done|]. intros ((k' & v) & -> & Hv)%list_elem_of_fmap. apply (wr_written _ _ _ Hb) in Hv.
      simpl in E. congruence.
Qed.

(** The pending limits hold at every point. *)
Definition within_limits (p : Changes) : Prop :=
  total_elements p <= MAX_PENDING_ELEMENTS /\ Z.of_nat (size p) <= MAX_PENDING_KEYS
  /\ map_Forall (fun k c => uval k.1 < 13 /\ change_elements c <= MAX_VALUE_ELEMENTS) p.

Lemma within_limits_empty : within_limits ∅.
Proof. split_and!; [done| |apply map_Forall_empty]. rewrite map_size_empty. done. Qed.

Lemma ephemeral_lt (d : u8) : uval d <= 13 -> d <> EPHEMERAL -> uval d < 13.
Proof.
  intros Hd Hne. destruct (Z.eq_dec (uval d) 13) as [E|]; [|lia]. destruct Hne. apply uint_eq. rewrite E.
  unfold EPHEMERAL. by rewrite uval_of_Z_small by (simpl; lia).
Qed.

Lemma size_insert_keys p k c :
  over_keys p k = false -> Z.of_nat (size p) <= MAX_PENDING_KEYS -> Z.of_nat (size (<[k := c]> p)) <= MAX_PENDING_KEYS.
Proof.
  unfold over_keys. rewrite map_size_insert. intros Ho Hs. destruct (p !! k) as [c0|] eqn:E; [exact Hs|].
  simpl in Ho. apply Z.leb_gt in Ho. lia.
Qed.

Lemma view_put_limits m p d key v : within_limits p -> within_limits (view_put m p d key v).2.2.
Proof.
  intros (Ht & Hs & Ha). unfold view_put. destruct (Z.ltb_spec 13 (uval d)); [by split|].
  destruct (Z.ltb_spec MAX_VALUE_ELEMENTS (zlen v)); [by split|]. case_decide; [by split|].
  destruct (Z.ltb_spec MAX_PENDING_ELEMENTS (total_elements (<[(d, key) := Some v]> p))); [by split|].
  destruct (over_keys p (d, key)) eqn:E; [by split|]. split_and!; cbn [snd]; [done|by apply size_insert_keys|].
  apply map_Forall_insert_2; [|done]. split; [by apply ephemeral_lt|done].
Qed.

Lemma view_delete_limits m p d key : within_limits p -> within_limits (view_delete m p d key).2.2.
Proof.
  intros (Ht & Hs & Ha). unfold view_delete. destruct (Z.ltb_spec 13 (uval d)); [by split|].
  case_decide; [by split|]. destruct (over_keys p (d, key)) eqn:E; [by split|]. split_and!; cbn [snd].
  - rewrite total_insert. pose proof (total_delete p (d, key)). pose proof (total_nonneg (delete (d, key) p)).
    assert (0 <= from_option change_elements 0 (p !! (d, key))).
    { destruct (p !! (d, key)) as [[]|]; simpl; unfold zlen; lia. }
    unfold change_elements at 2. simpl. lia.
  - by apply size_insert_keys.
  - apply map_Forall_insert_2; [|done]. split; [by apply ephemeral_lt|done].
Qed.

(** *** What an identity binds *)

(** Changes up to the words of their elements. *)
Definition change_words (c : option (list Goldilocks)) : option (list u64) := map g_as_u64 <$> c.

Lemma serialize_words v : serialize_goldilocks v = concat (map (fun u : u64 => blist (to_le_bytes 8 u)) (map g_as_u64 v)).
Proof. rewrite serialize_concat, map_map. done. Qed.

Lemma serialize_inj v v' r r' :
  length v = length v' -> serialize_goldilocks v ++ r = serialize_goldilocks v' ++ r' ->
  map g_as_u64 v = map g_as_u64 v' /\ r = r'.
Proof.
  intros Hlen E. apply app_inj_1 in E as [E ->]; [|by rewrite !length_serialize, Hlen]. split; [|done].
  rewrite !serialize_words in E. assert (length (map g_as_u64 v) = length (map g_as_u64 v')) as Hl by (by rewrite !length_map).
  revert E Hl. generalize (map g_as_u64 v) (map g_as_u64 v'). clear. intros l. induction l as [|x l IH]; intros [|y l'] E Hl; try done.
  cbn [map concat] in E. apply app_inj_1 in E as [Ex E]; [|by rewrite !length_blist]. f_equal.
  - apply (to_le_bytes_inj 8); [simpl; lia|]. by apply bytes_eq.
  - apply IH; [done|]. simpl in Hl. lia.
Qed.

Lemma le8_inj a b (r r' : list u8) :
  0 <= a < 2 ^ 64 -> 0 <= b < 2 ^ 64 -> le_bytes 8 a ++ r = le_bytes 8 b ++ r' -> a = b /\ r = r'.
Proof.
  intros Ha Hb E. apply app_inj_1 in E as [E ->]; [|by rewrite !length_le_bytes]. split; [|done].
  by apply (le_bytes_inj 8) in E.
Qed.

Definition short_change (c : option (list Goldilocks)) : Prop := change_elements c < 2 ^ 64.

Lemma cons_inj {A} (x y : A) l l' : x :: l = y :: l' -> x = y /\ l = l'.
Proof. by intros [= -> ->]. Qed.

#[local] Opaque le_bytes.

Lemma encode_change_inj e e' r r' :
  short_change e.2 -> short_change e'.2 -> encode_change e ++ r = encode_change e' ++ r' ->
  e.1 = e'.1 /\ change_words e.2 = change_words e'.2 /\ r = r'.
Proof.
  destruct e as [[d k] c], e' as [[d' k'] c']. unfold encode_change, short_change. cbn [fst snd app]. intros Hc Hc' E.
  injection E as -> E. rewrite <- !app_assoc in E. apply app_inj_1 in E as [->%bytes_eq E]; [|by rewrite !length_blist].
  split; [done|]. assert (uval (of_Z 8 1) <> uval (of_Z 8 0)) as H01 by (rewrite !uval_of_Z_small by (simpl; lia); lia).
  destruct c as [v|], c' as [v'|]; rewrite <- ?app_comm_cons in E; apply cons_inj in E as [Ef E];
    try (exfalso; apply H01; congruence); [|done].
  rewrite <- !app_assoc in E. apply le8_inj in E as [El E];
    [|unfold zlen; simpl in *; unfold zlen in *; lia..].
  apply serialize_inj in E as [Ev ->]; [|unfold zlen in El; lia]. simpl. by rewrite Ev.
Qed.

#[local] Transparent le_bytes.

Lemma encode_list_inj (l l' : list (EntryKey * option (list Goldilocks))) :
  Forall (fun e => short_change e.2) l -> Forall (fun e => short_change e.2) l' -> length l = length l' ->
  flat_map encode_change l = flat_map encode_change l' ->
  map (fun e => (e.1, change_words e.2)) l = map (fun e => (e.1, change_words e.2)) l'.
Proof.
  intros Hl. revert l'. induction Hl as [|e l He _ IH]; intros [|e' l'] Hl' Hlen E; try done.
  inversion Hl' as [|? ? He' Hl'']; subst. cbn [flat_map map] in *.
  apply encode_change_inj in E as (E1 & E2 & E); [|done..]. rewrite E1, E2. f_equal. apply IH; [done| |done]. simpl in Hlen. lia.
Qed.

Lemma within_limits_short p : within_limits p -> Forall (fun e => short_change e.2) (btree_iter p).
Proof.
  intros (_ & _ & Ha). apply Forall_forall. intros [k c] Hk%elem_of_btree_iter. destruct (Ha k c Hk) as [_ Hc].
  unfold short_change, MAX_VALUE_ELEMENTS in *. simpl. lia.
Qed.

Lemma btree_iter_fmap_eq {V W} (f : V -> W) (p q : gmap EntryKey V) :
  map (fun e => (e.1, f e.2)) (btree_iter p) = map (fun e => (e.1, f e.2)) (btree_iter q) -> f <$> p = f <$> q.
Proof.
  intros E. rewrite <- (list_to_map_btree_iter p), <- (list_to_map_btree_iter q), <- !list_to_map_fmap.
  f_equal. assert (forall l : list (EntryKey * V), map (fun e => (e.1, f e.2)) l = prod_map id f <$> l) as Hm by done.
  by rewrite <- !Hm.
Qed.

Lemma encode_changes_inj p q :
  within_limits p -> within_limits q -> encode_changes p = encode_changes q ->
  change_words <$> p = change_words <$> q.
Proof.
  intros Hp Hq E. unfold encode_changes in E. apply app_inv_head in E.
  destruct Hp as (Hp1 & Hp2 & Hp3), Hq as (Hq1 & Hq2 & Hq3). unfold MAX_PENDING_KEYS in *.
  apply le8_inj in E as [El E]; [|lia..]. apply btree_iter_fmap_eq, encode_list_inj.
  - by apply within_limits_short.
  - by apply within_limits_short.
  - rewrite !length_btree_iter. lia.
  - done.
Qed.

End BufferSpec.
