(* ===== verification/Shard.v ===== *)
(** * Shard stores (rs/src/storage/mod.rs, rs/src/storage/mem.rs)

    The interface of a store of shard rows with its provided methods, the laws a client may rely
    on, and the in-memory store. A store's rows are read through [ss_get] and [ss_read]; the map
    they present is the model of the store. *)

From S2P Require Import Prelude.
From S2P Require Import Crypto.
From S2P Require Import Access.
From S2P Require Import Buffer.

Local Open Scope Z_scope.

(** ** The trait *)

Abbreviation Rows := (gmap EntryKey (list Goldilocks)).

Class ShardStore `{Nebu} (S : Type) := {
  ss_get : S -> u8 -> bytes 32 -> option (list Goldilocks);
  ss_put : u8 -> bytes 32 -> list Goldilocks -> SM StorageError S unit;
  ss_dirty_entries : S -> list (EntryKey * list Goldilocks);
  ss_commit : SM StorageError S (bytes 32);
  ss_read : S -> u8 -> bytes 32 -> Z -> StorageResult (option (list Goldilocks));
  ss_scan : S -> u8 -> option (bytes 32) -> ScanLimits -> StorageResult (list ShardEntry);
  ss_durability : S -> Durability;
  ss_last_commit : S -> StorageResult (option (bytes 32));
  ss_is_poisoned : S -> bool;
  ss_has_pending : S -> bool;
  (** The slice of a row written through by [f]; [None] when there is no row. *)
  ss_get_mut : u8 -> bytes 32 -> (list Goldilocks -> list Goldilocks) -> S -> option S;
  ss_mark_dirty : u8 -> bytes 32 -> SM StorageError S unit;
  ss_remove : u8 -> bytes 32 -> SM StorageError S (option (list Goldilocks));
  ss_iter : S -> u8 -> list ShardEntry;
}.

Section Provided.
  Context `{Nebu} {S : Type}.

(** [Option::transpose]. *)
Definition transpose {E A} (o : option (result E A)) : result E (option A) :=
  match o with
  | None => Ok None
  | Some (Ok a) => Ok (Some a)
  | Some (Err e) => Err e
  end.

(** The provided methods of the trait. *)
Definition provided_read (get : S -> u8 -> bytes 32 -> option (list Goldilocks)) (s : S) (d : u8) (k : bytes 32) (max : Z)
    : StorageResult (option (list Goldilocks)) :=
  _ ← check_dimension d;
  _ ← check_read_limit max;
  transpose ((fun v => copy_value v max) <$> get s d k).
Definition provided_durability (s : S) : Durability := Memory.
Definition provided_last_commit (s : S) : StorageResult (option (bytes 32)) := Ok None.
Definition provided_is_poisoned (s : S) : bool := false.

End Provided.

(** ** The in-memory store *)

Section Mem.
  Context `{Nebu, Hemera}.

Record MemStore := mkMemStore { ms_state : WriteBuffer }.

Definition mem_new : MemStore := mkMemStore wb_default.

Definition mem_zoom {A} (m : SM StorageError WriteBuffer A) : SM StorageError MemStore A :=
  sm_zoom ms_state (fun _ b => mkMemStore b) m.

Definition mem_get (s : MemStore) (d : u8) (k : bytes 32) : option (list Goldilocks) := wb_cache (ms_state s) !! (d, k).

Definition mem_put (d : u8) (k : bytes 32) (v : list Goldilocks) : SM StorageError MemStore unit :=
  mem_zoom (wb_put d k v).

Definition mem_has_pending (s : MemStore) : bool :=
  bool_decide (wb_dirty (ms_state s) <> []) || bool_decide (wb_deleted (ms_state s) <> ∅).

Definition mem_commit : SM StorageError MemStore (bytes 32) :=
  s ← sm_get;
  let id := wb_change_id (ms_state s) in
  _ ← mem_zoom (sm_modify clear_pending);
  mret id.

Definition mem_get_mut (d : u8) (k : bytes 32) (f : list Goldilocks -> list Goldilocks) (s : MemStore) : option MemStore :=
  v ← mem_get s d k;
  Some (mkMemStore (set_cache (ms_state s) (<[(d, k) := f v]> (wb_cache (ms_state s))))).

Definition mem_mark_dirty (d : u8) (k : bytes 32) : SM StorageError MemStore unit :=
  _ ← sm_lift (check_dimension d);
  s ← sm_get;
  if decide (d = EPHEMERAL) then mret tt
  else match mem_get s d k with
       | Some v => mem_put d k v
       | None => mret tt
       end.

Definition mem_remove (d : u8) (k : bytes 32) : SM StorageError MemStore (option (list Goldilocks)) :=
  s ← sm_get;
  let v := mem_get s d k in
  _ ← mem_zoom (wb_delete d k);
  mret v.

Definition mem_scan (s : MemStore) (d : u8) (after : option (bytes 32)) (limits : ScanLimits)
    : StorageResult (list ShardEntry) := scan_cache (wb_cache (ms_state s)) d after limits.

Definition mem_iter (s : MemStore) (d : u8) : list ShardEntry :=
  map (fun e => (e.1.2, e.2)) (btree_range (wb_cache (ms_state s)) (Included (d, zeros32)) (Included (d, ones32))).

#[export] Instance mem_store : ShardStore MemStore := {|
  ss_get := mem_get;
  ss_put := mem_put;
  ss_dirty_entries s := wb_dirty (ms_state s);
  ss_commit := mem_commit;
  ss_read := provided_read mem_get;
  ss_scan := mem_scan;
  ss_durability := provided_durability;
  ss_last_commit := provided_last_commit;
  ss_is_poisoned := provided_is_poisoned;
  ss_has_pending := mem_has_pending;
  ss_get_mut := mem_get_mut;
  ss_mark_dirty := mem_mark_dirty;
  ss_remove := mem_remove;
  ss_iter := mem_iter;
|}.

End Mem.

(** ** Histories of a store *)

Section Histories.
  Context `{Nebu, Hemera}.

Inductive store_op :=
| OGet (d : u8) (k : bytes 32)
| ORead (d : u8) (k : bytes 32) (max : Z)
| OScan (d : u8) (after : option (bytes 32)) (limits : ScanLimits)
| OIter (d : u8)
| OPending
| OPut (d : u8) (k : bytes 32) (v : list Goldilocks)
| OGetMut (d : u8) (k : bytes 32) (f : list Goldilocks -> list Goldilocks)
| OMarkDirty (d : u8) (k : bytes 32)
| ORemove (d : u8) (k : bytes 32)
| OCommit.

Inductive store_out :=
| RRow (v : option (list Goldilocks))
| RRead (r : StorageResult (option (list Goldilocks)))
| RRows (r : StorageResult (list ShardEntry))
| RFlag (b : bool)
| RDone (r : StorageResult unit)
| RId (r : StorageResult (bytes 32)).

Definition store_step {S} `{!ShardStore S} (o : store_op) (s : S) : option (store_out * S) :=
  match o with
  | OGet d k => Some (RRow (ss_get s d k), s)
  | ORead d k max => Some (RRead (ss_read s d k max), s)
  | OScan d after limits => Some (RRows (ss_scan s d after limits), s)
  | OIter d => Some (RRows (Ok (ss_iter s d)), s)
  | OPending => Some (RFlag (ss_has_pending s), s)
  | OPut d k v => '(r, s) ← ss_put d k v s; Some (RDone r, s)
  | OGetMut d k f => Some (match ss_get_mut d k f s with Some s => (RFlag true, s) | None => (RFlag false, s) end)
  | OMarkDirty d k => '(r, s) ← ss_mark_dirty d k s; Some (RDone r, s)
  | ORemove d k => '(r, s) ← ss_remove d k s; Some (RRead r, s)
  | OCommit => '(r, s) ← ss_commit s; Some (RId r, s)
  end.

Fixpoint store_run {S} `{!ShardStore S} (ops : list store_op) (s : S) : option (list store_out * S) :=
  match ops with
  | [] => Some ([], s)
  | o :: ops => '(r, s) ← store_step o s; '(rs, s) ← store_run ops s; Some (r :: rs, s)
  end.

(** What the in-memory store promises: rows and pending changes. *)
Abbreviation Changes := (gmap EntryKey (option (list Goldilocks))).

Definition view_read (m : Rows) (d : u8) (k : bytes 32) (max : Z) : StorageResult (option (list Goldilocks)) :=
  _ ← check_dimension d;
  _ ← check_read_limit max;
  match m !! (d, k) with
  | None => Ok None
  | Some v => if max <? zlen v then Err (Limit "value exceeds read budget") else Ok (Some v)
  end.

Definition change_digest (p : Changes) : bytes 32 := hemera_hash (encode_changes p).

Definition view_mark (m : Rows) (p : Changes) (d : u8) (k : bytes 32) : StorageResult unit * (Rows * Changes) :=
  if 13 <? uval d then (Err (InvalidDimension d), (m, p))
  else if decide (d = EPHEMERAL) then (Ok tt, (m, p))
  else match m !! (d, k) with Some v => view_put m p d k v | None => (Ok tt, (m, p)) end.

Definition mem_spec (o : store_op) (st : Rows * Changes) : store_out * (Rows * Changes) :=
  let '(m, p) := st in
  match o with
  | OGet d k => (RRow (m !! (d, k)), st)
  | ORead d k max => (RRead (view_read m d k max), st)
  | OScan d after limits => (RRows (scan_cache m d after limits), st)
  | OIter d => (RRows (Ok (dim_rows m d None)), st)
  | OPending => (RFlag (bool_decide (p <> ∅)), st)
  | OPut d k v => let '(r, st) := view_put m p d k v in (RDone r, st)
  | OGetMut d k f =>
      match m !! (d, k) with
      | Some v => (RFlag true, (<[(d, k) := f v]> m, p))
      | None => (RFlag false, st)
      end
  | OMarkDirty d k => let '(r, st) := view_mark m p d k in (RDone r, st)
  | ORemove d k =>
      let '(r, st) := view_delete m p d k in
      (RRead (match r with Ok _ => Ok (m !! (d, k)) | Err e => Err e end), st)
  | OCommit => (RId (Ok (change_digest p)), (m, ∅))
  end.

Fixpoint mem_spec_run (ops : list store_op) (st : Rows * Changes) : list store_out * (Rows * Changes) :=
  match ops with
  | [] => ([], st)
  | o :: ops => let '(r, st) := mem_spec o st in let '(rs, st) := mem_spec_run ops st in (r :: rs, st)
  end.

(** The pending changes a history of calls leaves. *)
Definition pending_after (ops : list store_op) : Changes := (mem_spec_run ops (∅, ∅)).2.2.

Record MemRep (s : MemStore) (m : Rows) (p : Changes) : Prop := {
  mr_buffer : WbRep (ms_state s) m p;
  mr_limits : within_limits p;
  mr_dims : forall d k v, m !! (d, k) = Some v -> uval d <= 13;
}.

Lemma provided_read_ok {S} (get : S -> u8 -> bytes 32 -> option (list Goldilocks)) (s : S) (m : Rows) d k max :
  get s d k = m !! (d, k) -> provided_read get s d k max = view_read m d k max.
Proof.
  intros Hg. unfold provided_read, view_read. rewrite Hg. destruct (check_dimension d); [|done]. cbn [mbind result_bind].
  destruct (check_read_limit max) as [[]|] eqn:E; [|done]. cbn [mbind result_bind].
  destruct (m !! (d, k)) as [v|]; [|done]. cbn [fmap option_fmap option_map]. unfold copy_value. rewrite E. cbn [mbind result_bind].
  by case_match.
Qed.

Lemma mem_put_ok s m p d k v :
  MemRep s m p ->
  exists s', mem_put d k v s = Some ((view_put m p d k v).1, s')
    /\ MemRep s' (view_put m p d k v).2.1 (view_put m p d k v).2.2.
Proof.
  intros [Hb Hl Hd]. unfold mem_put, mem_zoom, sm_zoom.
  destruct (wb_put_ok _ _ _ d k v Hb) as (b' & E & Hb'). rewrite E. cbn [mbind option_bind]. eexists. split; [done|].
  split; [done|by apply view_put_limits|]. intros d' k' v'. unfold view_put.
  destruct (Z.ltb_spec 13 (uval d)); [apply Hd|]. destruct (MAX_VALUE_ELEMENTS <? zlen v); [apply Hd|].
  assert (forall m', (<[(d, k) := v]> m) !! (d', k') = Some m' -> uval d' <= 13) as Hi.
  { intros m' [[[= <- <-] _]|[_ Hm]]%lookup_insert_Some; [done|by apply Hd in Hm]. }
  case_decide; [by intros ?%Hi|]. case_match; [apply Hd|]. case_match; [apply Hd|]. by intros ?%Hi.
Qed.

Lemma mem_delete_ok s m p d k :
  MemRep s m p ->
  exists s', mem_remove d k s = Some (match (view_delete m p d k).1 with Ok _ => Ok (m !! (d, k)) | Err e => Err e end, s')
    /\ MemRep s' (view_delete m p d k).2.1 (view_delete m p d k).2.2.
Proof.
  intros [Hb Hl Hd]. unfold mem_remove, mem_get, mem_zoom, sm_zoom. rewrite sm_bind_eq. cbn [sm_get]. rewrite sm_bind_eq.
  destruct (wb_delete_ok _ _ _ d k Hb) as (b' & E & Hb'). rewrite E. cbn [mbind option_bind]. rewrite (wr_cache _ _ _ Hb).
  eexists. split; [by destruct (view_delete m p d k).1|].
  split; [done|by apply view_delete_limits|]. intros d' k' v'. unfold view_delete.
  assert (delete (d, k) m !! (d', k') = Some v' -> uval d' <= 13) as Hi by (intros [_ Hm]%lookup_delete_Some; by apply Hd in Hm).
  repeat case_match; first [apply Hd|exact Hi].
Qed.

Lemma wb_pending_ok b m p :
  WbRep b m p -> bool_decide (wb_dirty b <> []) || bool_decide (wb_deleted b <> ∅) = bool_decide (p <> ∅).
Proof.
  intros Hb. pose proof (wr_size _ _ _ Hb) as Hz. unfold zlen in Hz.
  apply eq_true_iff_eq. rewrite orb_true_iff, !bool_decide_eq_true.
  rewrite <- (map_size_non_empty_iff p). split.
  - intros [Hn|Hn].
    + destruct (wb_dirty b); [done|]. simpl in Hz. lia.
    + assert (size (wb_deleted b) <> 0)%nat by (intros ?%size_empty_inv; set_solver). lia.
  - intros Hp. destruct (decide (wb_dirty b = [])) as [E|]; [right|by left].
    rewrite E in Hz. intros Ed. rewrite Ed, size_empty in Hz. simpl in Hz. lia.
Qed.
Lemma mem_pending_ok s m p : MemRep s m p -> mem_has_pending s = bool_decide (p <> ∅).
Proof. intros [Hb _ _]. by eapply wb_pending_ok. Qed.


Lemma mem_step_ok o s m p :
  MemRep s m p ->
  exists s', store_step o s = Some ((mem_spec o (m, p)).1, s')
    /\ MemRep s' (mem_spec o (m, p)).2.1 (mem_spec o (m, p)).2.2.
Proof.
  intros Hs. pose proof Hs as [Hb Hl Hd]. pose proof (wr_cache _ _ _ Hb) as Hc.
  destruct o as [d k|d k max|d after limits|d| |d k v|d k f|d k|d k|]; cbn [store_step mem_spec ss_get ss_read ss_scan ss_iter ss_has_pending
    ss_put ss_get_mut ss_mark_dirty ss_remove ss_commit mem_store].
  - exists s. unfold mem_get. by rewrite Hc.
  - exists s. rewrite (provided_read_ok mem_get s m); [done|]. unfold mem_get. by rewrite Hc.
  - exists s. unfold mem_scan. by rewrite Hc.
  - exists s. unfold mem_iter. rewrite Hc. done.
  - exists s. by rewrite (mem_pending_ok s m p).
  - destruct (mem_put_ok s m p d k v Hs) as (s' & -> & Hs'). exists s'. by destruct (view_put m p d k v) as [r [m' p']].
  - unfold mem_get_mut, mem_get. rewrite Hc. destruct (m !! (d, k)) as [v|] eqn:E; [|by exists s].
    eexists. split; [done|]. split; [|done|].
    + destruct Hb; subst. by split.
    + cbn. intros d' k' v' [[[= <- <-] _]|[_ Hm]]%lookup_insert_Some; [by apply Hd in E|by apply Hd in Hm].
  - unfold mem_mark_dirty, view_mark. rewrite sm_bind_eq, check_dimension_eq. cbn [sm_lift].
    destruct (13 <? uval d); [by exists s|]. rewrite sm_bind_eq. cbn [sm_get]. case_decide; [by exists s|].
    unfold mem_get. rewrite Hc. destruct (m !! (d, k)) as [v|]; [|by exists s].
    destruct (mem_put_ok s m p d k v Hs) as (s' & -> & Hs'). exists s'. by destruct (view_put m p d k v) as [r [m' p']].
  - destruct (mem_delete_ok s m p d k Hs) as (s' & -> & Hs'). exists s'. by destruct (view_delete m p d k) as [r [m' p']].
  - assert (wb_change_id (ms_state s) = change_digest p) as <-
      by (unfold wb_change_id; by rewrite (wb_changes_ok _ _ _ Hb)).
    exists (mkMemStore (clear_pending (ms_state s))). split; [done|]. split; [by eapply clear_pending_ok|apply within_limits_empty|done].
Qed.

Lemma mem_run_ok ops s m p :
  MemRep s m p ->
  exists s', store_run ops s = Some ((mem_spec_run ops (m, p)).1, s')
    /\ MemRep s' (mem_spec_run ops (m, p)).2.1 (mem_spec_run ops (m, p)).2.2.
Proof.
  revert s m p. induction ops as [|o ops IH]; intros s m p Hs; [by exists s|]. cbn [store_run mem_spec_run].
  destruct (mem_step_ok o s m p Hs) as (s1 & -> & Hs1). cbn [mbind option_bind].
  destruct (mem_spec o (m, p)) as [r [m1 p1]]. cbn [fst snd] in *.
  destruct (IH s1 m1 p1 Hs1) as (s2 & -> & Hs2). cbn [mbind option_bind]. exists s2.
  by destruct (mem_spec_run ops (m1, p1)) as [rs [m2 p2]].
Qed.

Lemma mem_rep_new : MemRep mem_new ∅ ∅.
Proof. split; [apply wb_rep_default|apply within_limits_empty|]. by intros d k v ?%lookup_empty_Some. Qed.

End Histories.

(** ** Main theorems *)

Section MemMain.
  Context `{Nebu, Hemera}.

(** The in-memory store is its rows and its pending changes. Any history of calls runs without a
    panic and answers what the abstract store answers: reads and scans see the rows, a write past a
    limit is refused and changes nothing, a commit answers the digest of the pending changes and
    leaves none. The pending changes never exceed the limits, and never hold a local-only row. *)
Theorem mem_store_refines ops :
  let '(outs, (m, p)) := mem_spec_run ops (∅, ∅) in
  exists s, store_run ops mem_new = Some (outs, s)
    /\ wb_cache (ms_state s) = m /\ wb_changes (ms_state s) = p
    /\ total_elements p <= MAX_PENDING_ELEMENTS /\ Z.of_nat (size p) <= MAX_PENDING_KEYS
    /\ map_Forall (fun k c => uval k.1 < 13 /\ change_elements c <= MAX_VALUE_ELEMENTS) p.
Proof.
  destruct (mem_run_ok ops mem_new ∅ ∅ mem_rep_new) as (s & E & [Hb (Ht & Hs & Ha) _]).
  destruct (mem_spec_run ops (∅, ∅)) as [outs [m p]]. cbn [fst snd] in *. exists s.
  split_and!; [done|by apply Hb|by eapply wb_changes_ok|done..].
Qed.

(** The identity of a batch binds its changes. It is a function of the pending changes, so
    histories that leave the same changes, in whatever order, have one identity; and histories with
    one identity leave the same changes, up to the words of the elements, unless the two encoded
    batches collide under the hash. *)
Theorem change_id_binds ops1 ops2 outs1 outs2 s1 s2 :
  store_run ops1 mem_new = Some (outs1, s1) -> store_run ops2 mem_new = Some (outs2, s2) ->
  (pending_after ops1 = pending_after ops2 -> wb_change_id (ms_state s1) = wb_change_id (ms_state s2))
  /\ (wb_change_id (ms_state s1) = wb_change_id (ms_state s2) ->
      change_words <$> pending_after ops1 = change_words <$> pending_after ops2
      \/ (encode_changes (pending_after ops1) <> encode_changes (pending_after ops2)
          /\ hemera_hash (encode_changes (pending_after ops1)) = hemera_hash (encode_changes (pending_after ops2)))).
Proof.
  intros E1 E2.
  destruct (mem_run_ok ops1 mem_new ∅ ∅ mem_rep_new) as (s1' & E1' & [Hb1 Hl1 _]).
  destruct (mem_run_ok ops2 mem_new ∅ ∅ mem_rep_new) as (s2' & E2' & [Hb2 Hl2 _]).
  rewrite E1' in E1. rewrite E2' in E2. injection E1 as _ ->. injection E2 as _ ->.
  fold (pending_after ops1) in Hb1, Hl1. fold (pending_after ops2) in Hb2, Hl2.
  unfold wb_change_id. rewrite (wb_changes_ok _ _ _ Hb1), (wb_changes_ok _ _ _ Hb2). split; [by intros ->|].
  intros E. destruct (decide (encode_changes (pending_after ops1) = encode_changes (pending_after ops2))) as [Ee|Hne].
  - left. by apply encode_changes_inj.
  - by right.
Qed.

End MemMain.

(** ** Witnesses *)

Import Toy.

Definition sample_writes : list store_op :=
  [OPut (of_Z 8 2) (id32 1) [of_Z 64 7]; OPut (of_Z 8 3) (id32 2) [of_Z 64 8; of_Z 64 9];
   ORemove (of_Z 8 2) (id32 1); OPut (of_Z 8 13) (id32 5) []].

Definition sample_writes' : list store_op :=
  [ORemove (of_Z 8 2) (id32 1); OPut (of_Z 8 3) (id32 2) [of_Z 64 8; of_Z 64 9]].

Lemma change_id_binds_witness :
  exists outs1 outs2 s1 s2, store_run sample_writes mem_new = Some (outs1, s1)
    /\ store_run sample_writes' mem_new = Some (outs2, s2)
    /\ wb_change_id (ms_state s1) = wb_change_id (ms_state s2).
Proof.
  destruct (mem_run_ok sample_writes mem_new ∅ ∅ mem_rep_new) as (s1 & E1 & _).
  destruct (mem_run_ok sample_writes' mem_new ∅ ∅ mem_rep_new) as (s2 & E2 & _).
  eexists _, _, s1, s2. split_and!; [exact E1|exact E2|].
  apply (change_id_binds _ _ _ _ _ _ E1 E2). apply (bool_decide_unpack (pending_after sample_writes = pending_after sample_writes')). vm_compute. exact I.
Defined.
