(* ===== verification/Tiered.v ===== *)
(** * Tiered storage (rs/src/storage/tiered.rs, rs/src/storage/network.rs)

    A hot cache over an authoritative warm store, an archive and a content network. The tiers are
    any stores of the [ShardStore] interface; what a tier relies on is the class [StoreLaws], which
    the in-memory store discharges. *)

From S2P Require Import Prelude.
From S2P Require Import Crypto.
From S2P Require Import Types.
From S2P Require Import Access.
From S2P Require Import Buffer.
From S2P Require Import Shard.

Local Open Scope Z_scope.

(** ** The network tier *)

Class NetworkStore (N : Type) := {
  ns_query_proof : Type;
  ns_fetch : N -> Particle -> option (list u8);
  ns_das_sample : N -> Particle -> u64 -> u64 -> option ns_query_proof;
}.

Section Tiered.
  Context `{Nebu, Hemera}.
  Context {Hot Warm Cold Net : Type}.
  Context `{!ShardStore Hot, !ShardStore Warm, !ShardStore Cold, !NetworkStore Net}.

Record TieredStore := mkTieredStore {
  hot : Hot;
  warm : option Warm;
  cold : option Cold;
  network : option Net;
  failure : option StorageError;
}.

Definition set_hot (t : TieredStore) h : TieredStore := mkTieredStore h (warm t) (cold t) (network t) (failure t).
Definition set_warm (t : TieredStore) w : TieredStore := mkTieredStore (hot t) w (cold t) (network t) (failure t).
Definition set_cold (t : TieredStore) c : TieredStore := mkTieredStore (hot t) (warm t) c (network t) (failure t).
Definition set_failure (t : TieredStore) e : TieredStore := mkTieredStore (hot t) (warm t) (cold t) (network t) e.

Abbreviation Tiering := (SM StorageError TieredStore).

Definition tiered_new (h : Hot) : TieredStore := mkTieredStore h None None None None.

Definition with_warm (t : TieredStore) (w : Warm) : StorageResult TieredStore :=
  match warm t with
  | Some _ => Err (Unsupported "WARM is already attached")
  | None =>
      if bool_decide (ss_durability w = Disk) && negb (bool_decide (ss_durability (hot t) = Memory)) then
        Err (Unsupported "durable WARM requires a memory HOT tier")
      else if bool_decide (ss_durability w = Disk)
        && (ss_has_pending (hot t)
            || existsb (fun d => negb (bool_decide (ss_iter (hot t) (of_Z 8 d) = []))) (seqZ 0 (uval EPHEMERAL))) then
        Err (Unsupported "attach durable WARM to an empty persistent HOT cache")
      else Ok (set_warm t (Some w))
  end.

Definition with_cold (t : TieredStore) (c : Cold) : TieredStore := set_cold t (Some c).
Definition with_network (t : TieredStore) (n : Net) : TieredStore :=
  mkTieredStore (hot t) (warm t) (cold t) (Some n) (failure t).

Definition tier_ready (t : TieredStore) : StorageResult unit :=
  match failure t with Some e => Err e | None => Ok tt end.

(** [retain_failure]: an error of [m] poisons the store. *)
Definition retain_failure {A} (m : Tiering A) : Tiering A := fun t =>
  match m t with
  | Some (Err e, t) => Some (Err e, set_failure t (Some e))
  | x => x
  end.

(** A call on the hot store, and on the warm and cold stores when attached. *)
Definition on_hot {A} (m : SM StorageError Hot A) : Tiering A := sm_zoom hot set_hot m.
Definition on_warm {A} (m : SM StorageError Warm A) : Tiering (option A) := fun t =>
  match warm t with
  | None => Some (Ok None, t)
  | Some w => match m w with Some (r, w) => Some (Some <$> r, set_warm t (Some w)) | None => None end
  end.
Definition on_cold {A} (m : SM StorageError Cold A) : Tiering (option A) := fun t =>
  match cold t with
  | None => Some (Ok None, t)
  | Some c => match m c with Some (r, c) => Some (Some <$> r, set_cold t (Some c)) | None => None end
  end.

Definition tier_is_poisoned (t : TieredStore) : bool :=
  bool_decide (is_Some (failure t)) || ss_is_poisoned (hot t)
  || match warm t with Some w => ss_is_poisoned w | None => false end.

Definition tier_durability (t : TieredStore) : Durability :=
  match warm t with Some w => ss_durability w | None => ss_durability (hot t) end.

Definition tier_has_pending (t : TieredStore) : bool :=
  ss_has_pending (hot t) || match warm t with Some w => ss_has_pending w | None => false end.

Definition tier_get (t : TieredStore) (d : u8) (k : bytes 32) : option (list Goldilocks) :=
  if tier_is_poisoned t then None
  else match ss_get (hot t) d k with
       | Some v => Some v
       | None =>
           if decide (d = EPHEMERAL) then None
           else match warm t with
                | Some w => ss_get w d k
                | None => c ← cold t; ss_get c d k
                end
       end.

Definition tier_read (t : TieredStore) (d : u8) (k : bytes 32) (max : Z) : StorageResult (option (list Goldilocks)) :=
  _ ← tier_ready t;
  match (if decide (d = EPHEMERAL) then None else warm t) with
  | Some w =>
      match (if ss_is_poisoned w then None else ss_get (hot t) d k) with
      | Some v => Some <$> copy_value v max
      | None => ss_read w d k max
      end
  | None =>
      v ← ss_read (hot t) d k max;
      if bool_decide (is_Some v) || bool_decide (d = EPHEMERAL) then Ok v
      else match cold t with None => Ok None | Some c => ss_read c d k max end
  end.

Definition tier_scan (t : TieredStore) (d : u8) (after : option (bytes 32)) (limits : ScanLimits)
    : StorageResult (list ShardEntry) :=
  _ ← tier_ready t;
  if decide (d = EPHEMERAL) then ss_scan (hot t) d after limits
  else match warm t with
       | Some w => ss_scan w d after limits
       | None =>
           match cold t with
           | Some _ => Err (Unsupported "scan mixed HOT/archive without WARM")
           | None => ss_scan (hot t) d after limits
           end
       end.

Definition tier_last_commit (t : TieredStore) : StorageResult (option (bytes 32)) :=
  _ ← tier_ready t;
  match warm t with Some w => ss_last_commit w | None => ss_last_commit (hot t) end.

Definition tier_iter (t : TieredStore) (d : u8) : list ShardEntry :=
  if tier_is_poisoned t then [] else ss_iter (hot t) d.

Definition tier_get_mut (d : u8) (k : bytes 32) (f : list Goldilocks -> list Goldilocks) (t : TieredStore)
    : option TieredStore :=
  if tier_is_poisoned t then None else h ← ss_get_mut d k f (hot t); Some (set_hot t h).

(** Whether a persistent write also goes to a warm store, whose divergence would poison. *)
Definition warmed (t : TieredStore) (d : u8) : bool :=
  negb (bool_decide (d = EPHEMERAL)) && bool_decide (is_Some (warm t)).

Definition tier_put (d : u8) (k : bytes 32) (v : list Goldilocks) : Tiering unit :=
  t ← sm_get;
  _ ← sm_lift (tier_ready t);
  _ ← (if decide (d = EPHEMERAL) then mret None else on_warm (ss_put d k v));
  if warmed t d then retain_failure (on_hot (ss_put d k v)) else on_hot (ss_put d k v).

Definition tier_mark_dirty (d : u8) (k : bytes 32) : Tiering unit :=
  t ← sm_get;
  _ ← sm_lift (tier_ready t);
  _ ← sm_lift (check_dimension d);
  retain_failure (
    _ ← (match (if decide (d = EPHEMERAL) then None else ss_get (hot t) d k) with
         | Some v => on_warm (ss_put d k v)
         | None => mret None
         end);
    on_hot (ss_mark_dirty d k)).

Definition tier_remove (d : u8) (k : bytes 32) : Tiering (option (list Goldilocks)) :=
  t ← sm_get;
  _ ← sm_lift (tier_ready t);
  _ ← sm_require (negb (negb (bool_decide (d = EPHEMERAL)) && bool_decide (warm t = None) && bool_decide (is_Some (cold t))))
        (Unsupported "archive deletion requires authoritative WARM");
  value ← sm_lift (tier_read t d k MAX_VALUE_ELEMENTS);
  _ ← (if decide (d = EPHEMERAL) then mret None else on_warm (ss_remove d k));
  let removal := (_ ← on_hot (ss_remove d k); mret value) in
  if warmed t d then retain_failure removal else removal.

(** [map_err] with the state the call had reached. *)
Definition map_error {A} (f : TieredStore -> StorageError -> StorageError) (m : Tiering A) : Tiering A := fun t =>
  match m t with
  | Some (Err e, t) => Some (Err (f t e), t)
  | x => x
  end.

(** A durable warm commit whose hot publication fails is of unknown outcome. *)
Definition publication_error (t : TieredStore) (durable_id : option (bytes 32)) (error : StorageError) : StorageError :=
  match durable_id with
  | Some change_id =>
      if bool_decide (tier_durability t = Disk)
      then CommitUnknown change_id ("WARM committed; HOT publication failed: " +:+ storage_error_fmt error)
      else error
  | None => error
  end.

Definition tier_commit : Tiering (bytes 32) :=
  t ← sm_get;
  _ ← sm_lift (tier_ready t);
  retain_failure (
    durable_id ← on_warm ss_commit;
    hot_id ← map_error (fun t error => publication_error t durable_id error) (on_hot ss_commit);
    mret (match durable_id with Some id => id | None => hot_id end)).

Definition tier_promote (d : u8) (k : bytes 32) : Tiering bool :=
  t ← sm_get;
  _ ← sm_lift (tier_ready t);
  value ← sm_lift (tier_read t d k MAX_VALUE_ELEMENTS);
  match value with
  | Some v => _ ← on_hot (ss_put d k v); mret true
  | None => mret false
  end.

Definition tier_evict (d : u8) (k : bytes 32) : Tiering unit :=
  t ← sm_get;
  _ ← sm_lift (tier_ready t);
  _ ← sm_lift (check_dimension d);
  if decide (d = EPHEMERAL) then mret tt
  else match warm t with
       | None => mret tt
       | Some w =>
           if ss_has_pending w then mret tt
           else
             value ← sm_lift (ss_read w d k MAX_VALUE_ELEMENTS);
             if bool_decide (is_Some value) && bool_decide (ss_get (hot t) d k = value)
             then _ ← on_hot (ss_remove d k); mret tt
             else mret tt
       end.

Definition tier_archive : Tiering (option (bytes 32)) :=
  t ← sm_get;
  _ ← sm_lift (tier_ready t);
  on_cold ss_commit.

(** Content is handed back only when it hashes to the particle asked for. *)
Definition fetch_content (t : TieredStore) (particle : Particle) : option (list u8) :=
  n ← network t;
  content ← ns_fetch n particle;
  if bool_decide (hemera_hash content = particle) then Some content else None.

#[export] Instance tiered_store : ShardStore TieredStore := {|
  ss_get := tier_get;
  ss_put := tier_put;
  ss_dirty_entries t := ss_dirty_entries (hot t);
  ss_commit := tier_commit;
  ss_read := tier_read;
  ss_scan := tier_scan;
  ss_durability := tier_durability;
  ss_last_commit := tier_last_commit;
  ss_is_poisoned := tier_is_poisoned;
  ss_has_pending := tier_has_pending;
  ss_get_mut := tier_get_mut;
  ss_mark_dirty := tier_mark_dirty;
  ss_remove := tier_remove;
  ss_iter := tier_iter;
|}.

End Tiered.

Arguments TieredStore Hot Warm Cold Net : clear implicits.

(** ** The contract of a store *)

Section Contract.
  Context `{Nebu, Hemera}.

(** What an answer says of the rows a store presents, and the rows after the call. Answers may
    fail; a failed call changes nothing. Pages and flags are left open. *)
Definition store_ok (m : Rows) (o : store_op) (r : store_out) (m' : Rows) : Prop :=
  match o, r with
  | OGet d k, RRow v => m' = m /\ forall x, v = Some x -> m !! (d, k) = Some x
  | ORead d k _, RRead r => m' = m /\ forall v, r = Ok v -> v = m !! (d, k)
  | OScan _ _ _, RRows _ | OIter _, RRows _ | OPending, RFlag _ => m' = m
  | OPut d k v, RDone r => m' = match r with Ok _ => <[(d, k) := v]> m | Err _ => m end
  | OGetMut d k f, RFlag b =>
      if b : bool then exists v, m !! (d, k) = Some v /\ m' = <[(d, k) := f v]> m else m' = m
  | OMarkDirty _ _, RDone _ | OCommit, RId _ => m' = m
  | ORemove d k, RRead r =>
      match r with Ok v => v = m !! (d, k) /\ m' = delete (d, k) m | Err _ => m' = m end
  | _, _ => False
  end.

Definition failed (r : store_out) : Prop :=
  match r with
  | RRead (Err _) | RDone (Err _) | RId (Err _) => True
  | _ => False
  end.

(** A lawful store: it never panics, its answers are right, and only a failed call may leave it
    without its rows, poisoned. *)
Class StoreLaws (S : Type) `{!ShardStore S} := {
  sl_rep : S -> Rows -> Prop;
  sl_healthy s m : sl_rep s m -> ss_is_poisoned s = false;
  sl_step s m o : sl_rep s m ->
    exists r s' m', store_step o s = Some (r, s') /\ store_ok m o r m'
      /\ (sl_rep s' m' \/ (failed r /\ ss_is_poisoned s' = true));
}.

(** A store that answers every row it holds by reference. *)
Class HotLaws (S : Type) `{!ShardStore S, !StoreLaws S} : Prop := {
  hl_get s m d k : sl_rep s m -> ss_get s d k = m !! (d, k);
}.

(** ** The in-memory store is lawful *)

Lemma view_put_rows m p d k v :
  (view_put m p d k v).2.1 = match (view_put m p d k v).1 with Ok _ => <[(d, k) := v]> m | Err _ => m end.
Proof.
  unfold view_put. destruct (13 <? uval d); [done|]. destruct (MAX_VALUE_ELEMENTS <? zlen v); [done|].
  destruct (decide (d = EPHEMERAL)); [done|]. destruct (MAX_PENDING_ELEMENTS <? _); [done|]. by destruct (over_keys p (d, k)).
Qed.

Lemma view_delete_rows m p d k :
  (view_delete m p d k).2.1 = match (view_delete m p d k).1 with Ok _ => delete (d, k) m | Err _ => m end.
Proof.
  unfold view_delete. destruct (13 <? uval d); [done|]. destruct (decide (d = EPHEMERAL)); [done|].
  by destruct (over_keys p (d, k)).
Qed.

Lemma mem_spec_ok o m p : store_ok m o (mem_spec o (m, p)).1 (mem_spec o (m, p)).2.1.
Proof.
  destruct o as [d k|d k max|d after limits|d| |d k v|d k f|d k|d k|]; cbn [mem_spec store_ok fst snd]; try done.
  - split; [done|]. intros v. unfold view_read. destruct (check_dimension d), (check_read_limit max); try done.
    cbn [mbind result_bind]. destruct (m !! (d, k)) as [v'|]; [|by intros [= <-]]. case_match; [done|]. by intros [= <-].
  - pose proof (view_put_rows m p d k v) as Hp. destruct (view_put m p d k v) as [r [m' p']]. exact Hp.
  - destruct (m !! (d, k)) as [v|] eqn:E; cbn; [by exists v|done].
  - unfold view_mark. destruct (13 <? uval d); [done|]. case_decide; [done|]. destruct (m !! (d, k)) as [v|] eqn:E; [|done].
    pose proof (view_put_rows m p d k v) as Hp. destruct (view_put m p d k v) as [[] [m' p']]; [|exact Hp].
    cbn in Hp. subst m'. by apply insert_id.
  - pose proof (view_delete_rows m p d k) as Hp. destruct (view_delete m p d k) as [[] [m' p']]; [|exact Hp]. done.
Qed.

#[export] Program Instance mem_laws : StoreLaws MemStore := {|
  sl_rep s m := exists p, MemRep s m p;
|}.
Next Obligation. done. Qed.
Next Obligation.
  intros s m o [p Hs]. destruct (mem_step_ok o s m p Hs) as (s' & E & Hs').
  eexists _, s', _. split_and!; [exact E|apply mem_spec_ok|]. left. by eexists.
Qed.

#[export] Instance mem_hot : HotLaws MemStore.
Proof. split. intros s m d k [p [Hb _ _]]. cbn. unfold mem_get. by rewrite (wr_cache _ _ _ Hb). Qed.

End Contract.

(** ** The calls of a lawful store *)

Section Laws.
  Context `{Nebu} {S : Type} `{!ShardStore S, !StoreLaws S}.
  Implicit Types (s : S) (m : Rows).

(** The rows after a failed call. *)
Definition settled s m : Prop := sl_rep s m \/ ss_is_poisoned s = true.

Lemma law_get s m d k v : sl_rep s m -> ss_get s d k = Some v -> m !! (d, k) = Some v.
Proof.
  intros Hs E. destruct (sl_step s m (OGet d k) Hs) as (r & s' & m' & Er & Hok & _).
  injection Er as <- <-. destruct Hok as [_ Hok]. by apply Hok.
Qed.

Lemma law_read s m d k max v : sl_rep s m -> ss_read s d k max = Ok v -> v = m !! (d, k).
Proof.
  intros Hs E. destruct (sl_step s m (ORead d k max) Hs) as (r & s' & m' & Er & Hok & _).
  injection Er as <- <-. destruct Hok as [_ Hok]. by apply Hok.
Qed.

Lemma law_put s m d k v :
  sl_rep s m -> exists r s', ss_put d k v s = Some (r, s')
    /\ match r with Ok _ => sl_rep s' (<[(d, k) := v]> m) | Err _ => settled s' m end.
Proof.
  intros Hs. destruct (sl_step s m (OPut d k v) Hs) as (r & s' & m' & Er & Hok & Hs').
  cbn [store_step] in Er. destruct (ss_put d k v s) as [[r0 s0]|]; [|done]. injection Er as <- <-.
  exists r0, s0. split; [done|]. cbn [store_ok] in Hok. subst m'. unfold settled.
  destruct r0, Hs' as [Hs'|[Hf Hp]]; cbn in *; by auto.
Qed.

Lemma law_mark s m d k :
  sl_rep s m -> exists r s', ss_mark_dirty d k s = Some (r, s')
    /\ match r with Ok _ => sl_rep s' m | Err _ => settled s' m end.
Proof.
  intros Hs. destruct (sl_step s m (OMarkDirty d k) Hs) as (r & s' & m' & Er & Hok & Hs').
  cbn [store_step] in Er. destruct (ss_mark_dirty d k s) as [[r0 s0]|]; [|done]. injection Er as <- <-.
  exists r0, s0. split; [done|]. cbn [store_ok] in Hok. subst m'. unfold settled.
  destruct r0, Hs' as [Hs'|[Hf Hp]]; cbn in *; by auto.
Qed.

Lemma law_remove s m d k :
  sl_rep s m -> exists r s', ss_remove d k s = Some (r, s')
    /\ match r with Ok v => v = m !! (d, k) /\ sl_rep s' (delete (d, k) m) | Err _ => settled s' m end.
Proof.
  intros Hs. destruct (sl_step s m (ORemove d k) Hs) as (r & s' & m' & Er & Hok & Hs').
  cbn [store_step] in Er. destruct (ss_remove d k s) as [[r0 s0]|]; [|done]. injection Er as <- <-.
  exists r0, s0. split; [done|]. cbn [store_ok] in Hok. unfold settled.
  destruct r0 as [v|e]; [destruct Hok as [-> ->]|subst m']; destruct Hs' as [Hs'|[Hf Hp]]; cbn in *; by auto.
Qed.

Lemma law_commit s m :
  sl_rep s m -> exists r s', ss_commit s = Some (r, s')
    /\ match r with Ok _ => sl_rep s' m | Err _ => settled s' m end.
Proof.
  intros Hs. destruct (sl_step s m OCommit Hs) as (r & s' & m' & Er & Hok & Hs').
  cbn [store_step] in Er. destruct (ss_commit s) as [[r0 s0]|]; [|done]. injection Er as <- <-.
  exists r0, s0. split; [done|]. cbn [store_ok] in Hok. subst m'. unfold settled.
  destruct r0, Hs' as [Hs'|[Hf Hp]]; cbn in *; by auto.
Qed.

Lemma law_get_mut s m d k f :
  sl_rep s m ->
  match ss_get_mut d k f s with
  | Some s' => exists v, m !! (d, k) = Some v /\ sl_rep s' (<[(d, k) := f v]> m)
  | None => True
  end.
Proof.
  intros Hs. destruct (sl_step s m (OGetMut d k f) Hs) as (r & s' & m' & Er & Hok & Hs').
  cbn [store_step] in Er. destruct (ss_get_mut d k f s) as [s0|]; [|done]. injection Er as <- <-.
  destruct Hok as (v & Hv & ->). exists v. destruct Hs' as [Hs'|[[] _]]. done.
Qed.

End Laws.

(** ** The tiers present one map *)

Section TierSpec.
  Context `{Nebu, Hemera}.
  Context {Hot Warm Cold Net : Type}.
  Context `{!ShardStore Hot, !StoreLaws Hot, !HotLaws Hot}.
  Context `{!ShardStore Warm, !StoreLaws Warm, !ShardStore Cold, !StoreLaws Cold, !NetworkStore Net}.
  Implicit Types (t : TieredStore Hot Warm Cold Net) (V : Rows).

(** Hot rows first; behind them the backing rows of persistent dimensions. *)
Definition tier_rows (mh mb : Rows) : Rows := mh ∪ filter (fun e => e.1.1 <> EPHEMERAL) mb.

Lemma lookup_tier_rows mh mb d k :
  tier_rows mh mb !! (d, k)
  = match mh !! (d, k) with Some v => Some v | None => if decide (d = EPHEMERAL) then None else mb !! (d, k) end.
Proof.
  unfold tier_rows. rewrite lookup_union. destruct (mh !! (d, k)) as [v|] eqn:E.
  - by destruct (filter _ mb !! (d, k)).
  - rewrite map_lookup_filter. case_decide as Hd; destruct (mb !! (d, k)); try done; cbn;
      rewrite option_guard_decide; cbn; by case_decide.
Qed.

(** What stands behind the hot store: the warm store, or else the archive. *)
Definition backing t (mb : Rows) : Prop :=
  match warm t, cold t with
  | Some w, _ => sl_rep w mb
  | None, Some c => sl_rep c mb
  | None, None => mb = ∅
  end.

Definition TierRep t V : Prop :=
  failure t = None /\ exists mh mb, sl_rep (hot t) mh /\ backing t mb /\ V = tier_rows mh mb.

Definition tier_settled t V : Prop := TierRep t V \/ tier_is_poisoned t = true.

Lemma tier_rep_healthy t V : TierRep t V -> match warm t with Some w => ss_is_poisoned w = false | None => True end
  /\ tier_is_poisoned t = false.
Proof.
  intros (Hf & mh & mb & Hh & Hb & _). unfold tier_is_poisoned. rewrite Hf, (sl_healthy _ _ Hh).
  unfold backing in Hb. destruct (warm t) as [w|]; [|done]. by rewrite (sl_healthy _ _ Hb).
Qed.

(** Changing one hot row of the map, with or without the backing row. *)
Lemma tier_rows_put mh mb d k v :
  <[(d, k) := v]> (tier_rows mh mb) = tier_rows (<[(d, k) := v]> mh) mb.
Proof. unfold tier_rows. by rewrite insert_union_l. Qed.

Lemma tier_rows_put_both mh mb d k v :
  tier_rows (<[(d, k) := v]> mh) (<[(d, k) := v]> mb) = tier_rows (<[(d, k) := v]> mh) mb.
Proof.
  apply map_eq. intros [d' k']. rewrite !lookup_tier_rows. destruct (decide ((d, k) = (d', k'))) as [[= <- <-]|Hne].
  - by rewrite !lookup_insert_eq.
  - by rewrite !lookup_insert_ne.
Qed.

Lemma tier_rows_delete mh mb d k :
  (d = EPHEMERAL \/ mb !! (d, k) = None) -> delete (d, k) (tier_rows mh mb) = tier_rows (delete (d, k) mh) mb.
Proof.
  intros Hd. apply map_eq. intros [d' k']. rewrite lookup_tier_rows. destruct (decide ((d, k) = (d', k'))) as [[= <- <-]|Hne].
  - rewrite !lookup_delete_eq. destruct Hd as [-> | ->]; [by rewrite decide_True|]. by case_decide.
  - rewrite !lookup_delete_ne by done. by rewrite lookup_tier_rows.
Qed.

Lemma tier_rows_delete_both mh mb d k :
  delete (d, k) (tier_rows mh mb) = tier_rows (delete (d, k) mh) (delete (d, k) mb).
Proof.
  apply map_eq. intros [d' k']. rewrite lookup_tier_rows. destruct (decide ((d, k) = (d', k'))) as [[= <- <-]|Hne].
  - rewrite !lookup_delete_eq. by case_decide.
  - rewrite !lookup_delete_ne by done. by rewrite lookup_tier_rows.
Qed.

(** Dropping a hot row equal to its backing row, and adding one. *)
Lemma tier_rows_evict mh mb d k v :
  d <> EPHEMERAL -> mh !! (d, k) = Some v -> mb !! (d, k) = Some v -> tier_rows (delete (d, k) mh) mb = tier_rows mh mb.
Proof.
  intros Hd Hh Hb. apply map_eq. intros [d' k']. rewrite !lookup_tier_rows. destruct (decide ((d, k) = (d', k'))) as [[= <- <-]|Hne].
  - rewrite lookup_delete_eq, Hh, Hb. by rewrite decide_False.
  - by rewrite lookup_delete_ne.
Qed.

Lemma tier_rows_promote mh mb d k v :
  tier_rows mh mb !! (d, k) = Some v -> tier_rows (<[(d, k) := v]> mh) mb = tier_rows mh mb.
Proof. intros Hv. rewrite <- tier_rows_put. by apply insert_id. Qed.

Lemma tier_rows_warm_put mh mb d k v :
  d <> EPHEMERAL -> mh !! (d, k) = Some v -> tier_rows mh (<[(d, k) := v]> mb) = tier_rows mh mb.
Proof.
  intros Hd Hh. apply map_eq. intros [d' k']. rewrite !lookup_tier_rows. destruct (decide ((d, k) = (d', k'))) as [[= <- <-]|Hne].
  - by rewrite Hh.
  - by rewrite lookup_insert_ne.
Qed.

(** *** Reads *)

Lemma tier_get_ok t V d k v : TierRep t V -> tier_get t d k = Some v -> V !! (d, k) = Some v.
Proof.
  intros Ht. destruct (tier_rep_healthy _ _ Ht) as [_ Hp]. destruct Ht as (Hf & mh & mb & Hh & Hb & ->).
  unfold tier_get. rewrite Hp, lookup_tier_rows, (hl_get _ _ d k Hh). destruct (mh !! (d, k)); [done|]. case_decide; [done|].
  unfold backing in Hb. destruct (warm t) as [w|]; [by apply law_get|]. destruct (cold t) as [c|]; [|done]. cbn. by apply law_get.
Qed.

Lemma tier_read_ok t V d k max v : TierRep t V -> tier_read t d k max = Ok v -> v = V !! (d, k).
Proof.
  intros Ht. destruct (tier_rep_healthy _ _ Ht) as [Hw _]. destruct Ht as (Hf & mh & mb & Hh & Hb & ->).
  unfold tier_read, tier_ready. rewrite Hf. cbn [mbind result_bind]. rewrite lookup_tier_rows. unfold backing in Hb.
  assert (forall v, ss_read (hot t) d k max = Ok v -> v = mh !! (d, k)) as Hr by (intros v0 Er; exact (law_read _ _ _ _ _ _ Hh Er)).
  destruct (decide (d = EPHEMERAL)) as [Hd|Hd].
  - destruct (ss_read (hot t) d k max) as [v0|]; [|done]. cbn [mbind result_bind]. rewrite (bool_decide_true (d = EPHEMERAL)), orb_true_r by done.
    intros [= <-]. rewrite (Hr v0) by done. by destruct (mh !! (d, k)).
  - destruct (warm t) as [w|].
    + rewrite Hw, (hl_get _ _ d k Hh). destruct (mh !! (d, k)) as [v0|]; [|by apply law_read].
      unfold copy_value. destruct (check_read_limit max); [|done]. cbn [mbind result_bind]. case_match; [done|]. by intros [= <-].
    + destruct (ss_read (hot t) d k max) as [v0|]; [|done]. cbn [mbind result_bind]. rewrite (Hr v0) by done.
      rewrite (bool_decide_false (d = EPHEMERAL)) by done. rewrite orb_false_r.
      destruct (mh !! (d, k)) as [v1|]; [by intros [= <-]|]. rewrite bool_decide_false by (by intros []).
      destruct (cold t) as [c|]; [by apply law_read|]. subst mb. intros [= <-]. done.
Qed.


(** *** Calls on the tiers *)

Lemma on_hot_eq {A} (m : SM StorageError Hot A) t r h : m (hot t) = Some (r, h) -> on_hot m t = Some (r, set_hot t h).
Proof. intros E. unfold on_hot, sm_zoom. by rewrite E. Qed.

Lemma on_warm_eq {A} (m : SM StorageError Warm A) t w r w' :
  warm t = Some w -> m w = Some (r, w') -> on_warm m t = Some (Some <$> r, set_warm t (Some w')).
Proof. intros Ew E. unfold on_warm. by rewrite Ew, E. Qed.

Lemma on_warm_None {A} (m : SM StorageError Warm A) t : warm t = None -> on_warm m t = Some (Ok None, t).
Proof. intros Ew. unfold on_warm. by rewrite Ew. Qed.

Lemma retain_ok {A} (m : SM StorageError (TieredStore Hot Warm Cold Net) A) t r t' :
  m t = Some (r, t') ->
  retain_failure m t = Some (r, match r with Ok _ => t' | Err e => set_failure t' (Some e) end).
Proof. intros E. unfold retain_failure. rewrite E. by destruct r. Qed.

Lemma poisoned_hot t : ss_is_poisoned (hot t) = true -> tier_is_poisoned t = true.
Proof. unfold tier_is_poisoned. intros ->. by rewrite orb_true_r. Qed.

Lemma poisoned_warm t w : warm t = Some w -> ss_is_poisoned w = true -> tier_is_poisoned t = true.
Proof. unfold tier_is_poisoned. intros -> ->. by rewrite orb_true_r. Qed.

Lemma poisoned_failure t e : tier_is_poisoned (set_failure t (Some e)) = true.
Proof. done. Qed.

Lemma tier_rep_hot t mb h m' :
  failure t = None -> backing t mb -> sl_rep h m' -> TierRep (set_hot t h) (tier_rows m' mb).
Proof. intros Hf Hb Hh. split; [done|]. by exists m', mb. Qed.

Lemma tier_rep_warm t w mh mb :
  failure t = None -> sl_rep (hot t) mh -> sl_rep w mb -> TierRep (set_warm t (Some w)) (tier_rows mh mb).
Proof. intros Hf Hh Hw. split; [done|]. by exists mh, mb. Qed.

(** A settled hot or warm store leaves the tiers settled. *)
Lemma settle_hot t mh mb h :
  failure t = None -> backing t mb -> settled h mh -> tier_settled (set_hot t h) (tier_rows mh mb).
Proof.
  intros Hf Hb [Hh|Hp]; [left; by apply tier_rep_hot|right]. by apply poisoned_hot.
Qed.

Lemma settle_warm t mh mb w :
  failure t = None -> sl_rep (hot t) mh -> settled w mb -> tier_settled (set_warm t (Some w)) (tier_rows mh mb).
Proof.
  intros Hf Hh [Hw|Hp]; [left; by apply tier_rep_warm|right]. by eapply poisoned_warm.
Qed.

Lemma backing_warm t w mb : warm t = Some w -> backing t mb -> sl_rep w mb.
Proof. unfold backing. by intros ->. Qed.

(** A write to the hot store alone. *)
Lemma hot_put_ok t mh mb d k v :
  failure t = None -> sl_rep (hot t) mh -> backing t mb ->
  exists r t', on_hot (ss_put d k v) t = Some (r, t')
    /\ match r with
       | Ok _ => TierRep t' (tier_rows (<[(d, k) := v]> mh) mb)
       | Err _ => tier_settled t' (tier_rows mh mb)
       end.
Proof.
  intros Hf Hh Hb. destruct (law_put _ _ d k v Hh) as (r & h & E & Hr).
  exists r, (set_hot t h). split; [by apply on_hot_eq|].
  destruct r; [by apply tier_rep_hot|by apply settle_hot].
Qed.

Lemma tier_put_ok t V d k v :
  TierRep t V -> exists r t', tier_put d k v t = Some (r, t')
    /\ match r with Ok _ => TierRep t' (<[(d, k) := v]> V) | Err _ => tier_settled t' V end.
Proof.
  intros (Hf & mh & mb & Hh & Hb & ->). unfold tier_put. rewrite sm_bind_eq. cbn [sm_get].
  unfold tier_ready. rewrite Hf, sm_bind_eq. cbn [sm_lift]. rewrite sm_bind_eq.
  pose proof (hot_put_ok t mh mb d k v Hf Hh Hb) as Hput.
  unfold warmed. destruct (decide (d = EPHEMERAL)) as [Hd|Hd].
  { rewrite (bool_decide_true (d = EPHEMERAL)) by done. cbn [negb andb mret sm_ret]. rewrite tier_rows_put. exact Hput. }
  rewrite (bool_decide_false (d = EPHEMERAL)) by done. cbn [negb andb]. destruct (warm t) as [w|] eqn:Ew.
  2: { rewrite on_warm_None by done. rewrite bool_decide_false by (by intros []). rewrite tier_rows_put. exact Hput. }
  destruct (law_put _ _ d k v (backing_warm _ _ _ Ew Hb)) as (r & w' & E & Hr). rewrite (on_warm_eq _ _ _ _ _ Ew E).
  destruct r as [u|e]; cbn [fmap result_fmap].
  2: { eexists _, _. split; [done|]. by apply settle_warm. }
  rewrite bool_decide_true by done.
  destruct (law_put _ _ d k v Hh) as (r2 & h & Eh & Hr2).
  eexists r2, _. split; [apply retain_ok, on_hot_eq, Eh|]. destruct r2; [|by right].
  rewrite tier_rows_put, <- tier_rows_put_both. by apply tier_rep_hot.
Qed.

Lemma tier_mark_ok t V d k :
  TierRep t V -> exists r t', tier_mark_dirty d k t = Some (r, t')
    /\ match r with Ok _ => TierRep t' V | Err _ => tier_settled t' V end.
Proof.
  intros Ht. pose proof Ht as (Hf & mh & mb & Hh & Hb & ->). unfold tier_mark_dirty. rewrite sm_bind_eq. cbn [sm_get].
  unfold tier_ready. rewrite Hf, sm_bind_eq. cbn [sm_lift]. rewrite sm_bind_eq. cbn [sm_lift].
  destruct (check_dimension d) as [|e]; [|eexists _, _; split; [done|by left]].
  assert (forall t1 mb1, hot t1 = hot t -> failure t1 = None -> backing t1 mb1 ->
    exists r t', on_hot (ss_mark_dirty d k) t1 = Some (r, t')
      /\ match r with Ok _ => TierRep t' (tier_rows mh mb1) | Err _ => True end) as Hmark.
  { intros t1 mb1 Eh Hf1 Hb1. destruct (law_mark _ _ d k Hh) as (r & h & E & Hr). rewrite <- Eh in E.
    exists r, (set_hot t1 h). split; [by apply on_hot_eq|]. destruct r; [by apply tier_rep_hot|done]. }
  set (body := _ ≫= _).
  assert (exists r t', body t = Some (r, t') /\ match r with Ok _ => TierRep t' (tier_rows mh mb) | Err _ => True end)
    as (r & t' & E & Hr).
  { subst body. rewrite sm_bind_eq. destruct (if decide (d = EPHEMERAL) then None else ss_get (hot t) d k) as [v|] eqn:Ev.
    2: { cbn [mret sm_ret]. by apply Hmark. }
    case_decide as Hd; [done|]. apply (law_get _ _ _ _ _ Hh) in Ev. destruct (warm t) as [w|] eqn:Ew.
    - destruct (law_put _ _ d k v (backing_warm _ _ _ Ew Hb)) as (r & w' & E & Hr). rewrite (on_warm_eq _ _ _ _ _ Ew E).
      destruct r as [u|e]; cbn [fmap result_fmap]; [|by eexists _, _].
      rewrite <- (tier_rows_warm_put mh mb d k v Hd Ev). by apply Hmark.
    - rewrite on_warm_None by done. by apply Hmark. }
  eexists r, _. split; [by apply retain_ok|]. destruct r; [done|by right].
Qed.

Lemma tier_remove_ok t V d k :
  TierRep t V -> exists r t', tier_remove d k t = Some (r, t')
    /\ match r with Ok v => v = V !! (d, k) /\ TierRep t' (delete (d, k) V) | Err _ => tier_settled t' V end.
Proof.
  intros Ht. pose proof Ht as (Hf & mh & mb & Hh & Hb & E0). unfold tier_remove. rewrite sm_bind_eq. cbn [sm_get].
  rewrite sm_bind_eq. unfold tier_ready at 1. rewrite Hf. cbn [sm_lift]. rewrite sm_bind_eq.
  destruct (negb (bool_decide (d = EPHEMERAL)) && bool_decide (warm t = None) && bool_decide (is_Some (cold t))) eqn:Ea;
    cbn [negb sm_require mret sm_ret]; [eexists _, _; split; [done|by left]|].
  rewrite sm_bind_eq. cbn [sm_lift]. destruct (tier_read t d k MAX_VALUE_ELEMENTS) as [value|e] eqn:Er;
    [|eexists _, _; split; [done|by left]].
  apply (tier_read_ok _ _ _ _ _ _ Ht) in Er. rewrite sm_bind_eq. subst V.
  set (removal := _ ≫= _).
  assert (forall t1 mb1, hot t1 = hot t -> failure t1 = None -> backing t1 mb1 ->
    exists r t', removal t1 = Some (r, t')
      /\ match r with Ok v => v = value /\ TierRep t' (tier_rows (delete (d, k) mh) mb1)
         | Err _ => tier_settled t' (tier_rows mh mb1) end) as Hrem.
  { intros t1 mb1 Eh Hf1 Hb1. destruct (law_remove _ _ d k Hh) as (r & h & E & Hr). rewrite <- Eh in E.
    subst removal. rewrite sm_bind_eq, (on_hot_eq _ _ _ _ E). destruct r as [v|e]; eexists _, _; (split; [done|]).
    - split; [done|]. apply tier_rep_hot; [done|done|]. by destruct Hr.
    - by apply settle_hot. }
  unfold warmed. destruct (decide (d = EPHEMERAL)) as [Hd|Hd].
  { rewrite (bool_decide_true (d = EPHEMERAL)) by done. cbn [negb andb mret sm_ret].
    destruct (Hrem t mb eq_refl Hf Hb) as (r & t' & E & Hr). exists r, t'. split; [done|]. destruct r; [|done].
    destruct Hr as [-> Hr]. split; [done|]. by rewrite tier_rows_delete by auto. }
  rewrite (bool_decide_false (d = EPHEMERAL)) in * by done. cbn [negb andb] in *. destruct (warm t) as [w|] eqn:Ew.
  - destruct (law_remove _ _ d k (backing_warm _ _ _ Ew Hb)) as (r & w' & E & Hr). rewrite (on_warm_eq _ _ _ _ _ Ew E).
    destruct r as [u|e]; cbn [fmap result_fmap].
    2: { eexists _, _. split; [done|]. by apply settle_warm. }
    rewrite bool_decide_true by done. destruct Hr as [_ Hr].
    destruct (Hrem (set_warm t (Some w')) (delete (d, k) mb) eq_refl Hf Hr) as (r2 & t2 & E2 & Hr2).
    eexists r2, _. split; [by apply retain_ok|]. destruct r2 as [v|]; [|by right]. destruct Hr2 as [-> Hr2].
    split; [done|]. by rewrite tier_rows_delete_both.
  - rewrite on_warm_None by done. rewrite (bool_decide_false (is_Some None)) by (by intros []).
    destruct (Hrem t mb eq_refl Hf Hb) as (r & t' & E & Hr). exists r, t'. split; [done|]. destruct r; [|done].
    destruct Hr as [-> Hr]. split; [done|]. rewrite tier_rows_delete; [done|]. right.
    unfold backing in Hb. rewrite Ew in Hb. rewrite (bool_decide_true (None = None)) in Ea by done.
    destruct (cold t); [by rewrite bool_decide_true in Ea by done|]. by subst mb.
Qed.


Lemma tier_get_mut_ok t V d k f :
  TierRep t V ->
  match tier_get_mut d k f t with
  | Some t' => exists v, V !! (d, k) = Some v /\ TierRep t' (<[(d, k) := f v]> V)
  | None => True
  end.
Proof.
  intros Ht. destruct (tier_rep_healthy _ _ Ht) as [_ Hp]. destruct Ht as (Hf & mh & mb & Hh & Hb & ->).
  unfold tier_get_mut. rewrite Hp. pose proof (law_get_mut _ _ d k f Hh) as Hg.
  destruct (ss_get_mut d k f (hot t)) as [h|]; [|done]. cbn [mbind option_bind]. destruct Hg as (v & Hv & Hh').
  exists v. rewrite lookup_tier_rows, Hv, tier_rows_put. split; [done|]. by apply tier_rep_hot.
Qed.

Lemma tier_commit_ok t V :
  TierRep t V -> exists r t', tier_commit t = Some (r, t')
    /\ match r with
       | Ok _ => TierRep t' V
       | Err e => failure t' = Some e
       end.
Proof.
  intros (Hf & mh & mb & Hh & Hb & ->). unfold tier_commit. rewrite sm_bind_eq. cbn [sm_get].
  unfold tier_ready. rewrite Hf, sm_bind_eq. cbn [sm_lift]. set (body := _ ≫= _).
  assert (exists r t', body t = Some (r, t') /\ match r with Ok _ => TierRep t' (tier_rows mh mb) | Err _ => True end)
    as (r & t' & E & Hr); [|eexists r, _; split; [by apply retain_ok|by destruct r]].
  subst body. rewrite sm_bind_eq. destruct (law_commit _ _ Hh) as (rh & h & Eh & Hrh).
  assert (forall t1 (did : option (bytes 32)), hot t1 = hot t -> failure t1 = None -> backing t1 mb ->
    exists r t', (hot_id ← map_error (fun t error => publication_error t did error) (on_hot ss_commit);
                  mret (match did with Some id => id | None => hot_id end)) t1 = Some (r, t')
      /\ match r with Ok _ => TierRep t' (tier_rows mh mb) | Err _ => True end) as Hhot.
  { intros t1 did E1 Hf1 Hb1. rewrite sm_bind_eq. unfold map_error. rewrite <- E1 in Eh. rewrite (on_hot_eq _ _ _ _ Eh).
    destruct rh; eexists _, _; (split; [done|]); [|done]. by apply tier_rep_hot. }
  destruct (warm t) as [w|] eqn:Ew.
  - destruct (law_commit _ _ (backing_warm _ _ _ Ew Hb)) as (rw & w' & Ec & Hrw). rewrite (on_warm_eq _ _ _ _ _ Ew Ec).
    destruct rw as [id|e]; cbn [fmap result_fmap]; [|by eexists _, _]. by apply Hhot.
  - rewrite on_warm_None by done. by apply Hhot.
Qed.

(** Moving rows between the tiers changes nothing of what they present. *)
Lemma tier_promote_ok t V d k :
  TierRep t V -> exists r t', tier_promote d k t = Some (r, t')
    /\ match r with
       | Ok b => TierRep t' V /\ (b = true <-> is_Some (V !! (d, k)))
       | Err _ => tier_settled t' V
       end.
Proof.
  intros Ht. pose proof Ht as (Hf & mh & mb & Hh & Hb & E0). unfold tier_promote. rewrite sm_bind_eq. cbn [sm_get].
  rewrite sm_bind_eq. unfold tier_ready at 1. rewrite Hf. cbn [sm_lift]. rewrite sm_bind_eq. cbn [sm_lift].
  destruct (tier_read t d k MAX_VALUE_ELEMENTS) as [value|e] eqn:Er; [|eexists _, _; split; [done|by left]].
  apply (tier_read_ok _ _ _ _ _ _ Ht) in Er. destruct value as [v|].
  - destruct (hot_put_ok t mh mb d k v Hf Hh Hb) as (r & t' & E & Hr). rewrite sm_bind_eq, E.
    destruct r as [u|e]; eexists _, _; (split; [done|]); [|by subst V]. rewrite <- Er. split; [|split; eauto].
    subst V. by rewrite tier_rows_promote in Hr by done.
  - eexists _, _. split; [done|]. split; [done|]. rewrite <- Er. split; [done|by intros []].
Qed.

Lemma tier_evict_ok t V d k :
  TierRep t V -> exists r t', tier_evict d k t = Some (r, t') /\ match r with Ok _ => TierRep t' V | Err _ => tier_settled t' V end.
Proof.
  intros Ht. pose proof Ht as (Hf & mh & mb & Hh & Hb & ->). unfold tier_evict. rewrite sm_bind_eq. cbn [sm_get].
  unfold tier_ready. rewrite Hf, sm_bind_eq. cbn [sm_lift]. rewrite sm_bind_eq. cbn [sm_lift].
  destruct (check_dimension d) as [|e]; [|eexists _, _; split; [done|by left]].
  case_decide as Hd; [by eexists _, _|]. destruct (warm t) as [w|] eqn:Ew; [|by eexists _, _].
  destruct (ss_has_pending w); [by eexists _, _|]. rewrite sm_bind_eq. cbn [sm_lift].
  destruct (ss_read w d k MAX_VALUE_ELEMENTS) as [value|e] eqn:Er; [|eexists _, _; split; [done|by left]].
  apply (law_read _ _ _ _ _ _ (backing_warm _ _ _ Ew Hb)) in Er. rewrite (hl_get _ _ d k Hh).
  destruct (bool_decide (is_Some value) && bool_decide (mh !! (d, k) = value)) eqn:Eb; [|by eexists _, _].
  apply andb_true_iff in Eb as [[v ->]%bool_decide_eq_true Hv%bool_decide_eq_true].
  destruct (law_remove _ _ d k Hh) as (r & h & E & Hr). rewrite sm_bind_eq, (on_hot_eq _ _ _ _ E).
  destruct r as [u|e]; eexists _, _; (split; [done|]).
  - rewrite <- (tier_rows_evict mh mb d k v) by done. apply tier_rep_hot; [done|done|]. by destruct Hr.
  - by apply settle_hot.
Qed.

Lemma tier_step t V o :
  TierRep t V -> exists r t' V', store_step o t = Some (r, t') /\ store_ok V o r V'
    /\ (TierRep t' V' \/ (failed r /\ tier_is_poisoned t' = true)).
Proof.
  intros Ht. destruct o as [d k|d k max|d after limits|d| |d k v|d k f|d k|d k|]; cbn [store_step ss_get ss_read ss_scan ss_iter
    ss_has_pending ss_put ss_get_mut ss_mark_dirty ss_remove ss_commit tiered_store].
  - exists (RRow (tier_get t d k)), t, V. split_and!; [done| |by left]. split; [done|]. intros x. by apply tier_get_ok.
  - exists (RRead (tier_read t d k max)), t, V. split_and!; [done| |by left]. split; [done|]. intros x. by apply tier_read_ok.
  - eexists _, t, V. split_and!; [done|done|by left].
  - eexists _, t, V. split_and!; [done|done|by left].
  - eexists _, t, V. split_and!; [done|done|by left].
  - destruct (tier_put_ok t V d k v Ht) as (r & t' & -> & Hr). eexists _, t', _. split; [done|]. split; [done|].
    destruct r; [by left|]. destruct Hr as [Hr|Hr]; [by left|by right].
  - pose proof (tier_get_mut_ok t V d k f Ht) as Hg. destruct (tier_get_mut d k f t) as [t'|].
    + destruct Hg as (v & Hv & Ht'). eexists _, t', _. split_and!; [done|by exists v|by left].
    + eexists _, t, V. split_and!; [done|done|by left].
  - destruct (tier_mark_ok t V d k Ht) as (r & t' & -> & Hr). eexists _, t', V. split; [done|]. split; [done|].
    destruct r; [by left|]. destruct Hr as [Hr|Hr]; [by left|by right].
  - destruct (tier_remove_ok t V d k Ht) as (r & t' & -> & Hr). destruct r as [v|e].
    + destruct Hr as [-> Hr]. eexists _, t', _. split_and!; [done|by split|by left].
    + eexists _, t', V. split_and!; [done|done|]. destruct Hr as [Hr|Hr]; [by left|by right].
  - destruct (tier_commit_ok t V Ht) as (r & t' & -> & Hr). eexists _, t', V. split; [done|]. split; [done|].
    destruct r; [by left|right]. split; [done|]. unfold tier_is_poisoned. by rewrite Hr.
Qed.

End TierSpec.

(** Lawful tiers make a lawful store. *)
#[export] Program Instance tiered_laws `{Nebu} {Hot Warm Cold Net} `{!ShardStore Hot, !StoreLaws Hot, !HotLaws Hot}
    `{!ShardStore Warm, !StoreLaws Warm, !ShardStore Cold, !StoreLaws Cold, !NetworkStore Net} :
  StoreLaws (TieredStore Hot Warm Cold Net) := {| sl_rep := TierRep |}.
Next Obligation. intros. by eapply tier_rep_healthy. Qed.
Next Obligation. intros. by apply tier_step. Qed.

(** ** Histories of the tiers *)

Inductive tier_op `{Nebu} :=
| TStore (o : store_op)
| TPromote (d : u8) (k : bytes 32)
| TEvict (d : u8) (k : bytes 32).

Inductive tier_out `{Nebu} :=
| TAnswer (r : store_out)
| TPromoted (r : StorageResult bool)
| TEvicted (r : StorageResult unit).

Section TierMain.
  Context `{Nebu, Hemera}.
  Context {Hot Warm Cold Net : Type}.
  Context `{!ShardStore Hot, !StoreLaws Hot, !HotLaws Hot}.
  Context `{!ShardStore Warm, !StoreLaws Warm, !ShardStore Cold, !StoreLaws Cold, !NetworkStore Net}.
  Implicit Types (t : TieredStore Hot Warm Cold Net) (V : Rows).

Definition tier_call (o : tier_op) t : option (tier_out * TieredStore Hot Warm Cold Net) :=
  match o with
  | TStore o => '(r, t) ← store_step o t; Some (TAnswer r, t)
  | TPromote d k => match tier_promote d k t with Some (r, t) => Some (TPromoted r, t) | None => None end
  | TEvict d k => match tier_evict d k t with Some (r, t) => Some (TEvicted r, t) | None => None end
  end.

(** What an answer says of the rows, and the rows after the call. *)
Definition tier_call_ok V (o : tier_op) (r : tier_out) V' : Prop :=
  match o, r with
  | TStore o, TAnswer r => store_ok V o r V'
  | TPromote d k, TPromoted r => V' = V /\ match r with Ok b => b = true <-> is_Some (V !! (d, k)) | Err _ => True end
  | TEvict _ _, TEvicted _ => V' = V
  | _, _ => False
  end.

Definition tier_failed (r : tier_out) : Prop :=
  match r with
  | TAnswer r => failed r
  | TPromoted (Err _) | TEvicted (Err _) => True
  | _ => False
  end.

(** A history with right answers, up to a failed call that leaves the store poisoned. *)
Inductive tier_trace : TieredStore Hot Warm Cold Net -> Rows -> list tier_op -> list tier_out -> Prop :=
| tt_nil t V : tier_trace t V [] []
| tt_cons t V o r t' V' ops outs :
    tier_call o t = Some (r, t') -> tier_call_ok V o r V' -> tier_trace t' V' ops outs ->
    tier_trace t V (o :: ops) (r :: outs)
| tt_poisoned t V o r t' V' ops :
    tier_call o t = Some (r, t') -> tier_call_ok V o r V' -> tier_failed r -> tier_is_poisoned t' = true ->
    tier_trace t V (o :: ops) [r].

Lemma tier_call_step t V o :
  TierRep t V -> exists r t' V', tier_call o t = Some (r, t') /\ tier_call_ok V o r V'
    /\ (TierRep t' V' \/ (tier_failed r /\ tier_is_poisoned t' = true)).
Proof.
  intros Ht. destruct o as [o|d k|d k]; cbn [tier_call].
  - destruct (tier_step t V o Ht) as (r & t' & V' & -> & Hok & Hs). by eexists (TAnswer r), t', V'.
  - destruct (tier_promote_ok t V d k Ht) as (r & t' & -> & Hr). eexists (TPromoted r), t', V. split; [done|].
    destruct r as [b|e]; cbn.
    + destruct Hr as [Hr Hb]. split; [done|by left].
    + split; [done|]. destruct Hr as [Hr|Hr]; [by left|by right].
  - destruct (tier_evict_ok t V d k Ht) as (r & t' & -> & Hr). eexists (TEvicted r), t', V. split; [done|]. split; [done|].
    destruct r; [by left|]. destruct Hr as [Hr|Hr]; [by left|by right].
Qed.


(** Every call on a store with a retained failure answers that failure and changes nothing. *)
Definition stuck (e : StorageError) t : Prop :=
  (forall d k max, ss_read t d k max = Err e) /\ (forall d k, ss_get t d k = None) /\ (forall d, ss_iter t d = [])
  /\ (forall d after limits, ss_scan t d after limits = Err e) /\ ss_last_commit t = Err e
  /\ (forall d k v, ss_put d k v t = Some (Err e, t)) /\ (forall d k f, ss_get_mut d k f t = None)
  /\ (forall d k, ss_mark_dirty d k t = Some (Err e, t)) /\ (forall d k, ss_remove d k t = Some (Err e, t))
  /\ ss_commit t = Some (Err e, t) /\ (forall d k, tier_promote d k t = Some (Err e, t))
  /\ (forall d k, tier_evict d k t = Some (Err e, t)) /\ tier_archive t = Some (Err e, t).

Lemma failure_stuck e t : failure t = Some e -> stuck e t.
Proof.
  intros Hf.
  assert (tier_ready t = Err e) as Hr by (unfold tier_ready; by rewrite Hf).
  assert (tier_is_poisoned t = true) as Hp by (unfold tier_is_poisoned; by rewrite Hf).
  unfold stuck. cbn [ss_read ss_get ss_iter ss_scan ss_last_commit ss_put ss_get_mut ss_mark_dirty ss_remove ss_commit tiered_store].
  split_and!; intros; unfold tier_read, tier_get, tier_iter, tier_scan, tier_last_commit, tier_put, tier_get_mut,
    tier_mark_dirty, tier_remove, tier_commit, tier_promote, tier_evict, tier_archive;
    rewrite ?Hp; try done; rewrite ?sm_bind_eq; cbn [sm_get]; rewrite ?sm_bind_eq; by rewrite Hr.
Qed.

(** The outcome of a commit. It never panics. A commit that succeeds keeps the rows and answers
    the identity of the warm commit when there is a warm store. A commit that fails is retained:
    the error is the one of the warm store, or of the hot store after the warm store has
    committed, which over a durable warm store is an unknown outcome that names the warm commit.
    From then on every call answers that error and changes nothing. *)
Theorem tier_commit_outcome t V :
  TierRep t V ->
  exists r t', ss_commit t = Some (r, t')
    /\ match r with
       | Ok id => TierRep t' V
           /\ forall w, warm t = Some w -> exists w', ss_commit w = Some (Ok id, w') /\ warm t' = Some w'
       | Err e => stuck e t'
           /\ forall w, warm t = Some w -> exists rw w', ss_commit w = Some (rw, w') /\ warm t' = Some w'
                /\ match rw with
                   | Err ew => e = ew
                   | Ok id => ss_durability w' = Disk -> exists message, e = CommitUnknown id message
                   end
       end.
Proof.
  intros Ht. destruct (tier_commit_ok t V Ht) as (r & t' & E & Hr). exists r, t'. split; [exact E|].
  assert (forall w, warm t = Some w -> exists rw w', ss_commit w = Some (rw, w') /\ warm t' = Some w'
    /\ match rw with
       | Err ew => r = Err ew
       | Ok id => match r with Ok id' => id' = id | Err e => ss_durability w' = Disk -> exists message, e = CommitUnknown id message end
       end) as Hw.
  { intros w Ew. destruct Ht as (Hf & mh & mb & Hh & Hb & ->). destruct (law_commit _ _ (backing_warm _ _ _ Ew Hb)) as (rw & w' & Ec & _).
    destruct (law_commit _ _ Hh) as (rh & h & Eh & _). exists rw, w'. split; [done|].
    unfold tier_commit in E. rewrite sm_bind_eq in E. cbn [sm_get] in E. unfold tier_ready in E.
    rewrite Hf, sm_bind_eq in E. cbn [sm_lift] in E. unfold retain_failure in E.
    rewrite sm_bind_eq, (on_warm_eq _ _ _ _ _ Ew Ec) in E. destruct rw as [id|ew]; cbn [fmap result_fmap] in E.
    - rewrite sm_bind_eq in E. unfold map_error in E. rewrite (on_hot_eq _ (set_warm t (Some w')) _ _ Eh) in E.
      destruct rh as [hid|eh]; cbn in E; injection E as <- <-; [done|]. split; [done|]. intros Hd.
      unfold tier_durability. cbn. rewrite bool_decide_true by done. by eexists.
    - by injection E as <- <-. }
  destruct r as [id|e].
  - split; [done|]. intros w Ew. destruct (Hw w Ew) as (rw & w' & Ec & Ew' & Hid). destruct rw; [|done]. subst. by exists w'.
  - split; [by apply failure_stuck|]. intros w Ew. destruct (Hw w Ew) as (rw & w' & Ec & Ew' & Hid).
    exists rw, w'. split_and!; [done|done|]. destruct rw; [done|]. congruence.
Qed.

End TierMain.

(** ** Witnesses *)

Import Toy.

#[local] Instance no_network : NetworkStore Empty_set := {|
  ns_query_proof := unit;
  ns_fetch (n : Empty_set) _ := match n with end;
  ns_das_sample (n : Empty_set) _ _ _ := match n with end;
|}.

Definition sample_tiers : TieredStore MemStore MemStore MemStore Empty_set :=
  mkTieredStore mem_new (Some mem_new) None None None.

Lemma sample_tiers_rep : TierRep sample_tiers ∅.
Proof.
  split; [done|]. exists ∅, ∅. split_and!; [exists ∅; apply mem_rep_new|exists ∅; apply mem_rep_new|].
  unfold tier_rows. rewrite map_filter_empty. by rewrite (left_id_L ∅ (∪)).
Qed.


Lemma tier_commit_outcome_witness : exists r t', ss_commit sample_tiers = Some (r, t').
Proof. destruct (tier_commit_outcome sample_tiers ∅ sample_tiers_rep) as (r & t' & E & _). exists r, t'. exact E. Defined.
