(* ===== verification/Engine.v ===== *)
(** * Physical engines (rs/src/storage/database/backend.rs, backend_redb.rs, backend_fjall.rs)

    The tables of the database, the byte scans, and the two engines behind the transaction owner.
    The fjall and redb crates are parameters: their calls with the rows they promise to hold. A
    message of theirs is the string their error displays. *)

From S2P Require Import Prelude.
From S2P Require Import Crypto.
From S2P Require Import Access.

Local Open Scope Z_scope.

(** ** Tables (database/mod.rs, database/records.rs) *)

Inductive RecordDomain :=
| NativeState | NativeHistory | NativeRequests | NativeMetadata | NativeBalances | NativeBlocks | NativeExport.

#[export] Instance record_domain_eq_dec : EqDecision RecordDomain.
Proof. solve_decision. Defined.

(** [RecordDomain::ALL]. *)
Definition record_domains : list RecordDomain :=
  [NativeState; NativeHistory; NativeRequests; NativeMetadata; NativeBalances; NativeBlocks; NativeExport].

Definition domain_name (domain : RecordDomain) : string :=
  match domain with
  | NativeState => "native_state_v1"
  | NativeHistory => "native_history_v1"
  | NativeRequests => "native_requests_v1"
  | NativeMetadata => "native_metadata_v1"
  | NativeBalances => "native_balances_v1"
  | NativeBlocks => "native_blocks_v1"
  | NativeExport => "native_export_v1"
  end.

Inductive Table :=
| Shard (d : u8) | Metadata | Content | Heads | History | Requests | Claims | Migration
| Native (domain : RecordDomain).

#[export] Instance table_eq_dec : EqDecision Table.
Proof. solve_decision. Defined.

Definition SHARD_NAMES : list string :=
  ["particles"; "axons_out"; "axons_in"; "neurons"; "locations"; "coins"; "cards"; "files"; "time";
   "signals"; "commitments"; "nullifiers"; "intents"; "ephemeral"].

(** [Table::name]; indexing the shard names panics past the last dimension. *)
Definition table_name (t : Table) : option string :=
  match t with
  | Shard d => SHARD_NAMES !! Z.to_nat (uval d)
  | Metadata => Some "bbg_storage_v1"
  | Content => Some "application_content"
  | Heads => Some "application_heads"
  | History => Some "application_history"
  | Requests => Some "application_requests"
  | Claims => Some "application_unique_claims"
  | Migration => Some "bbg_import_v1"
  | Native domain => Some (domain_name domain)
  end.

(** The derived order of tables: by constructor, then by payload. *)
Definition domain_index (domain : RecordDomain) : Z :=
  match domain with
  | NativeState => 0 | NativeHistory => 1 | NativeRequests => 2 | NativeMetadata => 3
  | NativeBalances => 4 | NativeBlocks => 5 | NativeExport => 6
  end.

Definition table_key (t : Table) : u8 * u8 :=
  match t with
  | Shard d => (of_Z 8 0, d)
  | Metadata => (of_Z 8 1, of_Z 8 0)
  | Content => (of_Z 8 2, of_Z 8 0)
  | Heads => (of_Z 8 3, of_Z 8 0)
  | History => (of_Z 8 4, of_Z 8 0)
  | Requests => (of_Z 8 5, of_Z 8 0)
  | Claims => (of_Z 8 6, of_Z 8 0)
  | Migration => (of_Z 8 7, of_Z 8 0)
  | Native domain => (of_Z 8 8, of_Z 8 (domain_index domain))
  end.

Definition table_of_key (k : u8 * u8) : option Table :=
  match uval k.1 with
  | 0 => Some (Shard k.2) | 1 => Some Metadata | 2 => Some Content | 3 => Some Heads
  | 4 => Some History | 5 => Some Requests | 6 => Some Claims | 7 => Some Migration
  | 8 => Native <$> record_domains !! Z.to_nat (uval k.2)
  | _ => None
  end.

Lemma table_of_table_key t : table_of_key (table_key t) = Some t.
Proof. by destruct t as [| | | | | | | |[]]. Qed.

#[export] Instance table_key_inj : Inj (=) (=) table_key.
Proof. intros a b E. apply (f_equal table_of_key) in E. rewrite !table_of_table_key in E. by injection E. Qed.

#[export] Instance table_countable : Countable Table := inj_countable table_key table_of_key table_of_table_key.

#[export] Program Instance table_ordered : Ordered Table := {|
  ord_leb a b := ord_leb (table_key a) (table_key b);
|}.
Next Obligation. intros a b. apply ord_leb_total. Qed.
Next Obligation. intros a b c. apply ord_leb_trans. Qed.
Next Obligation. intros a b H1 H2. apply (inj table_key). by apply ord_leb_antisym. Qed.

Abbreviation RawEntry := (list u8 * list u8)%type.
Abbreviation Changes := (gmap (Table * list u8) (option (list u8))).

Definition MAX_TRANSACTION_BYTES : Z := 32 * 1024 * 1024.
Definition MAX_TRANSACTION_KEYS : Z := 150000.
Definition MAX_BYTES_VALUE : Z := 16 * 1024 * 1024 + 1.

Record ByteLimits := mkByteLimits { bl_entries : usize; bl_bytes : usize }.

(** [ByteLimits::validate]. *)
Definition byte_limits_validate (l : ByteLimits) : StorageResult unit :=
  if (uval (bl_entries l) =? 0) || (4096 <? uval (bl_entries l)) || (MAX_TRANSACTION_BYTES <? uval (bl_bytes l))
  then Err (Limit "byte scan budget") else Ok tt.

(** ** Scans (database/backend.rs) *)

(** [Iterator::rposition]. *)
Fixpoint rposition {A} (f : A -> bool) (l : list A) : option nat :=
  match l with
  | [] => None
  | x :: l => match rposition f l with Some i => Some (S i) | None => if f x then Some 0%nat else None end
  end.

(** The least key above every key with the prefix; none when the prefix is all [0xff]. *)
Definition prefix_upper (prefix : list u8) : option (list u8) :=
  i ← rposition (fun byte => negb (bool_decide (byte = umax 8))) prefix;
  Some (alter (fun byte => of_Z 8 (uval byte + 1)) i (take (S i) prefix)).

Definition scan_bounds (after : option (list u8)) (prefix : list u8) : option (bound (list u8) * bound (list u8)) :=
  let upper := prefix_upper prefix in
  if match upper, after with Some upper, Some after => ord_leb upper after | _, _ => false end then None
  else
    let start := match after with
                 | Some after => if bool_decide (prefix = []) || ord_leb prefix after then Excluded after else Included prefix
                 | None => if bool_decide (prefix = []) then Unbounded else Included prefix
                 end in
    Some (start, match upper with Some upper => Excluded upper | None => Unbounded end).

(** [copy_value] of backend.rs. *)
Definition copy_bytes (b : list u8) (max : Z) : StorageResult (list u8) :=
  if max <? zlen b then Err (Limit "database value exceeds read budget") else Ok b.

(** A page under construction and the bytes it holds. *)
Abbreviation Paging := (SM StorageError (list RawEntry * Z)).

(** [push_row]: false when the row does not fit what is left of the page. *)
Definition push_row (key value : list u8) (limits : ByteLimits) : Paging bool :=
  _ ← sm_require (zlen key <=? 64) (Corrupt "database key length");
  _ ← sm_require (zlen value <=? 16 * 1024 * 1024 + 1) (Limit "database value length");
  let bytes := zlen key + zlen value in
  _ ← sm_require (bytes <? 2 ^ 64) (Limit "database row length");
  _ ← sm_require (bytes <=? uval (bl_bytes limits)) (Limit "database row exceeds page budget");
  '(page, used) ← sm_get;
  room ← sm_some (usize_sub (uval (bl_bytes limits)) used);
  if room <? bytes then mret false
  else
    _ ← sm_modify (fun _ => (page ++ [(key, value)], used + bytes));
    mret true.

(** The loop of [scan] over the entries taken. *)
Fixpoint scan_rows (limits : ByteLimits) (entries : list (result string RawEntry)) : Paging unit :=
  match entries with
  | [] => mret tt
  | entry :: rest =>
      '(key, value) ← sm_lift (map_err Io entry);
      more ← push_row key value limits;
      if more : bool then scan_rows limits rest else mret tt
  end.

Definition scan_page (limits : ByteLimits) (entries : list (result string RawEntry)) : option (StorageResult (list RawEntry)) :=
  '(r, (page, _)) ← scan_rows limits (take (Z.to_nat (uval (bl_entries limits))) entries) ([], 0);
  Some (_ ← r; Ok page).

Definition unknown (change_id : bytes 32) (error : string) : StorageError := CommitUnknown change_id error.

(** ** The fjall engine (database/backend_fjall.rs) *)

Inductive FjWrite (P : Type) := FjInsert (p : P) (key value : list u8) | FjRemove (p : P) (key : list u8).
Arguments FjInsert {P} _ _ _.
Arguments FjRemove {P} _ _.

Class Fjall := {
  FjKeyspace : Type;
  FjPartition : Type;
  fj_partition_eq_dec :: EqDecision FjPartition;
  fj_open_partition : FjKeyspace -> string -> result string FjPartition * FjKeyspace;
  fj_list_partitions : FjKeyspace -> list string;
  fj_get : FjKeyspace -> FjPartition -> list u8 -> result string (option (list u8));
  fj_range : FjKeyspace -> FjPartition -> bound (list u8) -> bound (list u8) -> list (result string RawEntry);
  (** The commit of a batch with [PersistMode::SyncAll]. *)
  fj_commit : FjKeyspace -> list (FjWrite FjPartition) -> result string unit * FjKeyspace;
}.

Section FjallEngine.
  Context `{Fjall}.

Record FjallEngine := mkFjall { fj_keyspace : FjKeyspace; fj_tables : gmap Table FjPartition }.

(** The partitions [open] makes sure of. *)
Definition fjall_names : list Table :=
  map (fun d => Shard (of_Z 8 (Z.of_nat d))) (seq 0 14)
  ++ [Metadata; Content; Heads; History; Requests; Claims; Migration]
  ++ map Native record_domains.

(** One iteration of the loop of [open]. *)
Definition fjall_open_table (table : Table) : SM StorageError FjallEngine unit :=
  name ← sm_some (table_name table);
  e ← sm_get;
  let '(r, keyspace) := fj_open_partition (fj_keyspace e) name in
  _ ← sm_modify (fun e => mkFjall keyspace (fj_tables e));
  partition ← sm_lift (map_err Io r);
  sm_modify (fun e => mkFjall (fj_keyspace e) (<[table := partition]> (fj_tables e))).

(** [open], once the directory is locked and the keyspace is open. *)
Definition fjall_open (keyspace : FjKeyspace) : option (StorageResult FjallEngine) :=
  '(r, e) ← sm_for fjall_names fjall_open_table (mkFjall keyspace ∅);
  Some (_ ← r; Ok e).

Definition fjall_table (e : FjallEngine) (t : Table) : StorageResult FjPartition :=
  ok_or (fj_tables e !! t) (Corrupt "unknown database table").

Definition fjall_check_known_tables (e : FjallEngine) : StorageResult unit :=
  try_fold (fun _ name =>
    if existsb (fun t => bool_decide (table_name t = Some name)) (btree_keys (dom (fj_tables e)))
    then Ok tt else Err (Unsupported "unrecognized source partition")) tt (fj_list_partitions (fj_keyspace e)).

Definition fjall_get (e : FjallEngine) (t : Table) (key : list u8) (max : Z) : StorageResult (option (list u8)) :=
  p ← fjall_table e t;
  v ← map_err Io (fj_get (fj_keyspace e) p key);
  match v with None => Ok None | Some b => Some <$> copy_bytes b max end.

Definition fjall_scan (e : FjallEngine) (t : Table) (after : option (list u8)) (prefix : list u8) (limits : ByteLimits)
    : option (StorageResult (list RawEntry)) :=
  match scan_bounds after prefix with
  | None => Some (Ok [])
  | Some (start, end_) =>
      match fjall_table e t with
      | Err error => Some (Err error)
      | Ok p => scan_page limits (fj_range (fj_keyspace e) p start end_)
      end
  end.

Definition fjall_batch (e : FjallEngine) (changes : Changes) : StorageResult (list (FjWrite FjPartition)) :=
  try_fold (fun batch '((table, key), value) =>
    partition ← fjall_table e table;
    Ok (batch ++ [match value with Some value => FjInsert partition key value | None => FjRemove partition key end]))
    [] (btree_iter changes).

Definition fjall_commit (changes : Changes) (id : bytes 32) : SM StorageError FjallEngine unit :=
  e ← sm_get;
  batch ← sm_lift (fjall_batch e changes);
  let '(r, keyspace) := fj_commit (fj_keyspace e) batch in
  _ ← sm_modify (fun e => mkFjall keyspace (fj_tables e));
  sm_lift (map_err (unknown id) r).

End FjallEngine.

(** ** The redb engine (database/backend_redb.rs) *)

Inductive TableError := TableDoesNotExist (name : string) | TableFault (error : string).

Class Redb := {
  RdDatabase : Type;
  (** A read transaction, a table opened for reading, a write transaction. *)
  RdRead : Type;
  RdTable : Type;
  RdWrite : Type;
  rd_begin_read : RdDatabase -> result string RdRead;
  rd_open_table : RdRead -> string -> result TableError RdTable;
  rd_get : RdTable -> list u8 -> result string (option (list u8));
  rd_range : RdTable -> bound (list u8) -> bound (list u8) -> result string (list (result string RawEntry));
  rd_begin_write : RdDatabase -> result string RdWrite;
  (** [set_durability(Durability::Immediate)]. *)
  rd_set_immediate : RdWrite -> RdWrite;
  rd_open_write : RdWrite -> string -> result string RdWrite;
  rd_insert : RdWrite -> string -> list u8 -> list u8 -> result string RdWrite;
  rd_remove : RdWrite -> string -> list u8 -> result string RdWrite;
  rd_commit : RdDatabase -> RdWrite -> result string unit * RdDatabase;
}.

Section RedbEngine.
  Context `{Redb}.

Definition redb_get (db : RdDatabase) (t : Table) (key : list u8) (max : Z) : option (StorageResult (option (list u8))) :=
  match map_err Io (rd_begin_read db) with
  | Err error => Some (Err error)
  | Ok txn =>
      name ← table_name t;
      match rd_open_table txn name with
      | Err (TableDoesNotExist _) => Some (Ok None)
      | Err (TableFault error) => Some (Err (Io error))
      | Ok table =>
          Some (v ← map_err Io (rd_get table key);
                match v with None => Ok None | Some b => Some <$> copy_bytes b max end)
      end
  end.

Definition redb_scan (db : RdDatabase) (t : Table) (after : option (list u8)) (prefix : list u8) (limits : ByteLimits)
    : option (StorageResult (list RawEntry)) :=
  match scan_bounds after prefix with
  | None => Some (Ok [])
  | Some (start, end_) =>
      match map_err Io (rd_begin_read db) with
      | Err error => Some (Err error)
      | Ok txn =>
          name ← table_name t;
          match rd_open_table txn name with
          | Err (TableDoesNotExist _) => Some (Ok [])
          | Err (TableFault error) => Some (Err (Io error))
          | Ok table =>
              match map_err Io (rd_range table start end_) with
              | Err error => Some (Err error)
              | Ok entries => scan_page limits entries
              end
          end
      end
  end.

(** The nested loops of [commit]: a table is opened once for each run of its entries. *)
Fixpoint redb_write (current : option Table) (entries : list (Table * list u8 * option (list u8)))
    : SM StorageError RdWrite unit :=
  match entries with
  | [] => mret tt
  | ((t, key), value) :: rest =>
      name ← sm_some (table_name t);
      txn ← sm_get;
      txn ← sm_lift (if bool_decide (current = Some t) then Ok txn else map_err Io (rd_open_write txn name));
      txn ← sm_lift (map_err Io (match value with
                                 | Some value => rd_insert txn name key value
                                 | None => rd_remove txn name key
                                 end));
      _ ← sm_modify (fun _ => txn);
      redb_write (Some t) rest
  end.

Definition redb_commit (changes : Changes) (id : bytes 32) : SM StorageError RdDatabase unit := fun db =>
  match map_err Io (rd_begin_write db) with
  | Err error => Some (Err error, db)
  | Ok txn =>
      '(r, txn) ← redb_write None (btree_iter changes) (rd_set_immediate txn);
      match r with
      | Err error => Some (Err error, db)
      | Ok _ => let '(r, db) := rd_commit db txn in Some (map_err (unknown id) r, db)
      end
  end.

End RedbEngine.

(** ** The engine of a database *)

Section Engine.
  Context `{Fjall, Redb}.

Inductive Engine := EFjall (engine : FjallEngine) | ERedb (engine : RdDatabase).

(** [Engine::check_known_tables]. *)
Definition engine_check_known_tables (e : Engine) : StorageResult unit :=
  match e with
  | EFjall engine => fjall_check_known_tables engine
  | ERedb _ => Err (Unsupported "use explicit redb conversion")
  end.

Definition engine_get (e : Engine) (t : Table) (key : list u8) (max : Z) : option (StorageResult (option (list u8))) :=
  match e with
  | EFjall engine => Some (fjall_get engine t key max)
  | ERedb engine => redb_get engine t key max
  end.

Definition engine_scan (e : Engine) (t : Table) (after : option (list u8)) (prefix : list u8) (limits : ByteLimits)
    : option (StorageResult (list RawEntry)) :=
  match e with
  | EFjall engine => fjall_scan engine t after prefix limits
  | ERedb engine => redb_scan engine t after prefix limits
  end.

Definition engine_commit (changes : Changes) (id : bytes 32) : SM StorageError Engine unit := fun e =>
  match e with
  | EFjall engine => '(r, engine) ← fjall_commit changes id engine; Some (r, EFjall engine)
  | ERedb engine => '(r, engine) ← redb_commit changes id engine; Some (r, ERedb engine)
  end.

End Engine.

(** ** What the engines' crates promise *)

(** Items read one by one, any of which may fail, are the rows in order. *)
Definition reads_as {A} (items : list (result string A)) (rows : list A) : Prop :=
  forall n l, mapM (M := result string) Datatypes.id (take n items) = Ok l -> l = take n rows.

Abbreviation Rows := (gmap (list u8) (list u8)).

Definition fj_write_on `{Fjall} (p : FjPartition) (m : Rows) (w : FjWrite FjPartition) : Rows :=
  match w with
  | FjInsert q k v => if decide (q = p) then <[k := v]> m else m
  | FjRemove q k => if decide (q = p) then delete k m else m
  end.

(** A partition is the one of its name, a read answers the committed rows or fails, and a batch is
    applied whole, or fails: then it may or may not have been applied. *)
Class FjallLaws `{Fjall} := {
  fj_rows : FjKeyspace -> FjPartition -> Rows;
  fj_partition_name : FjPartition -> string;
  fj_open_law s name r s' : fj_open_partition s name = (r, s') ->
    (forall p, fj_rows s' p = fj_rows s p) /\ forall p, r = Ok p -> fj_partition_name p = name;
  fj_get_law s p k v : fj_get s p k = Ok v -> v = fj_rows s p !! k;
  fj_range_law s p lo hi : reads_as (fj_range s p lo hi) (btree_range (fj_rows s p) lo hi);
  fj_commit_law s b r s' : fj_commit s b = (r, s') ->
    (forall p, fj_rows s' p = foldl (fj_write_on p) (fj_rows s p) b)
    \/ (r <> Ok tt /\ forall p, fj_rows s' p = fj_rows s p);
}.

(** The same of redb, whose write transaction stages its writes until it commits. *)
Class RedbLaws `{Redb} := {
  rd_rows : RdDatabase -> string -> Rows;
  rd_read_rows : RdRead -> string -> Rows;
  rd_table_rows : RdTable -> Rows;
  rd_staged : RdWrite -> string -> Rows;
  rd_begin_read_law db txn n : rd_begin_read db = Ok txn -> rd_read_rows txn n = rd_rows db n;
  rd_open_table_law txn n :
    match rd_open_table txn n with
    | Ok table => rd_table_rows table = rd_read_rows txn n
    | Err (TableDoesNotExist _) => rd_read_rows txn n = ∅
    | Err (TableFault _) => True
    end;
  rd_get_law t k v : rd_get t k = Ok v -> v = rd_table_rows t !! k;
  rd_range_law t lo hi l : rd_range t lo hi = Ok l -> reads_as l (btree_range (rd_table_rows t) lo hi);
  rd_begin_write_law db w n : rd_begin_write db = Ok w -> rd_staged w n = rd_rows db n;
  rd_set_immediate_law w n : rd_staged (rd_set_immediate w) n = rd_staged w n;
  rd_open_write_law w m w' n : rd_open_write w m = Ok w' -> rd_staged w' n = rd_staged w n;
  rd_insert_law w m k v w' n : rd_insert w m k v = Ok w' ->
    rd_staged w' n = if decide (n = m) then <[k := v]> (rd_staged w n) else rd_staged w n;
  rd_remove_law w m k w' n : rd_remove w m k = Ok w' ->
    rd_staged w' n = if decide (n = m) then delete k (rd_staged w n) else rd_staged w n;
  rd_commit_law db w r db' : rd_commit db w = (r, db') ->
    (forall n, rd_rows db' n = rd_staged w n) \/ (r <> Ok tt /\ forall n, rd_rows db' n = rd_rows db n);
}.

(** ** Facts: tables *)

(** A table every engine has. *)
Definition table_ok (t : Table) : bool := match t with Shard d => uval d <=? 13 | _ => true end.

Lemma table_ok_names t : table_ok t = true <-> t ∈ fjall_names.
Proof.
  split.
  - intros Ht. destruct t as [d| | | | | | | |[]]; [|apply (bool_decide_unpack _); vm_compute; exact I..].
    apply elem_of_app. left. cbn in Ht. apply list_elem_of_fmap. exists (Z.to_nat (uval d)). pose proof (uval_range d).
    split; [by rewrite Z2Nat.id, of_Z_uval by lia|]. apply elem_of_seq. lia.
  - revert t. apply Forall_forall, (bool_decide_unpack _). vm_compute. exact I.
Qed.

Lemma table_names_some : Forall (fun t => is_Some (table_name t)) fjall_names.
Proof. apply (bool_decide_unpack _). vm_compute. exact I. Qed.

Lemma table_names_distinct : NoDup (table_name <$> fjall_names).
Proof. apply (bool_decide_unpack _). vm_compute. exact I. Qed.

Lemma table_name_ok t : table_ok t = true -> exists n, table_name t = Some n.
Proof. intros Ht. apply table_ok_names in Ht. by apply (proj1 (Forall_forall _ _) table_names_some). Qed.

Lemma table_name_Some t n : table_name t = Some n -> table_ok t = true.
Proof.
  destruct t as [d| | | | | | | |]; try done. intros E%lookup_lt_Some. cbn in E. pose proof (uval_range d). cbn. lia.
Qed.

Lemma table_name_inj t1 t2 : table_ok t1 = true -> table_ok t2 = true -> table_name t1 = table_name t2 -> t1 = t2.
Proof.
  intros [i1 Hi1]%table_ok_names%list_elem_of_lookup [i2 Hi2]%table_ok_names%list_elem_of_lookup E.
  assert (i1 = i2) as ->; [|congruence].
  apply (NoDup_lookup _ _ _ (table_name t1) table_names_distinct); rewrite list_lookup_fmap; [by rewrite Hi1|by rewrite Hi2, E].
Qed.

(** ** Facts: scan bounds *)

(** The rows a scan is asked for: the keys with the prefix past the cursor. *)
Definition wanted (after : option (list u8)) (prefix : list u8) (k : list u8) : bool :=
  bool_decide (prefix `prefix_of` k) && match after with Some a => ord_ltb a k | None => true end.

Lemma prefix_upper_cons x p :
  prefix_upper (x :: p) = match prefix_upper p with
                          | Some u => Some (x :: u)
                          | None => if bool_decide (x = umax 8) then None else Some [of_Z 8 (uval x + 1)]
                          end.
Proof.
  unfold prefix_upper. cbn [rposition]. destruct (rposition _ p) as [i|]; [done|].
  case_bool_decide; [done|]. cbn. by rewrite take_0.
Qed.

Lemma leb_cons (x y : u8) p k :
  ord_leb (x :: p) (y :: k) = if decide (x = y) then ord_leb p k else ord_leb x y.
Proof. done. Qed.

Lemma prefix_leb (p k : list u8) : p `prefix_of` k -> ord_leb p k = true.
Proof.
  intros [l ->]. induction p as [|x p IH]; [done|]. cbn [app]. rewrite leb_cons. by rewrite decide_True.
Qed.

Lemma prefix_upper_None (p k : list u8) : prefix_upper p = None -> ord_leb p k = true -> p `prefix_of` k.
Proof.
  revert k. induction p as [|x p IH]; intros k Hu Hk; [apply prefix_nil|]. rewrite prefix_upper_cons in Hu.
  destruct (prefix_upper p) as [u|]; [done|]. case_bool_decide as Hx; [|done].
  destruct k as [|y k]; [done|]. rewrite leb_cons in Hk. case_decide as E.
  - subst y. apply prefix_cons. by apply IH.
  - exfalso. apply E, uint_eq. cbn in Hk. subst x. pose proof (uval_umax 8). pose proof (uval_range y). lia.
Qed.

Lemma prefix_upper_Some (p u k : list u8) :
  prefix_upper p = Some u -> p `prefix_of` k <-> ord_leb p k = true /\ ord_leb u k = false.
Proof.
  revert u k. induction p as [|x p IH]; intros u k Hu; [done|]. rewrite prefix_upper_cons in Hu.
  destruct k as [|y k]; [split; [by intros ?%prefix_nil_not|by intros [? _]]|].
  pose proof (uval_range x) as Rx. pose proof (uval_range y) as Ry. pose proof (uval_umax 8) as Hm.
  destruct (prefix_upper p) as [u'|] eqn:Ep.
  - injection Hu as <-. rewrite !leb_cons. case_decide as E.
    + subst y. rewrite <- (IH u' k) by done. split; [apply prefix_cons_inv_2|apply prefix_cons].
    + split; [by intros ?%prefix_cons_inv_1|]. intros [H1 H2]. congruence.
  - case_bool_decide as Hx; [done|]. injection Hu as <-. rewrite !leb_cons.
    assert (uval x < 255) as Hlt.
    { destruct (Z.eq_dec (uval x) 255); [|lia]. exfalso. by apply Hx, uint_eq. }
    assert (uval (of_Z 8 (uval x + 1)) = uval x + 1) as Hs by (apply uval_of_Z_small; lia).
    case_decide as E.
    + subst y. rewrite decide_False by (intros E; apply (f_equal uval) in E; lia). cbn [ord_leb uint_ordered]. rewrite Hs.
      split; [intros Hp%prefix_cons_inv_2; split; [by apply prefix_leb|lia]|].
      intros [Hk _]. apply prefix_cons. by apply prefix_upper_None.
    + split; [by intros ?%prefix_cons_inv_1|]. cbn [ord_leb uint_ordered]. rewrite Hs. intros [H1 H2]. exfalso.
      apply E, uint_eq. case_decide as E'; [done|]. lia.
Qed.

Lemma ltb_leb_trans (a b c : list u8) : ord_ltb a b = true -> ord_leb b c = true -> ord_ltb a c = true.
Proof.
  unfold ord_ltb. rewrite !negb_true_iff. intros Hab Hbc. destruct (ord_leb c a) eqn:E; [|done].
  by rewrite (ord_leb_trans b c a) in Hab.
Qed.

Lemma leb_ltb (a b : list u8) : ord_leb a b = false -> ord_ltb b a = true.
Proof. intros E. unfold ord_ltb. by rewrite E. Qed.

Lemma leb_negb_ltb (a b : list u8) : ord_ltb b a = false <-> ord_leb a b = true.
Proof. unfold ord_ltb. by rewrite negb_false_iff. Qed.

(** The lower bound of a scan keeps the keys above the prefix past the cursor. *)
Lemma scan_start (after : option (list u8)) (prefix k : list u8) (u : bound (list u8)) :
  let start := match after with
               | Some after => if bool_decide (prefix = []) || ord_leb prefix after then Excluded after else Included prefix
               | None => if bool_decide (prefix = []) then Unbounded else Included prefix
               end in
  in_range start u k = ord_leb prefix k && match after with Some a => ord_ltb a k | None => true end && in_range Unbounded u k.
Proof.
  cbn zeta. unfold in_range. destruct after as [a|].
  - destruct (bool_decide (prefix = []) || ord_leb prefix a) eqn:E.
    + assert (ord_leb prefix a = true) as Hp.
      { apply orb_true_iff in E as [->%bool_decide_eq_true|?]; done. }
      destruct (ord_ltb a k) eqn:Ea; [|by rewrite andb_false_r].
      rewrite (ord_leb_trans prefix a k); [done|done|by apply ord_ltb_leb].
    + apply orb_false_iff in E as [_ E%leb_ltb]. destruct (ord_leb prefix k) eqn:Ek; [|done].
      by rewrite (ltb_leb_trans a prefix k).
  - case_bool_decide; [subst; by rewrite andb_true_r|]. by rewrite andb_true_r.
Qed.

(** The bounds of a scan are exact: a key lies between them exactly when it has the prefix and comes
    after the cursor, and when there are no bounds no such key exists. *)
Lemma scan_bounds_exact (after : option (list u8)) (prefix k : list u8) :
  wanted after prefix k = match scan_bounds after prefix with
                          | Some (lo, hi) => in_range lo hi k
                          | None => false
                          end.
Proof.
  unfold scan_bounds, wanted. destruct (prefix_upper prefix) as [u|] eqn:Eu.
  - pose proof (prefix_upper_Some _ _ k Eu) as Hu.
    destruct (match after with Some a => ord_leb u a | None => false end) eqn:Ea.
    + destruct after as [a|]; [|done]. case_bool_decide as Hp; [|done]. apply Hu in Hp as [_ Hp%leb_ltb].
      apply leb_negb_ltb, (ord_leb_trans k u a); [by apply ord_ltb_leb|done].
    + rewrite scan_start. cbn [in_range]. unfold in_range at 1. cbn [andb].
      rewrite (bool_decide_ext _ _ Hu). unfold ord_ltb at 3.
      destruct (match after with Some a => ord_ltb a k | None => true end), (ord_leb prefix k), (ord_leb u k); reflexivity.
  - rewrite scan_start. cbn. rewrite andb_true_r. f_equal. apply eq_true_iff_eq.
    rewrite bool_decide_eq_true. split; [apply prefix_leb|by apply prefix_upper_None].
Qed.

(** ** Facts: pages *)

Definition raw_bytes (l : list RawEntry) : Z := zsum (fun e => zlen e.1 + zlen e.2) l.

(** A page of the rows asked for: the first of them, within both limits, and as many as fit. *)
Record RawPage (rows : list RawEntry) (limits : ByteLimits) (page : list RawEntry) : Prop := {
  rp_prefix : page `prefix_of` rows;
  rp_entries : zlen page <= uval (bl_entries limits);
  rp_bytes : raw_bytes page <= uval (bl_bytes limits);
  rp_full : zlen page = uval (bl_entries limits) \/ page = rows
    \/ exists e, rows !! length page = Some e /\ raw_bytes [e] <= uval (bl_bytes limits) < raw_bytes (page ++ [e]);
}.

Lemma push_row_eq k v limits page used :
  0 <= used <= uval (bl_bytes limits) ->
  (exists e, push_row k v limits (page, used) = Some (Err e, (page, used)))
  \/ (push_row k v limits (page, used) = Some (Ok false, (page, used)) /\ zlen k + zlen v <= uval (bl_bytes limits) < used + (zlen k + zlen v))
  \/ (push_row k v limits (page, used) = Some (Ok true, (page ++ [(k, v)], used + (zlen k + zlen v)))
      /\ used + (zlen k + zlen v) <= uval (bl_bytes limits)).
Proof.
  intros Hu. unfold push_row, sm_require.
  destruct (zlen k <=? 64); [|left; by eexists].
  destruct (zlen v <=? _); [|left; by eexists].
  destruct (_ <? 2 ^ 64); [|left; by eexists].
  destruct (Z.leb_spec (zlen k + zlen v) (uval (bl_bytes limits))); [|left; by eexists].
  right. sm_run. rewrite usize_sub_ok by lia. sm_run.
  destruct (Z.ltb_spec (uval (bl_bytes limits) - used) (zlen k + zlen v)); [left|right]; (split; [by sm_run|lia]).
Qed.

Lemma raw_bytes_nonneg l : 0 <= raw_bytes l.
Proof.
  unfold raw_bytes. induction l as [|e l IH]; [done|]. cbn [zsum foldr]. fold (zsum (fun e : RawEntry => zlen e.1 + zlen e.2) l).
  unfold zlen in *. lia.
Qed.

(** The loop appends the entries it reads until one does not fit. *)
Lemma scan_rows_ok limits entries page :
  raw_bytes page <= uval (bl_bytes limits) ->
  exists r page' used, scan_rows limits entries (page, raw_bytes page) = Some (r, (page', used))
    /\ (r = Ok tt -> exists n l, mapM (M := result string) Datatypes.id (take n entries) = Ok l
         /\ page' = page ++ l /\ raw_bytes page' <= uval (bl_bytes limits)
         /\ (n = length entries \/ exists e, entries !! n = Some (Ok e) /\ raw_bytes [e] <= uval (bl_bytes limits) < raw_bytes (page' ++ [e]))).
Proof.
  revert page. induction entries as [|entry entries IH]; intros page Hp.
  { eexists (Ok tt), page, _. split; [done|]. intros _. exists 0%nat, []. rewrite app_nil_r. split_and!; [done..|by left]. }
  cbn [scan_rows]. rewrite sm_bind_eq. destruct entry as [[k v]|error]; cbn [map_err sm_lift]; [|by eexists (Err _), page, _].
  pose proof (raw_bytes_nonneg page) as H0.
  assert (forall q e, raw_bytes (q ++ [e]) = raw_bytes q + (zlen e.1 + zlen e.2)) as Hs.
  { intros q e. unfold raw_bytes. rewrite zsum_app. cbn. lia. }
  rewrite sm_bind_eq. destruct (push_row_eq k v limits page (raw_bytes page)) as [[e ->]|[[-> Hl]|[-> Hl]]]; [lia|..].
  - by eexists (Err _), page, _.
  - eexists (Ok tt), page, _. split; [done|]. intros _. exists 0%nat, []. rewrite app_nil_r.
    split_and!; [done..|]. right. exists (k, v). split; [done|]. rewrite Hs. unfold raw_bytes at 1. cbn. lia.
  - destruct (IH (page ++ [(k, v)])) as (r & page' & used & E & Hr); [rewrite Hs; cbn; lia|].
    rewrite Hs in E. cbn [fst snd] in E. rewrite E. eexists r, page', used. split; [done|].
    intros Er. destruct (Hr Er) as (n & l & El & -> & Hb & Hn). exists (S n), ((k, v) :: l).
    cbn [take mapM]. cbn [Datatypes.id mbind result_bind]. rewrite El. cbn [mbind result_bind].
    rewrite <- !app_assoc in *. split_and!; [done|done|done|]. destruct Hn as [->|Hn]; [by left|by right].
Qed.

Lemma mapM_ok_length {A} (l : list (result string A)) l' : mapM (M := result string) Datatypes.id l = Ok l' -> length l' = length l.
Proof.
  revert l'. induction l as [|x l IH]; intros l'; cbn; [by intros [= <-]|].
  destruct x as [a|]; cbn; [|done]. destruct (mapM _ l) as [k|]; [|done]. cbn. intros [= <-]. cbn. f_equal. by apply IH.
Qed.

Lemma mapM_ok_snoc {A} (l : list (result string A)) l' a : mapM (M := result string) Datatypes.id l = Ok l' ->
  mapM (M := result string) Datatypes.id (l ++ [Ok a]) = Ok (l' ++ [a]).
Proof.
  revert l'. induction l as [|x l IH]; intros l'; cbn; [by intros [= <-]|].
  destruct x as [b|]; cbn; [|done]. destruct (mapM _ l) as [k|]; [|done]. cbn. intros [= <-]. by rewrite (IH k).
Qed.

Lemma scan_page_ok limits entries rows :
  reads_as entries rows ->
  exists r, scan_page limits entries = Some r /\ forall page, r = Ok page -> RawPage rows limits page.
Proof.
  intros Hr. unfold scan_page. set (n := Z.to_nat (uval (bl_entries limits))).
  pose proof (uval_range (bl_bytes limits)) as Hb. pose proof (uval_range (bl_entries limits)) as He.
  destruct (scan_rows_ok limits (take n entries) []) as (r & page' & used & E & Hok); [cbn; lia|].
  change (raw_bytes []) with 0 in E. rewrite E. cbn. eexists. split; [done|]. intros page Ep.
  destruct r as [[]|]; [|done]. injection Ep as <-. destruct (Hok eq_refl) as (k & l & El & -> & Hl & Hk). cbn [app] in *.
  rewrite take_take in El. pose proof (Hr _ _ El) as Hrows. pose proof (mapM_ok_length _ _ El) as Hlen. rewrite length_take in Hlen.
  split; [subst l; apply prefix_take|unfold zlen; lia|done|]. destruct Hk as [->|(e & Ee & Hbig)].
  - rewrite length_take in *. destruct (decide (n <= length entries)%nat) as [Hn|Hn]; [left; unfold zlen; lia|].
    right. left. rewrite take_ge in El by lia. rewrite <- (take_ge entries (length entries + length rows)) in El by lia.
    rewrite (Hr _ _ El). apply take_ge. lia.
  - right. right. exists e. split; [|done]. apply lookup_take_Some in Ee as [Ee Hn]. rewrite Nat.min_l in * by lia.
    pose proof (mapM_ok_snoc _ _ e El) as Es. rewrite <- (take_S_r _ _ _ Ee) in Es. pose proof (Hr _ _ Es) as Hs.
    pose proof (lookup_lt_Some _ _ _ Ee). assert (length l = k) as -> by lia.
    rewrite <- (lookup_take_lt rows (S k)), <- Hs by lia. rewrite lookup_app_r by lia. by replace (k - length l)%nat with 0%nat by lia.
Qed.

(** ** The engines keep their tables *)

Section EngineSpec.
  Context `{Fjall, Redb, !FjallLaws, !RedbLaws}.

(** The rows a table of an engine holds. *)
Definition engine_rows (e : Engine) (t : Table) : Rows :=
  match e with
  | EFjall e => match fj_tables e !! t with Some p => fj_rows (fj_keyspace e) p | None => ∅ end
  | ERedb db => match table_name t with Some n => rd_rows db n | None => ∅ end
  end.

(** An open engine: fjall has a partition of its own for every table. *)
Definition engine_wf (e : Engine) : Prop :=
  match e with
  | EFjall e => forall t, table_ok t = true -> exists p n,
      fj_tables e !! t = Some p /\ table_name t = Some n /\ fj_partition_name p = n
  | ERedb _ => True
  end.

(** The rows after a batch of changes. *)
Definition changed (changes : Changes) (t : Table) (rows : Rows) (k : list u8) : option (list u8) :=
  match changes !! (t, k) with Some v => v | None => rows !! k end.

Definition applied (changes : Changes) (e e' : Engine) : Prop :=
  forall t k, table_ok t = true -> engine_rows e' t !! k = changed changes t (engine_rows e t) k.

Definition same_rows (e e' : Engine) : Prop := forall t, table_ok t = true -> engine_rows e' t = engine_rows e t.

Definition changes_ok (changes : Changes) : Prop := forall t k, is_Some (changes !! (t, k)) -> table_ok t = true.

(** The rows of a table a scan is asked for. *)
Definition table_scan (rows : Rows) (after : option (list u8)) (prefix : list u8) : list RawEntry :=
  filter (fun e => wanted after prefix e.1 = true) (btree_iter rows).

Lemma copy_bytes_ok b max v : copy_bytes b max = Ok v -> v = b /\ zlen b <= max.
Proof. unfold copy_bytes. destruct (Z.ltb_spec max (zlen b)); [done|]. by intros [= <-]. Qed.

Lemma read_value_ok (o : option (list u8)) max v :
  match o with None => Ok None | Some b => Some <$> copy_bytes b max end = Ok v ->
  v = o /\ (forall b, v = Some b -> zlen b <= max).
Proof.
  destruct o as [b|]; [|by intros [= <-]]. destruct (copy_bytes b max) as [c|] eqn:E; [|done]. intros [= <-].
  apply copy_bytes_ok in E as [-> Hl]. split; [done|]. by intros ? [= <-].
Qed.

Lemma engine_get_ok e t k max :
  engine_wf e -> table_ok t = true ->
  exists r, engine_get e t k max = Some r
    /\ forall v, r = Ok v -> v = engine_rows e t !! k /\ forall b, v = Some b -> zlen b <= max.
Proof.
  intros Hwf Ht. destruct e as [e|db]; cbn [engine_get engine_rows].
  - eexists. split; [done|]. intros v. destruct (Hwf t Ht) as (p & n & Ep & _). rewrite Ep. unfold fjall_get, fjall_table. rewrite Ep.
    cbn [ok_or mbind result_bind]. destruct (fj_get (fj_keyspace e) p k) as [o|] eqn:Eg; cbn [map_err mbind result_bind]; [|done].
    rewrite <- (fj_get_law _ _ _ _ Eg). apply read_value_ok.
  - destruct (table_name_ok t Ht) as [n En]. unfold redb_get. rewrite En.
    destruct (rd_begin_read db) as [txn|] eqn:Eb; cbn [map_err mbind option_bind]; [|by eexists].
    pose proof (rd_open_table_law txn n) as Ho. rewrite (rd_begin_read_law _ _ _ Eb) in Ho.
    destruct (rd_open_table txn n) as [table|[]]; [|..|by eexists].
    + eexists. split; [done|]. intros v. destruct (rd_get table k) as [o|] eqn:Eg; cbn [map_err mbind result_bind]; [|done].
      rewrite <- Ho, <- (rd_get_law _ _ _ Eg). apply read_value_ok.
    + eexists. split; [done|]. intros v [= <-]. by rewrite Ho.
Qed.

Lemma range_scan (rows : Rows) after prefix lo hi :
  scan_bounds after prefix = Some (lo, hi) -> btree_range rows lo hi = table_scan rows after prefix.
Proof.
  intros E. unfold btree_range, table_scan. apply list_filter_iff. intros e. by rewrite scan_bounds_exact, E.
Qed.

Lemma scan_none (rows : Rows) after prefix : scan_bounds after prefix = None -> table_scan rows after prefix = [].
Proof.
  intros E. unfold table_scan. induction (btree_iter rows) as [|e l IH]; [done|].
  rewrite filter_cons_False; [done|]. by rewrite scan_bounds_exact, E.
Qed.

(** A page without rows is past the last one. *)
Lemma raw_page_end rows limits : RawPage rows limits [] -> 0 < uval (bl_entries limits) -> rows = [].
Proof. intros [_ _ _ Hf] He. destruct Hf as [Hf|[?|(e & _ & Hb)]]; [change (zlen []) with 0 in Hf; lia|done|cbn [app] in Hb; lia]. Qed.

Lemma raw_page_nil limits : RawPage [] limits [].
Proof.
  pose proof (uval_range (bl_entries limits)). pose proof (uval_range (bl_bytes limits)).
  split; [done|change (zlen []) with 0; lia|change (raw_bytes []) with 0; lia|by right; left].
Qed.

Lemma engine_scan_ok e t after prefix limits :
  engine_wf e -> table_ok t = true ->
  exists r, engine_scan e t after prefix limits = Some r
    /\ forall page, r = Ok page -> RawPage (table_scan (engine_rows e t) after prefix) limits page.
Proof.
  intros Hwf Ht. destruct e as [e|db]; cbn [engine_scan engine_rows].
  - unfold fjall_scan, fjall_table. destruct (Hwf t Ht) as (p & n & Ep & _). rewrite Ep.
    destruct (scan_bounds after prefix) as [[lo hi]|] eqn:Eb.
    + cbn [ok_or]. rewrite <- (range_scan _ _ _ _ _ Eb). apply scan_page_ok, fj_range_law.
    + eexists. split; [done|]. intros page [= <-]. rewrite scan_none by done. apply raw_page_nil.
  - destruct (table_name_ok t Ht) as [n En]. unfold redb_scan. rewrite En.
    destruct (scan_bounds after prefix) as [[lo hi]|] eqn:Eb.
    + destruct (rd_begin_read db) as [txn|] eqn:Er; cbn [map_err mbind option_bind]; [|by eexists].
      pose proof (rd_open_table_law txn n) as Ho. rewrite (rd_begin_read_law _ _ _ Er) in Ho.
      destruct (rd_open_table txn n) as [table|[]]; [|..|by eexists].
      * destruct (rd_range table lo hi) as [l|] eqn:El; cbn [map_err]; [|by eexists].
        rewrite <- (range_scan _ _ _ _ _ Eb), <- Ho. by apply scan_page_ok, rd_range_law.
      * eexists. split; [done|]. intros page [= <-]. rewrite Ho. apply raw_page_nil.
    + eexists. split; [done|]. intros page [= <-]. rewrite scan_none by done. apply raw_page_nil.
Qed.

(** Folding a batch over the rows of a table applies its changes. *)
Lemma foldl_changes {M} (look : M -> list u8 -> option (list u8)) (f : M -> Table * list u8 * option (list u8) -> M) t l m k :
  (forall m x k, x ∈ l -> look (f m x) k = if decide (x.1 = (t, k)) then x.2 else look m k) -> NoDup l.*1 ->
  look (foldl f m l) k = match (list_to_map l : Changes) !! (t, k) with Some v => v | None => look m k end.
Proof.
  revert m. induction l as [|[tk v] l IH]; intros m Hf Hn; [done|]. cbn [fmap list_fmap fst] in Hn.
  apply NoDup_cons in Hn as [Hx Hn]. cbn [foldl]. rewrite IH; [|intros; apply Hf; by right|done].
  cbn [list_to_map]. rewrite Hf by left. cbn. case_decide as E.
  - subst tk. rewrite lookup_insert_eq. by rewrite (not_elem_of_list_to_map_1 l).
  - by rewrite lookup_insert_ne.
Qed.

Lemma foldl_flat_map {A B M} (f : M -> B -> M) (w : A -> list B) m l :
  foldl f m (flat_map w l) = foldl (fun m x => foldl f m (w x)) m l.
Proof. revert m. induction l as [|x l IH]; intros m; [done|]. cbn [flat_map]. by rewrite foldl_app, IH. Qed.

Lemma fjall_batch_ok e changes :
  engine_wf (EFjall e) -> changes_ok changes ->
  exists b, fjall_batch e changes = Ok b /\ forall t p k m, table_ok t = true -> fj_tables e !! t = Some p ->
    foldl (fj_write_on p) m b !! k = changed changes t m k.
Proof.
  intros Hwf Hc. unfold fjall_batch, changed.
  assert (forall x, x ∈ btree_iter changes -> table_ok x.1.1 = true) as Hl.
  { intros [[t k] v] Hx%elem_of_btree_iter. by eapply Hc. }
  pose proof (NoDup_btree_iter changes) as Hn.
  pose proof (list_to_map_btree_iter changes) as Hm. revert Hl Hn Hm. generalize (btree_iter changes). clear Hc. intros l Hl Hn <-.
  set (w := fun x : Table * list u8 * option (list u8) => match fj_tables e !! x.1.1 with
    | Some p => [match x.2 with Some v => FjInsert p x.1.2 v | None => FjRemove p x.1.2 end] | None => [] end).
  exists (flat_map w l). split.
  - assert (forall b0, try_fold (fun batch '((table, key), value) => partition ← fjall_table e table;
      Ok (batch ++ [match value with Some value => FjInsert partition key value | None => FjRemove partition key end])) b0 l
      = Ok (b0 ++ flat_map w l)) as Hb; [|apply (Hb [])].
    clear Hn. induction l as [|[[t k] v] l IH]; intros b0; [cbn; by rewrite app_nil_r|]. cbn [try_fold flat_map].
    unfold fjall_table, w. cbn [fst snd]. destruct (Hwf t) as (p & n & -> & _); [by apply (Hl _ (list_elem_of_here _ _))|].
    cbn [ok_or mbind result_bind]. rewrite IH by (intros; apply Hl; by right). by rewrite <- app_assoc.
  - intros t p k m Ht Ep. rewrite foldl_flat_map.
    apply (foldl_changes (fun m k => m !! k) (fun m x => foldl (fj_write_on p) m (w x))); [|done].
    clear m k. intros m [[t' k'] v] k Hx. unfold w. cbn [fst snd]. destruct (Hwf t') as (p' & n' & Ep' & En' & <-); [by apply (Hl _ Hx)|].
    rewrite Ep'. destruct (Hwf t Ht) as (p2 & n2 & Ep2 & En2 & Hp2). assert (p2 = p) as -> by congruence. subst n2.
    destruct (decide ((t', k') = (t, k))) as [[= -> ->]|Hne].
    + assert (p' = p) as -> by congruence. destruct v; cbn; rewrite decide_True by done; by rewrite ?lookup_insert_eq, ?lookup_delete_eq.
    + destruct (decide (p' = p)) as [->|Hp]; [|destruct v; cbn; by rewrite decide_False].
      assert (t' = t) as -> by (apply table_name_inj; [by apply (Hl _ Hx)|done|congruence]).
      assert (k' <> k) by congruence. destruct v; cbn; rewrite decide_True by done; by rewrite ?lookup_insert_ne, ?lookup_delete_ne.
Qed.

Lemma redb_write_ok l current txn :
  (forall x, x ∈ l -> table_ok x.1.1 = true) -> NoDup l.*1 ->
  exists r txn', redb_write current l txn = Some (r, txn')
    /\ (r = Ok tt -> forall t n k, table_ok t = true -> table_name t = Some n ->
         rd_staged txn' n !! k = match (list_to_map l : Changes) !! (t, k) with Some v => v | None => rd_staged txn n !! k end)
    /\ (forall error, r = Err error -> exists s, error = Io s).
Proof.
  revert current txn. induction l as [|[[t k] v] l IH]; intros current txn Hl Hn; [eexists (Ok tt), txn; naive_solver|].
  cbn [fmap list_fmap fst] in Hn. apply NoDup_cons in Hn as [Hx Hn].
  assert (table_ok t = true) as Ht by apply (Hl _ (list_elem_of_here _ _)).
  destruct (table_name_ok t Ht) as [n En]. cbn [redb_write]. sm_run. rewrite En. sm_run.
  destruct (if bool_decide (current = Some t) then Ok txn else map_err Io (rd_open_write txn n)) as [txn1|] eqn:E1; [|eexists (Err _), _; split_and!; [done..|]; destruct (bool_decide _), (rd_open_write txn n); naive_solver].
  assert (forall m, rd_staged txn1 m = rd_staged txn m) as Hs1.
  { intros m. case_bool_decide; [by injection E1 as <-|]. destruct (rd_open_write txn n) eqn:Eo; [|done]. injection E1 as <-.
    by eapply rd_open_write_law. }
  sm_run. destruct (match v with Some v => rd_insert txn1 n k v | None => rd_remove txn1 n k end) as [txn2|] eqn:E2; cbn [map_err]; [|eexists (Err _), _; naive_solver].
  assert (forall m k', rd_staged txn2 m !! k' = if decide (m = n /\ k' = k) then v else rd_staged txn m !! k') as Hs2.
  { intros m k'. rewrite <- Hs1. destruct v; [rewrite (rd_insert_law _ _ _ _ _ m E2)|rewrite (rd_remove_law _ _ _ _ m E2)].
    all: destruct (decide (m = n)) as [->|]; [|rewrite decide_False by naive_solver; done].
    all: destruct (decide (k' = k)) as [->|]; [rewrite decide_True by done; by rewrite ?lookup_insert_eq, ?lookup_delete_eq|].
    all: rewrite decide_False by naive_solver; by rewrite ?lookup_insert_ne, ?lookup_delete_ne. }
  sm_run. destruct (IH (Some t) txn2) as (r & txn' & E & Hr & He); [intros; apply Hl; by right|done|].
  rewrite E. eexists r, txn'. split_and!; [done| |done]. intros Er t' n' k' Ht' En'. rewrite (Hr Er t' n' k' Ht' En'), list_to_map_cons, Hs2.
  destruct (decide ((t', k') = (t, k))) as [[= -> ->]|Hne].
  - rewrite lookup_insert_eq, (not_elem_of_list_to_map_1 l _ Hx), decide_True by (split; congruence). done.
  - rewrite lookup_insert_ne by congruence. destruct (_ !! (t', k')); [done|]. apply decide_False. intros [-> ->]. apply Hne. f_equal.
    apply table_name_inj; congruence.
Qed.

(** The outcome of a commit: applied; or refused and not applied; or unknown. *)
Lemma engine_commit_ok e changes id :
  engine_wf e -> changes_ok changes ->
  exists r e', engine_commit changes id e = Some (r, e') /\ engine_wf e'
    /\ match r with
       | Ok _ => applied changes e e'
       | Err (CommitUnknown id' _) => id' = id /\ (applied changes e e' \/ same_rows e e')
       | Err _ => same_rows e e'
       end.
Proof.
  intros Hwf Hc. destruct e as [e|db]; cbn [engine_commit].
  - destruct (fjall_batch_ok e changes Hwf Hc) as (b & Eb & Hb). unfold fjall_commit. sm_run. rewrite Eb. sm_run.
    destruct (fj_commit (fj_keyspace e) b) as [r s'] eqn:Ec. sm_run. eexists _, _. split; [done|]. split; [exact Hwf|].
    assert (Happ : (forall p, fj_rows s' p = foldl (fj_write_on p) (fj_rows (fj_keyspace e) p) b) ->
      applied changes (EFjall e) (EFjall (mkFjall s' (fj_tables e)))).
    { intros Hs t k Ht. cbn. destruct (Hwf t Ht) as (p & n & Ep & _). rewrite Ep, Hs. by apply (Hb t). }
    assert (Hsame : (forall p, fj_rows s' p = fj_rows (fj_keyspace e) p) -> same_rows (EFjall e) (EFjall (mkFjall s' (fj_tables e)))).
    { intros Hs t Ht. cbn. destruct (fj_tables e !! t); [apply Hs|done]. }
    destruct (fj_commit_law _ _ _ _ Ec) as [Hs|[Hne Hs]]; destruct r as [[]|error]; cbn; auto. done.
  - unfold redb_commit. destruct (rd_begin_write db) as [txn|] eqn:Eb; cbn [map_err].
    2:{ eexists _, _. split; [done|]. by split. }
    destruct (redb_write_ok (btree_iter changes) None (rd_set_immediate txn)) as (r & txn' & E & Hr & He).
    { intros [[t k] v] Hx%elem_of_btree_iter. by eapply Hc. }
    { apply NoDup_btree_iter. }
    rewrite list_to_map_btree_iter in Hr. rewrite E. cbn [mbind option_bind].
    destruct r as [[]|error]; [|].
    2:{ eexists _, _. split; [done|]. split; [done|]. destruct (He _ eq_refl) as [s ->]. by intros t Ht. }
    destruct (rd_commit db txn') as [r db'] eqn:Ec. cbn. eexists _, _. split; [done|]. split; [done|].
    assert (Happ : (forall n, rd_rows db' n = rd_staged txn' n) -> applied changes (ERedb db) (ERedb db')).
    { intros Hs t k Ht. cbn. destruct (table_name_ok t Ht) as [n En]. rewrite En, Hs, (Hr eq_refl t n k Ht En).
      unfold changed. by rewrite rd_set_immediate_law, (rd_begin_write_law _ _ n Eb). }
    assert (Hsame : (forall n, rd_rows db' n = rd_rows db n) -> same_rows (ERedb db) (ERedb db')).
    { intros Hs t Ht. cbn. destruct (table_name t); [apply Hs|done]. }
    destruct (rd_commit_law _ _ _ _ Ec) as [Hs|[Hne Hs]]; destruct r as [[]|error]; cbn; auto. done.
Qed.

Lemma fjall_open_loop names e :
  (forall t, t ∈ names -> table_ok t = true) ->
  (forall t p, fj_tables e !! t = Some p -> table_name t = Some (fj_partition_name p)) ->
  exists r e', sm_for names fjall_open_table e = Some (r, e')
    /\ (forall p, fj_rows (fj_keyspace e') p = fj_rows (fj_keyspace e) p)
    /\ (forall t p, fj_tables e' !! t = Some p -> table_name t = Some (fj_partition_name p))
    /\ (r = Ok tt -> forall t, t ∈ names \/ is_Some (fj_tables e !! t) -> is_Some (fj_tables e' !! t)).
Proof.
  revert e. induction names as [|t names IH]; intros e Hl He.
  { exists (Ok tt), e. split_and!; [done..|]. intros _ t [?%not_elem_of_nil|?]; done. }
  cbn [sm_for]. destruct (table_name_ok t) as [n En]; [apply Hl; by left|]. sm_run. unfold fjall_open_table at 1. rewrite En. sm_run.
  destruct (fj_open_partition (fj_keyspace e) n) as [r s'] eqn:Eo. destruct (fj_open_law _ _ _ _ Eo) as [Hs Hp]. sm_run.
  destruct r as [p|error]; cbn [map_err]; [|by eexists (Err _), _]. sm_run.
  edestruct (IH (mkFjall s' (<[t:=p]> (fj_tables e)))) as (r & e' & E & Hr & Hn & Hok); [| |exists r, e'; split; [exact E|]].
  - intros t' Ht'. apply Hl. by right.
  - cbn. intros t' p'. destruct (decide (t' = t)) as [->|Hne]; [|rewrite lookup_insert_ne by done; apply He].
    rewrite lookup_insert_eq. intros [= <-]. by rewrite En, Hp.
  - split_and!; [intros q; by rewrite Hr, <- Hs|done|]. intros Er t' Ht'. apply (Hok Er). cbn.
    destruct (decide (t' = t)) as [->|Hne]; [rewrite lookup_insert_eq; eauto|]. rewrite lookup_insert_ne by done.
    destruct Ht' as [[->|?]%elem_of_cons|?]; auto. done.
Qed.

(** An engine just opened has all its tables, with the rows the keyspace held. *)
Lemma fjall_open_ok s :
  exists r, fjall_open s = Some r /\ forall e, r = Ok e ->
    engine_wf (EFjall e) /\ forall p, fj_rows (fj_keyspace e) p = fj_rows s p.
Proof.
  unfold fjall_open. destruct (fjall_open_loop fjall_names (mkFjall s ∅)) as (r & e & -> & Hs & Hn & Hok).
  { intros t. by rewrite <- table_ok_names. }
  { cbn. intros t p. by rewrite lookup_empty. }
  cbn. eexists. split; [done|]. intros e' Ee. destruct r as [[]|]; [|done]. injection Ee as <-. split; [|exact Hs].
  intros t Ht. destruct (Hok eq_refl t) as [p Hp]; [left; by apply table_ok_names|]. exists p, (fj_partition_name p).
  split_and!; [done|by apply Hn|done].
Qed.

End EngineSpec.

(** ** Engines in memory

    An instance of both crates that never fails, for the concrete runs. *)

Module ToyEngines.

Abbreviation Store := (gmap string Rows).

Definition rows_at (s : Store) (n : string) : Rows := default ∅ (s !! n).
Definition set_row (s : Store) (n : string) (k : list u8) (v : option (list u8)) : Store :=
  <[n := match v with Some v => <[k := v]> (rows_at s n) | None => delete k (rows_at s n) end]> s.

Definition write (s : Store) (w : FjWrite string) : Store :=
  match w with FjInsert n k v => set_row s n k (Some v) | FjRemove n k => set_row s n k None end.

Lemma rows_at_set s n k v m :
  rows_at (set_row s n k v) m = if decide (m = n) then match v with Some v => <[k := v]> (rows_at s m) | None => delete k (rows_at s m) end else rows_at s m.
Proof.
  unfold set_row, rows_at at 1. case_decide as E; [subst; by rewrite lookup_insert_eq|by rewrite lookup_insert_ne by done].
Qed.

Lemma reads_as_ok {A} (rows : list A) : reads_as (map Ok rows) rows.
Proof.
  intros n. revert rows. induction n as [|n IH]; intros [|x rows] l; cbn; try by intros [= <-].
  destruct (mapM _ (take n (map Ok rows))) as [l'|] eqn:E; cbn; [|done]. intros [= <-]. f_equal. by apply IH.
Qed.

#[export] Instance fjall : Fjall := {|
  FjKeyspace := Store;
  FjPartition := string;
  fj_open_partition s name := (Ok name, s);
  fj_list_partitions s := (map_to_list s).*1;
  fj_get s p k := Ok (rows_at s p !! k);
  fj_range s p lo hi := map Ok (btree_range (rows_at s p) lo hi);
  fj_commit s b := (Ok tt, foldl write s b);
|}.

#[export] Program Instance fjall_laws : FjallLaws := {|
  fj_rows := rows_at;
  fj_partition_name p := p;
|}.
Next Obligation. intros s name r s' [= <- <-]. split; [done|]. by intros p [= ->]. Qed.
Next Obligation. by intros s p k v [= <-]. Qed.
Next Obligation. intros s p lo hi. apply reads_as_ok. Qed.
Next Obligation.
  intros s b r s' [= <- <-]. left. intros p. revert s. induction b as [|w b IH]; intros s; [done|]. cbn [foldl]. rewrite IH. f_equal.
  destruct w as [q k v|q k]; cbn [write fj_write_on]; rewrite rows_at_set; repeat case_decide; congruence.
Qed.

#[export] Instance redb : Redb := {|
  RdDatabase := Store;
  RdRead := Store;
  RdTable := Rows;
  RdWrite := Store;
  rd_begin_read s := Ok s;
  rd_open_table s n := if decide (rows_at s n = ∅) then Err (TableDoesNotExist n) else Ok (rows_at s n);
  rd_get m k := Ok (m !! k);
  rd_range m lo hi := Ok (map Ok (btree_range m lo hi));
  rd_begin_write s := Ok s;
  rd_set_immediate s := s;
  rd_open_write s n := Ok s;
  rd_insert s n k v := Ok (set_row s n k (Some v));
  rd_remove s n k := Ok (set_row s n k None);
  rd_commit _ s := (Ok tt, s);
|}.

#[export] Program Instance redb_laws : RedbLaws := {|
  rd_rows := rows_at;
  rd_read_rows := rows_at;
  rd_table_rows m := m;
  rd_staged := rows_at;
|}.
Next Obligation. by intros db txn n [= ->]. Qed.
Next Obligation. intros txn n. cbn. by case_decide. Qed.
Next Obligation. by intros t k v [= <-]. Qed.
Next Obligation. intros t lo hi l [= <-]. apply reads_as_ok. Qed.
Next Obligation. by intros db w n [= ->]. Qed.
Next Obligation. done. Qed.
Next Obligation. by intros w m w' n [= ->]. Qed.
Next Obligation. intros w m k v w' n [= <-]. rewrite rows_at_set. done. Qed.
Next Obligation. intros w m k w' n [= <-]. rewrite rows_at_set. done. Qed.
Next Obligation. intros db w r db' [= <- <-]. by left. Qed.

End ToyEngines.
