(* ===== verification/Database.v ===== *)
(** * The transaction owner (rs/src/storage/database/{mod,transaction,records,generation}.rs)

    One physical engine behind one lock: a transaction stages its changes, reads through them, and
    commits them whole with the markers of the batch; a commit whose outcome is unknown poisons the
    owner. The calls on one owner are a sequence, as its mutex makes them. *)

From S2P Require Import Prelude.
From S2P Require Import Crypto.
From S2P Require Import Access.
From S2P Require Import Buffer.
From S2P Require Import Shard.
From S2P Require Import Engine.

Local Open Scope Z_scope.

(** hemera's incremental hasher: the digest after a sequence of updates. *)
Class Hasher := { hasher_digest : list (list u8) -> bytes 32 }.

(** Updates are concatenated. *)
Class HasherLaws `{Hemera, Hasher} : Prop := {
  hasher_digest_concat l : hasher_digest l = hemera_hash (concat l);
}.

(** ** Transactions (transaction.rs, records.rs) *)

Section Transaction.
  Context `{Nebu, Fjall, Redb}.

Record Transaction := mkTransaction { tx_engine : Engine; tx_changes : Changes; tx_bytes : Z }.

Abbreviation Tx := (SM StorageError Transaction).

Definition tx_new (engine : Engine) : Transaction := mkTransaction engine ∅ 0.

(** A call that reads the transaction. *)
Definition tx_view {E A} (f : Transaction -> option (result E A)) : SM E Transaction A :=
  fun tx => r ← f tx; Some (r, tx).

Definition disk_dimension (dimension : u8) : StorageResult unit :=
  _ ← check_dimension dimension;
  if bool_decide (dimension = EPHEMERAL) then Err (Unsupported "EPHEMERAL in disk transaction") else Ok tt.

Definition tx_get (tx : Transaction) (table : Table) (key : list u8) (max : Z) : option (StorageResult (option (list u8))) :=
  if (64 <? zlen key) || (MAX_BYTES_VALUE <? max) then Some (Err (Limit "byte read budget"))
  else
    match tx_changes tx !! (table, key) with
    | Some (Some v) => Some (if max <? zlen v then Err (Limit "value exceeds read budget") else Ok (Some v))
    | Some None => Some (Ok None)
    | None => engine_get (tx_engine tx) table key max
    end.

Definition tx_stage (table : Table) (key : list u8) (value : option (list u8)) : Tx unit :=
  _ ← sm_require ((zlen key <=? 64) && match value with Some v => zlen v <=? MAX_BYTES_VALUE | None => true end)
        (Limit "transaction record");
  let address := (table, key) in
  tx ← sm_get;
  let previous := tx_changes tx !! address in
  _ ← sm_require (bool_decide (is_Some previous) || (Z.of_nat (size (tx_changes tx)) <? MAX_TRANSACTION_KEYS - 2))
        (Limit "transaction key count");
  let old := match previous with None => 0 | Some v => zlen key + from_option zlen 0 v end in
  others ← sm_some (usize_sub (tx_bytes tx) old);
  let bytes := others + zlen key + from_option zlen 0 value in
  _ ← sm_require (bytes <=? MAX_TRANSACTION_BYTES - 91) (Limit "transaction bytes");
  sm_modify (fun tx => mkTransaction (tx_engine tx) (<[address := value]> (tx_changes tx)) bytes).

Definition tx_put (table : Table) (key value : list u8) : Tx unit := tx_stage table key (Some value).
Definition tx_remove (table : Table) (key : list u8) : Tx unit := tx_stage table key None.

Definition tx_read_shard (tx : Transaction) (dimension : u8) (key : bytes 32) (max : Z)
    : option (StorageResult (option (list Goldilocks))) :=
  match _ ← disk_dimension dimension; check_read_limit max with
  | Err error => Some (Err error)
  | Ok _ =>
      r ← tx_get tx (Shard dimension) (blist key) (max * 8);
      Some (v ← r; transpose ((fun b => deserialize_goldilocks b max) <$> v))
  end.

Definition tx_put_shard (dimension : u8) (key : bytes 32) (value : list Goldilocks) : Tx unit :=
  _ ← sm_lift (disk_dimension dimension);
  _ ← sm_lift (check_read_limit (zlen value));
  tx_put (Shard dimension) (blist key) (serialize_goldilocks value).

Definition tx_remove_shard (dimension : u8) (key : bytes 32) : Tx (option (list Goldilocks)) :=
  previous ← tx_view (fun tx => tx_read_shard tx dimension key MAX_VALUE_ELEMENTS);
  _ ← tx_remove (Shard dimension) (blist key);
  mret previous.

Definition tx_scan (tx : Transaction) (table : Table) (after : option (list u8)) (prefix : list u8) (limits : ByteLimits)
    : option (StorageResult (list RawEntry)) :=
  match byte_limits_validate limits with
  | Err error => Some (Err error)
  | Ok _ =>
      if match after with Some v => 64 <? zlen v | None => false end || (64 <? zlen prefix) then Some (Err (Limit "scan key"))
      else if existsb (fun k => bool_decide (k.1 = table)) (btree_iter (tx_changes tx)).*1 then Some (Err PendingWrites)
      else engine_scan (tx_engine tx) table after prefix limits
  end.

(** *** Native records *)

Record RecordLimits := mkRecordLimits { rl_entries : usize; rl_bytes : usize }.

Definition tx_read_record (tx : Transaction) (domain : RecordDomain) (key : list u8) (max : Z) : option (StorageResult (option (list u8))) :=
  tx_get tx (Native domain) key max.
Definition tx_put_record (domain : RecordDomain) (key value : list u8) : Tx unit := tx_put (Native domain) key value.
Definition tx_remove_record (domain : RecordDomain) (key : list u8) : Tx unit := tx_remove (Native domain) key.
Definition tx_scan_records (tx : Transaction) (domain : RecordDomain) (after : option (list u8)) (prefix : list u8)
    (limits : RecordLimits) : option (StorageResult (list RawEntry)) :=
  tx_scan tx (Native domain) after prefix (mkByteLimits (rl_entries limits) (rl_bytes limits)).

End Transaction.

(** ** The identity of a batch *)

Section ChangeId.
  Context `{Hasher}.

Definition DATABASE_BATCH_TAG : list u8 := ascii_bytes "bbg/database-batch/v1" ++ [of_Z 8 0].

(** The changes under the names of their tables, in the order of name and key. *)
Definition named_changes (changes : Changes) : option (list (list u8 * list u8 * option (list u8))) :=
  named ← mapM (fun '((table, key), value) => name ← table_name table; Some ((ascii_bytes name, key), value)) (btree_iter changes);
  Some (merge_sort entry_le named).

(** The updates for one change. *)
Definition change_chunks (e : list u8 * list u8 * option (list u8)) : list (list u8) :=
  let '((name, key), value) := e in
  [le_bytes 8 (zlen name); name; le_bytes 8 (zlen key); key; [of_Z 8 (if value is Some _ then 1 else 0)]]
  ++ match value with Some value => [le_bytes 8 (zlen value); value] | None => [] end.

Definition change_id (changes : Changes) : option (bytes 32) :=
  ordered ← named_changes changes;
  Some (hasher_digest (DATABASE_BATCH_TAG :: flat_map change_chunks ordered)).

End ChangeId.

(** ** The owner (mod.rs) *)

Section Database.
  Context `{Nebu, Hasher, Fjall, Redb}.

(** The engine with the retained failure, whether a transaction panicked under the lock, the
    poisoned flag, and the application locks by namespace. *)
Record Database := mkDatabase {
  db_engine : Engine;
  db_failure : option StorageError;
  db_panicked : bool;
  db_poisoned : bool;
  db_locks : gmap (bytes 32) nat;
  db_next_lock : nat;
}.

Record Commit (T : Type) := mkCommit { cm_value : T; cm_change_id : option (bytes 32) }.
Arguments mkCommit {T} _ _.
Arguments cm_value {T} _.
Arguments cm_change_id {T} _.

Definition from_engine (engine : Engine) : Database := mkDatabase engine None false false ∅ 0.

Definition set_engine (db : Database) e : Database :=
  mkDatabase e (db_failure db) (db_panicked db) (db_poisoned db) (db_locks db) (db_next_lock db).
(** A panic while the lock is held poisons the mutex. *)
Definition panicked (db : Database) : Database :=
  mkDatabase (db_engine db) (db_failure db) true (db_poisoned db) (db_locks db) (db_next_lock db).
Definition fail_unknown (db : Database) (error : StorageError) : Database :=
  mkDatabase (db_engine db) (Some error) (db_panicked db) true (db_locks db) (db_next_lock db).
Definition set_locks (db : Database) locks next : Database :=
  mkDatabase (db_engine db) (db_failure db) (db_panicked db) (db_poisoned db) locks next.

Definition is_shard (t : Table) : bool := match t with Shard _ => true | _ => false end.

(** The markers a committed batch carries. *)
Definition with_markers (changes : Changes) (id : bytes 32) : Changes :=
  let changes := if existsb (fun k => is_shard k.1) (btree_iter changes).*1
                 then <[(Metadata, ascii_bytes "last_commit") := Some (blist id)]> changes else changes in
  <[(Metadata, ascii_bytes "last_transaction") := Some (blist id)]> changes.

Definition is_unknown (error : StorageError) : bool := match error with CommitUnknown _ _ => true | _ => false end.

(** [transaction]: the answer, none when the closure panicked, and the owner after it. [from] is
    [E::from]. *)
Definition db_transaction {T E} (from : StorageError -> E) (execute : SM E Transaction T) (db : Database)
    : option (result E (Commit T)) * Database :=
  if db_panicked db then (Some (Err (from (Corrupt "panicked database transaction"))), db)
  else
    match db_failure db with
    | Some error => (Some (Err (from error)), db)
    | None =>
        match execute (tx_new (db_engine db)) with
        | None => (None, panicked db)
        | Some (Err e, _) => (Some (Err e), db)
        | Some (Ok value, tx) =>
            let changes := tx_changes tx in
            if bool_decide (changes = ∅) then (Some (Ok (mkCommit value None)), db)
            else
              match id ← change_id changes; r ← engine_commit (with_markers changes id) id (db_engine db); Some (id, r) with
              | None => (None, panicked db)
              | Some (id, (Err error, e)) =>
                  let db := set_engine db e in
                  (Some (Err (from error)), if is_unknown error then fail_unknown db error else db)
              | Some (id, (Ok _, e)) => (Some (Ok (mkCommit value (Some id))), set_engine db e)
              end
        end
    end.

Definition db_is_poisoned (db : Database) : bool := db_poisoned db || db_panicked db.

Definition db_ready (db : Database) : StorageResult unit :=
  if db_panicked db then Err (Corrupt "panicked database transaction")
  else match db_failure db with Some error => Err error | None => Ok tt end.

Definition db_check_known_tables (db : Database) : StorageResult unit :=
  if db_panicked db then Err (Corrupt "panicked database transaction")
  else engine_check_known_tables (db_engine db).

(** A transaction that only reads. *)
Definition db_view {A} (f : Transaction -> option (StorageResult A)) (db : Database) : option (StorageResult A) :=
  match (db_transaction Datatypes.id (tx_view f) db).1 with Some r => Some (cm_value <$> r) | None => None end.

Definition db_read (table : Table) (key : list u8) (max : Z) : Database -> option (StorageResult (option (list u8))) :=
  db_view (fun tx => tx_get tx table key max).

Definition db_scan (table : Table) (after : option (list u8)) (prefix : list u8) (limits : ByteLimits)
    : Database -> option (StorageResult (list RawEntry)) :=
  db_view (fun tx => tx_scan tx table after prefix limits).

Definition db_read_record (domain : RecordDomain) (key : list u8) (max : Z) : Database -> option (StorageResult (option (list u8))) :=
  db_read (Native domain) key max.

Definition db_scan_records (domain : RecordDomain) (after : option (list u8)) (prefix : list u8) (limits : RecordLimits)
    : Database -> option (StorageResult (list RawEntry)) :=
  db_scan (Native domain) after prefix (mkByteLimits (rl_entries limits) (rl_bytes limits)).

(** A marker of the metadata table. *)
Definition read_marker (name : string) (db : Database) : option (StorageResult (option (bytes 32))) :=
  r ← db_read Metadata (ascii_bytes name) 32 db;
  Some (v ← r; transpose (decode_marker <$> v)).

Definition db_last_transaction : Database -> option (StorageResult (option (bytes 32))) := read_marker "last_transaction".

(** [coordination_lock]: [live] tells the locks some adapter still holds. *)
Definition coordination_lock (namespace : bytes 32) (live : nat -> bool) (db : Database) : StorageResult nat * Database :=
  let locks := filter (fun e => live e.2 = true) (db_locks db) in
  match locks !! namespace with
  | Some lock => (Ok lock, set_locks db locks (db_next_lock db))
  | None =>
      if (64 <=? size locks)%nat then (Err (Limit "live application coordination locks"), set_locks db locks (db_next_lock db))
      else let lock := db_next_lock db in (Ok lock, set_locks db (<[namespace := lock]> locks) (S lock))
  end.

End Database.

Arguments mkCommit {T} _ _.
Arguments cm_value {T} _.
Arguments cm_change_id {T} _.

(** ** Reader generations (generation.rs) *)

Section Generation.
  Context `{Nebu, Hasher, Fjall, Redb}.

Inductive ReaderGeneration := Original | NeuronV1 | AuthenticatedV1.

(** The derived order. *)
Definition generation_index (g : ReaderGeneration) : Z :=
  match g with Original => 0 | NeuronV1 => 1 | AuthenticatedV1 => 2 end.

Definition STATUS : list u8 := ascii_bytes "status".

Definition generation_decode (status : option (list u8)) : StorageResult ReaderGeneration :=
  match status with
  | None => Ok Original
  | Some s =>
      if bool_decide (s = ascii_bytes "complete") then Ok Original
      else if bool_decide (s = ascii_bytes "neuron-v1") then Ok NeuronV1
      else if bool_decide (s = ascii_bytes "auth-v1") then Ok AuthenticatedV1
      else Err (Corrupt "unsupported reader generation or incomplete migration")
  end.

Definition promote (required : ReaderGeneration) : SM StorageError Transaction ReaderGeneration :=
  status ← tx_view (fun tx => tx_get tx Migration STATUS 16);
  current ← sm_lift (generation_decode status);
  if generation_index required <=? generation_index current then mret current
  else
    match required with
    | Original => mret current
    | NeuronV1 => _ ← tx_put Migration STATUS (ascii_bytes "neuron-v1"); mret required
    | AuthenticatedV1 => _ ← tx_put Migration STATUS (ascii_bytes "auth-v1"); mret required
    end.

Definition reader_generation (db : Database) : option (StorageResult ReaderGeneration) :=
  r ← db_read Migration STATUS 16 db;
  Some (status ← r; generation_decode status).

Definition require_reader_generation (required : ReaderGeneration) (db : Database)
    : option (StorageResult ReaderGeneration) * Database :=
  let '(r, db) := db_transaction Datatypes.id (promote required) db in
  (match r with Some r => Some (cm_value <$> r) | None => None end, db).

(** [validate_open] and [open]: [guard] answers whether the file of an unfinished import exists,
    [guard'] the same once the engine is open. *)
Definition validate_open (guard : StorageResult bool) (db : Database) : option (StorageResult unit) :=
  match guard with
  | Err error => Some (Err error)
  | Ok true => Some (Err (Corrupt "incomplete application migration"))
  | Ok false =>
      r1 ← reader_generation db;
      match r1 with
      | Err error => Some (Err error)
      | Ok _ =>
          r2 ← db_last_transaction db;
          match r2 with
          | Err error => Some (Err error)
          | Ok _ => r3 ← read_marker "last_commit" db; Some (_ ← r3; Ok tt)
          end
      end
  end.

Definition db_open (guard guard' : StorageResult bool) (engine : StorageResult Engine) : option (StorageResult Database) :=
  match guard with
  | Err error => Some (Err error)
  | Ok true => Some (Err (Corrupt "incomplete application migration"))
  | Ok false =>
      match engine with
      | Err error => Some (Err error)
      | Ok engine =>
          let db := from_engine engine in
          r ← validate_open guard' db;
          Some (_ ← r; Ok db)
      end
  end.

End Generation.

(** ** Facts: transactions *)

Section TransactionFacts.
  Context `{Nebu, Fjall, Redb, !FjallLaws, !RedbLaws}.

Definition staged_size (e : Table * list u8 * option (list u8)) : Z := zlen e.1.2 + from_option zlen 0 e.2.
Definition staged_bytes (changes : Changes) : Z := zsum staged_size (map_to_list changes).

Lemma staged_size_nonneg e : 0 <= staged_size e.
Proof. destruct e as [[t k] [v|]]; unfold staged_size, zlen; cbn; unfold zlen; lia. Qed.

(** A transaction in progress: its byte count is the size of its changes, within the limits that
    leave room for the markers. *)
Record TxOk (tx : Transaction) : Prop := {
  to_engine : engine_wf (tx_engine tx);
  to_tables : changes_ok (tx_changes tx);
  to_bytes : tx_bytes tx = staged_bytes (tx_changes tx);
  to_keys_limit : Z.of_nat (size (tx_changes tx)) <= MAX_TRANSACTION_KEYS - 2;
  to_bytes_limit : staged_bytes (tx_changes tx) <= MAX_TRANSACTION_BYTES - 91;
  to_entries : forall t k v, tx_changes tx !! (t, k) = Some v ->
    zlen k <= 64 /\ forall b, v = Some b -> zlen b <= MAX_BYTES_VALUE;
}.

Lemma tx_new_ok e : engine_wf e -> TxOk (tx_new e).
Proof. intros He. split; cbn; try done. intros t k [x Hx]. done. Qed.

(** The value a transaction sees. *)
Definition tx_row (tx : Transaction) (t : Table) (k : list u8) : option (list u8) :=
  changed (tx_changes tx) t (engine_rows (tx_engine tx) t) k.

Lemma tx_get_ok tx t k max :
  TxOk tx -> table_ok t = true ->
  exists r, tx_get tx t k max = Some r
    /\ forall v, r = Ok v -> v = tx_row tx t k /\ zlen k <= 64 /\ forall b, v = Some b -> zlen b <= max.
Proof.
  intros Htx Ht. unfold tx_get, tx_row, changed.
  destruct (Z.ltb_spec 64 (zlen k)) as [|Hk]; [by eexists|]. destruct (MAX_BYTES_VALUE <? max); cbn [orb]; [by eexists|].
  destruct (tx_changes tx !! (t, k)) as [[v|]|].
  - eexists. split; [done|]. intros w. destruct (Z.ltb_spec max (zlen v)); [done|]. intros [= <-]. split_and!; [done..|]. by intros ? [= <-].
  - eexists. split; [done|]. intros w [= <-]. done.
  - destruct (engine_get_ok (tx_engine tx) t k max) as (r & -> & Hr); [apply Htx|done|]. exists r. split; [done|].
    intros v Ev. destruct (Hr v Ev). done.
Qed.

(** What staging does: it is refused beyond a limit, and counts the bytes of the changes. *)
Lemma tx_stage_eq tx t k v :
  TxOk tx ->
  tx_stage t k v tx = Some (
    let changes := <[(t, k) := v]> (tx_changes tx) in
    if negb ((zlen k <=? 64) && match v with Some b => zlen b <=? MAX_BYTES_VALUE | None => true end)
    then (Err (Limit "transaction record"), tx)
    else if negb (bool_decide (is_Some (tx_changes tx !! (t, k))) || (Z.of_nat (size (tx_changes tx)) <? MAX_TRANSACTION_KEYS - 2))
    then (Err (Limit "transaction key count"), tx)
    else if MAX_TRANSACTION_BYTES - 91 <? staged_bytes changes then (Err (Limit "transaction bytes"), tx)
    else (Ok tt, mkTransaction (tx_engine tx) changes (staged_bytes changes))).
Proof.
  intros Htx. unfold tx_stage, sm_require. cbn zeta. destruct (_ && _); [|done]. sm_run.
  destruct (bool_decide (is_Some (tx_changes tx !! (t, k))) || _); [|done]. sm_run.
  assert (match tx_changes tx !! (t, k) with None => 0 | Some v => zlen k + from_option zlen 0 v end
    = from_option (fun v => staged_size ((t, k), v)) 0 (tx_changes tx !! (t, k))) as -> by by destruct (_ !! _).
  rewrite usize_sub_ok.
  2:{ rewrite (to_bytes _ Htx). destruct (tx_changes tx !! (t, k)) as [w|] eqn:E; cbn [from_option].
      - by apply (map_sum_lookup staged_size _ _ _ staged_size_nonneg).
      - apply zsum_nonneg, staged_size_nonneg. }
  sm_run. rewrite (to_bytes _ Htx).
  pose proof (map_sum_insert staged_size (tx_changes tx) (t, k) v) as Hb. fold (staged_bytes (tx_changes tx)) in Hb.
  fold (staged_bytes (<[(t, k):=v]> (tx_changes tx))) in Hb. unfold staged_size at 2 in Hb. cbn [fst snd] in Hb.
  rewrite <- Z.add_assoc, <- Hb, Z.leb_antisym. by destruct (_ <? _).
Qed.

Lemma tx_stage_ok tx t k v :
  TxOk tx -> table_ok t = true ->
  exists r tx', tx_stage t k v tx = Some (r, tx') /\ TxOk tx' /\ tx_engine tx' = tx_engine tx
    /\ match r with Ok _ => tx_changes tx' = <[(t, k) := v]> (tx_changes tx) | Err _ => tx' = tx end.
Proof.
  intros Htx Ht. rewrite tx_stage_eq by done. cbn zeta.
  destruct (_ && _) eqn:Ek; cbn [negb]; [|by eexists _, _]. apply andb_true_iff in Ek as [Ek Ev].
  destruct (_ || _) eqn:Es; cbn [negb]; [|by eexists _, _]. destruct (Z.ltb_spec (MAX_TRANSACTION_BYTES - 91) (staged_bytes (<[(t, k):=v]> (tx_changes tx)))); [by eexists _, _|].
  eexists _, _. split; [done|]. split; [|done]. destruct Htx as [He Hc Hy Hn Hl Hv]. split; cbn; try done.
  - intros t' k' Hs. destruct (decide ((t', k') = (t, k))) as [[= -> ->]|]; [done|]. rewrite lookup_insert_ne in Hs by done. by eapply Hc.
  - destruct (tx_changes tx !! (t, k)) as [w|] eqn:E.
    + rewrite map_size_insert_Some by (by eexists). done.
    + rewrite map_size_insert_None by done. rewrite bool_decide_eq_false_2 in Es by (intros [? ?]; done). cbn in Es. lia.
  - intros t' k' w. destruct (decide ((t', k') = (t, k))) as [[= -> ->]|]; [|rewrite lookup_insert_ne by done; apply Hv].
    rewrite lookup_insert_eq. intros [= <-]. split; [lia|]. intros b ->. cbn in Ev. lia.
Qed.

Lemma tx_scan_ok tx t after prefix limits :
  TxOk tx -> table_ok t = true ->
  exists r, tx_scan tx t after prefix limits = Some r
    /\ forall page, r = Ok page -> RawPage (table_scan (engine_rows (tx_engine tx) t) after prefix) limits page
         /\ forall k, tx_changes tx !! (t, k) = None.
Proof.
  intros Htx Ht. unfold tx_scan. destruct (byte_limits_validate limits); [|by eexists].
  destruct (_ || _); [by eexists|]. destruct (existsb _ _) eqn:Ex; [by eexists|].
  destruct (engine_scan_ok (tx_engine tx) t after prefix limits) as (r & -> & Hr); [apply Htx|done|]. exists r. split; [done|].
  intros page Ep. split; [by apply Hr|]. intros k. destruct (tx_changes tx !! (t, k)) as [v|] eqn:E; [|done].
  assert (existsb (fun k => bool_decide (k.1 = t)) (btree_iter (tx_changes tx)).*1 = true); [|congruence].
  apply existsb_exists. exists (t, k). split; [|by apply bool_decide_eq_true]. apply list_elem_of_In, list_elem_of_fmap.
  exists ((t, k), v). split; [done|]. by apply elem_of_btree_iter.
Qed.

(** ** Bodies of transactions *)

(** A closure that uses its transaction only through the calls: it does not panic, and keeps the
    transaction in progress. *)
Definition tx_body {E T} (m : SM E Transaction T) : Prop :=
  forall tx, TxOk tx -> exists r tx', m tx = Some (r, tx') /\ TxOk tx' /\ tx_engine tx' = tx_engine tx.

Lemma body_ret {E T} (x : T) : tx_body (mret (M := SM E Transaction) x).
Proof. intros tx Htx. by exists (Ok x), tx. Qed.

Lemma body_lift {E T} (r : result E T) : tx_body (sm_lift r).
Proof. intros tx Htx. by exists r, tx. Qed.

Lemma body_bind {E T U} (m : SM E Transaction T) (k : T -> SM E Transaction U) :
  tx_body m -> (forall x, tx_body (k x)) -> tx_body (x ← m; k x).
Proof.
  intros Hm Hk tx Htx. destruct (Hm tx Htx) as (r & tx1 & E1 & H1' & He). rewrite sm_bind_eq, E1.
  destruct r as [x|e]; [|by exists (Err e), tx1]. destruct (Hk x tx1 H1') as (r & tx2 & E2 & H2' & He2). exists r, tx2. rewrite E2. by rewrite He2.
Qed.

Lemma body_for {E T} (l : list T) (f : T -> SM E Transaction unit) : (forall x, x ∈ l -> tx_body (f x)) -> tx_body (sm_for l f).
Proof.
  induction l as [|x l IH]; intros Hf; [apply body_ret|]. cbn [sm_for]. apply body_bind; [apply Hf; by left|].
  intros _. apply IH. intros y Hy. apply Hf. by right.
Qed.

Lemma body_get t k max : table_ok t = true -> tx_body (tx_view (fun tx => tx_get tx t k max)).
Proof. intros Ht tx Htx. destruct (tx_get_ok tx t k max Htx Ht) as (r & E & _). exists r, tx. unfold tx_view. by rewrite E. Qed.

Lemma body_scan t after prefix limits : table_ok t = true -> tx_body (tx_view (fun tx => tx_scan tx t after prefix limits)).
Proof.
  intros Ht tx Htx. destruct (tx_scan_ok tx t after prefix limits Htx Ht) as (r & E & _). exists r, tx. unfold tx_view. by rewrite E.
Qed.

Lemma body_stage t k v : table_ok t = true -> tx_body (tx_stage t k v).
Proof. intros Ht tx Htx. destruct (tx_stage_ok tx t k v Htx Ht) as (r & tx' & E & Htx' & He & _). by exists r, tx'. Qed.

Lemma disk_dimension_ok d : disk_dimension d = Ok tt -> uval d < 13.
Proof.
  unfold disk_dimension, check_dimension. change (uval EPHEMERAL) with 13. destruct (Z.ltb_spec 13 (uval d)); [done|].
  cbn [mbind result_bind]. case_bool_decide as Hd; [done|]. intros _.
  assert (uval d <> 13) by (intros E; apply Hd, uint_eq; by rewrite E). lia.
Qed.

Lemma body_put_shard d k v : tx_body (tx_put_shard d k v).
Proof.
  unfold tx_put_shard. intros tx Htx. destruct (disk_dimension d) as [[]|e] eqn:Ed; [|by exists (Err e), tx].
  apply disk_dimension_ok in Ed. sm_run. destruct (check_read_limit (zlen v)) as [[]|e]; [|by exists (Err e), tx].
  sm_run. apply body_stage; [cbn; lia|done].
Qed.

Lemma body_read_shard d k max : tx_body (tx_view (fun tx => tx_read_shard tx d k max)).
Proof.
  intros tx Htx. unfold tx_view, tx_read_shard. destruct (disk_dimension d) as [[]|e] eqn:Ed; [|by exists (Err e), tx].
  apply disk_dimension_ok in Ed. cbn [mbind result_bind]. destruct (check_read_limit max); [|by eexists (Err _), tx].
  destruct (tx_get_ok tx (Shard d) (blist k) (max * 8) Htx) as (r & -> & _); [cbn; lia|]. by eexists _, tx.
Qed.

Lemma body_remove_shard d k : tx_body (tx_remove_shard d k).
Proof.
  intros tx Htx. unfold tx_remove_shard. rewrite sm_bind_eq.
  destruct (body_read_shard d k MAX_VALUE_ELEMENTS tx Htx) as (r & tx' & E & Htx' & He).
  rewrite E. destruct r as [p|e]; [|by exists (Err e), tx'].
  assert (uval d < 13) as Hd.
  { unfold tx_view, tx_read_shard in E. destruct (disk_dimension d) as [[]|] eqn:Ed; [by apply disk_dimension_ok|]. discriminate. }
  assert (table_ok (Shard d) = true) as Ht by (cbn; lia).
  destruct (body_bind _ (fun _ => mret p) (body_stage (Shard d) (blist k) None Ht) (fun _ => body_ret p) tx' Htx')
    as (r & tx2 & E2 & Htx2 & He2). exists r, tx2. split_and!; [done|done|congruence].
Qed.

End TransactionFacts.

Create HintDb tx.
#[export] Hint Resolve body_ret body_lift body_bind body_for body_get body_scan body_stage body_put_shard body_read_shard body_remove_shard : tx.

(** ** Facts: the owner *)

Section DatabaseFacts.
  Context `{Nebu, Hasher, Fjall, Redb, !FjallLaws, !RedbLaws}.

Definition DbOk (db : Database) : Prop := engine_wf (db_engine db) /\ db_panicked db = false.

Lemma named_some changes : changes_ok changes -> exists l, mapM (M := option)
  (fun '((table, key), value) => name ← table_name table; Some ((ascii_bytes name, key), value)) (btree_iter changes) = Some l.
Proof.
  intros Hc. apply mapM_is_Some_2, Forall_forall. intros [[t k] v] Hx%elem_of_btree_iter.
  destruct (table_name_ok t) as [n En]; [by eapply Hc|]. cbn. rewrite En. by eexists.
Qed.

Lemma change_id_some changes : changes_ok changes -> exists id, change_id changes = Some id.
Proof. intros Hc. unfold change_id, named_changes. destruct (named_some changes Hc) as [l ->]. by eexists. Qed.

(** The keys of the markers, which differ. *)
Definition last_transaction_key : Table * list u8 := (Metadata, ascii_bytes "last_transaction").
Definition last_commit_key : Table * list u8 := (Metadata, ascii_bytes "last_commit").

Definition touches_shards (changes : Changes) : bool := existsb (fun k => is_shard k.1) (btree_iter changes).*1.

Lemma marker_keys_differ : last_transaction_key <> last_commit_key.
Proof. apply (bool_decide_unpack _). vm_compute. exact I. Qed.

Lemma with_markers_lookup changes id a :
  with_markers changes id !! a =
    if decide (a = last_transaction_key) then Some (Some (blist id))
    else if decide (a = last_commit_key /\ touches_shards changes = true) then Some (Some (blist id))
    else changes !! a.
Proof.
  unfold with_markers. fold (touches_shards changes) last_transaction_key last_commit_key. case_decide as E1; [subst; apply lookup_insert_eq|].
  rewrite lookup_insert_ne by done. destruct (touches_shards changes).
  - case_decide as E2; [destruct E2 as [-> _]; apply lookup_insert_eq|]. apply lookup_insert_ne. naive_solver.
  - by rewrite decide_False by naive_solver.
Qed.

Lemma with_markers_ok changes id : changes_ok changes -> changes_ok (with_markers changes id).
Proof.
  intros Hc t k. rewrite with_markers_lookup. case_decide as E1; [by injection E1 as -> _|].
  case_decide as E2; [by destruct E2 as [[= -> _] _]|]. apply Hc.
Qed.

Lemma changes_size_insert (m : Changes) a v : (size (<[a := v]> m) <= S (size m))%nat.
Proof.
  destruct (m !! a) eqn:E; [rewrite map_size_insert_Some by (by eexists)|rewrite map_size_insert_None by done]; lia.
Qed.

Lemma bytes_insert_le (m : Changes) a v : staged_bytes (<[a := v]> m) <= staged_bytes m + staged_size (a, v).
Proof.
  unfold staged_bytes. rewrite map_sum_insert. destruct (m !! a) as [w|]; cbn [from_option]; [|lia].
  pose proof (staged_size_nonneg (a, w)). lia.
Qed.

(** A committed batch keeps the limits, its markers included. *)
Lemma with_markers_limits tx id :
  TxOk tx -> Z.of_nat (size (with_markers (tx_changes tx) id)) <= MAX_TRANSACTION_KEYS
    /\ staged_bytes (with_markers (tx_changes tx) id) <= MAX_TRANSACTION_BYTES.
Proof.
  intros [_ _ _ Hk Hb _]. unfold with_markers. fold (touches_shards (tx_changes tx)) last_transaction_key last_commit_key.
  assert (forall a, staged_size (a, Some (blist id)) = zlen a.2 + 32) as Hs.
  { intros [t k]. unfold staged_size. cbn. unfold zlen at 2. by rewrite length_blist. }
  pose proof (Hs last_commit_key) as Hs1. pose proof (Hs last_transaction_key) as Hs2.
  change (zlen last_commit_key.2) with 11 in Hs1. change (zlen last_transaction_key.2) with 16 in Hs2.
  destruct (touches_shards (tx_changes tx)).
  - pose proof (changes_size_insert (tx_changes tx) last_commit_key (Some (blist id))).
    pose proof (bytes_insert_le (tx_changes tx) last_commit_key (Some (blist id))).
    pose proof (changes_size_insert (<[last_commit_key := Some (blist id)]> (tx_changes tx)) last_transaction_key (Some (blist id))).
    pose proof (bytes_insert_le (<[last_commit_key := Some (blist id)]> (tx_changes tx)) last_transaction_key (Some (blist id))). lia.
  - pose proof (changes_size_insert (tx_changes tx) last_transaction_key (Some (blist id))).
    pose proof (bytes_insert_le (tx_changes tx) last_transaction_key (Some (blist id))). lia.
Qed.

(** What a transaction comes to, from the value and the changes of its body. *)
Inductive tx_outcome {T E} (from : StorageError -> E) (value : T) (changes : Changes) (db : Database)
    : result E (Commit T) -> Database -> Prop :=
| out_unchanged : changes = ∅ -> tx_outcome from value changes db (Ok (mkCommit value None)) db
| out_committed id db' : changes <> ∅ -> change_id changes = Some id -> db_failure db' = None -> db_poisoned db' = db_poisoned db ->
    applied (with_markers changes id) (db_engine db) (db_engine db') ->
    tx_outcome from value changes db (Ok (mkCommit value (Some id))) db'
| out_refused error db' : changes <> ∅ -> is_unknown error = false -> db_failure db' = None -> db_poisoned db' = db_poisoned db ->
    same_rows (db_engine db) (db_engine db') -> tx_outcome from value changes db (Err (from error)) db'
| out_unknown id message db' : changes <> ∅ -> change_id changes = Some id ->
    db_failure db' = Some (CommitUnknown id message) -> db_is_poisoned db' = true ->
    applied (with_markers changes id) (db_engine db) (db_engine db') \/ same_rows (db_engine db) (db_engine db') ->
    tx_outcome from value changes db (Err (from (CommitUnknown id message))) db'.

Lemma db_transaction_ok {T E} (from : StorageError -> E) (body : SM E Transaction T) db :
  DbOk db -> db_failure db = None -> tx_body body ->
  exists rb tx r db', body (tx_new (db_engine db)) = Some (rb, tx) /\ TxOk tx /\ tx_engine tx = db_engine db
    /\ db_transaction from body db = (Some r, db') /\ DbOk db'
    /\ match rb with
       | Err e => r = Err e /\ db' = db
       | Ok value => tx_outcome from value (tx_changes tx) db r db'
       end.
Proof.
  intros [He Hp] Hf Hb. destruct (Hb (tx_new (db_engine db)) (tx_new_ok _ He)) as (rb & tx & Eb & Htx & Het). exists rb, tx.
  unfold db_transaction. rewrite Hp, Hf, Eb. destruct rb as [value|e]; [|by eexists _, _].
  case_bool_decide as Hc; [eexists _, _; split_and!; try done; by constructor|].
  destruct (change_id_some _ (to_tables _ Htx)) as [id Eid]. rewrite Eid. cbn [mbind option_bind].
  destruct (engine_commit_ok (db_engine db) (with_markers (tx_changes tx) id) id He) as (r & e & Ec & Hwf & Hr).
  { by apply with_markers_ok, Htx. }
  rewrite Ec. destruct r as [[]|error]; (eexists _, _; split_and!; [done..|split|]).
  - done.
  - done.
  - by eapply out_committed.
  - by destruct error.
  - by destruct error.
  - destruct error; try by apply out_refused. destruct Hr as [-> Hr]. cbn [is_unknown]. by eapply out_unknown.
Qed.

(** A failed owner answers its failure and does nothing. *)
Lemma db_transaction_failed {T E} (from : StorageError -> E) (body : SM E Transaction T) db error :
  db_panicked db = false -> db_failure db = Some error -> db_transaction from body db = (Some (Err (from error)), db).
Proof. intros Hp Hf. unfold db_transaction. by rewrite Hp, Hf. Qed.

(** A reading transaction answers for the committed rows and leaves the owner. *)
Lemma db_view_ok {A} (f : Transaction -> option (StorageResult A)) db :
  DbOk db -> (exists r, f (tx_new (db_engine db)) = Some r) ->
  exists r, db_view f db = Some r /\ (db_transaction Datatypes.id (tx_view f) db).2 = db
    /\ match db_failure db with Some error => r = Err error | None => f (tx_new (db_engine db)) = Some r end.
Proof.
  intros [He Hp] [r Er]. unfold db_view, db_transaction. rewrite Hp. destruct (db_failure db) as [error|]; [by eexists|].
  unfold tx_view. rewrite Er. cbn [mbind option_bind]. exists r. destruct r as [a|e]; [|done]. cbn [tx_changes tx_new].
  rewrite bool_decide_eq_true_2 by done. done.
Qed.

Lemma db_read_ok db t k max :
  DbOk db -> table_ok t = true ->
  exists r, db_read t k max db = Some r /\ (forall error, db_failure db = Some error -> r = Err error)
    /\ forall v, r = Ok v -> db_failure db = None /\ v = engine_rows (db_engine db) t !! k /\ forall b, v = Some b -> zlen b <= max.
Proof.
  intros Hdb Ht. pose proof (tx_new_ok _ (proj1 Hdb)) as Htx. destruct (tx_get_ok _ t k max Htx Ht) as (r & E & Hr).
  destruct (db_view_ok (fun tx => tx_get tx t k max) db Hdb) as (r' & E' & _ & Hr'); [by eexists|].
  exists r'. split; [done|]. destruct (db_failure db) as [error|]; [by subst; split; [intros ? [= <-]|]|]. rewrite E in Hr'. injection Hr' as ->.
  split; [done|]. intros v Ev. destruct (Hr v Ev) as (Hv & _ & Hl). done.
Qed.

Lemma db_scan_ok db t after prefix limits :
  DbOk db -> table_ok t = true ->
  exists r, db_scan t after prefix limits db = Some r
    /\ forall page, r = Ok page -> RawPage (table_scan (engine_rows (db_engine db) t) after prefix) limits page.
Proof.
  intros Hdb Ht. pose proof (tx_new_ok _ (proj1 Hdb)) as Htx. destruct (tx_scan_ok _ t after prefix limits Htx Ht) as (r & E & Hr).
  destruct (db_view_ok (fun tx => tx_scan tx t after prefix limits) db Hdb) as (r' & E' & _ & Hr'); [by eexists|].
  exists r'. split; [done|]. intros page ->. destruct (db_failure db); [done|]. rewrite E in Hr'. injection Hr' as ->. by apply Hr.
Qed.

End DatabaseFacts.

(** ** Facts: the identity of a batch *)

Section ChangeIdFacts.
  Context `{Nebu, Hemera, Hasher, !HasherLaws, Fjall, Redb, !FjallLaws, !RedbLaws}.

Definition row_bytes (e : list u8 * list u8 * option (list u8)) : list u8 := concat (change_chunks e).

(** A row whose lengths fit their eight bytes. *)
Definition short_row (e : list u8 * list u8 * option (list u8)) : Prop :=
  zlen e.1.1 < 2 ^ 64 /\ zlen e.1.2 < 2 ^ 64 /\ forall b, e.2 = Some b -> zlen b < 2 ^ 64.

Lemma sized_inj (a b r r' : list u8) : zlen a < 2 ^ 64 -> zlen b < 2 ^ 64 ->
  le_bytes 8 (zlen a) ++ a ++ r = le_bytes 8 (zlen b) ++ b ++ r' -> a = b /\ r = r'.
Proof.
  intros Ha Hb E. apply le8_inj in E as [El E]; [|unfold zlen in *; lia..]. apply app_inj_1 in E; [done|]. unfold zlen in El. lia.
Qed.

Lemma row_bytes_inj e e' r r' :
  short_row e -> short_row e' -> row_bytes e ++ r = row_bytes e' ++ r' -> e = e' /\ r = r'.
Proof.
  destruct e as [[n k] v], e' as [[n' k'] v']. unfold row_bytes, change_chunks. intros (Hn & Hk & Hv) (Hn' & Hk' & Hv') E.
  cbn [fst snd] in *. cbn [app concat] in E. rewrite <- !app_assoc in E.
  apply sized_inj in E as [-> E]; [|done..]. apply sized_inj in E as [-> E]; [|done..].
  assert (uval (of_Z 8 1) <> uval (of_Z 8 0)) as H01 by (rewrite !uval_of_Z_small by (simpl; lia); lia).
  cbn [app] in E. apply cons_inj in E as [Ef E]. destruct v as [v|], v' as [v'|]; try (exfalso; apply H01; congruence); [|done].
  cbn [concat app] in E. rewrite <- !app_assoc in E. cbn [app] in E.
  apply sized_inj in E as [-> E]; [done|by apply Hv|by apply Hv'].
Qed.

Lemma row_bytes_nonempty e r : row_bytes e ++ r <> [].
Proof.
  destruct e as [[n k] v]. unfold row_bytes, change_chunks. cbn [app concat]. intros E. apply (f_equal length) in E.
  rewrite <- !app_assoc, length_app, length_le_bytes in E. cbn in E. lia.
Qed.

Lemma batch_bytes l : concat (flat_map change_chunks l) = flat_map row_bytes l.
Proof. induction l as [|e l IH]; [done|]. cbn [flat_map]. by rewrite concat_app, IH. Qed.

Lemma batch_bytes_inj l l' : Forall short_row l -> Forall short_row l' -> flat_map row_bytes l = flat_map row_bytes l' -> l = l'.
Proof.
  revert l'. induction l as [|e l IH]; intros [|e' l'] Hl Hl' E; [done|..]; cbn [flat_map] in E.
  - symmetry in E. by apply row_bytes_nonempty in E.
  - by apply row_bytes_nonempty in E.
  - apply Forall_cons in Hl as [He Hl]. apply Forall_cons in Hl' as [He' Hl'].
    apply row_bytes_inj in E as [-> E]; [|done..]. f_equal. by apply IH.
Qed.

Lemma table_bytes_distinct : NoDup ((fun t => ascii_bytes <$> table_name t) <$> fjall_names).
Proof. apply (bool_decide_unpack _). vm_compute. exact I. Qed.

Lemma table_bytes_short : Forall (fun t => match table_name t with Some n => zlen (ascii_bytes n) <? 64 | None => true end = true) fjall_names.
Proof. apply (bool_decide_unpack _). vm_compute. exact I. Qed.

Lemma table_bytes_inj t1 t2 n1 n2 : table_name t1 = Some n1 -> table_name t2 = Some n2 -> ascii_bytes n1 = ascii_bytes n2 -> t1 = t2.
Proof.
  intros E1 E2 E. pose proof (table_name_Some _ _ E1) as [i1 Hi1]%table_ok_names%list_elem_of_lookup.
  pose proof (table_name_Some _ _ E2) as [i2 Hi2]%table_ok_names%list_elem_of_lookup. assert (i1 = i2) as ->; [|congruence].
  apply (NoDup_lookup _ _ _ (ascii_bytes <$> table_name t1) table_bytes_distinct); rewrite list_lookup_fmap;
    [by rewrite Hi1|rewrite Hi2; cbn; rewrite E1, E2; cbn; by rewrite E].
Qed.

(** The named rows of a batch are its changes. *)
Lemma elem_of_named changes l nm k v :
  named_changes changes = Some l ->
  (nm, k, v) ∈ l <-> exists t n, table_name t = Some n /\ nm = ascii_bytes n /\ changes !! (t, k) = Some v.
Proof.
  unfold named_changes. destruct (mapM _ (btree_iter changes)) as [l0|] eqn:El; [|done]. cbn. intros [= <-].
  rewrite merge_sort_Permutation. apply mapM_Some_1 in El.
  split.
  - intros Hx. apply list_elem_of_lookup in Hx as [i Hi]. destruct (Forall2_lookup_r _ _ _ _ _ El Hi) as ([[t k'] v'] & Hi' & E).
    cbn in E. destruct (table_name t) as [n|] eqn:En; [|done]. cbn in E. injection E as <- <- <-. exists t, n. split_and!; [done..|].
    apply elem_of_btree_iter, list_elem_of_lookup. by exists i.
  - intros (t & n & En & -> & Hc). apply elem_of_btree_iter, list_elem_of_lookup in Hc as [i Hi].
    destruct (Forall2_lookup_l _ _ _ _ _ El Hi) as (x & Hi' & E). cbn in E. rewrite En in E. cbn in E. injection E as <-.
    apply list_elem_of_lookup. by exists i.
Qed.

Lemma named_inj c c' l : changes_ok c -> changes_ok c' -> named_changes c = Some l -> named_changes c' = Some l -> c = c'.
Proof.
  assert (forall c c' t k v, changes_ok c -> named_changes c = Some l -> named_changes c' = Some l ->
    c !! (t, k) = Some v -> c' !! (t, k) = Some v) as Hd.
  { intros d d' t k v Hc E E' Hl. destruct (table_name_ok t) as [n En]; [by eapply Hc|].
    assert ((ascii_bytes n, k, v) ∈ l) as Hx by (apply (elem_of_named d l); [done|by exists t, n]).
    apply (elem_of_named d' l) in Hx as (t' & n' & En' & Eb & Hx); [|done]. by rewrite (table_bytes_inj _ _ _ _ En En' Eb). }
  intros Hc Hc' E E'. apply map_eq. intros [t k]. destruct (c !! (t, k)) as [v|] eqn:Ec.
  - symmetry. by apply (Hd c c').
  - destruct (c' !! (t, k)) as [v|] eqn:Ec'; [|done]. apply (Hd c' c) in Ec'; [congruence|done..].
Qed.

Lemma named_short tx l : TxOk tx -> named_changes (tx_changes tx) = Some l -> Forall short_row l.
Proof.
  intros Htx El. apply Forall_forall. intros [[nm k] v] Hx. apply (elem_of_named _ _ _ _ _ El) in Hx as (t & n & En & -> & Hc).
  destruct (to_entries _ Htx _ _ _ Hc) as [Hk Hv]. pose proof (table_name_Some _ _ En) as Ht%table_ok_names.
  pose proof (proj1 (Forall_forall _ _) table_bytes_short _ Ht) as Hn. cbn beta in Hn. rewrite En in Hn. split_and!; cbn [fst snd]; [lia..|].
  intros b ->. specialize (Hv b eq_refl). unfold MAX_BYTES_VALUE in Hv. lia.
Qed.

(** The bytes a batch is hashed from. *)
Definition batch_encoding (changes : Changes) : list u8 :=
  DATABASE_BATCH_TAG ++ flat_map row_bytes (default [] (named_changes changes)).

Lemma change_id_hash changes : changes_ok changes -> change_id changes = Some (hemera_hash (batch_encoding changes)).
Proof.
  intros Hc. destruct (named_some changes Hc) as [l El]. unfold change_id, batch_encoding, named_changes. rewrite El. cbn.
  by rewrite hasher_digest_concat, <- batch_bytes.
Qed.

Lemma batch_encoding_inj tx tx' : TxOk tx -> TxOk tx' ->
  batch_encoding (tx_changes tx) = batch_encoding (tx_changes tx') -> tx_changes tx = tx_changes tx'.
Proof.
  intros Htx Htx' E. unfold batch_encoding in E. apply app_inv_head in E.
  assert (forall tx, TxOk tx -> exists l, named_changes (tx_changes tx) = Some l) as Hs.
  { intros t Ht. unfold named_changes. destruct (named_some _ (to_tables _ Ht)) as [l ->]. by eexists. }
  destruct (Hs tx Htx) as [l El], (Hs tx' Htx') as [l' El']. rewrite El, El' in E. cbn in E.
  apply batch_bytes_inj in E as ->; [|by apply (named_short tx)|by apply (named_short tx')]. apply (named_inj _ _ l'); [by apply to_tables..|done|done].
Qed.

End ChangeIdFacts.

(** ** What the owner promises *)

Section DatabaseMain.
  Context `{Nebu, Hemera, Hasher, !HasherLaws, Fjall, Redb, !FjallLaws, !RedbLaws}.

(** C29: a transaction is all or nothing. Whatever calls its body makes, a transaction on a sound
    owner does not panic. If it commits with an identity, every table holds what the transaction
    saw, and the markers hold the identity, the batch staying within the key and byte limits. If it
    commits without one, nothing was staged and nothing changed. If it fails, the rows are the old
    ones and the owner goes on, or the engine could not tell whether it committed: the error then
    names the batch, the rows are the old or the new ones, and the owner answers that error to
    every later transaction without running it. *)
Theorem transaction_atomic {T E} (from : StorageError -> E) (body : SM E Transaction T) db :
  DbOk db -> db_failure db = None -> tx_body body ->
  exists rb tx r db', body (tx_new (db_engine db)) = Some (rb, tx) /\ db_transaction from body db = (Some r, db') /\ DbOk db'
    /\ match r with
       | Ok (mkCommit value None) => rb = Ok value /\ tx_changes tx = ∅ /\ db' = db
       | Ok (mkCommit value (Some id)) => rb = Ok value /\ db_failure db' = None
           /\ Z.of_nat (size (with_markers (tx_changes tx) id)) <= MAX_TRANSACTION_KEYS
           /\ staged_bytes (with_markers (tx_changes tx) id) <= MAX_TRANSACTION_BYTES
           /\ forall t k, table_ok t = true -> engine_rows (db_engine db') t !! k =
                if decide ((t, k) = last_transaction_key) then Some (blist id)
                else if decide ((t, k) = last_commit_key /\ touches_shards (tx_changes tx) = true) then Some (blist id)
                else tx_row tx t k
       | Err e => (rb = Err e /\ db' = db)
           \/ (db_failure db' = None /\ same_rows (db_engine db) (db_engine db'))
           \/ exists id message, e = from (CommitUnknown id message) /\ change_id (tx_changes tx) = Some id
                /\ (applied (with_markers (tx_changes tx) id) (db_engine db) (db_engine db') \/ same_rows (db_engine db) (db_engine db'))
                /\ db_is_poisoned db' = true
                /\ forall T' (body' : SM E Transaction T'), db_transaction from body' db' = (Some (Err e), db')
       end.
Proof.
  intros Hdb Hf Hb. destruct (db_transaction_ok from body db Hdb Hf Hb) as (rb & tx & r & db' & Eb & Htx & He & E' & Hdb' & Hr).
  exists rb, tx, r, db'. split_and!; [done..|]. destruct rb as [value|e]; [|by destruct Hr as [-> ->]; left].
  destruct Hr as [|id ? ? ? ? ? Happ|error|id message]; [done|..].
  - destruct (with_markers_limits tx id Htx). split_and!; [done..|]. intros t k Ht. rewrite Happ by done. unfold changed at 1.
    rewrite with_markers_lookup. case_decide; [done|]. case_decide; [done|]. unfold tx_row. by rewrite He.
  - right. by left.
  - right. right. exists id, message. split_and!; [done..|]. intros T' body'. apply db_transaction_failed; [apply Hdb'|done].
Qed.

(** A transaction reads its own writes over the committed rows. A staged change is seen by every
    later read of its key and no other; a refused one leaves the transaction. A read answers that
    view within its budget, and a scan of an untouched table the next rows with the prefix past the
    cursor, as many as its limits allow; a scan of a table with staged changes is refused. *)
Theorem transaction_reads tx t k v :
  TxOk tx -> table_ok t = true ->
  exists r tx', tx_stage t k v tx = Some (r, tx') /\ TxOk tx'
    /\ (forall t' k', tx_row tx' t' k' = match r with
         | Ok _ => if decide ((t', k') = (t, k)) then v else tx_row tx t' k'
         | Err _ => tx_row tx t' k'
         end)
    /\ (forall t' k' max, table_ok t' = true -> exists a, tx_get tx' t' k' max = Some a
          /\ forall w, a = Ok w -> w = tx_row tx' t' k' /\ forall b, w = Some b -> zlen b <= max)
    /\ (forall t' after prefix limits, table_ok t' = true -> exists a, tx_scan tx' t' after prefix limits = Some a
          /\ forall page, a = Ok page -> RawPage (table_scan (engine_rows (tx_engine tx') t') after prefix) limits page
               /\ forall k', tx_row tx' t' k' = engine_rows (tx_engine tx') t' !! k').
Proof.
  intros Htx Ht. destruct (tx_stage_ok tx t k v Htx Ht) as (r & tx' & E & Htx' & He & Hr). exists r, tx'. split_and!; [done..| | |].
  - intros t' k'. unfold tx_row. rewrite He. destruct r as [[]|e].
    + rewrite Hr. unfold changed. destruct (decide ((t', k') = (t, k))) as [[= -> ->]|Hne].
      * by rewrite lookup_insert_eq.
      * by rewrite lookup_insert_ne by congruence.
    + by rewrite Hr.
  - intros t' k' max Ht'. destruct (tx_get_ok tx' t' k' max Htx' Ht') as (a & Ea & Ha). exists a. split; [done|].
    intros w Ew. destruct (Ha w Ew) as (? & _ & ?). done.
  - intros t' after prefix limits Ht'. destruct (tx_scan_ok tx' t' after prefix limits Htx' Ht') as (a & Ea & Ha). exists a. split; [done|].
    intros page Ep. destruct (Ha page Ep) as [Hp Hc]. split; [done|]. intros k'. unfold tx_row, changed. by rewrite Hc.
Qed.

(** The identity of a batch binds its changes. Transactions with one identity staged the same
    changes, unless their encodings, which then differ, collide under the hash. *)
Theorem batch_id_binds tx tx' :
  TxOk tx -> TxOk tx' -> change_id (tx_changes tx) = change_id (tx_changes tx') ->
  tx_changes tx = tx_changes tx'
  \/ (batch_encoding (tx_changes tx) <> batch_encoding (tx_changes tx')
      /\ hemera_hash (batch_encoding (tx_changes tx)) = hemera_hash (batch_encoding (tx_changes tx'))).
Proof.
  intros Htx Htx' E. rewrite !change_id_hash in E by by apply to_tables. injection E as E.
  destruct (decide (batch_encoding (tx_changes tx) = batch_encoding (tx_changes tx'))) as [Ee|Hne]; [left|by right].
  by apply batch_encoding_inj.
Qed.

(** The generation the committed status records. *)
Definition recorded (db : Database) : StorageResult ReaderGeneration :=
  generation_decode (engine_rows (db_engine db) Migration !! STATUS).

Lemma promote_body required : tx_body (promote required).
Proof.
  apply body_bind; [by apply body_get|]. intros status. apply body_bind; [apply body_lift|]. intros current.
  destruct (_ <=? _); [apply body_ret|]. destruct required; [apply body_ret|..]; (apply body_bind; [by apply body_stage|intros; apply body_ret]).
Qed.

Definition generation_max (a b : ReaderGeneration) : ReaderGeneration :=
  if generation_index a <=? generation_index b then b else a.

(** What promotion stages. *)
Lemma promote_ok required tx :
  TxOk tx ->
  exists r tx', promote required tx = Some (r, tx') /\ forall g, r = Ok g -> exists current,
    generation_decode (tx_row tx Migration STATUS) = Ok current /\ g = generation_max required current
    /\ generation_decode (tx_row tx' Migration STATUS) = Ok g
    /\ (forall t k, (t, k) <> (Migration, STATUS) -> tx_row tx' t k = tx_row tx t k).
Proof.
  intros Htx. unfold promote. rewrite sm_bind_eq. unfold tx_view.
  destruct (tx_get_ok tx Migration STATUS 16 Htx eq_refl) as (r & E & Hr). rewrite E. cbn [mbind option_bind].
  destruct r as [status|e]; [|by eexists (Err e), tx]. destruct (Hr status eq_refl) as [-> _]. rewrite sm_bind_eq. cbn [sm_lift].
  destruct (generation_decode (tx_row tx Migration STATUS)) as [current|e] eqn:Ed; [|by eexists (Err e), tx].
  unfold generation_max. destruct (_ <=? _) eqn:El; [eexists (Ok current), tx; split; [done|]; intros g [= <-]; exists current; by rewrite El|].
  assert (forall b g, generation_decode (Some b) = Ok g -> exists r tx', (_ ← tx_put Migration STATUS b; mret g) tx = Some (r, tx')
    /\ forall g', r = Ok g' -> g' = g /\ generation_decode (tx_row tx' Migration STATUS) = Ok g
         /\ (forall t k, (t, k) <> (Migration, STATUS) -> tx_row tx' t k = tx_row tx t k)) as Hp.
  { intros b g Hg. unfold tx_put. destruct (tx_stage_ok tx Migration STATUS (Some b) Htx eq_refl) as (r & tx' & Es & _ & He & Hs).
    rewrite sm_bind_eq, Es. destruct r as [[]|e]; [|by exists (Err e), tx']. exists (Ok g), tx'. split; [done|]. intros g' [= <-].
    unfold tx_row, changed. rewrite Hs, He. split_and!; [done|by rewrite lookup_insert_eq|].
    intros t k Ha. by rewrite lookup_insert_ne by congruence. }
  destruct required; [by destruct current|..].
  - destruct (Hp (ascii_bytes "neuron-v1") NeuronV1 eq_refl) as (r & tx' & -> & Hr'). exists r, tx'. split; [done|].
    intros g Eg. destruct (Hr' g Eg) as (-> & ? & ?). exists current. by rewrite El.
  - destruct (Hp (ascii_bytes "auth-v1") AuthenticatedV1 eq_refl) as (r & tx' & -> & Hr'). exists r, tx'. split; [done|].
    intros g Eg. destruct (Hr' g Eg) as (-> & ? & ?). exists current. by rewrite El.
Qed.

(** Reader generations only grow. Requiring a generation answers the greater of it and the
    recorded one, which is then recorded; whatever fails, the recorded generation is the old one or
    that greater one. An unknown status is refused and kept. *)
Theorem generation_monotone required db :
  DbOk db -> db_failure db = None ->
  exists r db', require_reader_generation required db = (Some r, db') /\ DbOk db'
    /\ match recorded db with
       | Ok c => (recorded db' = Ok c \/ recorded db' = Ok (generation_max required c))
           /\ forall g, r = Ok g -> g = generation_max required c /\ recorded db' = Ok g
       | Err _ => recorded db' = recorded db /\ forall g, r <> Ok g
       end.
Proof.
  intros Hdb Hf. pose proof (tx_new_ok _ (proj1 Hdb)) as Hnew.
  destruct (db_transaction_ok Datatypes.id (promote required) db Hdb Hf (promote_body required)) as (rb & tx & r & db' & Eb & Htx & He & E' & Hdb' & Hr).
  unfold require_reader_generation. rewrite E'. eexists _, db'. split_and!; [done..|].
  destruct (promote_ok required _ Hnew) as (rb' & tx' & Eb' & Hg). rewrite Eb in Eb'. injection Eb' as <- <-.
  change (generation_decode (tx_row (tx_new (db_engine db)) Migration STATUS)) with (recorded db) in Hg.
  destruct rb as [g|e]; [|destruct Hr as [-> ->]; destruct (recorded db); (split; [by auto|intros g; cbn; discriminate])].
  destruct (Hg g eq_refl) as (c & Ec & -> & Hrow & Honly). rewrite Ec.
  assert (forall d, same_rows (db_engine db) (db_engine d) -> recorded d = Ok c) as Hsame.
  { intros d Hs. unfold recorded. rewrite Hs by done. exact Ec. }
  assert (forall id d, applied (with_markers (tx_changes tx) id) (db_engine db) (db_engine d) -> recorded d = Ok (generation_max required c)) as Happ.
  { intros id d Hs. unfold recorded. rewrite Hs by done. unfold changed. rewrite with_markers_lookup.
    rewrite decide_False by (intros [=]). rewrite decide_False by (intros [[=] _]). rewrite <- Hrow. unfold tx_row, changed. by rewrite He. }
  destruct Hr as [Hc|id|error|id message ? ? ? ? ? [?|?]]; (split; [eauto|]); try (intros g; cbn; discriminate).
  - intros g [= <-]. split; [done|]. rewrite <- Hrow. unfold tx_row, changed. rewrite Hc, lookup_empty, He. done.
  - intros g [= <-]. split; [done|]. by eapply Happ.
Qed.
End DatabaseMain.

(** ** Application locks *)

Section Coordination.
  Context `{Nebu, Hasher, Fjall, Redb}.

(** Every registered lock is one that was handed out, for one namespace. *)
Record LocksOk (db : Database) : Prop := {
  lo_old : forall ns l, db_locks db !! ns = Some l -> (l < db_next_lock db)%nat;
  lo_one : forall ns ns' l, db_locks db !! ns = Some l -> db_locks db !! ns' = Some l -> ns = ns';
  lo_count : (size (db_locks db) <= 64)%nat;
}.

(** Application locks exclude each other. While some adapter holds the lock of a namespace,
    every other request for the namespace answers that lock, and requests for other namespaces
    other locks; no held lock is forgotten. A request is refused only for a namespace without a
    held lock when 64 others have one. *)
Theorem coordination_exclusive ns live db :
  LocksOk db ->
  let '(r, db') := coordination_lock ns live db in
  LocksOk db'
  /\ (forall ns' l, live l = true -> db_locks db !! ns' = Some l -> db_locks db' !! ns' = Some l)
  /\ match r with
     | Ok l => db_locks db' !! ns = Some l
         /\ forall ns' l', live l' = true -> db_locks db !! ns' = Some l' -> l' = l <-> ns' = ns
     | Err _ => size (filter (fun e => live e.2 = true) (db_locks db)) = 64%nat
         /\ forall l, live l = true -> db_locks db !! ns <> Some l
     end.
Proof.
  intros [Ho H1' Hc]. unfold coordination_lock. set (locks := filter _ (db_locks db)).
  assert (forall n l, locks !! n = Some l <-> db_locks db !! n = Some l /\ live l = true) as Hl by (intros n l; apply map_lookup_filter_Some).
  assert ((size locks <= 64)%nat) as Hs.
  { etrans; [|exact Hc]. apply map_subseteq_size, map_filter_subseteq. }
  destruct (locks !! ns) as [l|] eqn:E; [|destruct (Nat.leb_spec 64 (size locks))].
  - split_and!; [split; cbn|cbn|cbn|].
    + intros n k [Hk _]%Hl. by eapply Ho.
    + intros n n' k [Hk _]%Hl [Hk' _]%Hl. by eapply H1'.
    + done.
    + intros n k Hk Hn. by apply Hl.
    + done.
    + apply Hl in E as [E Hlive]. intros n k Hk Hn. split; [intros ->; by eapply H1'|intros ->; congruence].
  - split_and!; [split; cbn|cbn|lia|].
    + intros n k [Hk _]%Hl. by eapply Ho.
    + intros n n' k [Hk _]%Hl [Hk' _]%Hl. by eapply H1'.
    + done.
    + intros n k Hk Hn. by apply Hl.
    + intros k Hk Hn. assert (locks !! ns = Some k) by (by apply Hl). congruence.
  - assert (forall n k, locks !! n = Some k -> (k < db_next_lock db)%nat) as Hold by (intros n k [Hk _]%Hl; by eapply Ho).
    split_and!; [split; cbn|cbn|cbn|].
    + intros n k. destruct (decide (n = ns)) as [->|]; [rewrite lookup_insert_eq; intros [= <-]; lia|].
      rewrite lookup_insert_ne by done. intros Hk%Hold. lia.
    + intros n n' k. destruct (decide (n = ns)) as [->|], (decide (n' = ns)) as [->|]; rewrite ?lookup_insert_eq, ?lookup_insert_ne by done.
      * done.
      * intros [= <-] Hk%Hold. lia.
      * intros Hk%Hold [= <-]. lia.
      * intros [Hk _]%Hl [Hk' _]%Hl. by eapply H1'.
    + rewrite map_size_insert_None by done. lia.
    + intros n k Hk Hn. assert (locks !! n = Some k) by (by apply Hl). rewrite lookup_insert_ne; [done|congruence].
    + apply lookup_insert_eq.
    + intros n k Hk Hn. assert (locks !! n = Some k) as Hn' by (by apply Hl). split; [intros ->; apply Hold in Hn'; lia|congruence].
Qed.

End Coordination.

(** ** Witnesses *)

Import Toy ToyEngines.

#[export] Instance hasher : Hasher := {| hasher_digest l := hemera_hash (concat l) |}.
#[export] Instance hasher_laws : HasherLaws.
Proof. split. done. Qed.

Definition sample_db : Database := from_engine (ERedb (∅ : gmap string Engine.Rows)).

Lemma sample_db_ok : DbOk sample_db.
Proof. by split. Qed.

(** A transaction that writes a row and a record, and reads one back. *)
Definition sample_body : SM StorageError Transaction (option (list u8)) :=
  _ ← tx_put_shard (of_Z 8 2) (id32 1) [of_Z 64 7];
  _ ← tx_put_record NativeMetadata (ascii_bytes "head") [of_Z 8 1];
  tx_view (fun tx => tx_read_record tx NativeMetadata (ascii_bytes "head") 8).

Lemma sample_body_ok : tx_body sample_body.
Proof.
  apply body_bind; [apply body_put_shard|]. intros _. apply body_bind; [by apply body_stage|]. intros _. by apply body_get.
Qed.

Lemma transaction_atomic_witness : exists r db', db_transaction Datatypes.id sample_body sample_db = (Some r, db') /\ DbOk db'.
Proof.
  destruct (transaction_atomic Datatypes.id sample_body sample_db sample_db_ok eq_refl sample_body_ok) as (rb & tx & r & db' & _ & E & Hdb & _).
  exists r, db'. exact (conj E Hdb).
Defined.

Lemma transaction_reads_witness :
  exists r tx', tx_stage Metadata (ascii_bytes "a") (Some []) (tx_new (db_engine sample_db)) = Some (r, tx') /\ TxOk tx'.
Proof.
  destruct (transaction_reads (tx_new (db_engine sample_db)) Metadata (ascii_bytes "a") (Some []) (tx_new_ok _ (proj1 sample_db_ok)) eq_refl)
    as (r & tx' & E & Htx & _). exists r, tx'. exact (conj E Htx).
Defined.

Lemma batch_id_binds_witness :
  exists tx, tx_stage Metadata (ascii_bytes "a") (Some []) (tx_new (db_engine sample_db)) = Some (Ok tt, tx) /\ TxOk tx
    /\ (tx_changes tx = tx_changes tx
        \/ (batch_encoding (tx_changes tx) <> batch_encoding (tx_changes tx)
            /\ hemera_hash (batch_encoding (tx_changes tx)) = hemera_hash (batch_encoding (tx_changes tx)))).
Proof.
  destruct (tx_stage_ok (tx_new (db_engine sample_db)) Metadata (ascii_bytes "a") (Some []) (tx_new_ok _ (proj1 sample_db_ok)) eq_refl)
    as (r & tx & E & Htx & _ & Hr).
  assert (r = Ok tt) as ->.
  { assert (option_map (fun x => match x.1 with Ok _ => true | Err _ => false end)
      (tx_stage Metadata (ascii_bytes "a") (Some []) (tx_new (db_engine sample_db))) = Some true) as Eb by (vm_compute; reflexivity).
    rewrite E in Eb. cbn in Eb. destruct r as [[]|]; [reflexivity|discriminate]. }
  exists tx. exact (conj E (conj Htx (batch_id_binds tx tx Htx Htx eq_refl))).
Defined.

Lemma generation_monotone_witness : exists r db', require_reader_generation NeuronV1 sample_db = (Some r, db') /\ DbOk db'.
Proof.
  destruct (generation_monotone NeuronV1 sample_db sample_db_ok eq_refl) as (r & db' & E & Hdb & _). exists r, db'. exact (conj E Hdb).
Defined.

Lemma coordination_exclusive_witness :
  LocksOk sample_db /\ LocksOk (coordination_lock (id32 1) (fun _ => true) sample_db).2.
Proof.
  assert (LocksOk sample_db) as Hl by (split; cbn; [by intros ns l; rewrite lookup_empty|by intros ns ns' l; rewrite lookup_empty|rewrite map_size_empty; lia]).
  split; [done|]. pose proof (coordination_exclusive (id32 1) (fun _ => true) sample_db Hl) as Hc.
  destruct (coordination_lock _ _ _) as [r db']. apply Hc.
Defined.
