(* ===== verification/Application.v ===== *)
(** * The application journal (rs/src/storage/application.rs)

    A namespace's history over the transaction owner: a request appends one commit, a repeated
    request answers its receipt, a fenced namespace takes no more. With the marks a transfer leaves
    in the owner it copies into (application/transfer.rs: the keys, [Cursor], [require_complete]).
    [None] is a panic. *)

From S2P Require Import Prelude.
From S2P Require Import Crypto.
From S2P Require Import Access.
From S2P Require Import Shard.
From S2P Require Import Engine.
From S2P Require Import Database.

Local Open Scope Z_scope.

Abbreviation Particle := (bytes 32).

(** ** Errors *)

Module Error.
Inductive AppError :=
| Storage (s : string) | CommitUnknown (s : string) | Conflict | HeadMismatch | Fenced | InvalidSequence | Limit | Corrupt.

#[export] Instance eq_dec : EqDecision AppError.
Proof. solve_decision. Defined.
End Error.

Abbreviation AppResult := (result Error.AppError).

(** [From<StorageError>]. *)
Definition from_storage (error : StorageError) : Error.AppError :=
  match error with
  | CommitUnknown _ message => Error.CommitUnknown message
  | Limit _ => Error.Limit
  | Corrupt _ => Error.Corrupt
  | error => Error.Storage (storage_error_fmt error)
  end.

(** ** Heads, requests and keys *)

Record Head := mkHead { head_index : u64; head_commit : Particle }.

#[export] Instance head_eq_dec : EqDecision Head.
Proof. solve_decision. Defined.

Record Write := mkWrite {
  w_namespace : Particle;
  w_request : Particle;
  w_fingerprint : Particle;
  w_expected : option Head;
  w_head : Head;
  w_content : list (Particle * list u8);
  w_claims : list (Particle * Particle);
}.

(** [data.try_into().map_err(|_| Error::Corrupt)?]. *)
Definition take_bytes (n : nat) (data : list u8) : AppResult (bytes n) := ok_or (try_into n data) Error.Corrupt.

Definition request_key (namespace request : Particle) : list u8 := blist namespace ++ blist request.
Definition history_key (namespace : Particle) (index : u64) : list u8 := blist namespace ++ to_be_bytes 8 index.
Definition fence_key (namespace : Particle) : list u8 := ascii_bytes "neuron-fence" ++ [of_Z 8 0] ++ blist namespace.

Definition encode_head (head : Head) : list u8 := blist (to_le_bytes 8 (head_index head)) ++ blist (head_commit head).

Definition decode_head (data : list u8) : AppResult Head :=
  if negb (zlen data =? 40) then Err Error.Corrupt
  else
    index ← take_bytes 8 (take 8 data);
    commit ← take_bytes 32 (drop 8 data);
    Ok (mkHead (from_le_bytes 64 (blist index)) commit).

Definition decode_request (data : list u8) : AppResult (Particle * Head) :=
  if negb (zlen data =? 72) then Err Error.Corrupt
  else
    fingerprint ← take_bytes 32 (take 32 data);
    head ← decode_head (drop 32 data);
    Ok (fingerprint, head).

(** The receipt [apply_checked] stores. *)
Definition encode_receipt (fingerprint : Particle) (head : Head) : list u8 := blist fingerprint ++ encode_head head.

(** ** The marks of a transfer (application/transfer.rs) *)

Definition stage_key (id : Particle) : list u8 := ascii_bytes "s" ++ blist id.
Definition cursor_key (id : Particle) : list u8 := ascii_bytes "t" ++ blist id.
Definition target_key (id : Particle) : list u8 := ascii_bytes "u" ++ blist id.

Record Cursor := mkCursor { cu_table : u8; cu_after : option (list u8); cu_rows : u64; cu_bytes : u64 }.

#[export] Instance cursor_eq_dec : EqDecision Cursor.
Proof. solve_decision. Defined.

Definition cursor_encode (c : Cursor) : list u8 :=
  [cu_table c; match cu_after c with None => of_Z 8 0 | Some a => of_Z 8 (zlen a) end]
  ++ blist (to_le_bytes 8 (cu_rows c)) ++ blist (to_le_bytes 8 (cu_bytes c)) ++ default [] (cu_after c).

Definition cursor_decode (b : list u8) : AppResult Cursor :=
  match b with
  | table :: len :: rest =>
      if (zlen b <? 18) || (5 <? uval table) || (64 <? uval len) || negb (zlen b =? 18 + uval len) then Err Error.Corrupt
      else
        rows ← take_bytes 8 (take 8 rest);
        total ← take_bytes 8 (take 8 (drop 8 rest));
        Ok (mkCursor table (if uval len =? 0 then None else Some (drop 16 rest)) (from_le_bytes 64 (blist rows)) (from_le_bytes 64 (blist total)))
  | _ => Err Error.Corrupt
  end.

(** ** Transactions of the journal *)

Section Application.
  Context `{Nebu, Hasher, Fjall, Redb}.

(** A closure answering [Result<_, Error>]; [?] converts the errors of the calls it makes. *)
Abbreviation AppTx := (SM Error.AppError Transaction).

Definition app {A} (m : SM StorageError Transaction A) : AppTx A :=
  fun tx => '(r, tx) ← m tx; Some (map_err from_storage r, tx).

Definition get (table : Table) (key : list u8) (max : Z) : AppTx (option (list u8)) :=
  app (tx_view (fun tx => tx_get tx table key max)).
Definition put (table : Table) (key value : list u8) : AppTx unit := app (tx_put table key value).

Definition immutable_put (table : Table) (key value : list u8) (max : Z) : AppTx unit :=
  previous ← get table key max;
  match previous with
  | Some previous => sm_require (bool_decide (previous = value)) Error.Conflict
  | None => put table key value
  end.

(** [tx.get(Table::Heads, ..)?.map(decode_head).transpose()?]. *)
Definition get_head (namespace : Particle) : AppTx (option Head) :=
  b ← get Heads (blist namespace) 40;
  sm_lift (transpose (decode_head <$> b)).

Definition require_complete (origin target : Particle) : AppTx unit :=
  staged ← get Migration (stage_key origin) 32;
  match staged with
  | None => mret tt
  | Some staged =>
      manifest ← sm_lift (take_bytes 32 staged);
      b ← get Migration (cursor_key manifest) 82;
      b ← sm_lift (ok_or b Error.Corrupt);
      cursor ← sm_lift (cursor_decode b);
      _ ← sm_require (uval (cu_table cursor) =? 5) Error.Fenced;
      t ← get Migration (target_key manifest) 32;
      sm_require (bool_decide (t = Some (blist target))) Error.Conflict
  end.

Definition validate_write (write : Write) : AppResult unit :=
  if (131072 <? zlen (w_content write)) || (4096 <? zlen (w_claims write)) then Err Error.Limit
  else
    total ← try_fold (fun n '(_, data) => if n + zlen data <? 2 ^ 64 then Ok (n + zlen data) else Err Error.Limit) 0 (w_content write);
    if 16 * 1024 * 1024 <? total then Err Error.Limit else Ok tt.

(** Whether a transfer out of, or into, this owner holds the namespace. *)
Definition transfer_fenced (namespace : Particle) : AppTx bool :=
  status ← get Migration STATUS 16;
  if bool_decide (status = Some (ascii_bytes "export-v1")) then mret true
  else staged ← get Migration (stage_key namespace) 32; mret (bool_decide (is_Some staged)).

(** The transaction of [apply_checked] for a request without a receipt: its guards, which answer the
    next index, and its writes. *)
Definition apply_guards (write : Write) : AppTx u64 :=
  fence ← get Migration (fence_key (w_namespace write)) 64;
  _ ← sm_require (bool_decide (fence = None)) Error.Fenced;
  fenced ← transfer_fenced (w_namespace write);
  _ ← sm_require (negb fenced) Error.Fenced;
  current ← get_head (w_namespace write);
  _ ← sm_require (bool_decide (current = w_expected write)) Error.HeadMismatch;
  next ← sm_lift (match current with
                  | Some head => ok_or (checked_add (head_index head) (of_Z 64 1)) Error.InvalidSequence
                  | None => Ok (of_Z 64 0)
                  end);
  _ ← sm_require (bool_decide (head_index (w_head write) = next)) Error.InvalidSequence;
  mret next.

Definition apply_writes (write : Write) (transition : AppTx unit) (next : u64) : AppTx Head :=
  _ ← sm_for (w_claims write) (fun '(key, value) => immutable_put Claims (blist key) (blist value) 32);
  _ ← sm_for (w_content write) (fun '(id, data) => immutable_put Content (blist id) data MAX_BYTES_VALUE);
  commit ← get Content (blist (head_commit (w_head write))) MAX_BYTES_VALUE;
  _ ← sm_require (bool_decide (is_Some commit)) Error.Corrupt;
  _ ← transition;
  _ ← put History (history_key (w_namespace write) next) (blist (head_commit (w_head write)));
  _ ← put Heads (blist (w_namespace write)) (encode_head (w_head write));
  _ ← put Requests (request_key (w_namespace write) (w_request write)) (encode_receipt (w_fingerprint write) (w_head write));
  mret (w_head write).

Definition apply_body (write : Write) (allow_retry : bool) (transition : AppTx unit) : AppTx Head :=
  prior ← get Requests (request_key (w_namespace write) (w_request write)) 72;
  match prior with
  | Some prior =>
      _ ← sm_require allow_retry Error.Conflict;
      '(fingerprint, head) ← sm_lift (decode_request prior);
      if bool_decide (fingerprint = w_fingerprint write) then mret head else sm_throw Error.Conflict
  | None => next ← apply_guards write; apply_writes write transition next
  end.

(** ** The store *)

(** The value of a committed transaction. *)
Definition transact {A} (body : AppTx A) (db : Database) : option (AppResult A) * Database :=
  let '(r, db) := db_transaction from_storage body db in
  (match r with Some r => Some (cm_value <$> r) | None => None end, db).

Definition apply_checked (write : Write) (allow_retry : bool) (transition : AppTx unit) (db : Database)
    : option (AppResult Head) * Database :=
  match validate_write write with
  | Err error => (Some (Err error), db)
  | Ok _ => transact (apply_body write allow_retry transition) db
  end.

Definition apply_with (write : Write) (transition : AppTx unit) : Database -> option (AppResult Head) * Database :=
  apply_checked write true transition.
Definition apply (write : Write) : Database -> option (AppResult Head) * Database := apply_with write (mret tt).
Definition apply_once (write : Write) : Database -> option (AppResult Head) * Database := apply_checked write false (mret tt).

(** [self.db.read(..)?.map(f).transpose()]. *)
Definition read_as {A} (f : list u8 -> AppResult A) (table : Table) (key : list u8) (max : Z) (db : Database)
    : option (AppResult (option A)) :=
  r ← db_read table key max db;
  Some (b ← map_err from_storage r; transpose (f <$> b)).

Definition head (namespace : Particle) : Database -> option (AppResult (option Head)) :=
  read_as decode_head Heads (blist namespace) 40.
Definition content (id : Particle) (max_bytes : Z) (db : Database) : option (AppResult (option (list u8))) :=
  r ← db_read Content (blist id) max_bytes db; Some (map_err from_storage r).
Definition resolve (namespace request : Particle) : Database -> option (AppResult (option (Particle * Head))) :=
  read_as decode_request Requests (request_key namespace request) 72.

(** A row of the history scan. *)
Definition history_row (namespace : Particle) (row : RawEntry) : AppResult Head :=
  let '(key, value) := row in
  if negb (zlen key =? 40) || negb (bool_decide (take 32 key = blist namespace)) then Err Error.Corrupt
  else
    index ← take_bytes 8 (drop 32 key);
    commit ← take_bytes 32 value;
    Ok (mkHead (from_be_bytes 64 (blist index)) commit).

Definition history (namespace : Particle) (after : option u64) (limit : usize) (db : Database) : option (AppResult (list Head)) :=
  if (uval limit =? 0) || (4096 <? uval limit) then Some (Err Error.Limit)
  else if bool_decide (after = Some (umax 64)) then Some (Ok [])
  else
    r ← db_scan History (history_key namespace <$> after) (blist namespace) (mkByteLimits limit (of_Z 64 (uval limit * 72))) db;
    Some (rows ← map_err from_storage r; mapM (history_row namespace) rows).

(** ** Fences *)

Record MigrationTarget := mkMigrationTarget { mt_namespace : Particle; mt_manifest : Particle }.
Record NamespaceMigration := mkNamespaceMigration { nm_manifest : Particle; nm_sources : list (Particle * Head) }.

Definition decode_target (data : list u8) : AppResult MigrationTarget :=
  if negb (zlen data =? 64) then Err Error.Corrupt
  else
    namespace ← take_bytes 32 (take 32 data);
    manifest ← take_bytes 32 (drop 32 data);
    Ok (mkMigrationTarget namespace manifest).

Definition migration_target (namespace : Particle) : Database -> option (AppResult (option MigrationTarget)) :=
  read_as decode_target Migration (fence_key namespace) 64.

(** [sources.windows(2).any(|w| w[0].0 >= w[1].0)]. *)
Fixpoint unsorted_sources (sources : list (Particle * Head)) : bool :=
  match sources with
  | a :: ((b :: _) as rest) => negb (ord_ltb a.1 b.1) || unsorted_sources rest
  | _ => false
  end.

(** One iteration of the loop of [apply_migration]. *)
Definition fence_source (target : Particle) (manifest : Particle) (source : Particle * Head) : AppTx unit :=
  let '(origin, expected) := source in
  _ ← require_complete origin target;
  current ← get_head origin;
  _ ← sm_require (bool_decide (current = Some expected)) Error.HeadMismatch;
  immutable_put Migration (fence_key origin) (blist target ++ blist manifest) 64.

Definition migration_transition (write : Write) (migration : NamespaceMigration) : AppTx unit :=
  _ ← sm_for (nm_sources migration) (fence_source (w_namespace write) (nm_manifest migration));
  _ ← app (promote NeuronV1);
  mret tt.

Definition apply_migration (write : Write) (migration : NamespaceMigration) (db : Database) : option (AppResult Head) * Database :=
  let sources := nm_sources migration in
  if bool_decide (sources = []) || (256 <? zlen sources) || unsorted_sources sources
     || existsb (fun '(id, _) => bool_decide (id = w_namespace write)) sources
  then (Some (Err Error.Limit), db)
  else apply_with write (migration_transition write migration) db.

End Application.
