(* ===== verification/Journal.v ===== *)
(** * The journal of an application store

    What application.rs promises: every namespace is a log of entries, a request appends one entry,
    and the rows of the five application tables represent those logs. The calls of a transaction are
    reasoned about through their effect on the rows it sees. *)

From S2P Require Import Prelude.
From S2P Require Import Crypto.
From S2P Require Import Access.
From S2P Require Import Shard.
From S2P Require Import Engine.
From S2P Require Import Database.
From S2P Require Import Application.

Local Open Scope Z_scope.

(** ** Encodings *)

Lemma take_bytes_ok n data b : take_bytes n data = Ok b <-> blist b = data.
Proof.
  unfold take_bytes. rewrite <- (try_into_Some n data b). destruct (try_into n data); cbn; split; congruence.
Qed.

Lemma take_bytes_blist {n} (b : bytes n) : take_bytes n (blist b) = Ok b.
Proof. by apply take_bytes_ok. Qed.

Lemma length_encode_head h : length (encode_head h) = 40%nat.
Proof. unfold encode_head. by rewrite length_app, !length_blist. Qed.

Lemma decode_encode_head h : decode_head (encode_head h) = Ok h.
Proof.
  unfold decode_head, zlen. rewrite length_encode_head. change (negb (Z.of_nat 40 =? 40)) with false. cbn match. unfold encode_head.
  rewrite take_app_length', drop_app_length' by by rewrite length_blist. rewrite !take_bytes_blist. cbn [mbind result_bind].
  rewrite from_to_le_bytes by done. by destruct h.
Qed.

Lemma decode_encode_receipt f h : decode_request (encode_receipt f h) = Ok (f, h).
Proof.
  unfold decode_request, encode_receipt, zlen. rewrite length_app, length_blist, length_encode_head.
  change (negb (Z.of_nat (32 + 40) =? 72)) with false. cbn match.
  rewrite take_app_length', drop_app_length' by by rewrite length_blist. rewrite take_bytes_blist. cbn [mbind result_bind].
  by rewrite decode_encode_head.
Qed.

Lemma decode_optional_head o : transpose (decode_head <$> (encode_head <$> o)) = Ok o.
Proof. destruct o; [cbn -[decode_head encode_head]; by rewrite decode_encode_head|done]. Qed.

#[export] Instance encode_head_inj : Inj (=) (=) encode_head.
Proof. intros a b E. pose proof (decode_encode_head a) as D. rewrite E, decode_encode_head in D. by injection D. Qed.

Lemma to_be_bytes_inj (a b : u64) : to_be_bytes 8 a = to_be_bytes 8 b -> a = b.
Proof. intros E. rewrite <- (from_to_be_bytes 8 64 a), <- (from_to_be_bytes 8 64 b) by done. by rewrite E. Qed.

Lemma request_key_inj n r n' r' : request_key n r = request_key n' r' -> n = n' /\ r = r'.
Proof. intros [-> E]%app_fields. split; [done|by apply bytes_eq]. Qed.

Lemma history_key_inj n i n' i' : history_key n i = history_key n' i' -> n = n' /\ i = i'.
Proof. intros [-> E]%app_fields. split; [done|by apply to_be_bytes_inj]. Qed.

(** The rows tables hold for a reader of the transaction, or of the owner; and the marks of
    transfers and fences, the rows of the migration table. *)
Abbreviation View := (Table -> list u8 -> option (list u8)).
Abbreviation Marks := (list u8 -> option (list u8)).

(** ** Calls of a transaction *)

Section Calls.
  Context `{Nebu, Hasher, Fjall, Redb, !FjallLaws, !RedbLaws}.

Definition committed (db : Database) : View := fun t k => engine_rows (db_engine db) t !! k.

Definition view_put (v : View) (t : Table) (k : list u8) (x : option (list u8)) : View :=
  fun t' k' => if decide ((t', k') = (t, k)) then x else v t' k'.

Lemma view_put_same v t k x : view_put v t k x t k = x.
Proof. unfold view_put. by rewrite decide_True. Qed.

Lemma view_put_ne v t k x t' k' : (t', k') <> (t, k) -> view_put v t k x t' k' = v t' k'.
Proof. intros Hne. unfold view_put. by rewrite decide_False. Qed.

(** The errors the calls below a closure answer. *)
Definition storage_error (e : Error.AppError) : Prop := exists error, e = from_storage error.

(** [calls m tx Q R]: from [tx] the closure does not panic and keeps a transaction in progress; an
    answer satisfies [Q] with the transaction it leaves, an error [R]. *)
Definition calls {A} (m : SM Error.AppError Transaction A) (tx : Transaction) (Q : A -> Transaction -> Prop) (R : Error.AppError -> Prop) : Prop :=
  exists r tx', m tx = Some (r, tx') /\ TxOk tx' /\ tx_engine tx' = tx_engine tx
    /\ match r with Ok x => Q x tx' | Err e => R e end.

Lemma calls_body {A} (m : SM Error.AppError Transaction A) : (forall tx, TxOk tx -> calls m tx (fun _ _ => True) (fun _ => True)) <-> tx_body m.
Proof.
  split; intros Hm tx Htx; destruct (Hm tx Htx) as (r & tx' & ? & ? & ?).
  - exists r, tx'. naive_solver.
  - exists r, tx'. destruct r; naive_solver.
Qed.

Lemma calls_weaken {A} (m : SM Error.AppError Transaction A) tx (Q Q' : A -> Transaction -> Prop) (R R' : Error.AppError -> Prop) :
  calls m tx Q' R' -> (forall x tx', Q' x tx' -> Q x tx') -> (forall e, R' e -> R e) -> calls m tx Q R.
Proof. intros (r & tx' & E & Ht & He & Hr) HQ HR. exists r, tx'. split_and!; [done..|]. destruct r; auto. Qed.

Lemma calls_ret {A} (x : A) tx (Q : A -> Transaction -> Prop) R : TxOk tx -> Q x tx -> calls (mret x) tx Q R.
Proof. intros Htx HQ. by exists (Ok x), tx. Qed.

Lemma calls_lift {A} (r : AppResult A) tx (Q : A -> Transaction -> Prop) (R : Error.AppError -> Prop) :
  TxOk tx -> (forall x, r = Ok x -> Q x tx) -> (forall e, r = Err e -> R e) -> calls (sm_lift r) tx Q R.
Proof. intros Htx HQ HR. exists r, tx. split_and!; [done..|]. destruct r; auto. Qed.

Lemma calls_throw {A} e tx (Q : A -> Transaction -> Prop) (R : Error.AppError -> Prop) : TxOk tx -> R e -> calls (sm_throw e) tx Q R.
Proof. intros Htx HR. by exists (Err e), tx. Qed.

Lemma calls_require b e tx (Q : unit -> Transaction -> Prop) (R : Error.AppError -> Prop) :
  TxOk tx -> (b = true -> Q tt tx) -> (b = false -> R e) -> calls (sm_require b e) tx Q R.
Proof. intros Htx HQ HR. destruct b; [by apply calls_ret; auto|by apply calls_throw; auto]. Qed.

Lemma calls_bind {A B} (m : SM Error.AppError Transaction A) (k : A -> SM Error.AppError Transaction B) tx Q R Q' :
  calls m tx Q' R -> (forall x tx', TxOk tx' -> Q' x tx' -> calls (k x) tx' Q R) -> calls (x ← m; k x) tx Q R.
Proof.
  intros (r & tx1 & E1 & Ht1 & He1 & Hr) Hk. unfold calls. rewrite sm_bind_eq, E1. destruct r as [x|e]; [|by exists (Err e), tx1].
  destruct (Hk x tx1 Ht1 Hr) as (r & tx2 & E2 & Ht2 & He2 & Hr2). exists r, tx2. rewrite E2. by rewrite He2.
Qed.

Lemma calls_get t k max tx (Q : option (list u8) -> Transaction -> Prop) (R : Error.AppError -> Prop) :
  TxOk tx -> table_ok t = true -> (forall e, storage_error e -> R e) -> Q (tx_row tx t k) tx -> calls (get t k max) tx Q R.
Proof.
  intros Htx Ht HR HQ. unfold calls, get, app, tx_view. destruct (tx_get_ok tx t k max Htx Ht) as (r & E & Hr). rewrite E. cbn.
  eexists _, tx. split_and!; [done..|]. destruct r as [v|e]; cbn; [|by apply HR; eexists]. by destruct (Hr v eq_refl) as [-> _].
Qed.

Lemma calls_put t k v tx (Q : unit -> Transaction -> Prop) (R : Error.AppError -> Prop) :
  TxOk tx -> table_ok t = true -> (forall e, storage_error e -> R e) ->
  (forall tx', TxOk tx' -> (forall t' k', tx_row tx' t' k' = view_put (tx_row tx) t k (Some v) t' k') -> Q tt tx') ->
  calls (put t k v) tx Q R.
Proof.
  intros Htx Ht HR HQ. unfold calls, put, app, tx_put. destruct (tx_stage_ok tx t k (Some v) Htx Ht) as (r & tx' & E & Htx' & He & Hr).
  rewrite E. cbn. eexists _, tx'. split_and!; [done..|]. destruct r as [[]|e]; cbn; [|by apply HR; eexists]. apply HQ; [done|].
  intros t' k'. unfold view_put, tx_row, changed. rewrite Hr, He. case_decide as Hd; [by rewrite Hd, lookup_insert_eq|].
  by rewrite lookup_insert_ne by congruence.
Qed.

(** The same, in front of the rest of the closure. *)
Lemma calls_bind_get {A} t key max (k : option (list u8) -> SM Error.AppError Transaction A) tx Q (R : Error.AppError -> Prop) :
  TxOk tx -> table_ok t = true -> (forall e, storage_error e -> R e) -> calls (k (tx_row tx t key)) tx Q R ->
  calls (x ← get t key max; k x) tx Q R.
Proof.
  intros Htx Ht HR Hk. eapply calls_bind; [by apply calls_get with (Q := fun x tx' => x = tx_row tx t key /\ tx' = tx)|]. by intros x tx' _ [-> ->].
Qed.

Lemma calls_bind_require {A} b e (k : SM Error.AppError Transaction A) tx Q (R : Error.AppError -> Prop) :
  TxOk tx -> (b = false -> R e) -> (b = true -> calls k tx Q R) -> calls (_ ← sm_require b e; k) tx Q R.
Proof.
  intros Htx HR Hk. eapply calls_bind; [by apply calls_require with (Q := fun _ tx' => tx' = tx /\ b = true)|]. intros [] tx' _ [-> Hb]. by apply Hk.
Qed.

Lemma calls_bind_lift {A B} (r : AppResult A) (k : A -> SM Error.AppError Transaction B) tx Q (R : Error.AppError -> Prop) :
  TxOk tx -> (forall e, r = Err e -> R e) -> (forall x, r = Ok x -> calls (k x) tx Q R) -> calls (x ← sm_lift r; k x) tx Q R.
Proof.
  intros Htx HR Hk. eapply calls_bind; [by apply calls_lift with (Q := fun x tx' => tx' = tx /\ r = Ok x)|]. intros x tx' _ [-> Hr]. by apply Hk.
Qed.

Lemma calls_bind_put {A} t key v (k : SM Error.AppError Transaction A) tx Q (R : Error.AppError -> Prop) :
  TxOk tx -> table_ok t = true -> (forall e, storage_error e -> R e) ->
  (forall tx', TxOk tx' -> (forall t' k', tx_row tx' t' k' = view_put (tx_row tx) t key (Some v) t' k') -> calls k tx' Q R) ->
  calls (_ ← put t key v; k) tx Q R.
Proof.
  intros Htx Ht HR Hk. eapply calls_bind.
  - by apply calls_put with (Q := fun _ tx' => forall t' k', tx_row tx' t' k' = view_put (tx_row tx) t key (Some v) t' k').
  - intros [] tx' Htx' Hv. exact (Hk tx' Htx' Hv).
Qed.

(** A loop keeps an invariant of the entries behind it. *)
Lemma calls_for {A} (f : A -> SM Error.AppError Transaction unit) (I : list A -> Transaction -> Prop) (R : Error.AppError -> Prop) l tx :
  TxOk tx -> I [] tx ->
  (forall before x after tx, l = before ++ x :: after -> TxOk tx -> I before tx ->
     calls (f x) tx (fun _ tx' => I (before ++ [x]) tx') R) ->
  calls (sm_for l f) tx (fun _ tx' => I l tx') R.
Proof.
  intros Htx HI Hf. assert (forall rest before tx, l = before ++ rest -> TxOk tx -> I before tx ->
    calls (sm_for rest f) tx (fun _ tx' => I l tx') R) as Hr; [|by apply (Hr l [])].
  clear tx Htx HI. induction rest as [|x rest IH]; intros before tx El Htx HI.
  { apply calls_ret; [done|]. by rewrite El, app_nil_r. }
  cbn [sm_for]. eapply calls_bind; [by eapply Hf|]. intros [] tx' Htx' HI'. apply (IH (before ++ [x])); [|done..].
  by rewrite <- app_assoc.
Qed.

(** Storing immutably: the row then holds the value, and no row of a table changed otherwise. *)
Lemma calls_immutable t k v max tx (Q : unit -> Transaction -> Prop) (R : Error.AppError -> Prop) :
  TxOk tx -> table_ok t = true -> (forall e, storage_error e -> R e) ->
  (forall w, tx_row tx t k = Some w -> w <> v -> R Error.Conflict) ->
  (forall tx', TxOk tx' -> (tx_row tx t k = None \/ tx_row tx t k = Some v) ->
     (forall t' k', tx_row tx' t' k' = view_put (tx_row tx) t k (Some v) t' k') -> Q tt tx') ->
  calls (immutable_put t k v max) tx Q R.
Proof.
  intros Htx Ht HR HC HQ. unfold immutable_put. apply calls_bind_get; [done..|]. destruct (tx_row tx t k) as [w|] eqn:Ew.
  - apply calls_require; [done| |].
    + intros ->%bool_decide_eq_true. apply HQ; [done|by right|]. intros t' k'. unfold view_put. case_decide as Hd; [|done]. by injection Hd as -> ->.
    + intros Hne%bool_decide_eq_false. by eapply HC.
  - apply calls_put; [done..|]. intros tx' Htx' Hv. apply HQ; [done|by left|done].
Qed.

End Calls.

(** ** Logs *)

Record Entry := mkEntry { e_request : Particle; e_fingerprint : Particle; e_commit : Particle }.

(** The log of every namespace, oldest entry first. *)
Abbreviation Logs := (Particle -> list Entry).

Definition entry_head (i : nat) (e : Entry) : Head := mkHead (of_Z 64 (Z.of_nat i)) (e_commit e).

(** The head of a log is that of its last entry. *)
Definition log_head (log : list Entry) : option Head := entry_head (pred (length log)) <$> last log.

(** The place of a request in a log. *)
Definition log_find (request : Particle) (log : list Entry) : option (nat * Entry) :=
  list_find (fun e => e_request e = request) log.

Definition log_receipt (request : Particle) (log : list Entry) : option (Particle * Head) :=
  (fun p => (e_fingerprint p.2, entry_head p.1 p.2)) <$> log_find request log.

Definition write_entry (w : Write) : Entry := mkEntry (w_request w) (w_fingerprint w) (head_commit (w_head w)).

Definition logs_apply (w : Write) (logs : Logs) : Logs :=
  fun ns => if decide (ns = w_namespace w) then logs ns ++ [write_entry w] else logs ns.

(** The rows of a view are those of the logs. *)
Record Represents (v : View) (logs : Logs) : Prop := {
  rep_heads ns : v Heads (blist ns) = encode_head <$> log_head (logs ns);
  rep_history ns i : v History (history_key ns i) = (fun e => blist (e_commit e)) <$> logs ns !! Z.to_nat (uval i);
  rep_history_keys k : is_Some (v History k) -> exists ns i, k = history_key ns i;
  rep_requests ns r : v Requests (request_key ns r) = (fun p => encode_receipt p.1 p.2) <$> log_receipt r (logs ns);
  rep_content ns e : e ∈ logs ns -> is_Some (v Content (blist (e_commit e)));
  rep_length ns : zlen (logs ns) <= 2 ^ 64;
  rep_once ns : NoDup (e_request <$> logs ns);
}.

(** Views that agree on the application tables. *)
Definition journal_table (t : Table) : bool :=
  match t with Content | Heads | History | Requests | Claims => true | _ => false end.

Definition journal_same (v v' : View) : Prop :=
  forall t k, journal_table t = true -> v' t k = v t k.

Lemma represents_same v v' logs : Represents v logs -> journal_same v v' -> Represents v' logs.
Proof.
  intros [Hh Hi Hk Hr Hc Hl Ho] Hs. split; [| | | | |done..]; intros; rewrite ?Hs by done; eauto.
  apply Hk. by rewrite <- Hs.
Qed.

(** Rows of a table are only added. *)
Definition grows (t : Table) (v v' : View) : Prop :=
  forall k x, v t k = Some x -> v' t k = Some x.

Lemma log_head_next log i c :
  log_head log = Some (mkHead i c) -> zlen log <= 2 ^ 64 -> uval i = zlen log - 1.
Proof.
  intros E Hl. unfold log_head in E. destruct (last log) as [e|] eqn:El; [|done]. injection E as <- _.
  assert (length log <> 0%nat) by (destruct log; done). unfold zlen in *. rewrite uval_of_Z_small; lia.
Qed.

Lemma log_head_None log : log_head log = None -> log = [].
Proof. unfold log_head. destruct (last log) eqn:E; [done|]. intros _. by apply last_None. Qed.

Lemma log_head_snoc log e : log_head (log ++ [e]) = Some (entry_head (length log) e).
Proof. unfold log_head. rewrite last_snoc, length_app. cbn. do 2 f_equal. lia. Qed.

Lemma log_find_snoc request log e :
  log_find request (log ++ [e]) = match log_find request log with
                                  | Some p => Some p
                                  | None => if decide (e_request e = request) then Some (length log, e) else None
                                  end.
Proof.
  unfold log_find. destruct (list_find _ log) as [[i x]|] eqn:E.
  - by apply list_find_app_l.
  - rewrite list_find_app_r by done. cbn. case_decide as Hd; cbn; done.
Qed.

Lemma log_find_None request log : log_find request log = None <-> request ∉ e_request <$> log.
Proof.
  unfold log_find. rewrite list_find_None, Forall_forall, list_elem_of_fmap. naive_solver.
Qed.

(** The index the next head of a log must have. *)
Definition next_index (log : list Entry) : option u64 :=
  match log_head log with Some h => checked_add (head_index h) (of_Z 64 1) | None => Some (of_Z 64 0) end.

Lemma next_index_length log next : zlen log <= 2 ^ 64 -> next_index log = Some next -> uval next = zlen log /\ zlen log < 2 ^ 64.
Proof.
  intros Hl. unfold next_index. destruct (log_head log) as [[i c]|] eqn:E.
  - cbn. pose proof (log_head_next _ _ _ E Hl). intros Hn%checked_add_Some.
    rewrite (uval_of_Z_small 64 1) in * by (simpl; lia). pose proof (uval_range next). lia.
  - apply log_head_None in E as ->. intros [= <-]. rewrite uval_of_Z_small by (simpl; lia). done.
Qed.

Lemma entry_head_write w log :
  zlen log <= 2 ^ 64 -> next_index log = Some (head_index (w_head w)) -> entry_head (length log) (write_entry w) = w_head w.
Proof.
  intros Hl Hn. destruct (next_index_length _ _ Hl Hn) as [Hu Hb]. unfold entry_head, write_entry. destruct (w_head w) as [i c].
  cbn in *. f_equal. apply uint_eq. by rewrite uval_of_Z_small by (unfold zlen in *; simpl; lia).
Qed.

(** Appending the entry of a write to its log is three rows. *)
Lemma represents_append v v' w logs next :
  Represents v logs -> next_index (logs (w_namespace w)) = Some next -> head_index (w_head w) = next ->
  log_find (w_request w) (logs (w_namespace w)) = None ->
  is_Some (v Content (blist (head_commit (w_head w)))) ->
  (forall t k, v' t k = view_put (view_put (view_put v History (history_key (w_namespace w) next) (Some (blist (head_commit (w_head w)))))
     Heads (blist (w_namespace w)) (Some (encode_head (w_head w))))
     Requests (request_key (w_namespace w) (w_request w)) (Some (encode_receipt (w_fingerprint w) (w_head w))) t k) ->
  Represents v' (logs_apply w logs).
Proof.
  intros [Hh Hi Hk Hr Hc Hl Ho] Hn Hx Hf Hcom Hv.
  destruct (next_index_length _ _ (Hl _) Hn) as [Hu Hb].
  assert (entry_head (length (logs (w_namespace w))) (write_entry w) = w_head w) as Hhead by (apply entry_head_write; [done|by rewrite Hx]).
  split; unfold logs_apply; intros.
  - rewrite Hv, view_put_ne by done. case_decide as Hd; [subst ns|].
    + by rewrite view_put_same, log_head_snoc, Hhead.
    + rewrite view_put_ne, view_put_ne by naive_solver. apply Hh.
  - rewrite Hv, view_put_ne, view_put_ne by done. destruct (decide (ns = w_namespace w /\ i = next)) as [[-> ->]|Hd].
    + rewrite view_put_same, decide_True, Hu by done. unfold zlen. rewrite Nat2Z.id, lookup_app_r, Nat.sub_diag by lia. done.
    + rewrite view_put_ne by (intros [= E]; apply Hd, history_key_inj; done). rewrite Hi. case_decide as Hns; [subst|done].
      f_equal. symmetry. assert (i <> head_index (w_head w)) as Hne by naive_solver.
      destruct (decide (Z.to_nat (uval i) < length (logs (w_namespace w)))%nat); [by apply lookup_app_l|].
      rewrite lookup_app_r by lia. rewrite (lookup_ge_None_2 (logs _)) by lia. apply lookup_ge_None_2. cbn.
      assert (uval i <> uval (head_index (w_head w))) by (intros E; by apply Hne, uint_eq). pose proof (uval_range i).
      unfold zlen in Hu. lia.
  - revert H. rewrite Hv, view_put_ne, view_put_ne by done. unfold view_put. case_decide as Hd; [injection Hd as ->; eauto|apply Hk].
  - rewrite Hv. destruct (decide (ns = w_namespace w /\ r = w_request w)) as [[-> ->]|Hd].
    + rewrite view_put_same, decide_True by done. unfold log_receipt. rewrite log_find_snoc, Hf, decide_True by done. cbn. by rewrite Hhead.
    + rewrite !view_put_ne by (intros [= E]; apply Hd, request_key_inj; done). rewrite Hr. case_decide; [|done]. subst.
      unfold log_receipt. rewrite log_find_snoc. destruct (log_find r _); [done|]. rewrite decide_False; [done|]. cbn. naive_solver.
  - rewrite Hv, !view_put_ne by done. revert H. case_decide; [|apply Hc]. intros [He| ->%list_elem_of_singleton]%elem_of_app; [by eapply Hc|done].
  - case_decide; [|apply Hl]. unfold zlen in *. subst. rewrite length_app. cbn. lia.
  - case_decide; [|apply Ho]. subst. rewrite fmap_app. apply NoDup_app. split_and!; [apply Ho| |apply NoDup_singleton].
    intros r Hr' ->%list_elem_of_singleton. by apply log_find_None in Hf.
Qed.

(** ** Applying a write *)

Section Apply.
  Context `{Nebu, Hasher, Fjall, Redb, !FjallLaws, !RedbLaws}.

(** What a loop of immutable stores leaves: each of its rows, and the rows there were. *)
Record Stored {X} (t : Table) (enc : X -> list u8) (l : list (Particle * X)) (v v' : View) : Prop := {
  st_rows k x : (k, x) ∈ l -> v' t (blist k) = Some (enc x);
  st_grows : grows t v v';
  st_from k y : v' t k = Some y -> v t k = Some y \/ exists id x, k = blist id /\ y = enc x /\ (id, x) ∈ l;
}.

(** Only one table changed. *)
Definition only (t : Table) (v v' : View) : Prop := forall t' k, t' <> t -> v' t' k = v t' k.

Lemma stored_nil {X} t (enc : X -> list u8) v : Stored t enc [] v v.
Proof. split; [by intros k x ?%not_elem_of_nil|by intros k x|by left]. Qed.

Lemma stored_snoc {X} t (enc : X -> list u8) l k x v v' v2 :
  Stored t enc l v v' -> (v' t (blist k) = None \/ v' t (blist k) = Some (enc x)) ->
  (forall t' k', v2 t' k' = view_put v' t (blist k) (Some (enc x)) t' k') -> Stored t enc (l ++ [(k, x)]) v v2.
Proof.
  intros [Hr Hg Hf] Hk Hv. split.
  - intros k' x' [Hin|[= -> ->]%list_elem_of_singleton]%elem_of_app; rewrite Hv; [|apply view_put_same].
    unfold view_put. case_decide as Hd; [|by apply Hr]. injection Hd as ->%bytes_eq.
    apply Hr in Hin. destruct Hk as [Hk|Hk]; rewrite Hin in Hk; [done|by injection Hk as ->].
  - intros k' y Hy%Hg. rewrite Hv. unfold view_put. case_decide as Hd; [|done]. injection Hd as ->. destruct Hk; congruence.
  - intros k' y. rewrite Hv. unfold view_put. case_decide as Hd.
    + injection Hd as ->. intros [= <-]. right. exists k, x. split_and!; [done..|]. apply elem_of_app. right. by left.
    + intros [?|(id & z & -> & -> & Hin)]%Hf; [by left|right; exists id, z]. split_and!; [done..|]. apply elem_of_app. by left.
Qed.

(** The stores of a write disagree with a row there is, or with each other. *)
Definition disagrees {X} (t : Table) (enc : X -> list u8) (l : list (Particle * X)) (v : View) : Prop :=
  exists k x y, (k, x) ∈ l /\ y <> enc x /\ (v t (blist k) = Some y \/ exists x', (k, x') ∈ l /\ y = enc x').

Lemma calls_immutable_all {X} t (enc : X -> list u8) max l tx (R : Error.AppError -> Prop) :
  TxOk tx -> table_ok t = true -> (forall e, storage_error e -> R e) -> (disagrees t enc l (tx_row tx) -> R Error.Conflict) ->
  calls (sm_for l (fun '(k, x) => immutable_put t (blist k) (enc x) max)) tx
    (fun _ tx' => Stored t enc l (tx_row tx) (tx_row tx') /\ only t (tx_row tx) (tx_row tx')) R.
Proof.
  intros Htx Ht HR HC. apply (calls_for _ (fun before tx' => Stored t enc before (tx_row tx) (tx_row tx') /\ only t (tx_row tx) (tx_row tx')));
    [done|split; [apply stored_nil|done]|].
  intros before [k x] after tx' El Htx' [HI Ho]. apply calls_immutable; [done..| |].
  - intros y Hy Hne. apply HC. exists k, x, y. split_and!; [subst; apply elem_of_app; right; by left|done|].
    destruct (st_from _ _ _ _ _ HI _ _ Hy) as [?|(id & z & ->%bytes_eq & -> & Hz)]; [by left|right].
    exists z. split; [subst; apply elem_of_app; by left|done].
  - intros tx2 Htx2 Hk Hv. split; [by eapply stored_snoc|]. intros t' k' Hne. rewrite Hv, view_put_ne by congruence. by apply Ho.
Qed.

(** *** The outcome of a write *)

(** What [transfer_fenced] looks for. *)
Definition transfer_marked (ns : Particle) (v : View) : Prop :=
  v Migration STATUS = Some (ascii_bytes "export-v1") \/ is_Some (v Migration (stage_key ns)).

Definition fenced (ns : Particle) (v : View) : Prop :=
  is_Some (v Migration (fence_key ns)) \/ transfer_marked ns v.

(** Why a request without a receipt is refused. [T] holds of the errors of the transition. *)
Inductive refused (w : Write) (logs : Logs) (v : View) (T : Error.AppError -> Prop) : Error.AppError -> Prop :=
| ref_storage e : storage_error e -> refused w logs v T e
| ref_fenced : fenced (w_namespace w) v -> refused w logs v T Error.Fenced
| ref_head : log_head (logs (w_namespace w)) <> w_expected w -> refused w logs v T Error.HeadMismatch
| ref_sequence : next_index (logs (w_namespace w)) <> Some (head_index (w_head w)) -> refused w logs v T Error.InvalidSequence
| ref_claims : disagrees Claims blist (w_claims w) v -> refused w logs v T Error.Conflict
| ref_content : disagrees Content id (w_content w) v -> refused w logs v T Error.Conflict
| ref_missing : v Content (blist (head_commit (w_head w))) = None -> head_commit (w_head w) ∉ (w_content w).*1 ->
    refused w logs v T Error.Corrupt
| ref_transition e : T e -> refused w logs v T e.

(** What a write that is applied finds and leaves. [P] tells what its transition does to the marks. *)
Record Applied (w : Write) (logs : Logs) (P : Marks -> Marks -> Prop) (v v' : View) : Prop := {
  ap_new : log_find (w_request w) (logs (w_namespace w)) = None;
  ap_open : ~ fenced (w_namespace w) v;
  ap_expected : log_head (logs (w_namespace w)) = w_expected w;
  ap_next : next_index (logs (w_namespace w)) = Some (head_index (w_head w));
  ap_logs : Represents v' (logs_apply w logs);
  ap_claims : Stored Claims blist (w_claims w) v v';
  ap_content : Stored Content id (w_content w) v v';
  ap_marks : P (v Migration) (v' Migration);
}.

(** A transition that leaves the rows of the logs alone, given a store of the logs; its errors
    satisfy [T] and its marks [P]. *)
Record transition_ok (logs : Logs) (T : Error.AppError -> Prop) (P : Marks -> Marks -> Prop) (m : SM Error.AppError Transaction unit) : Prop := {
  tr_body : tx_body m;
  tr_calls tx : TxOk tx -> Represents (tx_row tx) logs ->
    calls m tx (fun _ tx' => journal_same (tx_row tx) (tx_row tx') /\ P (tx_row tx Migration) (tx_row tx' Migration)) T;
  tr_proper : Proper (pointwise_relation _ eq ==> pointwise_relation _ eq ==> impl) P;
}.

Definition same_marks : Marks -> Marks -> Prop := fun f g => forall k, g k = f k.

Lemma no_transition_ok logs : transition_ok logs (fun _ => False) same_marks (mret tt).
Proof.
  split; [apply body_ret|intros tx Htx _; by apply calls_ret|]. intros f f' Hf g g' Hg Hfg k. rewrite <- (Hf k), <- (Hg k). apply Hfg.
Qed.

Lemma stored_same {X} t (enc : X -> list u8) l v1 v1' v2 v2' :
  Stored t enc l v1 v2 -> (forall k, v1' t k = v1 t k) -> (forall k, v2' t k = v2 t k) -> Stored t enc l v1' v2'.
Proof.
  intros [Hr Hg Hf] E1 E2. split.
  - intros k x. rewrite E2. apply Hr.
  - intros k x. rewrite E1, E2. apply Hg.
  - intros k y. rewrite E1, E2. apply Hf.
Qed.

(** Claims and contents leave the logs. *)
Lemma represents_stored {X} t (enc : X -> list u8) l v v' logs :
  t = Claims \/ t = Content -> Represents v logs -> Stored t enc l v v' -> only t v v' -> Represents v' logs.
Proof.
  intros Ht [Hh Hi Hk Hr Hc Hl Ho] Hs He.
  assert (forall t' k, t' = Heads \/ t' = History \/ t' = Requests -> v' t' k = v t' k) as Hsame.
  { intros t' k Ht'. apply He. destruct Ht as [-> | ->], Ht' as [->|[->| ->]]; done. }
  split; [| | | | |done..]; intros; rewrite ?Hsame by auto; eauto.
  - apply Hk. rewrite <- Hsame by auto. done.
  - destruct (Hc ns e) as [x Hx]; [done|]. destruct Ht as [-> | ->]; [rewrite He by done; by eexists|]. exists x. by apply Hs.
Qed.

Lemma calls_get_head {A} ns (k : option Head -> SM Error.AppError Transaction A) tx logs Q (R : Error.AppError -> Prop) :
  TxOk tx -> Represents (tx_row tx) logs -> (forall e, storage_error e -> R e) -> calls (k (log_head (logs ns))) tx Q R ->
  calls (h ← get_head ns; k h) tx Q R.
Proof.
  intros Htx Hrep HR Hk. eapply calls_bind with (Q' := fun x tx' => x = log_head (logs ns) /\ tx' = tx); [|by intros x tx' _ [-> ->]].
  unfold get_head. apply calls_bind_get; [done..|]. rewrite (rep_heads _ _ Hrep), decode_optional_head. apply calls_lift; [done|by intros ? [= <-]|done].
Qed.

Lemma calls_fence {A} ns (k : bool -> SM Error.AppError Transaction A) tx Q (R : Error.AppError -> Prop) :
  TxOk tx -> (forall e, storage_error e -> R e) -> (forall b, (b = true <-> transfer_marked ns (tx_row tx)) -> calls (k b) tx Q R) ->
  calls (b ← transfer_fenced ns; k b) tx Q R.
Proof.
  intros Htx HR Hk. eapply calls_bind with (Q' := fun b tx' => tx' = tx /\ (b = true <-> transfer_marked ns (tx_row tx)));
    [|intros b tx' _ [-> Hb]; by apply Hk].
  unfold transfer_fenced, transfer_marked. apply calls_bind_get; [done..|].
  case_bool_decide as Hs; [apply calls_ret; [done|]; split; [done|]; split; [by left|done]|]. apply calls_bind_get; [done..|].
  apply calls_ret; [done|]. split; [done|]. rewrite bool_decide_eq_true. split; [by right|by intros [?|?]].
Qed.

(** The guards pass on an open namespace whose head is the expected one, with the next index. *)
Lemma calls_guards w tx logs T :
  TxOk tx -> Represents (tx_row tx) logs ->
  calls (apply_guards w) tx (fun next tx' => tx' = tx /\ ~ fenced (w_namespace w) (tx_row tx)
    /\ log_head (logs (w_namespace w)) = w_expected w /\ next_index (logs (w_namespace w)) = Some next /\ head_index (w_head w) = next)
    (refused w logs (tx_row tx) T).
Proof.
  intros Htx Hrep. set (R := refused w logs (tx_row tx) T). assert (forall e, storage_error e -> R e) as HR by apply ref_storage.
  unfold apply_guards. apply calls_bind_get; [done..|]. apply calls_bind_require; [done| |].
  { intros Hn%bool_decide_eq_false. apply ref_fenced. left. by apply not_eq_None_Some. }
  intros Hfence%bool_decide_eq_true. apply calls_fence; [done..|]. intros b Hb. apply calls_bind_require; [done| |].
  { intros Hn%negb_false_iff. apply ref_fenced. right. by apply Hb. }
  intros Hn%negb_true_iff. apply (calls_get_head _ _ _ logs); [done..|]. apply calls_bind_require; [done| |].
  { intros ?%bool_decide_eq_false. by apply ref_head. }
  intros Hexp%bool_decide_eq_true.
  replace (match log_head (logs (w_namespace w)) with Some h => _ | None => _ end)
    with (ok_or (next_index (logs (w_namespace w))) Error.InvalidSequence) by by unfold next_index; destruct (log_head _).
  apply calls_bind_lift; [done| |].
  { intros e He. destruct (next_index _) eqn:En; [done|]. injection He as <-. apply ref_sequence. by rewrite En. }
  intros next Hx. destruct (next_index (logs (w_namespace w))) as [n|] eqn:En; [|done]. injection Hx as ->.
  apply calls_bind_require; [done| |].
  { intros ?%bool_decide_eq_false. apply ref_sequence. rewrite En. congruence. }
  intros Hi%bool_decide_eq_true. apply calls_ret; [done|]. split_and!; [done| |done..].
  intros [Hx|Hx]; [rewrite Hfence in Hx; by destruct Hx|]. apply Hb in Hx. congruence.
Qed.

(** The writes store the claims and contents and append the entry. *)
Lemma calls_writes w m tx logs T P next :
  TxOk tx -> Represents (tx_row tx) logs -> log_find (w_request w) (logs (w_namespace w)) = None -> transition_ok logs T P m ->
  next_index (logs (w_namespace w)) = Some next -> head_index (w_head w) = next ->
  calls (apply_writes w m next) tx (fun h tx' => h = w_head w /\ Represents (tx_row tx') (logs_apply w logs)
    /\ Stored Claims blist (w_claims w) (tx_row tx) (tx_row tx') /\ Stored Content id (w_content w) (tx_row tx) (tx_row tx')
    /\ P (tx_row tx Migration) (tx_row tx' Migration))
    (refused w logs (tx_row tx) T).
Proof.
  intros Htx Hrep Hf Hm Hnext Hidx. set (R := refused w logs (tx_row tx) T). assert (forall e, storage_error e -> R e) as HR by apply ref_storage.
  unfold apply_writes. eapply calls_bind; [by apply (calls_immutable_all Claims blist); [..|apply ref_claims]|]. cbn beta.
  intros [] tx1 Htx1 [Hs1 Ho1]. eapply calls_bind; [apply (calls_immutable_all Content id); [done..|]|].
  { intros (k & x & y & Hin & Hne & Hy). apply ref_content. exists k, x, y. split_and!; [done..|]. by rewrite <- Ho1. }
  cbn beta. intros [] tx2 Htx2 [Hs2 Ho2]. apply calls_bind_get; [done..|]. apply calls_bind_require; [done| |].
  { intros Hn%bool_decide_eq_false. apply eq_None_not_Some in Hn. apply ref_missing.
    - destruct (tx_row tx Content _) eqn:Ec; [|done]. rewrite <- Ho1 in Ec by done. by rewrite (st_grows _ _ _ _ _ Hs2 _ _ Ec) in Hn.
    - intros ([k x] & Ek & Hx)%list_elem_of_fmap. cbn in Ek. subst k. by rewrite (st_rows _ _ _ _ _ Hs2 _ _ Hx) in Hn. }
  intros Hc%bool_decide_eq_true. assert (Represents (tx_row tx2) logs) as Hrep2.
  { eapply represents_stored; [by right| |done..]. eapply represents_stored; [by left|done..]. }
  eapply calls_bind; [eapply calls_weaken; [by apply (tr_calls _ _ _ _ Hm)|intros x y Hxy; exact Hxy|apply ref_transition]|].
  intros [] tx3 Htx3 [Hs3 Hp3]. apply calls_bind_put; [done..|]. intros tx4 Htx4 Hv4. apply calls_bind_put; [done..|]. intros tx5 Htx5 Hv5.
  apply calls_bind_put; [done..|]. intros tx6 Htx6 Hv6. apply calls_ret; [done|].
  assert (forall t k, tx_row tx6 t k = view_put (view_put (view_put (tx_row tx3) History (history_key (w_namespace w) next) (Some (blist (head_commit (w_head w)))))
     Heads (blist (w_namespace w)) (Some (encode_head (w_head w))))
     Requests (request_key (w_namespace w) (w_request w)) (Some (encode_receipt (w_fingerprint w) (w_head w))) t k) as Hv.
  { intros t k. rewrite Hv6. unfold view_put. rewrite Hv5. unfold view_put. by rewrite Hv4. }
  assert (forall t k, t = Claims \/ t = Content -> tx_row tx6 t k = tx_row tx2 t k) as Hkeep.
  { intros t k Ht. rewrite Hv, !view_put_ne by (destruct Ht; congruence). apply Hs3. by destruct Ht as [-> | ->]. }
  split_and!; [done| | | |].
  - eapply represents_append; [by eapply represents_same|done..| |exact Hv]. by rewrite (Hs3 Content).
  - apply (stored_same _ _ _ _ _ _ _ Hs1); [done|]. intros k. rewrite Hkeep by auto. by apply Ho2.
  - apply (stored_same _ _ _ _ _ _ _ Hs2); intros k; [symmetry; by apply Ho1|]. apply Hkeep. auto.
  - eapply (tr_proper _ _ _ _ Hm); [| |exact Hp3]; intros k; [by rewrite Ho2, Ho1|]. symmetry. by rewrite Hv, !view_put_ne.
Qed.

(** The outcome of a request with a receipt: the recorded head for the same fingerprint. *)
Definition receipt_refused (w : Write) (retry : bool) (logs : Logs) : Prop :=
  exists f h, log_receipt (w_request w) (logs (w_namespace w)) = Some (f, h) /\ (retry = false \/ f <> w_fingerprint w).

Lemma log_receipt_None r log : log_receipt r log = None <-> log_find r log = None.
Proof. unfold log_receipt. by destruct (log_find r log). Qed.

Lemma calls_apply_body w retry m tx logs T P :
  TxOk tx -> Represents (tx_row tx) logs -> transition_ok logs T P m ->
  calls (apply_body w retry m) tx
    (fun h tx' => (tx' = tx /\ retry = true /\ log_receipt (w_request w) (logs (w_namespace w)) = Some (w_fingerprint w, h))
                  \/ (h = w_head w /\ Applied w logs P (tx_row tx) (tx_row tx')))
    (fun e => storage_error e \/ (e = Error.Conflict /\ receipt_refused w retry logs)
              \/ (log_find (w_request w) (logs (w_namespace w)) = None /\ refused w logs (tx_row tx) T e)).
Proof.
  intros Htx Hrep Hm. unfold apply_body. apply calls_bind_get; [done|done|by left|]. rewrite (rep_requests _ _ Hrep).
  destruct (log_receipt _ _) as [[f h]|] eqn:Er; cbn [fmap option_fmap option_map fst snd].
  - assert (retry = false \/ f <> w_fingerprint w -> receipt_refused w retry logs) as Hrf by (intros Hx; by exists f, h).
    apply calls_bind_require; [done|intros Hr; right; left; auto|]. intros Hr.
    rewrite decode_encode_receipt. apply calls_bind_lift; [done|done|]. intros ? [= <-]. case_bool_decide as Hd.
    + apply calls_ret; [done|]. left. by rewrite <- Hd.
    + apply calls_throw; [done|]. right. left. auto.
  - apply log_receipt_None in Er. eapply calls_bind.
    { eapply calls_weaken; [by apply (calls_guards w tx logs T)|intros x tx' Hx; exact Hx|by auto]. }
    intros next tx' _ (-> & Ho & He & Hn & Hi). eapply calls_weaken; [by apply (calls_writes w m tx logs T P next)| |by auto].
    intros h tx' (-> & Hl & Hc & Hs & Hp). right. split; [done|]. split; try done. congruence.
Qed.

(** *** Transactions of the owner *)

Lemma body_app {A} (m : SM StorageError Transaction A) : tx_body m -> tx_body (app m).
Proof. intros Hm tx Htx. destruct (Hm tx Htx) as (r & tx' & E & Ht & He). unfold app. rewrite E. by eexists _, tx'. Qed.

Lemma body_require b e : tx_body (sm_require (S := Transaction) (E := Error.AppError) b e).
Proof. intros tx Htx. destruct b; by eexists _, tx. Qed.

Lemma body_immutable t k v max : table_ok t = true -> tx_body (immutable_put t k v max).
Proof.
  intros Ht. apply body_bind; [by apply body_app, body_get|]. intros [p|]; [apply body_require|by apply body_app, body_stage].
Qed.

End Apply.

#[export] Hint Resolve body_app body_require body_immutable : tx.

(** Chains of calls. *)
Ltac tx_bodies :=
  repeat first
    [ apply body_ret | apply body_lift | apply body_require | by apply body_app, body_get | by apply body_app, body_stage
    | by apply body_immutable | assumption
    | apply body_bind; [|intros ?] | apply body_for; intros ? _ | case_match ].

Section Refinement.
  Context `{Nebu, Hasher, Fjall, Redb, !FjallLaws, !RedbLaws}.

Lemma apply_body_ok w retry m : tx_body m -> tx_body (apply_body w retry m).
Proof.
  intros Hm. unfold apply_body, apply_guards, apply_writes, transfer_fenced, get_head, get, put. tx_bodies.
Qed.

(** The committed rows are those a transaction saw, but for the markers. *)
Definition sees (tx : Transaction) (db : Database) : Prop :=
  forall t k, table_ok t = true -> t <> Metadata -> committed db t k = tx_row tx t k.

Lemma tx_new_view db t k : tx_row (tx_new (db_engine db)) t k = committed db t k.
Proof. done. Qed.

(** What a transaction of the journal comes to: its value, the rows its body saw, or no change; a
    lost commit may have either. *)
Lemma transact_ok {A} (m : SM Error.AppError Transaction A) db Q R :
  DbOk db -> db_failure db = None -> tx_body m -> calls m (tx_new (db_engine db)) Q R ->
  exists r db', transact m db = (Some r, db') /\ DbOk db'
    /\ match r with
       | Ok x => exists tx, Q x tx /\ sees tx db' /\ (tx_changes tx = ∅ -> db' = db)
       | Err e => (R e /\ db' = db) \/ (storage_error e /\ same_rows (db_engine db) (db_engine db'))
           \/ exists id message x tx, e = from_storage (CommitUnknown id message) /\ Q x tx /\ sees tx db'
       end.
Proof.
  intros Hdb Hf Hb (rb & tx & Eb & Htx & He & HQ).
  destruct (db_transaction_ok from_storage m db Hdb Hf Hb) as (rb' & tx' & r & db' & Eb' & _ & _ & E' & Hdb' & Hr).
  rewrite Eb in Eb'. injection Eb' as <- <-. unfold transact. rewrite E'. eexists _, db'. split_and!; [done..|].
  destruct rb as [x|e]; [|destruct Hr as [-> ->]; by left].
  assert (forall id d, applied (with_markers (tx_changes tx) id) (db_engine db) (db_engine d) -> sees tx d) as Hsees.
  { intros id d Happ t k Ht Hm. unfold committed. rewrite Happ by done. unfold changed. rewrite with_markers_lookup.
    rewrite !decide_False by (try intros [? _]; unfold last_transaction_key, last_commit_key in *; congruence). unfold tx_row, changed. by rewrite He. }
  destruct Hr as [Hc|id ? Hne ? ? ? Happ|error ? ? ? ? ? Hs|id message ? ? ? ? ? [Happ|Hs]]; cbn.
  - exists tx. split_and!; [done| |done]. intros t k _ _. unfold tx_row, changed. by rewrite Hc, lookup_empty, He.
  - exists tx. split_and!; [done|by eapply Hsees|done].
  - right. left. split; [by eexists|done].
  - right. right. exists id, message, x, tx. split_and!; [done..|by eapply Hsees].
  - right. left. split; [by exists (CommitUnknown id message)|done].
Qed.

Lemma sees_same tx db : sees tx db -> journal_same (tx_row tx) (committed db).
Proof. intros Hs t k Ht. apply Hs; by destruct t. Qed.

Lemma applied_sees w logs T P m v tx db :
  transition_ok logs T P m -> Applied w logs P v (tx_row tx) -> sees tx db -> Applied w logs P v (committed db).
Proof.
  intros Hm [Hf Ho He Hn Hl Hc Hs Hp] Hsee. pose proof (sees_same _ _ Hsee) as Hv. split; [done..| | | |].
  - by eapply represents_same.
  - apply (stored_same _ _ _ _ _ _ _ Hc); [done|]. intros k. by apply Hv.
  - apply (stored_same _ _ _ _ _ _ _ Hs); [done|]. intros k. by apply Hv.
  - eapply (tr_proper _ _ _ _ Hm); [done| |exact Hp]. intros k. symmetry. by apply Hsee.
Qed.

Lemma same_rows_journal e e' : same_rows e e' -> forall t k, table_ok t = true -> engine_rows e' t !! k = engine_rows e t !! k.
Proof. intros Hs t k Ht. by rewrite Hs. Qed.

(** Every table but the markers holds the same rows. *)
Definition unchanged (db db' : Database) : Prop := forall t k, table_ok t = true -> t <> Metadata -> committed db' t k = committed db t k.

Lemma unchanged_represents db db' logs : Represents (committed db) logs -> unchanged db db' -> Represents (committed db') logs.
Proof. intros Hr Hu. apply (represents_same _ _ _ Hr). intros t k Ht. apply Hu; by destruct t. Qed.

(** The outcome of a write: the receipt, the write applied, or an error. *)
Definition outcome (w : Write) (retry : bool) (logs : Logs) (P : Marks -> Marks -> Prop) (db : Database) (r : AppResult Head) (db' : Database) : Prop :=
  match r with
  | Ok h => (retry = true /\ log_receipt (w_request w) (logs (w_namespace w)) = Some (w_fingerprint w, h) /\ db' = db)
            \/ (h = w_head w /\ Applied w logs P (committed db) (committed db'))
  | Err e => unchanged db db' \/ (exists message, e = Error.CommitUnknown message) /\ Applied w logs P (committed db) (committed db')
  end.

Lemma apply_outcome w retry m T P db logs :
  DbOk db -> Represents (committed db) logs -> transition_ok logs T P m ->
  exists r db', apply_checked w retry m db = (Some r, db') /\ DbOk db' /\ outcome w retry logs P db r db'.
Proof.
  intros Hdb Hrep Hm. unfold apply_checked. destruct (validate_write w) as [[]|e]; [|eexists (Err e), db; split_and!; [done..|by left]].
  destruct (db_failure db) as [error|] eqn:Hf.
  { unfold transact. rewrite (db_transaction_failed _ _ _ error) by (done || apply Hdb). eexists (Err _), db. split_and!; [done..|by left]. }
  pose proof (tx_new_ok _ (proj1 Hdb)) as Hnew.
  destruct (transact_ok _ db _ _ Hdb Hf (apply_body_ok w retry m (tr_body _ _ _ _ Hm)) (calls_apply_body w retry m _ logs T P Hnew Hrep Hm))
    as (r & db' & E & Hdb' & Hr).
  exists r, db'. split_and!; [done..|]. destruct r as [h|e].
  - destruct Hr as (tx & [(-> & ? & ?)|[-> Ha]] & Hs & Hc); [left; by auto|right]. split; [done|]. by eapply applied_sees.
  - destruct Hr as [[_ ->]|[[_ Hs]|(id & message & x & tx & -> & Hx & Hs)]]; [by left|left|].
    + intros t k Ht _. unfold committed. by rewrite Hs.
    + destruct Hx as [(-> & _)|[_ Ha]]; [by left|right]. split; [by eexists|by eapply applied_sees].
Qed.

(** C21: a store is its logs. Applying a write to a sound store that represents logs does not panic,
    and answers the recorded head for a request the log has with this fingerprint, changing nothing;
    or the written head, which follows the expected one in an open namespace: the log then has one
    more entry, the claims and contents of the write are stored, no claim or content there was changed,
    and the marks are what the transition makes them. A failed write leaves the rows, the markers
    aside, and the logs; one whose commit is unknown either left them or was applied whole. *)
Theorem apply_refines w retry m T P db logs :
  DbOk db -> Represents (committed db) logs -> transition_ok logs T P m ->
  exists r db', apply_checked w retry m db = (Some r, db') /\ DbOk db'
    /\ match r with
       | Ok h => (retry = true /\ log_receipt (w_request w) (logs (w_namespace w)) = Some (w_fingerprint w, h) /\ db' = db)
                 \/ (h = w_head w /\ Applied w logs P (committed db) (committed db'))
       | Err e => (unchanged db db' /\ Represents (committed db') logs)
                  \/ (exists message, e = Error.CommitUnknown message) /\ Applied w logs P (committed db) (committed db')
       end.
Proof.
  intros Hdb Hrep Hm. destruct (apply_outcome w retry m T P db logs Hdb Hrep Hm) as (r & db' & E & Hdb' & Hr). exists r, db'.
  split_and!; [done..|]. destruct r as [h|e]; [exact Hr|]. destruct Hr as [Hu|Ha]; [left|by right].
  split; [done|by eapply unchanged_represents].
Qed.

Lemma validate_write_error w e : validate_write w = Err e -> e = Error.Limit.
Proof.
  unfold validate_write. destruct (_ || _); [by intros [= <-]|]. generalize 0.
  induction (w_content w) as [|[k x] l IH]; intros z; cbn [try_fold]; [|destruct (_ <? _)]; [|apply IH|by intros [= <-]].
  cbn [mbind result_bind]. destruct (_ <? _); [by intros [= <-]|done].
Qed.


End Refinement.

(** ** Witnesses *)

Import Toy ToyEngines.

(** A store without rows has no entries. *)
Lemma represents_empty : Represents (committed sample_db) (fun _ => []).
Proof.
  split; try (intros; unfold committed; cbn; unfold rows_at; by rewrite ?lookup_empty); cbn.
  - intros k [x Hx]. unfold committed in Hx. cbn in Hx. unfold rows_at in Hx. by rewrite !lookup_empty in Hx.
  - intros ns e He. by apply not_elem_of_nil in He.
  - intros _. constructor.
Qed.

(** The first entry of namespace 1, and an entry that skips an index. *)
Definition sample_write : Write :=
  mkWrite (id32 1) (id32 2) (id32 3) None (mkHead (of_Z 64 0) (id32 4)) [(id32 4, [of_Z 8 7])] [(id32 5, id32 6)].
Definition skipping_write : Write :=
  mkWrite (id32 1) (id32 2) (id32 3) None (mkHead (of_Z 64 5) (id32 4)) [] [].

Lemma apply_refines_witness :
  exists r db', apply_checked sample_write true (mret tt) sample_db = (Some r, db') /\ DbOk db'.
Proof.
  destruct (apply_refines sample_write true _ _ _ sample_db _ sample_db_ok represents_empty (no_transition_ok _)) as (r & db' & E & Hdb & _).
  exists r, db'. exact (conj E Hdb).
Defined.

