(* ===== verification/Fences.v ===== *)
(** * Fences, retries and reads of the journal

    What a caller of an application store relies on: a namespace migrated away takes no more writes,
    a request tried again and again is applied once, and the reads answer the logs. *)

From S2P Require Import Prelude.
From S2P Require Import Crypto.
From S2P Require Import Access.
From S2P Require Import Shard.
From S2P Require Import Engine.
From S2P Require Import Database.
From S2P Require Import Application.
From S2P Require Import Journal.

Local Open Scope Z_scope.

(** ** Migration *)

Section Migration.
  Context `{Nebu, Hasher, Fjall, Redb, !FjallLaws, !RedbLaws}.

(** No transfer holds the origin, or one into the target is complete. *)
Definition transfer_complete (origin target : Particle) (marks : Marks) : Prop :=
  forall staged, marks (stage_key origin) = Some staged ->
    exists manifest b cursor, blist manifest = staged /\ marks (cursor_key manifest) = Some b /\ cursor_decode b = Ok cursor
      /\ uval (cu_table cursor) = 5 /\ marks (target_key manifest) = Some (blist target).

Definition fence_mark (target manifest : Particle) : list u8 := blist target ++ blist manifest.

(** What fencing the sources does to the marks: each is fenced, and only fences are new. *)
Record Fenced (logs : Logs) (target manifest : Particle) (sources : list (Particle * Head)) (f g : Marks) : Prop := {
  fe_heads o h : (o, h) ∈ sources -> log_head (logs o) = Some h;
  fe_complete o h : (o, h) ∈ sources -> transfer_complete o target f;
  fe_fences o h : (o, h) ∈ sources -> g (fence_key o) = Some (fence_mark target manifest);
  fe_keeps k : (forall o, k <> fence_key o) -> g k = f k;
  fe_once k x : f k = Some x -> g k = Some x;
}.

#[export] Instance fence_key_inj : Inj (=) (=) fence_key.
Proof. intros a b E. unfold fence_key in E. rewrite !app_assoc in E. by apply app_inv_head, bytes_eq in E. Qed.

Lemma fence_key_length o : length (fence_key o) = 45%nat.
Proof. unfold fence_key. by rewrite !length_app, length_blist. Qed.

Lemma mark_keys_differ o id : fence_key o <> stage_key id /\ fence_key o <> cursor_key id /\ fence_key o <> target_key id /\ fence_key o <> STATUS.
Proof.
  split_and!; intros E; apply (f_equal length) in E; rewrite fence_key_length in E; unfold stage_key, cursor_key, target_key in E;
    rewrite ?length_app, ?length_blist in E; done.
Qed.

(** The guard on a transfer. *)
Lemma calls_complete {A} origin target (k : SM Error.AppError Transaction A) tx Q :
  TxOk tx -> (transfer_complete origin target (tx_row tx Migration) -> calls k tx Q (fun _ => True)) ->
  calls (_ ← require_complete origin target; k) tx Q (fun _ => True).
Proof.
  intros Htx Hk. eapply calls_bind with (Q' := fun _ tx' => tx' = tx /\ transfer_complete origin target (tx_row tx Migration));
    [|intros [] tx' _ [-> Hc]; by apply Hk].
  unfold require_complete. apply calls_bind_get; [done..|]. unfold transfer_complete. destruct (tx_row tx Migration (stage_key origin)) as [staged|].
  2:{ by apply calls_ret. }
  apply calls_bind_lift; [done..|]. intros manifest Hm%take_bytes_ok. apply calls_bind_get; [done..|].
  apply calls_bind_lift; [done..|]. intros b Hb. destruct (tx_row tx Migration (cursor_key manifest)) as [b'|] eqn:Ec; [|done].
  injection Hb as ->. apply calls_bind_lift; [done..|]. intros cursor Hd. apply calls_bind_require; [done..|]. intros Ht%Z.eqb_eq.
  apply calls_bind_get; [done..|]. apply calls_require; [done| |done]. intros Htt%bool_decide_eq_true.
  split; [done|]. intros ? [= <-]. by exists manifest, b, cursor.
Qed.

Lemma calls_fence_sources logs target manifest sources tx :
  TxOk tx -> Represents (tx_row tx) logs ->
  calls (sm_for sources (fence_source target manifest)) tx
    (fun _ tx' => journal_same (tx_row tx) (tx_row tx') /\ Fenced logs target manifest sources (tx_row tx Migration) (tx_row tx' Migration))
    (fun _ => True).
Proof.
  intros Htx Hrep. apply (calls_for _ (fun before tx' => journal_same (tx_row tx) (tx_row tx')
    /\ Fenced logs target manifest before (tx_row tx Migration) (tx_row tx' Migration))); [done| |].
  { split; [done|]. split; try done; by intros o h ?%not_elem_of_nil. }
  intros before [o h] after tx1 _ Htx1 [Hs [Hh Hc Hf Hk Ho]]. unfold fence_source. apply calls_complete; [done|]. intros Hcomplete.
  apply (calls_get_head _ _ _ logs); [done|by eapply represents_same|done|]. apply calls_bind_require; [done..|].
  intros Hhead%bool_decide_eq_true. apply calls_immutable; [done..|]. intros tx2 Htx2 Hold Hv. split.
  { intros t k Ht. rewrite Hv, view_put_ne by (by intros [= -> _]). by apply Hs. }
  assert (forall k, (forall o', k <> fence_key o') -> tx_row tx2 Migration k = tx_row tx1 Migration k) as Hkeep.
  { intros k Hne. rewrite Hv, view_put_ne; [done|]. intros [= E]. by apply (Hne o). }
  split.
  - intros o' h' [?|[= -> ->]%list_elem_of_singleton]%elem_of_app; by eauto.
  - intros o' h' [?|[= -> ->]%list_elem_of_singleton]%elem_of_app; [by eauto|]. intros staged Est.
    rewrite <- Hk in Est by (intros p E; by apply (proj1 (mark_keys_differ p o))).
    destruct (Hcomplete staged Est) as (m & b & c & Em & Eb & Ed & Et & Ett). exists m, b, c.
    rewrite Hk in Eb by (intros p E; by apply (proj1 (proj2 (mark_keys_differ p m)))).
    rewrite Hk in Ett by (intros p E; by apply (proj1 (proj2 (proj2 (mark_keys_differ p m))))). done.
  - intros o' h' [Hin|[= -> ->]%list_elem_of_singleton]%elem_of_app; rewrite Hv; [|apply view_put_same].
    unfold view_put. case_decide; [done|]. by eapply Hf.
  - intros k Hne. rewrite Hkeep by done. by apply Hk.
  - intros k x Hx%Ho. rewrite Hv. unfold view_put. case_decide as Hd; [|done]. injection Hd as ->. destruct Hold; congruence.
Qed.

(** The marks of a migration: the fences, and the generation its readers need. *)
Definition Migrated (logs : Logs) (target manifest : Particle) (sources : list (Particle * Head)) (f g : Marks) : Prop :=
  exists mid, Fenced logs target manifest sources f mid
    /\ (forall k, k <> STATUS -> g k = mid k)
    /\ exists current, generation_decode (f STATUS) = Ok current /\ generation_decode (g STATUS) = Ok (generation_max NeuronV1 current).

Lemma migration_transition_ok logs w mig :
  transition_ok logs (fun _ => True) (Migrated logs (w_namespace w) (nm_manifest mig) (nm_sources mig)) (migration_transition w mig).
Proof.
  split.
  - unfold migration_transition, fence_source, require_complete, get_head, get, put. tx_bodies. apply body_app, promote_body.
  - intros tx Htx Hrep. unfold migration_transition. eapply calls_bind; [by apply calls_fence_sources|]. cbn beta.
    intros [] tx1 Htx1 [Hs Hf]. destruct (promote_body NeuronV1 tx1 Htx1) as (r & tx2 & Ep & Htx2 & He).
    destruct (promote_ok NeuronV1 tx1 Htx1) as (r' & tx2' & Ep' & Hp). rewrite Ep in Ep'. injection Ep' as <- <-.
    eapply calls_bind with (Q' := fun g tx' => tx' = tx2 /\ r = Ok g).
    { exists (map_err from_storage r), tx2. unfold app. rewrite Ep. split_and!; [done..|]. by destruct r. }
    intros g tx' _ [-> ->]. destruct (Hp g eq_refl) as (c & Ec & -> & Eg & Hrest). apply calls_ret; [done|]. split.
    + intros t k Ht. rewrite Hrest by (by intros [= -> _]). by apply Hs.
    + exists (tx_row tx1 Migration). split; [done|]. split; [intros k Hk; apply Hrest; congruence|]. exists c. split; [|done].
      rewrite <- (fe_keeps _ _ _ _ _ _ Hf); [done|]. intros o E. by apply (proj2 (proj2 (proj2 (mark_keys_differ o o)))).
  - intros f f' Hff g g' Hgg (mid & [Hh Hc Hfe Hk Ho] & Hm & c & Ec & Eg). exists mid. split; [|split].
    + split; try done.
      * intros o h Hin staged. rewrite <- Hff. intros Es. destruct (Hc o h Hin staged Es) as (m & b & cu & ?). exists m, b, cu. by rewrite <- !Hff.
      * intros k Hne. rewrite <- Hff. by apply Hk.
      * intros k x. rewrite <- Hff. apply Ho.
    + intros k Hne. rewrite <- Hgg. by apply Hm.
    + exists c. by rewrite <- Hff, <- Hgg.
Qed.

End Migration.

(** ** Steps of a store *)

Section Steps.
  Context `{Nebu, Hasher, Fjall, Redb, !FjallLaws, !RedbLaws}.

(** What may happen to a store: a write, a migration, or the owner is opened again. *)
Inductive journal_step : Database -> Database -> Prop :=
| step_apply w retry r db db' : apply_checked w retry (mret tt) db = (Some r, db') -> journal_step db db'
| step_migrate w mig r db db' : apply_migration w mig db = (Some r, db') -> journal_step db db'
| step_reopen db : journal_step db (from_engine (db_engine db)).

Lemma migration_outcome w mig db logs :
  DbOk db -> Represents (committed db) logs ->
  exists r db', apply_migration w mig db = (Some r, db') /\ DbOk db'
    /\ outcome w true logs (Migrated logs (w_namespace w) (nm_manifest mig) (nm_sources mig)) db r db'.
Proof.
  intros Hdb Hrep. unfold apply_migration. cbn zeta. destruct (_ || _); [eexists (Err _), db; split_and!; [done..|by left]|].
  apply (apply_outcome _ _ _ (fun _ => True)); [done..|]. apply migration_transition_ok.
Qed.

(** The fences of a store hold: they are kept, with the logs behind them. *)
Definition fences_kept (logs logs' : Logs) (v v' : View) : Prop :=
  forall ns x, v Migration (fence_key ns) = Some x -> v' Migration (fence_key ns) = Some x /\ logs' ns = logs ns.

Lemma outcome_kept w retry logs P db r db' :
  (forall f g, P f g -> forall ns x, f (fence_key ns) = Some x -> g (fence_key ns) = Some x) ->
  Represents (committed db) logs -> outcome w retry logs P db r db' ->
  exists logs', Represents (committed db') logs' /\ fences_kept logs logs' (committed db) (committed db').
Proof.
  intros HP Hrep Ho.
  assert (unchanged db db' -> Represents (committed db') logs /\ fences_kept logs logs (committed db) (committed db')) as Hu.
  { intros Hu. split; [by eapply unchanged_represents|]. intros ns x Hx. split; [|done]. by rewrite Hu. }
  assert (Applied w logs P (committed db) (committed db') -> Represents (committed db') (logs_apply w logs)
    /\ fences_kept logs (logs_apply w logs) (committed db) (committed db')) as Ha.
  { intros [_ Hopen _ _ Hl _ _ Hp]. split; [done|]. intros ns x Hx. split; [by eapply HP|]. unfold logs_apply. apply decide_False.
    intros ->. apply Hopen. left. by eexists. }
  destruct r as [h|e]; [destruct Ho as [(_ & _ & ->)|[_ Happ]]|destruct Ho as [Hun|[_ Happ]]]; eauto. exists logs. by apply Hu.
Qed.

Lemma step_kept db db' logs :
  DbOk db -> Represents (committed db) logs -> journal_step db db' ->
  DbOk db' /\ exists logs', Represents (committed db') logs' /\ fences_kept logs logs' (committed db) (committed db').
Proof.
  intros Hdb Hrep Hstep. revert Hdb Hrep. destruct Hstep as [w retry r d d' E|w mig r d d' E|d]; intros Hdb Hrep; [| |by split; [split; [apply Hdb|done]|exists logs]].
  - destruct (apply_outcome w retry _ _ _ d logs Hdb Hrep (no_transition_ok logs)) as (r' & db2 & E' & Hdb' & Ho).
    rewrite E in E'. injection E' as <- <-. split; [done|]. eapply outcome_kept; [|done|exact Ho]. intros f g Hfg ns x. by rewrite Hfg.
  - destruct (migration_outcome w mig d logs Hdb Hrep) as (r' & db2 & E' & Hdb' & Ho). rewrite E in E'. injection E' as <- <-.
    split; [done|]. eapply outcome_kept; [|done|exact Ho]. intros f g (mid & Hf & Hm & _) ns x Hx.
    rewrite Hm by apply (mark_keys_differ ns ns). by apply Hf.
Qed.

Lemma steps_kept db db' logs :
  rtc journal_step db db' -> DbOk db -> Represents (committed db) logs ->
  exists logs', Represents (committed db') logs' /\ fences_kept logs logs' (committed db) (committed db').
Proof.
  intros Hs. revert logs. induction Hs as [db|db db1 db2 Hstep _ IH]; intros logs Hdb Hrep; [by exists logs|].
  destruct (step_kept db db1 logs Hdb Hrep Hstep) as (Hdb1 & logs1 & Hrep1 & Hk1). destruct (IH logs1 Hdb1 Hrep1) as (logs2 & Hrep2 & Hk2).
  exists logs2. split; [done|]. intros ns x [Hx E1]%Hk1. apply Hk2 in Hx as [Hx E2]. by rewrite E2.
Qed.

Lemma migration_sources w mig db h db' o h' :
  apply_migration w mig db = (Some (Ok h), db') -> (o, h') ∈ nm_sources mig -> o <> w_namespace w.
Proof.
  unfold apply_migration. cbn zeta. destruct (existsb _ (nm_sources mig)) eqn:Ex; [by rewrite orb_true_r|]. intros _ Hin ->.
  assert (existsb (fun '(id, _) => bool_decide (id = w_namespace w)) (nm_sources mig) = true); [|congruence].
  apply existsb_exists. exists (w_namespace w, h'). split; [by apply list_elem_of_In|]. by apply bool_decide_eq_true.
Qed.

(** C22: a migrated namespace is frozen. When a migration of new sources into a namespace answers
    its head, every source had the expected head and no transfer but a complete one into the target,
    and whatever writes, migrations and reopenings follow, its log is the one migrated, fenced with
    the target and the manifest. *)
Theorem migration_freezes w mig db db1 db2 h logs :
  DbOk db -> Represents (committed db) logs -> log_find (w_request w) (logs (w_namespace w)) = None ->
  apply_migration w mig db = (Some (Ok h), db1) -> rtc journal_step db1 db2 ->
  exists logs2, Represents (committed db2) logs2
    /\ forall o h', (o, h') ∈ nm_sources mig ->
         log_head (logs o) = Some h' /\ transfer_complete o (w_namespace w) (committed db Migration)
         /\ logs2 o = logs o /\ committed db2 Migration (fence_key o) = Some (fence_mark (w_namespace w) (nm_manifest mig)).
Proof.
  intros Hdb Hrep Hnew E Hs. destruct (migration_outcome w mig db logs Hdb Hrep) as (r' & db' & E' & Hdb' & Ho). rewrite E in E'.
  injection E' as <- <-. destruct Ho as [(_ & Hr & _)|[_ Ha]]; [apply log_receipt_None in Hnew; congruence|].
  destruct (steps_kept db1 db2 (logs_apply w logs) Hs Hdb' (ap_logs _ _ _ _ _ Ha)) as (logs2 & Hrep2 & Hk). exists logs2.
  split; [done|]. intros o h' Hin. destruct (ap_marks _ _ _ _ _ Ha) as (mid & Hf & Hm & _).
  assert (committed db1 Migration (fence_key o) = Some (fence_mark (w_namespace w) (nm_manifest mig))) as Hfence.
  { rewrite Hm by apply (mark_keys_differ o o). by eapply Hf. }
  destruct (Hk _ _ Hfence) as [Hx E2]. split_and!; [by eapply Hf|by eapply Hf| |done]. rewrite E2. unfold logs_apply. apply decide_False.
  by eapply migration_sources.
Qed.

(** ** Retries *)

(** A request tried [n] times, the owner opened again after each. *)
Fixpoint attempts (n : nat) (w : Write) (e : Engine) : list (option (AppResult Head)) * Engine :=
  match n with
  | O => ([], e)
  | S n =>
      let '(r, db) := apply w (from_engine e) in
      let '(answers, e) := attempts n w (db_engine db) in
      (r :: answers, e)
  end.

Lemma receipt_applied w logs :
  zlen (logs (w_namespace w)) <= 2 ^ 64 -> log_find (w_request w) (logs (w_namespace w)) = None ->
  next_index (logs (w_namespace w)) = Some (head_index (w_head w)) ->
  log_receipt (w_request w) (logs_apply w logs (w_namespace w)) = Some (w_fingerprint w, w_head w).
Proof.
  intros Hl Hf Hn. unfold logs_apply, log_receipt. rewrite decide_True, log_find_snoc, Hf, decide_True by done. cbn.
  by rewrite entry_head_write.
Qed.

Definition answers_head (w : Write) (answers : list (option (AppResult Head))) : Prop :=
  forall r, r ∈ answers -> match r with Some (Ok h) => h = w_head w | Some (Err _) => True | None => False end.

(** Once the log has the request, it is not appended again. *)
Lemma attempts_recorded n w e logs :
  engine_wf e -> Represents (committed (from_engine e)) logs ->
  log_receipt (w_request w) (logs (w_namespace w)) = Some (w_fingerprint w, w_head w) ->
  let '(answers, e') := attempts n w e in
  engine_wf e' /\ Represents (committed (from_engine e')) logs /\ answers_head w answers.
Proof.
  revert e. induction n as [|n IH]; intros e Hwf Hrep Hr; [split_and!; [done..|by intros r ?%not_elem_of_nil]|]. cbn [attempts].
  destruct (apply_outcome w true _ _ _ (from_engine e) logs (conj Hwf eq_refl) Hrep (no_transition_ok logs)) as (r & db & E & Hdb & Ho).
  unfold apply, apply_with. rewrite E. assert (Represents (committed db) logs /\ forall h, r = Ok h -> h = w_head w) as [Hrep' Hh].
  { assert (~ Applied w logs same_marks (committed (from_engine e)) (committed db)) as Hna.
    { intros Ha. pose proof (ap_new _ _ _ _ _ Ha) as Hn. apply log_receipt_None in Hn. congruence. }
    destruct r as [h|err]; [destruct Ho as [(_ & E2 & ->)|[_ ?]]|destruct Ho as [Hu|[_ ?]]]; try done.
    - split; [done|]. intros h' [= <-]. congruence.
    - split; [by eapply unchanged_represents|done]. }
  specialize (IH (db_engine db) (proj1 Hdb) Hrep' Hr). destruct (attempts n w (db_engine db)) as [answers e'].
  destruct IH as (? & ? & Ha). split_and!; [done..|]. intros x [->|Hx]%elem_of_cons; [destruct r; auto|by apply Ha].
Qed.

(** C23: a retried request is applied at most once. However often a new request is tried, the owner
    opened again after every answer, lost commits included, the log has it at most once: every
    success answers the written head, and after a success the log has exactly the one entry. *)
Theorem retries_apply_once n w e logs :
  engine_wf e -> Represents (committed (from_engine e)) logs -> log_find (w_request w) (logs (w_namespace w)) = None ->
  let '(answers, e') := attempts n w e in
  answers_head w answers
  /\ ((Represents (committed (from_engine e')) logs /\ forall h, Some (Ok h) ∉ answers)
      \/ Represents (committed (from_engine e')) (logs_apply w logs)).
Proof.
  revert e. induction n as [|n IH]; intros e Hwf Hrep Hf.
  { split; [by intros r ?%not_elem_of_nil|left]. split; [done|]. intros h. apply not_elem_of_nil. }
  cbn [attempts].
  destruct (apply_outcome w true _ _ _ (from_engine e) logs (conj Hwf eq_refl) Hrep (no_transition_ok logs)) as (r & db & E & Hdb & Ho).
  unfold apply, apply_with. rewrite E. pose proof (proj2 (log_receipt_None (w_request w) (logs (w_namespace w))) Hf) as Hr.
  assert (Applied w logs same_marks (committed (from_engine e)) (committed db) -> (forall h, r = Ok h -> h = w_head w) ->
    let '(answers, e') := attempts n w (db_engine db) in
    answers_head w (Some r :: answers) /\ Represents (committed (from_engine e')) (logs_apply w logs)) as Hdone.
  { intros [_ _ _ Hn Hl _ _ _] Hh.
    pose proof (attempts_recorded n w (db_engine db) (logs_apply w logs) (proj1 Hdb) Hl (receipt_applied w logs (rep_length _ _ Hrep _) Hf Hn)) as Ha.
    destruct (attempts n w (db_engine db)) as [answers e']. destruct Ha as (_ & ? & Ha). split; [|done].
    intros x [->|Hx]%elem_of_cons; [destruct r; auto|by apply Ha]. }
  destruct r as [h|err]; [destruct Ho as [(_ & ? & _)|[-> Ha]]|destruct Ho as [Hu|[_ Ha]]]; [congruence|..].
  - specialize (Hdone Ha ltac:(by intros ? [= <-])). destruct (attempts n w (db_engine db)) as [answers e']. destruct Hdone. auto.
  - specialize (IH (db_engine db) (proj1 Hdb) (unchanged_represents _ _ _ Hrep Hu) Hf). destruct (attempts n w (db_engine db)) as [answers e'].
    destruct IH as [Ha IH]. split; [intros x [->|Hx]%elem_of_cons; [done|by apply Ha]|]. destruct IH as [[Hl Hn]|Hl]; [left|by right].
    split; [done|]. intros h [?|Hx]%elem_of_cons; [done|by eapply Hn].
  - specialize (Hdone Ha ltac:(done)). destruct (attempts n w (db_engine db)) as [answers e']. destruct Hdone. auto.
Qed.

End Steps.

(** ** Witnesses *)

Import Toy ToyEngines.

(** The migration of namespace 1 into namespace 9. *)
Definition sample_migration : NamespaceMigration := mkNamespaceMigration (id32 8) [(id32 1, mkHead (of_Z 64 0) (id32 4))].
Definition migration_write : Write :=
  mkWrite (id32 9) (id32 2) (id32 3) None (mkHead (of_Z 64 0) (id32 4)) [] [].

(** The store after [sample_write]. *)
Definition written_db : Database := (apply sample_write sample_db).2.

Lemma written_db_ok : DbOk written_db /\ Represents (committed written_db) (logs_apply sample_write (fun _ => [])).
Proof.
  destruct (apply_outcome sample_write true _ _ _ sample_db _ sample_db_ok represents_empty (no_transition_ok _)) as (r & db' & E & Hdb & Ho).
  assert (match (apply sample_write sample_db).1 with Some (Ok _) => true | _ => false end = true) as Eb by (vm_compute; reflexivity).
  unfold written_db, apply, apply_with in *. rewrite E in *. cbn [fst snd] in *. split; [done|]. destruct r as [h|]; [|done].
  destruct Ho as [(_ & Hr & _)|[_ Ha]]; [done|by apply Ha].
Qed.

Lemma migration_freezes_witness :
  exists h, (apply_migration migration_write sample_migration written_db).1 = Some (Ok h)
    /\ exists logs, Represents (committed (apply_migration migration_write sample_migration written_db).2) logs
       /\ logs (id32 1) = logs_apply sample_write (fun _ => []) (id32 1).
Proof.
  destruct (apply_migration migration_write sample_migration written_db) as [r db1] eqn:E.
  assert (match (apply_migration migration_write sample_migration written_db).1 with Some (Ok _) => true | _ => false end = true) as Eb
    by (vm_compute; reflexivity).
  rewrite E in Eb. cbn [fst snd] in *. destruct r as [[h|]|]; [|discriminate..]. exists h. split; [reflexivity|].
  assert (log_find (w_request migration_write) (logs_apply sample_write (fun _ => []) (w_namespace migration_write)) = None) as Hf
    by (vm_compute; reflexivity).
  destruct (migration_freezes migration_write sample_migration written_db db1 db1 h _ (proj1 written_db_ok) (proj2 written_db_ok) Hf E
    (rtc_refl journal_step db1)) as (logs & Hrep & Hall).
  exists logs. destruct (Hall (id32 1) (mkHead (of_Z 64 0) (id32 4)) (list_elem_of_here _ _)) as (_ & _ & Hlog & _). exact (conj Hrep Hlog).
Defined.

Lemma retries_apply_once_witness :
  (attempts 2 sample_write (db_engine sample_db)).1 = [Some (Ok (w_head sample_write)); Some (Ok (w_head sample_write))]
  /\ answers_head sample_write (attempts 2 sample_write (db_engine sample_db)).1.
Proof.
  split; [vm_compute; reflexivity|].
  pose proof (retries_apply_once 2 sample_write (db_engine sample_db) (fun _ => []) (proj1 sample_db_ok) represents_empty eq_refl) as Hr.
  destruct (attempts 2 sample_write (db_engine sample_db)) as [answers e]. exact (proj1 Hr).
Defined.
