(* ===== verification/JournalReads.v ===== *)
(** * Reads of the journal

    The head, the receipt and the history of a namespace are those of its log. *)

From S2P Require Import Prelude.
From S2P Require Import Crypto.
From S2P Require Import Access.
From S2P Require Import Shard.
From S2P Require Import Engine.
From S2P Require Import Database.
From S2P Require Import Application.
From S2P Require Import Journal.

Local Open Scope Z_scope.

(** ** The order of history keys *)

Lemma list_leb_app (p a b : list u8) : list_leb (p ++ a) (p ++ b) = list_leb a b.
Proof. induction p as [|x p IH]; [done|]. cbn. by rewrite decide_True. Qed.

Lemma be_leb (a b : u64) : list_leb (to_be_bytes 8 a) (to_be_bytes 8 b) = true <-> uval a <= uval b.
Proof.
  assert (forall a b : u64, uval a <= uval b -> list_leb (to_be_bytes 8 a) (to_be_bytes 8 b) = true) as Hm.
  { intros x y Hxy. apply to_be_bytes_mono. by apply Z.leb_le. }
  split; [|apply Hm]. intros E. destruct (Z.le_gt_cases (uval a) (uval b)) as [|Hlt]; [done|].
  assert (to_be_bytes 8 a = to_be_bytes 8 b) as Eb by (apply list_leb_antisym; [done|apply Hm; lia]).
  apply to_be_bytes_inj in Eb. subst. lia.
Qed.

Lemma history_key_leb ns a b : ord_leb (history_key ns a) (history_key ns b) = true <-> uval a <= uval b.
Proof. unfold history_key. cbn. rewrite list_leb_app. apply be_leb. Qed.

Lemma history_key_prefix ns ns' i : blist ns `prefix_of` history_key ns' i <-> ns' = ns.
Proof.
  unfold history_key. split; [|intros ->; by apply prefix_app_r]. intros [k E]. by apply app_fields in E as [-> _].
Qed.

(** Lists sorted by key that hold the same entries once. *)
Lemma sorted_entries {K V} `{Countable K, Ordered K} (l k : list (K * V)) :
  StronglySorted entry_le l -> StronglySorted entry_le k -> NoDup l.*1 -> NoDup k.*1 -> (forall x, x ∈ l <-> x ∈ k) -> l = k.
Proof.
  intros Hl Hk Nl Nk Hx. rewrite (btree_iter_unique (list_to_map l) l); [|done|done|].
  - symmetry. apply btree_iter_unique; [done|done|]. intros i v. rewrite <- Hx. by apply elem_of_list_to_map.
  - intros i v. by apply elem_of_list_to_map.
Qed.

(** ** The rows of a log *)

Definition log_heads (log : list Entry) : list Head := imap entry_head log.

Definition head_row (ns : Particle) (h : Head) : RawEntry := (history_key ns (head_index h), blist (head_commit h)).

(** Where a page starts. *)
Definition log_start (after : option u64) : nat := match after with None => 0 | Some i => S (Z.to_nat (uval i)) end.

Lemma log_heads_lookup log i : log_heads log !! i = entry_head i <$> log !! i.
Proof. apply list_lookup_imap. Qed.

Lemma head_row_decode ns h : history_row ns (head_row ns h) = Ok h.
Proof.
  unfold history_row, head_row, history_key, zlen. rewrite length_app, length_blist, length_to_be_bytes.
  change (negb (Z.of_nat (32 + 8) =? 40)) with false. rewrite take_app_length', drop_app_length' by by rewrite length_blist.
  rewrite bool_decide_eq_true_2 by done. cbn [negb orb].
  destruct (take_bytes 8 (to_be_bytes 8 (head_index h))) as [b|] eqn:E.
  - apply take_bytes_ok in E. cbn [mbind result_bind]. rewrite take_bytes_blist. cbn [mbind result_bind]. rewrite E.
    rewrite from_to_be_bytes by done. by destruct h.
  - unfold take_bytes in E. destruct (try_into _ _) eqn:Et; [done|]. apply try_into_None in Et. by rewrite length_to_be_bytes in Et.
Qed.

Section Reads.
  Context `{Nebu, Hasher, Fjall, Redb, !FjallLaws, !RedbLaws}.

Lemma head_row_leb ns h h' : entry_le (head_row ns h) (head_row ns h') <-> uval (head_index h) <= uval (head_index h').
Proof. unfold entry_le, head_row. cbn [fst]. apply history_key_leb. Qed.

(** A stretch of consecutive heads, as rows, is sorted and has no key twice. *)
Lemma heads_sorted ns heads n :
  (forall i h, heads !! i = Some h -> uval (head_index h) = Z.of_nat n + Z.of_nat i) ->
  StronglySorted entry_le (map (head_row ns) heads) /\ NoDup (map (head_row ns) heads).*1.
Proof.
  revert n. induction heads as [|h heads IH]; intros n Hi; [split; constructor|].
  destruct (IH (S n)) as [Hs Hn]. { intros i x Hx. rewrite (Hi (S i) x Hx). lia. }
  pose proof (Hi 0%nat h eq_refl) as Hh.
  assert (forall x, x ∈ heads -> uval (head_index h) < uval (head_index x)) as Hlt.
  { intros x [i Hx]%list_elem_of_lookup. rewrite (Hi (S i) x Hx), Hh. lia. }
  split; cbn [map fmap list_fmap].
  - constructor; [done|]. apply Forall_forall. intros r (x & <- & Hx)%list_elem_of_In%in_map_iff. apply head_row_leb.
    apply list_elem_of_In, Hlt in Hx. lia.
  - constructor; [|done]. intros (r & Er & (x & <- & Hx)%list_elem_of_In%in_map_iff)%list_elem_of_fmap. cbn in Er.
    apply history_key_inj in Er as [_ Er]. apply list_elem_of_In, Hlt in Hx. rewrite Er in Hx. lia.
Qed.

(** A history scan is asked for the heads past its start. *)
Lemma history_scan_rows db logs ns after :
  Represents (committed db) logs ->
  table_scan (engine_rows (db_engine db) History) (history_key ns <$> after) (blist ns)
    = map (head_row ns) (drop (log_start after) (log_heads (logs ns))).
Proof.
  intros Hrep. pose proof (rep_length _ _ Hrep ns) as Hlen. unfold zlen in Hlen. set (start := log_start after).
  assert (forall i h, drop start (log_heads (logs ns)) !! i = Some h <-> exists e, logs ns !! (start + i)%nat = Some e
    /\ h = entry_head (start + i) e) as Hh.
  { intros i h. rewrite lookup_drop, log_heads_lookup. destruct (logs ns !! _) as [e|]; cbn; [|naive_solver].
    split; [intros [= <-]; by exists e|by intros (e' & [= <-] & ->)]. }
  assert (forall i e, logs ns !! i = Some e -> uval (of_Z 64 (Z.of_nat i)) = Z.of_nat i) as Hu.
  { intros i e Hi%lookup_lt_Some. rewrite uval_of_Z_small; [done|simpl; lia]. }
  destruct (heads_sorted ns (drop start (log_heads (logs ns))) start) as [Hs Hn].
  { intros i h (e & He & ->)%Hh. cbn. rewrite (Hu _ e He). lia. }
  apply sorted_entries; [|done| |done|].
  - eapply sublist_sorted; [apply sublist_filter|apply btree_iter_sorted].
  - apply NoDup_fst_filter, NoDup_btree_iter.
  - intros [k v]. unfold table_scan. rewrite list_elem_of_filter, elem_of_btree_iter. unfold wanted. cbn [fst].
    rewrite andb_true_iff, bool_decide_eq_true. split.
    + intros [[Hp Ha] Hk]. destruct (rep_history_keys _ _ Hrep k) as (ns' & i & ->); [by eexists|].
      apply history_key_prefix in Hp as ->. pose proof (rep_history _ _ Hrep ns i) as Hi. unfold committed in Hi. rewrite Hk in Hi.
      destruct (logs ns !! Z.to_nat (uval i)) as [e|] eqn:El; [|done]. injection Hi as ->. pose proof (uval_range i).
      assert ((start <= Z.to_nat (uval i))%nat) as Hle.
      { unfold start. destruct after as [a|]; cbn [log_start fmap option_fmap option_map] in *; [|lia]. unfold ord_ltb in Ha. apply negb_true_iff in Ha.
        destruct (Z.le_gt_cases (uval i) (uval a)) as [Hia|Hia]; [|pose proof (uval_range a); lia].
        apply (history_key_leb ns) in Hia. by rewrite Hia in Ha. }
      apply list_elem_of_In, in_map_iff. exists (entry_head (Z.to_nat (uval i)) e). split.
      * unfold head_row, entry_head. cbn. f_equal. f_equal. apply uint_eq. rewrite (Hu _ e El). lia.
      * apply list_elem_of_In, list_elem_of_lookup. exists (Z.to_nat (uval i) - start)%nat. apply Hh.
        replace (start + (Z.to_nat (uval i) - start))%nat with (Z.to_nat (uval i)) by lia. by exists e.
    + intros (h & Eh & (i & (e & He & ->)%Hh)%list_elem_of_In%list_elem_of_lookup)%list_elem_of_In%in_map_iff. injection Eh as <- <-. cbn [entry_head head_index head_commit].
      split; [split; [by apply history_key_prefix|]|].
      * unfold start in *. destruct after as [a|]; cbn [fmap option_fmap option_map]; [|done]. unfold ord_ltb. apply negb_true_iff, not_true_iff_false.
        intros Hl%history_key_leb. rewrite (Hu _ e He) in Hl. pose proof (uval_range a). cbn in Hl. lia.
      * pose proof (rep_history _ _ Hrep ns (of_Z 64 (Z.of_nat (start + i)))) as Hr. unfold committed in Hr.
        rewrite Hr, (Hu _ e He), Nat2Z.id, He. done.
Qed.

Lemma decode_rows ns heads : mapM (history_row ns) (map (head_row ns) heads) = Ok heads.
Proof. induction heads as [|h heads IH]; [done|]. cbn [map mapM]. rewrite head_row_decode. cbn [mbind result_bind]. by rewrite IH. Qed.

(** A page of rows of one size, within the budget of as many rows as its limit. *)
Lemma raw_page_take rows n page :
  RawPage rows (mkByteLimits n (of_Z 64 (uval n * 72))) page -> uval n <= 4096 ->
  (forall e, e ∈ rows -> zlen e.1 + zlen e.2 = 72) -> page = take (Z.to_nat (uval n)) rows.
Proof.
  intros [[rest ->] He Hb Hf] Hn Hs. cbn in *. pose proof (uval_range n). rewrite uval_of_Z_small in * by (simpl; lia).
  assert (forall l, l ⊆ page ++ rest -> raw_bytes l = 72 * zlen l) as Hraw.
  { induction l as [|e l IH]; intros Hl; [done|]. unfold raw_bytes in *. cbn [zsum foldr]. fold (zsum (fun e : RawEntry => zlen e.1 + zlen e.2) l).
    rewrite IH by set_solver. rewrite (Hs e) by set_solver. unfold zlen. cbn [length]. lia. }
  assert (zlen page = uval n \/ rest = []) as [Hfull| ->].
  - destruct Hf as [?|[Hrest|(e & Ee & Hbig)]]; [by left| |].
    + right. rewrite <- (app_nil_r page) in Hrest at 1. by apply app_inv_head in Hrest.
    + left. rewrite lookup_app_r, Nat.sub_diag in Ee by done. destruct Hbig as [_ Hbig]. rewrite Hraw in Hbig.
      * unfold zlen in *. rewrite length_app in Hbig. cbn in Hbig. lia.
      * apply list_elem_of_lookup_2 in Ee. intros x. rewrite !elem_of_app. intros [?| ->%list_elem_of_singleton]; auto.
  - unfold zlen in Hfull. by rewrite <- Hfull, Nat2Z.id, take_app_length.
  - rewrite app_nil_r. unfold zlen in *. by rewrite take_ge by lia.
Qed.

(** Reads answer the logs. On a sound store that represents logs no read panics; an answered
    head is that of the log, an answered receipt that of the request, and an answered page of
    history the next heads after the cursor, oldest first, as many as the limit allows. *)
Theorem reads_answer_logs db logs :
  DbOk db -> Represents (committed db) logs ->
  (forall ns, exists r, head ns db = Some r /\ forall h, r = Ok h -> h = log_head (logs ns))
  /\ (forall ns request, exists r, resolve ns request db = Some r /\ forall x, r = Ok x -> x = log_receipt request (logs ns))
  /\ (forall ns after limit, exists r, history ns after limit db = Some r
       /\ forall page, r = Ok page -> 0 < uval limit <= 4096
            /\ page = take (Z.to_nat (uval limit)) (drop (log_start after) (log_heads (logs ns)))).
Proof.
  intros Hdb Hrep. split_and!.
  - intros ns. destruct (db_read_ok db Heads (blist ns) 40 Hdb eq_refl) as (r & E & _ & Hr). unfold head, read_as. rewrite E. cbn.
    eexists. split; [done|]. destruct r as [v|]; [|done]. cbn. destruct (Hr v eq_refl) as (_ & -> & _). intros h.
    pose proof (rep_heads _ _ Hrep ns) as Hh. unfold committed in Hh. rewrite Hh, decode_optional_head. by intros [= <-].
  - intros ns q. destruct (db_read_ok db Requests (request_key ns q) 72 Hdb eq_refl) as (r & E & _ & Hr). unfold resolve, read_as. rewrite E. cbn.
    eexists. split; [done|]. destruct r as [v|]; [|done]. cbn. destruct (Hr v eq_refl) as (_ & -> & _). intros x.
    pose proof (rep_requests _ _ Hrep ns q) as Hq. unfold committed in Hq. rewrite Hq. destruct (log_receipt _ _) as [[f h]|]; [|by intros [= <-]].
    cbn [fmap option_fmap option_map fst snd]. rewrite decode_encode_receipt. by intros [= <-].
  - intros ns after limit. unfold history. destruct (Z.eqb_spec (uval limit) 0); [by eexists|]. destruct (Z.ltb_spec 4096 (uval limit)); [by eexists|].
    pose proof (uval_range limit). cbn [orb]. case_bool_decide as Hmax.
    { eexists. split; [done|]. intros page [= <-]. split; [lia|]. subst after. cbn [log_start]. rewrite uval_umax.
      rewrite drop_ge; [by rewrite take_nil|]. unfold log_heads. rewrite length_imap. pose proof (rep_length _ _ Hrep ns). unfold zlen in *. simpl Z.of_N. lia. }
    destruct (db_scan_ok db History (history_key ns <$> after) (blist ns) (mkByteLimits limit (of_Z 64 (uval limit * 72))) Hdb eq_refl) as (r & E & Hr).
    rewrite E. cbn [mbind option_bind]. eexists. split; [done|]. intros page Ep. split; [lia|]. destruct r as [rows|]; [|done].
    cbn [map_err mbind result_bind] in Ep. specialize (Hr rows eq_refl). rewrite (history_scan_rows db logs) in Hr by done.
    apply raw_page_take in Hr; [|done|].
    + rewrite firstn_map in Hr. subst rows. rewrite decode_rows in Ep. by injection Ep as <-.
    + intros e (h & <- & _)%list_elem_of_In%in_map_iff. unfold head_row, history_key, zlen. cbn [fst snd].
      rewrite length_app, !length_blist, length_to_be_bytes. lia.
Qed.


End Reads.

(** ** Witnesses *)

Import Toy ToyEngines.

Lemma reads_answer_logs_witness : exists r, head (id32 1) sample_db = Some r /\ forall h, r = Ok h -> h = None.
Proof.
  destruct (reads_answer_logs sample_db (fun _ => []) sample_db_ok represents_empty) as [Hh _]. exact (Hh (id32 1)).
Defined.
