(* ===== verification/Archive.v ===== *)
(** * Archives and transfers (rs/src/storage/application/{validation,archive,transfer}.rs)

    Validation of the links between the application tables, the bounded inspection of a locked
    store, its seal, and the restartable copy of a sealed store into a shared owner. A loop over the
    pages of a table takes fuel; [None] is a panic, or fuel that ran out. *)

From S2P Require Import Prelude.
From S2P Require Import Crypto.
From S2P Require Import Access.
From S2P Require Import Shard.
From S2P Require Import Engine.
From S2P Require Import Database.
From S2P Require Import Application.

Local Open Scope Z_scope.

(** A fold whose step is a call. *)
Fixpoint sm_fold {E S A B} (l : list A) (f : B -> A -> SM E S B) (b : B) : SM E S B :=
  match l with
  | [] => mret b
  | x :: l => b ← f b x; sm_fold l f b
  end.

(** ** Records (validation.rs) *)

Definition page_limits : ByteLimits := mkByteLimits (of_Z 64 4096) (of_Z 64 (MAX_TRANSACTION_BYTES - 1024)).

(** The updates of [hash_row]. *)
Definition hash_row (key value : list u8) : list (list u8) := [le_bytes 8 (zlen key); key; le_bytes 8 (zlen value); value].

Definition is_ok {E A} (r : result E A) : bool := match r with Ok _ => true | Err _ => false end.

Definition validate_record (table : Table) (key value : list u8) : AppResult unit :=
  let valid := match table with
               | Content => zlen key =? 32
               | Heads => (zlen key =? 32) && is_ok (decode_head value)
               | History => (zlen key =? 40) && (zlen value =? 32)
               | Requests => (zlen key =? 64) && is_ok (decode_request value)
               | Claims => (zlen key =? 32) && (zlen value =? 32)
               | _ => false
               end in
  if valid : bool then Ok tt else Err Error.Corrupt.

Definition receipt_index (namespace : Particle) (index : u64) : list u8 := ascii_bytes "r" ++ blist namespace ++ to_be_bytes 8 index.

(** [key[..32]]. *)
Definition key_namespace (key : list u8) : option Particle := try_into 32 (take 32 key).

(** The namespace and index of the last history row. *)
Abbreviation Previous := (option (Particle * u64)).

(** The index a history row must have. *)
Definition expected_index (previous : Previous) (namespace : Particle) : AppResult u64 :=
  match previous with
  | Some (ns, n) => if bool_decide (ns = namespace) then ok_or (checked_add n (of_Z 64 1)) Error.Corrupt else Ok (of_Z 64 0)
  | None => Ok (of_Z 64 0)
  end.

(** ** Calls on an owner *)

Section Archive.
  Context `{Nebu, Hasher, Fjall, Redb}.

Abbreviation Owner := (SM Error.AppError Database).

(** A read of the owner. *)
Definition reading {A} (f : Database -> option (StorageResult A)) : Owner A :=
  fun db => r ← f db; Some (map_err from_storage r, db).

(** A transaction of the owner. *)
Definition committing {A} (body : SM Error.AppError Transaction A) : Owner A :=
  fun db => match transact body db with (Some r, db) => Some (r, db) | (None, _) => None end.

(** *** [validate_links] *)

(** The reverse index of the receipts of a page. *)
Definition index_receipts (rows : list RawEntry) : SM Error.AppError Transaction unit :=
  sm_for rows (fun '(key, value) =>
    '(_, head) ← sm_lift (decode_request value);
    namespace ← sm_some (key_namespace key);
    let index := receipt_index namespace (head_index head) in
    prior ← get Migration index 32;
    _ ← sm_require (match prior with Some v => bool_decide (v = drop 32 key) | None => true end) Error.Corrupt;
    put Migration index (drop 32 key)).

(** The head a row claims, and the row before the next one. *)
Definition row_head (table : Table) (previous : Previous) (key value : list u8) (namespace : Particle) : AppResult (Head * Previous) :=
  match table with
  | Heads => head ← decode_head value; Ok (head, previous)
  | Requests => '(_, head) ← decode_request value; Ok (head, previous)
  | History =>
      index ← take_bytes 8 (drop 32 key);
      let index := from_be_bytes 64 (blist index) in
      expected ← expected_index previous namespace;
      if bool_decide (index = expected) then
        commit ← take_bytes 32 value;
        Ok (mkHead index commit, Some (namespace, index))
      else Err Error.Corrupt
  | _ => Err Error.Corrupt
  end.

(** The history row and the content of a head. *)
Definition check_head (namespace : Particle) (head : Head) : Owner unit :=
  commit ← reading (db_read History (history_key namespace (head_index head)) 32);
  _ ← sm_require (bool_decide (commit = Some (blist (head_commit head)))) Error.Corrupt;
  data ← reading (db_read Content (blist (head_commit head)) MAX_BYTES_VALUE);
  sm_require (bool_decide (is_Some data)) Error.Corrupt.

Definition check_row (table : Table) (previous : Previous) (row : RawEntry) : Owner Previous :=
  let '(key, value) := row in
  namespace ← sm_some (key_namespace key);
  '(head, previous) ← sm_lift (row_head table previous key value namespace);
  _ ← check_head namespace head;
  selected ← reading (db_read Heads (blist namespace) 40);
  selected ← sm_lift (ok_or selected Error.Corrupt);
  selected ← sm_lift (decode_head selected);
  _ ← sm_require (uval (head_index head) <=? uval (head_index selected)) Error.Corrupt;
  if bool_decide (table = History) then
    receipt ← reading (db_read Migration (receipt_index namespace (head_index head)) 32);
    _ ← sm_require (bool_decide (is_Some receipt)) Error.Corrupt;
    mret previous
  else mret previous.

(** The body of the loop over the pages of a table. *)
Definition check_page (table : Table) (previous : Previous) (rows : list RawEntry) : Owner Previous :=
  _ ← sm_for rows (fun '(key, value) => sm_lift (validate_record table key value));
  _ ← (if bool_decide (table = Requests) then committing (index_receipts rows) else mret tt);
  sm_fold rows (check_row table) previous.

Fixpoint check_pages (fuel : nat) (table : Table) (after : option (list u8)) (previous : Previous) : Owner unit :=
  match fuel with
  | O => sm_some None
  | S fuel =>
      rows ← reading (db_scan table after [] page_limits);
      match rows with
      | [] => mret tt
      | _ =>
          previous ← check_page table previous rows;
          check_pages fuel table (fst <$> last rows) previous
      end
  end.

(** The loop that drops the reverse index. *)
Fixpoint drop_index (fuel : nat) : Owner unit :=
  match fuel with
  | O => sm_some None
  | S fuel =>
      rows ← reading (db_scan Migration None (ascii_bytes "r") page_limits);
      match rows with
      | [] => mret tt
      | _ =>
          _ ← committing (sm_for rows (fun '(key, _) => app (tx_remove Migration key)));
          drop_index fuel
      end
  end.

Definition validate_links (fuel : nat) : Owner unit :=
  _ ← sm_for [Heads; Requests; History] (fun table => check_pages fuel table None None);
  drop_index fuel.

(** ** Inspection (archive.rs) *)

Definition MAX_INSPECTION_ROWS : Z := 1000000.
Definition MAX_INSPECTION_BYTES : Z := 8 * 1024 * 1024 * 1024.
Definition TABLES : list Table := [Content; Claims; Requests; History; Heads].
Definition SEAL : list u8 := ascii_bytes "application-export".

Record ArchiveSeal := mkArchiveSeal { as_target : Particle; as_nonce : Particle; as_prior : Particle; as_manifest : Particle }.
Record ArchiveSummary := mkArchiveSummary { su_rows : u64; su_bytes : u64; su_tables : list u64; su_digest : Particle }.

Record ApplicationArchive := mkArchive {
  ar_store : Database;
  ar_sources : list (Particle * Head);
  ar_seal : option ArchiveSeal;
  ar_transaction : option Particle;
}.

Definition TRANSFER_TAG : list u8 := ascii_bytes "bbg/application-transfer/1" ++ [of_Z 8 0].
Definition ROWS_TAG : list u8 := ascii_bytes "bbg/application-archive-rows/1" ++ [of_Z 8 0].

(** The updates for the sources. *)
Definition source_chunks (sources : list (Particle * Head)) : list (list u8) :=
  flat_map (fun '(id, head) => [blist id; blist (to_le_bytes 8 (head_index head)); blist (head_commit head)]) sources.

(** The manifest of the sealed bytes before it. *)
Definition seal_manifest (sealed : list u8) (sources : list (Particle * Head)) : Particle :=
  hasher_digest (TRANSFER_TAG :: sealed :: source_chunks sources).

Definition decode_seal (status : option (list u8)) (sources : list (Particle * Head)) (data : list u8) : AppResult ArchiveSeal :=
  if negb (zlen data =? 128) || negb (bool_decide (status = Some (ascii_bytes "export-v1"))) then Err Error.Corrupt
  else if negb (bool_decide (blist (seal_manifest (take 96 data) sources) = drop 96 data)) then Err Error.Corrupt
  else
    target ← take_bytes 32 (take 32 data);
    nonce ← take_bytes 32 (take 32 (drop 32 data));
    prior ← take_bytes 32 (take 32 (drop 64 data));
    manifest ← take_bytes 32 (drop 96 data);
    Ok (mkArchiveSeal target nonce prior manifest).

Definition source_row (row : RawEntry) : AppResult (Particle * Head) :=
  id ← take_bytes 32 row.1;
  head ← decode_head row.2;
  Ok (id, head).

(** A table without rows. *)
Definition require_no_rows (table : Table) : Owner unit :=
  rows ← reading (db_scan table None [] (mkByteLimits (of_Z 64 1) (of_Z 64 MAX_TRANSACTION_BYTES)));
  sm_require (bool_decide (rows = [])) Error.Conflict.

(** [open], once the engine is: what the store must hold. *)
Definition archive_checks : Owner (list (Particle * Head) * option ArchiveSeal * option Particle) :=
  _ ← reading (fun db => Some (db_check_known_tables db));
  status ← reading (db_read Migration STATUS 16);
  _ ← sm_require (match status with
                  | Some s => bool_decide (s = ascii_bytes "complete" \/ s = ascii_bytes "export-v1")
                  | None => true
                  end) Error.Conflict;
  _ ← sm_for (map (fun d => Shard (of_Z 8 (Z.of_nat d))) (seq 0 14)) require_no_rows;
  _ ← sm_for (map Native record_domains) require_no_rows;
  heads ← reading (db_scan Heads None [] (mkByteLimits (of_Z 64 257) (of_Z 64 32768)));
  _ ← sm_require (negb (bool_decide (heads = []) || (256 <? zlen heads))) Error.Limit;
  sources ← sm_lift (mapM source_row heads);
  data ← reading (db_read Migration SEAL 128);
  seal ← sm_lift (transpose (decode_seal status sources <$> data));
  _ ← sm_require (negb (bool_decide (status = Some (ascii_bytes "export-v1")) && negb (bool_decide (is_Some data)))) Error.Corrupt;
  transaction ← reading db_last_transaction;
  mret (sources, seal, transaction).

(** [open]: whether the path is a database directory, whether the file of an unfinished import
    exists, and the engine opened there. *)
Definition archive_open (is_database : bool) (guard : AppResult bool) (engine : StorageResult Engine) : option (AppResult ApplicationArchive) :=
  if negb is_database then Some (Err (Error.Storage "archive must be an existing SSD database directory"))
  else
    match guard with
    | Err error => Some (Err error)
    | Ok true => Some (Err Error.Conflict)
    | Ok false =>
        match engine with
        | Err error => Some (Err (from_storage error))
        | Ok engine =>
            '(r, db) ← archive_checks (from_engine engine);
            Some ('(sources, seal, transaction) ← r; Ok (mkArchive db sources seal transaction))
        end
    end.

(** What [inspect] carries: the counters, the updates of its hash, the receipts without a history
    row, and the history row before. *)
Record Inspection := mkInspection {
  in_rows : u64;
  in_bytes : u64;
  in_tables : list u64;
  in_chunks : list (list u8);
  in_receipts : gset (Particle * u64);
  in_previous : Previous;
}.

(** A validator of contents, which reads the archive. *)
Definition ValidateContent : Type := Particle -> list u8 -> Database -> option (AppResult unit).

Definition validating (validate : ValidateContent) (id : Particle) (data : list u8) : Owner unit :=
  fun db => r ← validate id data db; Some (r, db).

(** The counters and the hash after a row. *)
Definition count_row (max_rows max_bytes : u64) (ordinal : nat) (table : Table) (st : Inspection) (key value : list u8) : AppResult Inspection :=
  rows ← ok_or (checked_add (in_rows st) (of_Z 64 1)) Error.Limit;
  total ← ok_or (checked_add (in_bytes st) (of_Z 64 (zlen key + zlen value))) Error.Limit;
  if (uval max_rows <? uval rows) || (uval max_bytes <? uval total) then Err Error.Limit
  else
    let tables := alter (fun n => of_Z 64 (uval n + 1)) ordinal (in_tables st) in
    _ ← validate_record table key value;
    Ok (mkInspection rows total tables (in_chunks st ++ hash_row key value) (in_receipts st) (in_previous st)).

(** The head a row claims, with its receipt inserted or removed. *)
Definition inspect_head (table : Table) (st : Inspection) (key value : list u8) (namespace : Particle) : AppResult (Head * Inspection) :=
  match table with
  | Heads => head ← decode_head value; Ok (head, st)
  | Requests =>
      '(_, head) ← decode_request value;
      if bool_decide ((namespace, head_index head) ∈ in_receipts st) then Err Error.Corrupt
      else Ok (head, mkInspection (in_rows st) (in_bytes st) (in_tables st) (in_chunks st)
                       ({[(namespace, head_index head)]} ∪ in_receipts st) (in_previous st))
  | History =>
      index ← take_bytes 8 (drop 32 key);
      let index := from_be_bytes 64 (blist index) in
      expected ← expected_index (in_previous st) namespace;
      if negb (bool_decide (index = expected)) || negb (bool_decide ((namespace, index) ∈ in_receipts st)) then Err Error.Corrupt
      else
        commit ← take_bytes 32 value;
        Ok (mkHead index commit, mkInspection (in_rows st) (in_bytes st) (in_tables st) (in_chunks st)
                                   (in_receipts st ∖ {[(namespace, index)]}) (Some (namespace, index)))
  | _ => Err Error.Corrupt
  end.

(** The head of the namespace, past the head of the row, and the content of the row. *)
Definition inspect_links (namespace : Particle) (head : Head) : Owner unit :=
  selected ← (fun db => r ← Application.head namespace db; Some (r, db));
  selected ← sm_lift (ok_or selected Error.Corrupt);
  _ ← sm_require (uval (head_index head) <=? uval (head_index selected)) Error.Corrupt;
  check_head namespace head.

Definition inspect_row (validate : ValidateContent) (max_rows max_bytes : u64) (ordinal : nat) (table : Table)
    (st : Inspection) (row : RawEntry) : Owner Inspection :=
  let '(key, value) := row in
  st ← sm_lift (count_row max_rows max_bytes ordinal table st key value);
  match table with
  | Content =>
      id ← sm_lift (take_bytes 32 key);
      _ ← validating validate id value;
      mret st
  | Claims => mret st
  | _ =>
      namespace ← sm_some (key_namespace key);
      '(head, st) ← sm_lift (inspect_head table st key value namespace);
      _ ← inspect_links namespace head;
      mret st
  end.

(** The pages of inspection and transfer. *)
Definition limits : ByteLimits := mkByteLimits (of_Z 64 512) (of_Z 64 (MAX_TRANSACTION_BYTES - 4096)).

Fixpoint inspect_pages (fuel : nat) (validate : ValidateContent) (max_rows max_bytes : u64) (ordinal : nat) (table : Table)
    (after : option (list u8)) (st : Inspection) : Owner Inspection :=
  match fuel with
  | O => sm_some None
  | S fuel =>
      rows ← reading (db_scan table after [] limits);
      match rows with
      | [] => mret st
      | _ =>
          st ← sm_fold rows (inspect_row validate max_rows max_bytes ordinal table) st;
          inspect_pages fuel validate max_rows max_bytes ordinal table (fst <$> last rows) st
      end
  end.

(** One table of the outer loop: its ordinal is hashed and the history starts over. *)
Definition inspect_table (fuel : nat) (validate : ValidateContent) (max_rows max_bytes : u64) (st : Inspection) (t : nat * Table) : Owner Inspection :=
  let '(ordinal, table) := t in
  inspect_pages fuel validate max_rows max_bytes ordinal table None
    (mkInspection (in_rows st) (in_bytes st) (in_tables st) (in_chunks st ++ [[of_Z 8 (Z.of_nat ordinal)]]) (in_receipts st) None).

Definition inspect (fuel : nat) (transaction : option Particle) (max_rows max_bytes : u64) (validate : ValidateContent) : Owner ArchiveSummary :=
  _ ← sm_require (negb ((uval max_rows =? 0) || (MAX_INSPECTION_ROWS <? uval max_rows)
                        || (uval max_bytes =? 0) || (MAX_INSPECTION_BYTES <? uval max_bytes))) Error.Limit;
  st ← sm_fold (imap pair TABLES) (inspect_table fuel validate max_rows max_bytes)
         (mkInspection (of_Z 64 0) (of_Z 64 0) (repeat (of_Z 64 0) 5) [ROWS_TAG] ∅ None);
  _ ← sm_require (bool_decide (in_receipts st = ∅)) Error.Corrupt;
  last ← reading db_last_transaction;
  _ ← sm_require (bool_decide (last = transaction)) Error.Corrupt;
  mret (mkArchiveSummary (in_rows st) (in_bytes st) (in_tables st) (hasher_digest (in_chunks st))).

End Archive.
