(* ===== verification/Transfer.v ===== *)
(** * The transfer of a sealed store (rs/src/storage/application/transfer.rs)

    The seal of a source, and the copy of its tables into a target owner, one atomic page at a time,
    with a durable cursor. The two owners are the state: the source first. *)

From S2P Require Import Prelude.
From S2P Require Import Crypto.
From S2P Require Import Access.
From S2P Require Import Shard.
From S2P Require Import Engine.
From S2P Require Import Database.
From S2P Require Import Application.
From S2P Require Import Archive.

Local Open Scope Z_scope.

Section Transfer.
  Context `{Nebu, Hasher, Fjall, Redb}.

Record TransferSource := mkTransferSource { ts_manifest : Particle; ts_target : Particle; ts_sources : list (Particle * Head) }.
Record TransferProgress := mkTransferProgress { tp_manifest : Particle; tp_rows : u64; tp_bytes : u64; tp_complete : bool }.

Abbreviation Owner := (SM Error.AppError Database).
Abbreviation Owners := (SM Error.AppError (Database * Database)).

Definition on_source {A} (m : Owner A) : Owners A := sm_zoom fst (fun p db => (db, p.2)) m.
Definition on_target {A} (m : Owner A) : Owners A := sm_zoom snd (fun p db => (p.1, db)) m.

(** *** Sealing *)

(** The transaction that seals a store. *)
Definition seal_body (sources : list (Particle * Head)) (seal : list u8) : SM Error.AppError Transaction unit :=
  _ ← sm_for sources (fun '(id, head) =>
    current ← get Heads (blist id) 40;
    sm_require (bool_decide (current = Some (encode_head head))) Error.Conflict);
  _ ← immutable_put Migration SEAL seal 128;
  put Migration STATUS (ascii_bytes "export-v1").

(** [from_archive] over the store and the sources of the archive. *)
Definition from_archive (sources : list (Particle * Head)) (target key : Particle) : Owner TransferSource :=
  status ← reading (db_read Migration STATUS 16);
  _ ← sm_require (negb (existsb (fun '(id, _) => bool_decide (id = target)) sources)) Error.Conflict;
  sealed ← reading (db_read Migration SEAL 128);
  seal ← match sealed with
         | Some seal =>
             _ ← sm_require ((zlen seal =? 128) && bool_decide (take 32 seal = blist target)
                             && bool_decide (take 32 (drop 32 seal) = blist key)) Error.Conflict;
             mret seal
         | None =>
             _ ← sm_require (negb (bool_decide (status = Some (ascii_bytes "export-v1")))) Error.Corrupt;
             prior ← reading db_last_transaction;
             let prior := default (buffer 32 []) prior in
             let manifest := hasher_digest (TRANSFER_TAG :: blist target :: blist key :: blist prior :: source_chunks sources) in
             let seal := blist target ++ blist key ++ blist prior ++ blist manifest in
             _ ← committing (seal_body sources seal);
             mret seal
         end;
  manifest ← sm_lift (take_bytes 32 (drop 96 seal));
  _ ← sm_require (bool_decide (seal_manifest (take 96 seal) sources = manifest)) Error.Corrupt;
  mret (mkTransferSource manifest target sources).

(** *** The target *)

(** The body of [prepare_target]. *)
Definition prepare_source (ts : TransferSource) (source : Particle * Head) : SM Error.AppError Transaction unit :=
  let id := source.1 in
  _ ← sm_require (negb (bool_decide (id = ts_target ts))) Error.Conflict;
  current ← get Heads (blist id) 40;
  _ ← sm_require (bool_decide (current = None)) Error.Conflict;
  fence ← get Migration (fence_key id) 64;
  _ ← sm_require (bool_decide (fence = None)) Error.Conflict;
  staged ← get Migration (stage_key id) 32;
  _ ← sm_require (bool_decide (staged = None)) Error.Conflict;
  put Migration (stage_key id) (blist (ts_manifest ts)).

Definition prepare_target (ts : TransferSource) : SM Error.AppError Transaction unit :=
  let key := cursor_key (ts_manifest ts) in
  cursor ← get Migration key 82;
  match cursor with
  | Some _ => mret tt
  | None =>
      _ ← app (promote NeuronV1);
      _ ← sm_for (ts_sources ts) (prepare_source ts);
      _ ← put Migration (target_key (ts_manifest ts)) (blist (ts_target ts));
      put Migration key (cursor_encode (mkCursor (of_Z 8 0) None (of_Z 64 0) (of_Z 64 0)))
  end.

(** *** Staging *)

(** A row of the page: it is validated and counted. *)
Definition stage_row (validate : ValidateContent) (table : Table) (next : Cursor) (row : RawEntry) : Owner Cursor :=
  let '(key, value) := row in
  _ ← sm_lift (validate_record table key value);
  _ ← (if bool_decide (table = Content) then id ← sm_lift (take_bytes 32 key); validating validate id value else mret tt);
  rows ← sm_lift (ok_or (checked_add (cu_rows next) (of_Z 64 1)) Error.Limit);
  total ← sm_lift (ok_or (checked_add (cu_bytes next) (of_Z 64 (zlen key + zlen value))) Error.Limit);
  mret (mkCursor (cu_table next) (cu_after next) rows total).

(** The cursor after a page of the source. *)
Definition stage_next (fuel : nat) (validate : ValidateContent) (table : Table) (cursor : Cursor) (rows : list RawEntry) : Owner Cursor :=
  match rows with
  | [] =>
      let next := mkCursor (of_Z 8 (uval (cu_table cursor) + 1)) None (cu_rows cursor) (cu_bytes cursor) in
      _ ← (if uval (cu_table next) =? 5 then validate_links fuel else mret tt);
      mret next
  | _ =>
      next ← sm_fold rows (stage_row validate table) cursor;
      mret (mkCursor (cu_table next) (fst <$> last rows) (cu_rows next) (cu_bytes next))
  end.

(** The transaction that copies a page and moves the cursor. *)
Definition stage_body (manifest : Particle) (table : Table) (rows : list RawEntry) (cursor next : Cursor) : SM Error.AppError Transaction unit :=
  let key := cursor_key manifest in
  current ← get Migration key 82;
  _ ← sm_require (bool_decide (current = Some (cursor_encode cursor))) Error.Conflict;
  _ ← sm_for rows (fun '(key, value) => immutable_put table key value MAX_BYTES_VALUE);
  put Migration key (cursor_encode next).

Fixpoint stage_pages (fuel pages : nat) (validate : ValidateContent) (manifest : Particle) (cursor : Cursor) : Owners Cursor :=
  match pages with
  | O => mret cursor
  | S pages =>
      if uval (cu_table cursor) =? 5 then mret cursor
      else
        table ← sm_some (TABLES !! Z.to_nat (uval (cu_table cursor)));
        rows ← on_source (reading (db_scan table (cu_after cursor) [] limits));
        next ← on_source (stage_next fuel validate table cursor rows);
        _ ← on_target (committing (stage_body manifest table rows cursor next));
        stage_pages fuel pages validate manifest next
  end.

Definition stage (fuel : nat) (ts : TransferSource) (pages : Z) (validate : ValidateContent) : Owners TransferProgress :=
  _ ← sm_require (negb ((pages =? 0) || (4096 <? pages))) Error.Limit;
  _ ← on_target (committing (prepare_target ts));
  data ← on_target (reading (db_read Migration (cursor_key (ts_manifest ts)) 82));
  data ← sm_lift (ok_or data Error.Corrupt);
  cursor ← sm_lift (cursor_decode data);
  cursor ← stage_pages fuel (Z.to_nat pages) validate (ts_manifest ts) cursor;
  mret (mkTransferProgress (ts_manifest ts) (cu_rows cursor) (cu_bytes cursor) (uval (cu_table cursor) =? 5)).

End Transfer.
