(* ===== verification/ArchiveSpec.v ===== *)
(** * What an inspection shows

    An archive whose inspection succeeds holds the rows of one log per namespace, and the summary
    counts and hashes every row of its tables once. *)

From S2P Require Import Prelude.
From S2P Require Import Crypto.
From S2P Require Import Access.
From S2P Require Import Shard.
From S2P Require Import Engine.
From S2P Require Import Database.
From S2P Require Import Application.
From S2P Require Import Journal.
From S2P Require Import JournalReads.
From S2P Require Import Archive.

Local Open Scope Z_scope.

(** ** Decoding *)

Lemma decode_head_Ok data h : decode_head data = Ok h <-> data = encode_head h.
Proof.
  split; [|intros ->; apply decode_encode_head]. unfold decode_head. destruct (Z.eqb_spec (zlen data) 40) as [Hl|]; [|done]. cbn [negb].
  destruct (take_bytes 8 _) as [i|] eqn:Ei; [|done]. destruct (take_bytes 32 _) as [c|] eqn:Ec; [|done]. cbn [mbind result_bind]. intros [= <-].
  apply take_bytes_ok in Ei, Ec. unfold encode_head. cbn [head_index head_commit]. rewrite to_from_le_bytes, Ei, Ec by done. symmetry. apply take_drop.
Qed.

Lemma decode_request_Ok data f h : decode_request data = Ok (f, h) <-> data = encode_receipt f h.
Proof.
  split; [|intros ->; apply decode_encode_receipt]. unfold decode_request. destruct (negb _); [done|].
  destruct (take_bytes 32 _) as [f'|] eqn:Ef; [|done]. destruct (decode_head _) as [h'|] eqn:Eh; [|done]. cbn. intros [= -> ->].
  apply take_bytes_ok in Ef. apply decode_head_Ok in Eh. unfold encode_receipt. rewrite Ef, <- Eh. symmetry. apply take_drop.
Qed.

Lemma key_namespace_Some key ns : key_namespace key = Some ns <-> exists rest, key = blist ns ++ rest.
Proof.
  unfold key_namespace. rewrite try_into_Some. split.
  - intros E. exists (drop 32 key). by rewrite E, take_drop.
  - intros [rest ->]. rewrite take_app_length' by by rewrite length_blist. done.
Qed.

Lemma key_namespace_app ns rest : key_namespace (blist ns ++ rest) = Some ns.
Proof. apply key_namespace_Some. by eexists. Qed.

Lemma long_key key : 32 <= zlen key -> exists ns, key_namespace key = Some ns /\ key = blist ns ++ drop 32 key.
Proof.
  intros Hl. destruct (key_namespace key) as [ns|] eqn:E.
  - exists ns. split; [done|]. apply key_namespace_Some in E as [rest ->]. by rewrite drop_app_length' by by rewrite length_blist.
  - unfold key_namespace in E. apply try_into_None in E. rewrite length_take in E. unfold zlen in Hl. lia.
Qed.

Lemma bytes_of n (data : list u8) : length data = n -> exists b : bytes n, blist b = data.
Proof.
  intros Hl. destruct (try_into n data) as [b|] eqn:E; [apply try_into_Some in E; eauto|]. by apply try_into_None in E.
Qed.

(** A valid row is one of its table. *)
Definition valid_row (t : Table) (key value : list u8) : Prop :=
  match t with
  | Content => exists id, key = blist (n := 32) id
  | Heads => exists ns h, key = blist (n := 32) ns /\ value = encode_head h
  | History => exists ns i c, key = history_key ns i /\ value = blist (n := 32) c
  | Requests => exists ns r f h, key = request_key ns r /\ value = encode_receipt f h
  | Claims => exists id x, key = blist (n := 32) id /\ value = blist (n := 32) x
  | _ => False
  end.

Lemma validate_record_Ok t key value : validate_record t key value = Ok tt -> valid_row t key value.
Proof.
  unfold validate_record. destruct (match t with Content => _ | _ => _ end) eqn:E; [|done]. intros _.
  assert (forall l, zlen l = 32 -> exists b : Particle, l = blist b) as H32.
  { intros l Hl. destruct (bytes_of 32 l) as [b <-]; [unfold zlen in Hl; lia|by eexists]. }
  destruct t; try discriminate; cbn.
  - apply Z.eqb_eq, H32 in E as [b ->]. by eexists.
  - apply andb_true_iff in E as [[ns ->]%Z.eqb_eq%H32 E]. destruct (decode_head value) as [h|] eqn:Eh; [|done].
    apply decode_head_Ok in Eh as ->. by exists ns, h.
  - apply andb_true_iff in E as [Hk%Z.eqb_eq [c ->]%Z.eqb_eq%H32]. destruct (long_key key) as (ns & _ & ->); [lia|].
    destruct (bytes_of 8 (drop 32 key)) as [b Eb]; [rewrite length_drop; unfold zlen in Hk; lia|].
    exists ns, (from_be_bytes 64 (blist b)), c. split; [|done]. unfold history_key. f_equal. rewrite <- Eb.
    unfold to_be_bytes, from_be_bytes. pose proof (le_bytes_le_val (rev (blist b))) as Hb. rewrite length_rev, length_blist in Hb.
    pose proof (le_val_bound (rev (blist b))) as Hr. rewrite length_rev, length_blist in Hr.
    rewrite uval_of_Z_small by (simpl in *; lia). by rewrite Hb, rev_involutive.
  - apply andb_true_iff in E as [Hk%Z.eqb_eq E]. destruct (decode_request value) as [[f h]|] eqn:Ed; [|done].
    apply decode_request_Ok in Ed as ->. destruct (long_key key) as (ns & _ & ->); [lia|].
    destruct (H32 (drop 32 key)) as [r Er]; [unfold zlen in *; rewrite length_drop; lia|]. exists ns, r, f, h. by rewrite Er.
  - apply andb_true_iff in E as [[id ->]%Z.eqb_eq%H32 [x ->]%Z.eqb_eq%H32]. by exists id, x.
Qed.

(** ** Linked tables *)

(** The head and the content a row of a namespace leads to. *)
Definition links (v : View) (ns : Particle) (h : Head) : Prop :=
  (exists sel, v Heads (blist ns) = Some (encode_head sel) /\ uval (head_index h) <= uval (head_index sel))
  /\ v History (history_key ns (head_index h)) = Some (blist (head_commit h)) /\ is_Some (v Content (blist (head_commit h))).

(** What inspection establishes of the rows of the tables. *)
Record Linked (v : View) : Prop := {
  lk_valid t k x : journal_table t = true -> v t k = Some x -> valid_row t k x;
  lk_heads ns h : v Heads (blist ns) = Some (encode_head h) -> links v ns h;
  lk_requests ns r f h : v Requests (request_key ns r) = Some (encode_receipt f h) -> links v ns h;
  lk_history ns i c : v History (history_key ns i) = Some (blist c) -> links v ns (mkHead i c);
  lk_contiguous ns i j : is_Some (v History (history_key ns i)) -> uval j <= uval i -> is_Some (v History (history_key ns j));
  lk_receipts ns i : is_Some (v History (history_key ns i)) ->
    exists r f h, v Requests (request_key ns r) = Some (encode_receipt f h) /\ head_index h = i;
  lk_one ns r f h r' f' h' : v Requests (request_key ns r) = Some (encode_receipt f h) ->
    v Requests (request_key ns r') = Some (encode_receipt f' h') -> head_index h = head_index h' -> r = r';
}.

(** The receipts of a namespace at an index, among rows. *)
Definition row_entries (ns : Particle) (i : u64) (row : RawEntry) : list Entry :=
  match key_namespace row.1, try_into 32 (drop 32 row.1), decode_request row.2 with
  | Some ns', Some r, Ok (f, h) =>
      if bool_decide (ns' = ns /\ head_index h = i) then [mkEntry r f (head_commit h)] else []
  | _, _, _ => []
  end.

(** The logs the tables spell. *)
Definition logs_of (heads requests : Rows) : Logs := fun ns =>
  match decode_head <$> heads !! blist ns with
  | Some (Ok h) => flat_map (fun i => take 1 (flat_map (row_entries ns (of_Z 64 (Z.of_nat i))) (btree_iter requests))) (seq 0 (S (Z.to_nat (uval (head_index h)))))
  | _ => []
  end.

Lemma flat_map_singles {A B} (f : A -> list B) (g : A -> B) l : (forall x, x ∈ l -> f x = [g x]) -> flat_map f l = map g l.
Proof.
  induction l as [|x l IH]; intros Hf; [done|]. cbn [flat_map map]. rewrite (Hf x) by (by left). cbn. f_equal. apply IH. intros y Hy. apply Hf. by right.
Qed.

Lemma elem_of_row_entries ns i e k x :
  e ∈ row_entries ns i (k, x) <-> exists h, k = request_key ns (e_request e) /\ x = encode_receipt (e_fingerprint e) h /\ head_index h = i /\ head_commit h = e_commit e.
Proof.
  unfold row_entries. cbn [fst snd]. split.
  - destruct (key_namespace k) as [ns'|] eqn:Ek; [|by intros ?%not_elem_of_nil].
    destruct (try_into 32 (drop 32 k)) as [r|] eqn:Er; [|by intros ?%not_elem_of_nil].
    destruct (decode_request x) as [[f h]|] eqn:Ed; [|by intros ?%not_elem_of_nil].
    case_bool_decide as Hd; [|by intros ?%not_elem_of_nil]. destruct Hd as [-> Hi]. intros ->%list_elem_of_singleton. exists h.
    apply decode_request_Ok in Ed. apply key_namespace_Some in Ek as [rest ->]. apply try_into_Some in Er.
    rewrite drop_app_length' in Er by by rewrite length_blist. subst rest. done.
  - intros (h & -> & -> & Hi & Hc). unfold request_key. rewrite key_namespace_app, drop_app_length' by by rewrite length_blist.
    rewrite try_into_blist, decode_encode_receipt, bool_decide_eq_true_2 by done. apply list_elem_of_singleton. destruct e. cbn in *. by rewrite Hc.
Qed.

Section Linked.
  Context `{Nebu, Hasher, Fjall, Redb}.

(** The receipts of an index are one. *)
Lemma linked_entries (v : View) (requests : Rows) ns i :
  Linked v -> (forall k, requests !! k = v Requests k) -> is_Some (v History (history_key ns i)) ->
  exists e, take 1 (flat_map (row_entries ns i) (btree_iter requests)) = [e]
    /\ exists h, v Requests (request_key ns (e_request e)) = Some (encode_receipt (e_fingerprint e) h) /\ head_index h = i /\ head_commit h = e_commit e.
Proof.
  intros Hl Hq Hi. destruct (lk_receipts _ Hl ns i Hi) as (r & f & h & Hr & Hh).
  destruct (flat_map (row_entries ns i) (btree_iter requests)) as [|e rest] eqn:E.
  - exfalso. assert (mkEntry r f (head_commit h) ∈ @nil Entry) as Hx; [|by apply not_elem_of_nil in Hx].
    rewrite <- E. apply list_elem_of_In, in_flat_map. exists (request_key ns r, encode_receipt f h). split.
    + apply list_elem_of_In, elem_of_btree_iter. by rewrite Hq.
    + apply list_elem_of_In, elem_of_row_entries. by exists h.
  - exists e. split; [done|]. assert (e ∈ flat_map (row_entries ns i) (btree_iter requests)) as He by (rewrite E; by left).
    apply list_elem_of_In, in_flat_map in He as ([k x] & Hk%list_elem_of_In%elem_of_btree_iter & (h' & -> & -> & ? & ?)%list_elem_of_In%elem_of_row_entries).
    exists h'. by rewrite <- Hq.
Qed.

(** The log of a namespace: one entry for each index up to the head's. *)
Lemma linked_log (v : View) (heads requests : Rows) ns :
  Linked v -> (forall k, heads !! k = v Heads k) -> (forall k, requests !! k = v Requests k) ->
  match v Heads (blist ns) with
  | None => logs_of heads requests ns = [] /\ forall i, v History (history_key ns i) = None
  | Some _ => exists sel, v Heads (blist ns) = Some (encode_head sel) /\ length (logs_of heads requests ns) = S (Z.to_nat (uval (head_index sel)))
      /\ (forall i, is_Some (v History (history_key ns i)) <-> uval i <= uval (head_index sel))
      /\ forall i e, logs_of heads requests ns !! i = Some e -> exists h,
           v Requests (request_key ns (e_request e)) = Some (encode_receipt (e_fingerprint e) h) /\ head_index h = of_Z 64 (Z.of_nat i)
           /\ head_commit h = e_commit e /\ uval (of_Z 64 (Z.of_nat i)) = Z.of_nat i
  end.
Proof.
  intros Hl Hh Hq. unfold logs_of. rewrite Hh. destruct (v Heads (blist ns)) as [b|] eqn:Eb.
  2:{ split; [done|]. intros i. destruct (v History (history_key ns i)) as [c|] eqn:Ec; [|done].
    destruct (lk_valid _ Hl History _ _ eq_refl Ec) as (ns' & i' & c' & [<- <-]%history_key_inj & ->).
    destruct (lk_history _ Hl ns i c' Ec) as [(sel & Es & _) _]. congruence. }
  destruct (lk_valid _ Hl Heads _ _ eq_refl Eb) as (ns' & sel & <-%bytes_eq & ->). exists sel. split; [done|].
  cbn [fmap option_fmap option_map]. rewrite decode_encode_head. pose proof (uval_range (head_index sel)) as Hr.
  assert (forall i, is_Some (v History (history_key ns i)) <-> uval i <= uval (head_index sel)) as Hist.
  { intros i. destruct (lk_heads _ Hl ns sel Eb) as (_ & Hc & _). split.
    - intros [c Hi]. destruct (lk_valid _ Hl History _ _ eq_refl Hi) as (ns' & i' & c' & [<- <-]%history_key_inj & ->).
      destruct (lk_history _ Hl ns i c' Hi) as [(sel' & Es & Hle) _]. rewrite Eb in Es. by apply (inj Some), (inj encode_head) in Es as <-.
    - intros Hle. eapply lk_contiguous; [done|by eexists|done]. }
  assert (forall i, (i <= Z.to_nat (uval (head_index sel)))%nat -> uval (of_Z 64 (Z.of_nat i)) = Z.of_nat i) as Hu.
  { intros i Hi. apply uval_of_Z_small. lia. }
  assert (exists g : nat -> Entry, forall i, (i <= Z.to_nat (uval (head_index sel)))%nat ->
    take 1 (flat_map (row_entries ns (of_Z 64 (Z.of_nat i))) (btree_iter requests)) = [g i]) as [g Hg].
  { exists (fun i => default (mkEntry ns ns ns) (take 1 (flat_map (row_entries ns (of_Z 64 (Z.of_nat i))) (btree_iter requests)) !! 0%nat)).
    intros i Hi. destruct (linked_entries v requests ns (of_Z 64 (Z.of_nat i)) Hl Hq) as (e & -> & _); [|done].
    apply Hist. rewrite Hu by done. lia. }
  rewrite (flat_map_singles _ g); [|intros i Hi%elem_of_seq; apply Hg; lia]. rewrite length_map, length_seq. split; [done|]. split; [done|].
  intros i e He. change (map g ?l) with (g <$> l) in He. rewrite list_lookup_fmap in He. revert He. intros (j & [Ej Hj]%lookup_seq & ->)%fmap_Some. cbn in Ej. subst j.
  assert ((i <= Z.to_nat (uval (head_index sel)))%nat) as Hi by lia.
  destruct (linked_entries v requests ns (of_Z 64 (Z.of_nat i)) Hl Hq) as (e & Ee & h & ? & ? & ?); [apply Hist; rewrite Hu by done; lia|].
  rewrite (Hg i Hi) in Ee. injection Ee as <-. exists h. by rewrite Hu.
Qed.

(** Linked tables are those of logs. *)
Lemma linked_represents (v : View) (heads requests : Rows) :
  Linked v -> (forall k, heads !! k = v Heads k) -> (forall k, requests !! k = v Requests k) -> Represents v (logs_of heads requests).
Proof.
  intros Hl Hh Hq. pose proof (fun ns => linked_log v heads requests ns Hl Hh Hq) as Hlog.
  assert (forall ns i e, logs_of heads requests ns !! i = Some e -> exists h,
    v Requests (request_key ns (e_request e)) = Some (encode_receipt (e_fingerprint e) h) /\ head_index h = of_Z 64 (Z.of_nat i)
    /\ head_commit h = e_commit e /\ uval (of_Z 64 (Z.of_nat i)) = Z.of_nat i) as He.
  { intros ns i e Hi. specialize (Hlog ns). destruct (v Heads (blist ns)); [|destruct Hlog as [En _]; by rewrite En in Hi]. destruct Hlog as (_ & _ & _ & _ & Hx). by apply Hx. }
  assert (forall ns i e, logs_of heads requests ns !! i = Some e -> v History (history_key ns (of_Z 64 (Z.of_nat i))) = Some (blist (e_commit e))) as Hc.
  { intros ns i e Hi. destruct (He ns i e Hi) as (h & Hr & <- & <- & _). by destruct (lk_requests _ Hl _ _ _ _ Hr) as (_ & ? & _). }
  assert (forall ns r f h, v Requests (request_key ns r) = Some (encode_receipt f h) ->
    logs_of heads requests ns !! Z.to_nat (uval (head_index h)) = Some (mkEntry r f (head_commit h))) as Hrow.
  { intros ns r f h Hr. destruct (lk_requests _ Hl _ _ _ _ Hr) as ((sel & Es & Hle) & _ & _). specialize (Hlog ns). rewrite Es in Hlog.
    destruct Hlog as (sel' & Es' & Hlen & _ & Hx). apply (inj Some), (inj encode_head) in Es' as <-. pose proof (uval_range (head_index h)).
    destruct (lookup_lt_is_Some_2 (logs_of heads requests ns) (Z.to_nat (uval (head_index h)))) as [[r' f' c'] Ee]; [lia|].
    destruct (Hx _ _ Ee) as (h' & Hr' & Hi' & Hc' & Hu). cbn in Hr', Hc'.
    assert (r = r') as <-. { eapply lk_one; [done|exact Hr|exact Hr'|]. apply uint_eq. rewrite Hi', Hu. lia. }
    rewrite Hr in Hr'. apply (inj Some) in Hr'. pose proof (decode_encode_receipt f h) as D. rewrite Hr', decode_encode_receipt in D.
    injection D as -> ->. by rewrite Ee, <- Hc'. }
  split.
  - intros ns. specialize (Hlog ns). destruct (v Heads (blist ns)) eqn:Eb; [|by destruct Hlog as [-> _]].
    destruct Hlog as (sel & Es & Hlen & _ & Hx). destruct (lk_heads _ Hl ns sel (eq_trans Eb Es)) as (_ & Hci & _). rewrite Es. clear Es.
    pose proof (uval_range (head_index sel)) as Hr.
    unfold log_head. rewrite last_lookup, Hlen. cbn [pred]. destruct (lookup_lt_is_Some_2 (logs_of heads requests ns) (Z.to_nat (uval (head_index sel)))) as [e Ee]; [lia|].
    rewrite Ee. cbn [fmap option_fmap option_map]. do 2 f_equal. unfold entry_head. destruct sel as [i c]. cbn [head_index head_commit] in *.
    assert (of_Z 64 (Z.of_nat (Z.to_nat (uval i))) = i) as Ei by (apply uint_eq; rewrite uval_of_Z_small; lia).
    pose proof (Hc _ _ _ Ee) as Hc2. rewrite Ei, Hci in Hc2. apply (inj Some), bytes_eq in Hc2 as ->. by rewrite Ei.
  - intros ns i. pose proof (uval_range i).
    assert (of_Z 64 (Z.of_nat (Z.to_nat (uval i))) = i) as Ei by (apply uint_eq; rewrite uval_of_Z_small; lia).
    destruct (logs_of heads requests ns !! Z.to_nat (uval i)) as [e|] eqn:Ee; cbn; [by rewrite <- (Hc _ _ _ Ee), Ei|].
    specialize (Hlog ns). destruct (v Heads (blist ns)); [|apply Hlog]. destruct Hlog as (sel & _ & Hlen & Hist & _).
    apply lookup_ge_None in Ee. apply eq_None_not_Some. rewrite Hist. lia.
  - intros k [x Hx]. destruct (lk_valid _ Hl History _ _ eq_refl Hx) as (ns & i & c & -> & _). eauto.
  - intros ns r. destruct (v Requests (request_key ns r)) as [x|] eqn:Ex.
    + destruct (lk_valid _ Hl Requests _ _ eq_refl Ex) as (ns' & r' & f & h & [<- <-]%request_key_inj & ->). pose proof (Hrow _ _ _ _ Ex) as Ee.
      assert (log_find r (logs_of heads requests ns) = Some (Z.to_nat (uval (head_index h)), mkEntry r f (head_commit h))) as Ef.
      { apply list_find_Some. split_and!; [done|done|]. intros j e Hj Hlt Hre. destruct (He _ _ _ Hj) as (h' & Hr' & Hi' & _ & Hu). rewrite Hre, Ex in Hr'.
        apply (inj Some) in Hr'. pose proof (decode_encode_receipt f h) as D. rewrite Hr', decode_encode_receipt in D. injection D as _ ->.
        rewrite Hi', Hu in Hlt. lia. }
      unfold log_receipt. rewrite Ef. cbn. do 2 f_equal. unfold entry_head. destruct h as [i c]. cbn. f_equal. apply uint_eq.
      pose proof (uval_range i). rewrite uval_of_Z_small; lia.
    + unfold log_receipt. destruct (log_find r _) as [[j e]|] eqn:Ef; [|done]. apply list_find_Some in Ef as (Hj & Hre & _).
      destruct (He _ _ _ Hj) as (h' & Hr' & _). rewrite Hre in Hr'. congruence.
  - intros ns e [i Hi]%list_elem_of_lookup. destruct (He _ _ _ Hi) as (h & Hr & _ & <- & _). by destruct (lk_requests _ Hl _ _ _ _ Hr) as (_ & _ & ?).
  - intros ns. specialize (Hlog ns). destruct (v Heads (blist ns)); [|destruct Hlog as [-> _]; unfold zlen; cbn; lia].
    destruct Hlog as (sel & _ & Hlen & _). unfold zlen. rewrite Hlen. pose proof (uval_range (head_index sel)). simpl Z.of_N in *. lia.
  - intros ns. apply NoDup_alt. intros i j r. rewrite !list_lookup_fmap. intros (e & Ee & ->)%fmap_Some (e' & Ee' & Er)%fmap_Some.
    destruct (He _ _ _ Ee) as (h & Hr & Hi & _ & Hu), (He _ _ _ Ee') as (h' & Hr' & Hi' & _ & Hu'). rewrite Er, Hr' in Hr.
    apply (inj Some) in Hr. pose proof (decode_encode_receipt (e_fingerprint e') h') as D. rewrite Hr, decode_encode_receipt in D. injection D as _ ->.
    rewrite Hi' in Hi. apply (f_equal uval) in Hi. lia.
Qed.

End Linked.

(** ** Calls that only read *)

Section Asks.
  Context `{Nebu, Hasher, Fjall, Redb, !FjallLaws, !RedbLaws}.

Abbreviation Owner := (SM Error.AppError Database).

(** [asks m db Q]: the call does not panic and leaves the owner; an answer satisfies [Q]. *)
Definition asks {A} (m : Owner A) (db : Database) (Q : A -> Prop) : Prop :=
  exists r, m db = Some (r, db) /\ forall x, r = Ok x -> Q x.

Lemma asks_ret {A} (x : A) db (Q : A -> Prop) : Q x -> asks (mret x) db Q.
Proof. intros HQ. exists (Ok x). split; [done|]. by intros ? [= <-]. Qed.

Lemma asks_bind {A B} (m : Owner A) (k : A -> Owner B) db Q' Q :
  asks m db Q' -> (forall x, Q' x -> asks (k x) db Q) -> asks (x ← m; k x) db Q.
Proof.
  intros (r & E & Hr) Hk. unfold asks. rewrite sm_bind_eq, E. destruct r as [x|e]; [|by exists (Err e)].
  destruct (Hk x (Hr x eq_refl)) as (r & E2 & H2'). exists r. by rewrite E2.
Qed.

Lemma asks_lift {A B} (r : AppResult A) (k : A -> Owner B) db Q :
  (forall x, r = Ok x -> asks (k x) db Q) -> asks (x ← sm_lift r; k x) db Q.
Proof. intros Hk. apply asks_bind with (Q' := fun x => r = Ok x); [by exists r|done]. Qed.

Lemma asks_some {A B} (o : option A) (k : A -> Owner B) db Q x :
  o = Some x -> asks (k x) db Q -> asks (x ← sm_some o; k x) db Q.
Proof.
  intros -> Hk. apply asks_bind with (Q' := fun y => y = x); [|by intros ? ->]. exists (Ok x). split; [done|]. by intros ? [= <-].
Qed.

Lemma asks_require {B} b e (k : Owner B) db Q : (b = true -> asks k db Q) -> asks (_ ← sm_require b e; k) db Q.
Proof.
  intros Hk. apply asks_bind with (Q' := fun _ => b = true); [|intros _; exact Hk]. destruct b; [by apply asks_ret|by exists (Err e)].
Qed.

Lemma asks_read {B} t key max (k : option (list u8) -> Owner B) db Q :
  DbOk db -> table_ok t = true -> asks (k (committed db t key)) db Q -> asks (x ← reading (db_read t key max); k x) db Q.
Proof.
  intros Hdb Ht Hk. apply asks_bind with (Q' := fun x => x = committed db t key); [|by intros ? ->].
  unfold reading, asks. destruct (db_read_ok db t key max Hdb Ht) as (r & -> & _ & Hr). cbn. eexists. split; [done|].
  destruct r as [v|]; [|done]. intros x [= <-]. by destruct (Hr v eq_refl) as (_ & -> & _).
Qed.

Lemma asks_page t after prefix bounds db :
  DbOk db -> table_ok t = true ->
  asks (reading (db_scan t after prefix bounds)) db (RawPage (table_scan (engine_rows (db_engine db) t) after prefix) bounds).
Proof.
  intros Hdb Ht. unfold reading, asks. destruct (db_scan_ok db t after prefix bounds Hdb Ht) as (r & -> & Hr). cbn. eexists. split; [done|].
  destruct r as [v|]; [|done]. intros x [= <-]. by apply Hr.
Qed.

Lemma asks_scan {B} t after prefix bounds (k : list RawEntry -> Owner B) db Q :
  DbOk db -> table_ok t = true ->
  (forall page, RawPage (table_scan (engine_rows (db_engine db) t) after prefix) bounds page -> asks (k page) db Q) ->
  asks (x ← reading (db_scan t after prefix bounds); k x) db Q.
Proof. intros Hdb Ht Hk. eapply asks_bind; [by apply asks_page|exact Hk]. Qed.

Lemma asks_weaken {A} (m : Owner A) db (Q Q' : A -> Prop) : asks m db Q' -> (forall x, Q' x -> Q x) -> asks m db Q.
Proof. intros (r & E & Hr) HQ. exists r. split; [done|]. intros x Ex. by apply HQ, Hr. Qed.

(** A fold keeps an invariant of the entries behind it. *)
Lemma asks_fold {A B} (f : B -> A -> Owner B) (I : list A -> B -> Prop) db l b done :
  I done b -> (forall before x b, I before b -> x ∈ l -> (exists after, done ++ l = before ++ x :: after) -> asks (f b x) db (I (before ++ [x]))) ->
  asks (sm_fold l f b) db (I (done ++ l)).
Proof.
  revert b done. induction l as [|x l IH]; intros b done HI Hf; [rewrite app_nil_r; by apply asks_ret|]. cbn [sm_fold].
  eapply asks_bind; [apply (Hf done x b HI); [by left|by exists l]|]. intros b' HI'.
  assert (done ++ x :: l = (done ++ [x]) ++ l) as El by by rewrite <- app_assoc. rewrite El.
  apply IH; [done|]. rewrite <- El. intros before y b2 Hb Hy. apply Hf; [done|by right].
Qed.

Lemma raw_bytes_elem l x : x ∈ l -> zlen x.1 + zlen x.2 <= raw_bytes l.
Proof.
  intros Hx. apply list_elem_of_split in Hx as (l1 & l2 & ->). unfold raw_bytes. rewrite zsum_app. cbn [zsum foldr].
  pose proof (raw_bytes_nonneg l1). pose proof (raw_bytes_nonneg l2). unfold raw_bytes, zsum in *. lia.
Qed.

(** What is scanned after the rows behind a cursor. *)
Lemma scan_rest (rows : Rows) l1 l2 : btree_iter rows = l1 ++ l2 -> table_scan rows (fst <$> last l1) [] = l2.
Proof.
  intros E. unfold table_scan, wanted. rewrite E. destruct (last l1) as [x|] eqn:El.
  - apply last_Some in El as [l1' ->]. rewrite <- app_assoc in E. rewrite <- app_assoc. change ([x] ++ l2) with (x :: l2) in *.
    rewrite <- (filter_after l1' l2 x) at 2; [|rewrite <- E; apply btree_iter_sorted|rewrite <- E; apply NoDup_btree_iter].
    apply list_filter_iff. intros e. rewrite bool_decide_eq_true_2 by apply prefix_nil. done.
  - apply last_None in El as ->. cbn [app fmap option_fmap option_map]. apply filter_all_list, Forall_forall. intros e _.
    by rewrite bool_decide_eq_true_2 by apply prefix_nil.
Qed.

(** The pages of a table are its rows, in order. *)
Lemma asks_pages fuel validate mr mb ordinal t db (I : list RawEntry -> Inspection -> Prop) l1 l2 st :
  DbOk db -> table_ok t = true -> btree_iter (engine_rows (db_engine db) t) = l1 ++ l2 -> (length l2 < fuel)%nat -> I l1 st ->
  (forall before x st, I before st -> (exists after, btree_iter (engine_rows (db_engine db) t) = before ++ x :: after) ->
     zlen x.1 + zlen x.2 <= MAX_TRANSACTION_BYTES ->
     asks (inspect_row validate mr mb ordinal t st x) db (I (before ++ [x]))) ->
  asks (inspect_pages fuel validate mr mb ordinal t (fst <$> last l1) st) db (I (btree_iter (engine_rows (db_engine db) t))).
Proof.
  intros Hdb Ht El Hfuel HI Hstep. revert l1 l2 st El Hfuel HI. induction fuel as [|fuel IH]; intros l1 l2 st El Hfuel HI; [lia|].
  cbn [inspect_pages]. apply asks_scan; [done..|]. intros page Hp. rewrite (scan_rest _ _ _ El) in Hp. destruct page as [|x page].
  { apply raw_page_end in Hp; [|done]. subst l2. rewrite app_nil_r in El. rewrite El. by apply asks_ret. }
  destruct (rp_prefix _ _ _ Hp) as [l3 ->]. pose proof (rp_bytes _ _ _ Hp) as Hb.
  change (uval (bl_bytes limits)) with (uval (of_Z 64 (MAX_TRANSACTION_BYTES - 4096))) in Hb. rewrite uval_of_Z_small in Hb by (unfold MAX_TRANSACTION_BYTES; simpl; lia).
  eapply asks_bind.
  - apply (asks_fold _ I _ _ _ l1 HI). intros before y b HI' Hy [after Ea]. apply Hstep; [done| |].
    + exists (after ++ l3). by rewrite El, app_assoc, Ea, <- app_assoc.
    + apply raw_bytes_elem in Hy. unfold MAX_TRANSACTION_BYTES in *. lia.
  - intros st' HI'. assert (fst <$> last (x :: page) = fst <$> last (l1 ++ x :: page)) as ->.
    { rewrite last_app. by destruct (last (x :: page)) eqn:El2; [|apply last_None in El2]. }
    apply (IH _ l3); [by rewrite El, app_assoc| |done]. rewrite length_app in Hfuel. cbn in Hfuel. lia.
Qed.

(** *** Rows *)

(** The counters and the hash after a row of a table. *)
Record Counted (mr mb : u64) (ordinal : nat) (key value : list u8) (st st' : Inspection) : Prop := {
  cn_rows : uval (in_rows st') = uval (in_rows st) + 1;
  cn_bytes : uval (in_bytes st') = uval (in_bytes st) + (zlen key + zlen value);
  cn_limits : uval (in_rows st') <= uval mr /\ uval (in_bytes st') <= uval mb;
  cn_tables : in_tables st' = alter (fun n => of_Z 64 (uval n + 1)) ordinal (in_tables st);
  cn_chunks : in_chunks st' = in_chunks st ++ hash_row key value;
}.

Lemma count_row_Ok mr mb ordinal t st key value st' :
  zlen key + zlen value <= MAX_TRANSACTION_BYTES -> count_row mr mb ordinal t st key value = Ok st' ->
  Counted mr mb ordinal key value st st' /\ valid_row t key value /\ in_receipts st' = in_receipts st /\ in_previous st' = in_previous st.
Proof.
  intros Hs. unfold count_row. destruct (checked_add (in_rows st) _) as [rows|] eqn:Er; [|done].
  destruct (checked_add (in_bytes st) _) as [total|] eqn:Et; [|done]. cbn [ok_or mbind result_bind].
  destruct (Z.ltb_spec (uval mr) (uval rows)); [done|]. destruct (Z.ltb_spec (uval mb) (uval total)); [done|]. cbn [orb].
  destruct (validate_record t key value) as [[]|] eqn:Ev; [|done]. cbn [mbind result_bind]. intros [= <-].
  apply checked_add_Some in Er, Et. rewrite uval_of_Z_small in Er by (simpl; lia).
  rewrite uval_of_Z_small in Et by (unfold MAX_TRANSACTION_BYTES, zlen in *; simpl; lia).
  split; [by split|]. split; [by apply validate_record_Ok|done].
Qed.

Lemma asks_check_head ns h db :
  DbOk db -> asks (check_head ns h) db (fun _ => committed db History (history_key ns (head_index h)) = Some (blist (head_commit h))
    /\ is_Some (committed db Content (blist (head_commit h)))).
Proof.
  intros Hdb. unfold check_head. apply asks_read; [done..|]. apply asks_require. intros Hc%bool_decide_eq_true.
  apply asks_read; [done..|]. destruct (bool_decide _) eqn:E; [|by exists (Err Error.Corrupt)]. apply bool_decide_eq_true in E. by apply asks_ret.
Qed.

Lemma asks_links ns h db : DbOk db -> asks (inspect_links ns h) db (fun _ => links (committed db) ns h).
Proof.
  intros Hdb. unfold inspect_links. apply asks_bind with (Q' := fun sel => forall s, sel = Some s -> committed db Heads (blist ns) = Some (encode_head s)).
  { unfold asks, Application.head, read_as. destruct (db_read_ok db Heads (blist ns) 40 Hdb eq_refl) as (r & -> & _ & Hr). cbn [mbind option_bind].
    eexists. split; [done|]. destruct r as [v|]; [|done]. destruct (Hr v eq_refl) as (_ & -> & _). cbn [map_err mbind result_bind].
    unfold committed. destruct (engine_rows (db_engine db) Heads !! blist ns) as [b|]; cbn [fmap option_fmap option_map transpose]; [|by intros ? [= <-] ?].
    destruct (decode_head b) as [s|] eqn:Ed; cbn; [|done]. apply decode_head_Ok in Ed as ->. by intros ? [= <-] ? [= <-]. }
  intros sel Hsel. apply asks_lift. intros s Hs. destruct sel as [s'|]; [|done]. injection Hs as ->. apply asks_require. intros Hle%Z.leb_le.
  eapply asks_weaken; [by apply asks_check_head|]. intros _ [Hc Hd]. split; [|done]. exists s. by split; [apply Hsel|].
Qed.

(** What inspection does with the receipts and the previous history row. *)
Definition inspected (t : Table) (db : Database) (validate : ValidateContent) (key value : list u8) (st st' : Inspection) : Prop :=
  match t with
  | Content => in_receipts st' = in_receipts st /\ forall id, key = blist id -> validate id value db = Some (Ok tt)
  | Claims => in_receipts st' = in_receipts st
  | Heads => in_receipts st' = in_receipts st /\ forall ns h, key = blist ns -> value = encode_head h -> links (committed db) ns h
  | Requests => exists ns r f h, key = request_key ns r /\ value = encode_receipt f h /\ links (committed db) ns h
      /\ (ns, head_index h) ∉ in_receipts st /\ in_receipts st' = {[(ns, head_index h)]} ∪ in_receipts st
  | History => exists ns i c, key = history_key ns i /\ value = blist (n := 32) c /\ links (committed db) ns (mkHead i c)
      /\ expected_index (in_previous st) ns = Ok i /\ (ns, i) ∈ in_receipts st
      /\ in_receipts st' = in_receipts st ∖ {[(ns, i)]} /\ in_previous st' = Some (ns, i)
  | _ => True
  end.

Lemma counted_more mr mb ordinal key value st st1 receipts previous :
  Counted mr mb ordinal key value st st1 ->
  Counted mr mb ordinal key value st (mkInspection (in_rows st1) (in_bytes st1) (in_tables st1) (in_chunks st1) receipts previous).
Proof. by intros []. Qed.

Lemma valid_namespace t key value :
  t = Heads \/ t = Requests \/ t = History -> valid_row t key value -> exists ns, key_namespace key = Some ns.
Proof.
  intros [->|[->| ->]] Hv.
  - destruct Hv as (ns & h & -> & _). exists ns. rewrite <- (app_nil_r (blist ns)). apply key_namespace_app.
  - destruct Hv as (ns & r & f & h & -> & _). exists ns. apply key_namespace_app.
  - destruct Hv as (ns & i & c & -> & _). exists ns. apply key_namespace_app.
Qed.

Lemma take_index (i : u64) : exists b, take_bytes 8 (to_be_bytes 8 i) = Ok b /\ from_be_bytes 64 (blist b) = i.
Proof.
  destruct (bytes_of 8 (to_be_bytes 8 i)) as [b Eb]; [apply length_to_be_bytes|]. exists b. rewrite <- Eb, take_bytes_blist. split; [done|].
  rewrite Eb. by apply from_to_be_bytes.
Qed.

(** The head of a row and its effect on the receipts. *)
Lemma inspect_head_Ok t st key value ns h st' db validate :
  t = Heads \/ t = Requests \/ t = History -> valid_row t key value -> key_namespace key = Some ns ->
  inspect_head t st key value ns = Ok (h, st') -> links (committed db) ns h ->
  inspected t db validate key value st st'
  /\ st' = mkInspection (in_rows st) (in_bytes st) (in_tables st) (in_chunks st) (in_receipts st') (in_previous st').
Proof.
  intros Ht Hv Hns. assert (forall ns' rest, key = blist ns' ++ rest -> ns' = ns) as Hkey.
  { intros ns' rest ->. rewrite key_namespace_app in Hns. by injection Hns. }
  destruct Ht as [->|[->| ->]]; cbn [inspect_head inspected].
  - destruct (decode_head value) as [h'|] eqn:Ed; [|done]. cbn. intros [= <- <-] Hl. apply decode_head_Ok in Ed. subst value.
    split; [|by destruct st]. split; [done|]. intros ns' h -> Eh%(inj encode_head). subst h'. rewrite <- (app_nil_r (blist ns')) in Hkey.
    by rewrite (Hkey ns' [] eq_refl).
  - destruct Hv as (ns' & r & f & h' & -> & ->). rewrite decode_encode_receipt. cbn [mbind result_bind].
    case_bool_decide as Hin; [done|]. intros [= <- <-] Hl. pose proof (Hkey ns' _ eq_refl) as ->. split; [|done].
    by exists ns, r, f, h'.
  - destruct Hv as (ns' & i & c & -> & ->). pose proof (Hkey ns' _ eq_refl) as ->. unfold history_key at 1.
    rewrite drop_app_length' by by rewrite length_blist. destruct (take_index i) as (b & -> & Eb). cbn [mbind result_bind]. rewrite Eb.
    destruct (expected_index _ _) as [e|] eqn:Ee; [|done]. cbn [mbind result_bind].
    case_bool_decide as Hi; [|done]. case_bool_decide as Hin; [|done]. cbn [negb orb]. rewrite take_bytes_blist. cbn [mbind result_bind].
    intros [= <- <-] Hl. split; [|done]. subst e. by exists ns, i, c.
Qed.

Lemma asks_row validate mr mb ordinal t st key value db :
  DbOk db -> t ∈ TABLES -> (forall id data, is_Some (validate id data db)) -> zlen key + zlen value <= MAX_TRANSACTION_BYTES ->
  asks (inspect_row validate mr mb ordinal t st (key, value)) db
    (fun st' => Counted mr mb ordinal key value st st' /\ valid_row t key value /\ inspected t db validate key value st st').
Proof.
  intros Hdb Ht Hval Hs. unfold inspect_row. apply asks_lift. intros st1 (Hc & Hv & Hrec & Hprev)%count_row_Ok; [|done].
  assert (t = Content \/ t = Claims \/ (t = Heads \/ t = Requests \/ t = History)) as Hcase.
  { clear -Ht. unfold TABLES in Ht. repeat (apply elem_of_cons in Ht as [->|Ht]; [by auto 6|]). by apply not_elem_of_nil in Ht. }
  destruct Hcase as [->|[->|Ht3]].
  - apply asks_lift. intros id Hid%take_bytes_ok.
    apply asks_bind with (Q' := fun _ => validate id value db = Some (Ok tt)).
    { unfold validating, asks. destruct (Hval id value) as [r ->]. cbn. exists r. split; [done|]. by intros [] ->. }
    intros _ Hok. apply asks_ret. split; [done|]. split; [done|]. split; [done|]. intros id' E. rewrite <- Hid in E. apply bytes_eq in E. by subst.
  - by apply asks_ret.
  - assert (forall (m1 m2 : Owner Inspection), match t with Content => m1 | Claims => m2 | _ => namespace ← sm_some (key_namespace key);
      '(head, st) ← sm_lift (inspect_head t st1 key value namespace); _ ← inspect_links namespace head; mret st end
      = (namespace ← sm_some (key_namespace key);
      '(head, st) ← sm_lift (inspect_head t st1 key value namespace); _ ← inspect_links namespace head; mret st)) as ->.
    { intros m1 m2. by destruct Ht3 as [->|[->| ->]]. }
    destruct (valid_namespace t key value Ht3 Hv) as [ns Hns]. apply (asks_some _ _ _ _ ns Hns). apply asks_lift. intros [h st2] Hi.
    eapply asks_bind; [by apply asks_links|]. intros ? Hl. apply asks_ret.
    destruct (inspect_head_Ok t st1 key value ns h st2 db validate Ht3 Hv Hns Hi Hl) as [Hins Est].
    rewrite Est. split; [by apply counted_more|]. split; [done|]. rewrite <- Est.
    destruct Ht3 as [->|[->| ->]]; cbn [inspected] in *; rewrite <- ?Hrec, <- ?Hprev; done.
Qed.

End Asks.
