(* ===== verification/Inspection.v ===== *)
(** * Inspection is sound

    The fold of [inspect] over the rows of the five tables, and what its success shows. *)

From S2P Require Import Prelude.
From S2P Require Import Crypto.
From S2P Require Import Access.
From S2P Require Import Shard.
From S2P Require Import Engine.
From S2P Require Import Database.
From S2P Require Import Application.
From S2P Require Import Journal.
From S2P Require Import Fences.
From S2P Require Import JournalReads.
From S2P Require Import Archive.
From S2P Require Import ArchiveSpec.

Local Open Scope Z_scope.

Section Inspection.
  Context `{Nebu, Hasher, Fjall, Redb, !FjallLaws, !RedbLaws}.

Abbreviation Owner := (SM Error.AppError Database).

(** The rows of a table, in order. *)
Definition rows_of (db : Database) (t : Table) : list RawEntry := btree_iter (engine_rows (db_engine db) t).

Lemma elem_of_rows db t k x : (k, x) ∈ rows_of db t <-> committed db t k = Some x.
Proof. apply elem_of_btree_iter. Qed.

(** The counters and the hash after rows of a table. *)
Record Tally (mr mb : u64) (ordinal : nat) (l : list RawEntry) (st st' : Inspection) : Prop := {
  ta_rows : uval (in_rows st') = uval (in_rows st) + zlen l;
  ta_bytes : uval (in_bytes st') = uval (in_bytes st) + raw_bytes l;
  ta_limits : l = [] \/ uval (in_rows st') <= uval mr /\ uval (in_bytes st') <= uval mb;
  ta_tables : in_tables st' = alter (fun n => of_Z 64 (uval n + zlen l)) ordinal (in_tables st);
  ta_chunks : in_chunks st' = in_chunks st ++ flat_map (fun row => hash_row row.1 row.2) l;
}.

Lemma of_Z_add w a b : of_Z w (uval (of_Z w a) + b) = of_Z w (a + b).
Proof. apply uint_eq. rewrite !uval_of_Z. by rewrite Zplus_mod_idemp_l. Qed.

Lemma tally_nil mr mb ordinal st : Tally mr mb ordinal [] st st.
Proof.
  split; [change (zlen []) with 0; lia|change (raw_bytes []) with 0; lia|by left| |by rewrite app_nil_r].
  symmetry. apply list_alter_id. intros n. change (zlen []) with 0. by rewrite Z.add_0_r, of_Z_uval.
Qed.

Lemma tally_snoc mr mb ordinal l k x st st1 st2 :
  Tally mr mb ordinal l st st1 -> Counted mr mb ordinal k x st1 st2 -> Tally mr mb ordinal (l ++ [(k, x)]) st st2.
Proof.
  intros [Hr Hb _ Ht Hc] [Hr2 Hb2 Hl2 Ht2 Hc2]. split.
  - rewrite Hr2, Hr. unfold zlen. rewrite length_app. cbn. lia.
  - rewrite Hb2, Hb. unfold raw_bytes. rewrite zsum_app. cbn. lia.
  - by right.
  - rewrite Ht2, Ht, list_alter_alter_eq. apply list_alter_ext; [|done]. intros n _. cbn. rewrite of_Z_add. f_equal.
    unfold zlen. rewrite length_app. cbn. lia.
  - rewrite Hc2, Hc, flat_map_app, <- app_assoc. done.
Qed.

(** What inspecting a table comes to: its tally, valid rows, and an invariant of its rows. *)
Lemma asks_table fuel validate mr mb st ordinal t db (J : list RawEntry -> Inspection -> Prop) :
  DbOk db -> t ∈ TABLES -> table_ok t = true -> (forall id data, is_Some (validate id data db)) -> (length (rows_of db t) < fuel)%nat ->
  (forall st1, in_receipts st1 = in_receipts st -> in_previous st1 = None -> J [] st1) ->
  (forall l k x s s', J l s -> inspected t db validate k x s s' -> valid_row t k x -> J (l ++ [(k, x)]) s') ->
  asks (inspect_table fuel validate mr mb st (ordinal, t)) db (fun st' => Tally mr mb ordinal (rows_of db t)
      (mkInspection (in_rows st) (in_bytes st) (in_tables st) (in_chunks st ++ [[of_Z 8 (Z.of_nat ordinal)]]) (in_receipts st) None) st'
    /\ (forall k x, committed db t k = Some x -> valid_row t k x) /\ J (rows_of db t) st').
Proof.
  intros Hdb Hin Ht Hval Hfuel HJ0 HJ. unfold inspect_table. set (st0 := mkInspection _ _ _ _ _ _).
  eapply asks_weaken.
  - apply (asks_pages fuel validate mr mb ordinal t db (fun l st' => Tally mr mb ordinal l st0 st' /\ Forall (fun e => valid_row t e.1 e.2) l /\ J l st') [] (rows_of db t)); [done|done|done|done| |].
    + split; [apply tally_nil|]. split; [constructor|by apply HJ0].
    + intros before [k x] st1 (Htal & Hv & HJ1) _ Hs. eapply asks_weaken; [by apply asks_row|]. intros st2 (Hc & Hv2 & Hi).
      split; [by eapply tally_snoc|]. split; [apply Forall_app; by split; [|apply Forall_singleton]|by eapply HJ].
  - intros st' (Htal & Hv & HJ1). split; [done|]. split; [|done]. intros k x Hk%elem_of_rows.
    by apply (proj1 (Forall_forall _ _) Hv) in Hk.
Qed.

(** *** The invariants of the tables *)

Definition contents_seen (validate : ValidateContent) (db : Database) (R : gset (Particle * u64)) (l : list RawEntry) (st : Inspection) : Prop :=
  in_receipts st = R /\ forall id x, (blist id, x) ∈ l -> validate id x db = Some (Ok tt).

Definition claims_seen (R : gset (Particle * u64)) (l : list RawEntry) (st : Inspection) : Prop := in_receipts st = R.

Definition heads_seen (v : View) (R : gset (Particle * u64)) (l : list RawEntry) (st : Inspection) : Prop :=
  in_receipts st = R /\ forall ns h, (blist ns, encode_head h) ∈ l -> links v ns h.

(** A receipt for an index of a namespace is among the rows. *)
Definition receipt_in (l : list RawEntry) (ns : Particle) (i : u64) : Prop :=
  exists r f h, (request_key ns r, encode_receipt f h) ∈ l /\ head_index h = i.

Record requests_seen (v : View) (l : list RawEntry) (st : Inspection) : Prop := {
  rs_receipts ns i : (ns, i) ∈ in_receipts st <-> receipt_in l ns i;
  rs_links ns r f h : (request_key ns r, encode_receipt f h) ∈ l -> links v ns h;
  rs_one ns r f h r' f' h' : (request_key ns r, encode_receipt f h) ∈ l -> (request_key ns r', encode_receipt f' h') ∈ l ->
    head_index h = head_index h' -> r = r';
}.

(** A history row of an index is among the rows. *)
Definition history_in (l : list RawEntry) (ns : Particle) (i : u64) : Prop := exists c : Particle, (history_key ns i, blist c) ∈ l.

Record history_seen (v : View) (R : gset (Particle * u64)) (l : list RawEntry) (st : Inspection) : Prop := {
  hs_receipts ns i : (ns, i) ∈ in_receipts st <-> (ns, i) ∈ R /\ ~ history_in l ns i;
  hs_within ns i : history_in l ns i -> (ns, i) ∈ R;
  hs_links ns i c : (history_key ns i, blist (n := 32) c) ∈ l -> links v ns (mkHead i c);
  hs_below ns i j : history_in l ns i -> uval j <= uval i -> history_in l ns j;
  hs_previous ns i : in_previous st = Some (ns, i) -> history_in l ns i;
}.

Lemma receipt_in_snoc l ns r f h ns' i :
  receipt_in (l ++ [(request_key ns r, encode_receipt f h)]) ns' i <-> receipt_in l ns' i \/ (ns' = ns /\ i = head_index h).
Proof.
  unfold receipt_in. setoid_rewrite elem_of_app. setoid_rewrite list_elem_of_singleton. split.
  - intros (r' & f' & h' & [Hin|E] & <-); [left; by exists r', f', h'|right]. apply pair_equal_spec in E as [[-> ->]%request_key_inj E].
    pose proof (decode_encode_receipt f' h') as D. rewrite E, decode_encode_receipt in D. injection D as _ ->. done.
  - intros [(r' & f' & h' & Hin & <-)|[-> ->]]; [exists r', f', h'; by split; [left|]|]. exists r, f, h. split; [by right|done].
Qed.

Lemma history_in_snoc l ns i c ns' i' :
  history_in (l ++ [(history_key ns i, blist (n := 32) c)]) ns' i' <-> history_in l ns' i' \/ (ns' = ns /\ i' = i).
Proof.
  unfold history_in. setoid_rewrite elem_of_app. setoid_rewrite list_elem_of_singleton. split.
  - intros (c' & [Hin|E]); [left; by exists c'|right]. apply pair_equal_spec in E as [[-> ->]%history_key_inj _]. done.
  - intros [[c' Hin]|[-> ->]]; [exists c'; by left|]. exists c. by right.
Qed.

(** The index a history row must have is past those of its namespace, which are all there. *)
Lemma history_below l previous ns i j :
  (forall ns i j, history_in l ns i -> uval j <= uval i -> history_in l ns j) -> (forall ns i, previous = Some (ns, i) -> history_in l ns i) ->
  expected_index previous ns = Ok i -> uval j < uval i -> history_in l ns j.
Proof.
  intros Hb Hp He Hlt. pose proof (uval_range j). unfold expected_index in He.
  assert (uval i = 0 -> False) as Hz by lia.
  destruct previous as [[ns0 n]|]; [|injection He as <-; exfalso; apply Hz, uval_of_Z_small; simpl; lia].
  case_bool_decide as Hns; [|injection He as <-; exfalso; apply Hz, uval_of_Z_small; simpl; lia]. subst ns0.
  destruct (checked_add n (of_Z 64 1)) as [m|] eqn:Ea; [|done]. injection He as ->. apply checked_add_Some in Ea.
  rewrite uval_of_Z_small in Ea by (simpl; lia). apply (Hb ns n); [by apply Hp|lia].
Qed.

Lemma requests_seen_snoc v l k x db validate s s' :
  v = committed db -> requests_seen v l s -> inspected Requests db validate k x s s' -> requests_seen v (l ++ [(k, x)]) s'.
Proof.
  intros -> [Hr Hl Ho] (ns & r & f & h & -> & -> & Hlink & Hnew & Hrec). split.
  - intros ns' i. rewrite receipt_in_snoc, Hrec, elem_of_union, elem_of_singleton, Hr. naive_solver.
  - intros ns' r' f' h' [Hin|E%list_elem_of_singleton]%elem_of_app; [by eapply Hl|]. apply pair_equal_spec in E as [[-> ->]%request_key_inj E].
    pose proof (decode_encode_receipt f' h') as D. rewrite E, decode_encode_receipt in D. by injection D as _ ->.
  - assert (forall ns' r' f' h', (request_key ns' r', encode_receipt f' h') ∈ l ++ [(request_key ns r, encode_receipt f h)] ->
      (request_key ns' r', encode_receipt f' h') ∈ l \/ (ns' = ns /\ r' = r /\ h' = h)) as Hcase.
    { intros ns' r' f' h' [Hin|E%list_elem_of_singleton]%elem_of_app; [by left|right]. apply pair_equal_spec in E as [[-> ->]%request_key_inj E].
      pose proof (decode_encode_receipt f' h') as D. rewrite E, decode_encode_receipt in D. by injection D as _ ->. }
    assert (forall r' f' h', (request_key ns r', encode_receipt f' h') ∈ l -> head_index h' <> head_index h) as Hfresh.
    { intros r' f' h' Hin E. apply Hnew, Hr. exists r', f', h'. done. }
    intros ns' r1 f1 h1 r2 f2 h2 [H1'|(-> & -> & ->)]%Hcase [H2'|(E2 & -> & ->)]%Hcase E; subst; eauto.
    + by apply Hfresh in H1'.
    + symmetry in E. by apply Hfresh in H2'.
Qed.

Lemma history_seen_snoc v R l k x db validate s s' :
  v = committed db -> history_seen v R l s -> inspected History db validate k x s s' -> history_seen v R (l ++ [(k, x)]) s'.
Proof.
  intros -> [Hr Hw Hl Hb Hp] (ns & i & c & -> & -> & Hlink & He & Hin & Hrec & Hprev). split.
  - intros ns' i'. rewrite history_in_snoc, Hrec, elem_of_difference, elem_of_singleton, Hr. naive_solver.
  - intros ns' i' [?|[-> ->]]%history_in_snoc; [by apply Hw|]. by apply Hr in Hin as [? _].
  - intros ns' i' c' [Hx|E%list_elem_of_singleton]%elem_of_app; [by eapply Hl|].
    apply pair_equal_spec in E as [[-> ->]%history_key_inj ->%bytes_eq]. done.
  - intros ns' i' j Hi Hj. apply history_in_snoc. apply history_in_snoc in Hi as [Hi|[-> ->]]; [left; by eapply Hb|].
    destruct (decide (j = i)) as [->|Hne]; [by right|left]. assert (uval j <> uval i) by (intros E; by apply Hne, uint_eq).
    apply (history_below l (in_previous s) ns i); [done..|lia].
  - intros ns' i'. rewrite Hprev. intros [= <- <-]. apply history_in_snoc. by right.
Qed.

(** *** The five tables *)

(** The contents are validated, and the other tables are those of linked rows. *)
Lemma seen_linked validate db R s1 s2 s3 s4 s5 :
  (forall t k x, t ∈ TABLES -> committed db t k = Some x -> valid_row t k x) ->
  contents_seen validate db ∅ (rows_of db Content) s1 -> claims_seen ∅ (rows_of db Claims) s2 ->
  requests_seen (committed db) (rows_of db Requests) s3 -> R = in_receipts s3 -> history_seen (committed db) R (rows_of db History) s4 ->
  heads_seen (committed db) (in_receipts s4) (rows_of db Heads) s5 -> in_receipts s5 = ∅ ->
  Linked (committed db).
Proof.
  intros Hvalid _ _ [Hr3 Hl3 Ho3] -> [Hr4 Hw4 Hl4 Hb4 _] [Hr5 Hl5] Hempty.
  assert (forall ns i, history_in (rows_of db History) ns i <-> is_Some (committed db History (history_key ns i))) as Hist.
  { intros ns i. split.
    - intros [c Hc%elem_of_rows]. by eexists.
    - intros [x Hx]. destruct (Hvalid History _ _ ltac:(unfold TABLES; set_solver) Hx) as (ns' & i' & c & [<- <-]%history_key_inj & ->).
      exists c. by apply elem_of_rows. }
  split.
  - intros t k x Ht. apply Hvalid. destruct t; try done; unfold TABLES; set_solver.
  - intros ns h Hh. apply Hl5. by apply elem_of_rows.
  - intros ns r f h Hh. eapply Hl3. by apply elem_of_rows.
  - intros ns i c Hh. apply Hl4. by apply elem_of_rows.
  - intros ns i j Hi Hj. apply Hist. eapply Hb4; [by apply Hist|done].
  - intros ns i Hi%Hist. apply Hw4, Hr3 in Hi as (r & f & h & Hin & Hx). exists r, f, h. split; [by apply elem_of_rows|done].
  - intros ns r f h r' f' h' Hx Hy. eapply Ho3; by apply elem_of_rows.
Qed.

(** The sizes and the hash of the tables. *)
Definition table_chunks (db : Database) (t : nat * Table) : list (list u8) :=
  [of_Z 8 (Z.of_nat t.1)] :: flat_map (fun row => hash_row row.1 row.2) (rows_of db t.2).

Record Summarized (db : Database) (mr mb : u64) (summary : ArchiveSummary) : Prop := {
  sz_rows : uval (su_rows summary) = zsum (fun t => zlen (rows_of db t)) TABLES /\ uval (su_rows summary) <= uval mr;
  sz_bytes : uval (su_bytes summary) = zsum (fun t => raw_bytes (rows_of db t)) TABLES /\ uval (su_bytes summary) <= uval mb;
  sz_tables : su_tables summary = map (fun t => of_Z 64 (zlen (rows_of db t))) TABLES;
  sz_digest : su_digest summary = hasher_digest (ROWS_TAG :: flat_map (table_chunks db) (imap pair TABLES));
}.

Lemma zlen_nonneg {A} (l : list A) : 0 <= zlen l.
Proof. unfold zlen. lia. Qed.

Lemma tallied_limits mr mb ordinal l st st' :
  Tally mr mb ordinal l st st' -> uval (in_rows st) <= uval mr /\ uval (in_bytes st) <= uval mb -> uval (in_rows st') <= uval mr /\ uval (in_bytes st') <= uval mb.
Proof.
  intros [Hr Hb Hl _ _] H0'. destruct Hl as [->|?]; [|done]. change (zlen []) with 0 in Hr. change (raw_bytes []) with 0 in Hb. lia.
Qed.

(** The tallies of the five tables, in order, make the summary. *)
Lemma summarized db mr mb s0 s1 s2 s3 s4 s5 :
  s0 = mkInspection (of_Z 64 0) (of_Z 64 0) (repeat (of_Z 64 0) 5) [ROWS_TAG] ∅ None ->
  let from ordinal (st : Inspection) := mkInspection (in_rows st) (in_bytes st) (in_tables st) (in_chunks st ++ [[of_Z 8 (Z.of_nat ordinal)]]) (in_receipts st) None in
  Tally mr mb 0 (rows_of db Content) (from 0%nat s0) s1 -> Tally mr mb 1 (rows_of db Claims) (from 1%nat s1) s2 ->
  Tally mr mb 2 (rows_of db Requests) (from 2%nat s2) s3 -> Tally mr mb 3 (rows_of db History) (from 3%nat s3) s4 ->
  Tally mr mb 4 (rows_of db Heads) (from 4%nat s4) s5 ->
  Summarized db mr mb (mkArchiveSummary (in_rows s5) (in_bytes s5) (in_tables s5) (hasher_digest (in_chunks s5))).
Proof.
  intros -> from T1 T2 T3 T4 T5.
  assert (uval (in_rows (from 0%nat (mkInspection (of_Z 64 0) (of_Z 64 0) (repeat (of_Z 64 0) 5) [ROWS_TAG] ∅ None))) <= uval mr
    /\ uval (in_bytes (from 0%nat (mkInspection (of_Z 64 0) (of_Z 64 0) (repeat (of_Z 64 0) 5) [ROWS_TAG] ∅ None))) <= uval mb) as L0.
  { pose proof (uval_range mr). pose proof (uval_range mb). cbn. rewrite !uval_of_Z_small by (simpl; lia). lia. }
  pose proof (tallied_limits _ _ _ _ _ _ T5 (tallied_limits _ _ _ _ _ _ T4 (tallied_limits _ _ _ _ _ _ T3 (tallied_limits _ _ _ _ _ _ T2 (tallied_limits _ _ _ _ _ _ T1 L0))))) as [Lr Lb].
  destruct T1 as [R1 B1 _ A1 C1], T2 as [R2 B2 _ A2 C2], T3 as [R3 B3 _ A3 C3], T4 as [R4 B4 _ A4 C4], T5 as [R5 B5 _ A5 C5].
  unfold from in *. cbn [in_rows in_bytes in_tables in_chunks in_receipts in_previous] in *. clear from L0.
  rewrite uval_of_Z_small in R1, B1 by (simpl; lia). split; cbn [su_rows su_bytes su_tables su_digest].
  - split; [|done]. unfold TABLES, zsum. cbn [foldr]. lia.
  - split; [|done]. unfold TABLES, zsum. cbn [foldr]. lia.
  - rewrite A5, A4, A3, A2, A1. unfold TABLES. cbn [repeat alter list_alter map]. rewrite !of_Z_add. by rewrite !Z.add_0_l.
  - f_equal. rewrite C5, C4, C3, C2, C1. change (imap pair TABLES) with [(0%nat, Content); (1%nat, Claims); (2%nat, Requests); (3%nat, History); (4%nat, Heads)].
    unfold table_chunks. cbn [flat_map fst snd app]. rewrite <- !app_assoc. by rewrite app_nil_r.
Qed.

(** The whole fold. *)
Lemma asks_tables fuel validate mr mb db :
  DbOk db -> (forall id data, is_Some (validate id data db)) -> (forall t, t ∈ TABLES -> (length (rows_of db t) < fuel)%nat) ->
  asks (sm_fold (imap pair TABLES) (inspect_table fuel validate mr mb)
         (mkInspection (of_Z 64 0) (of_Z 64 0) (repeat (of_Z 64 0) 5) [ROWS_TAG] ∅ None)) db
    (fun st => (in_receipts st = ∅ -> Linked (committed db))
       /\ (forall id x, committed db Content (blist id) = Some x -> validate id x db = Some (Ok tt))
       /\ Summarized db mr mb (mkArchiveSummary (in_rows st) (in_bytes st) (in_tables st) (hasher_digest (in_chunks st)))).
Proof.
  intros Hdb Hval Hfuel. assert (forall t, t ∈ TABLES -> table_ok t = true) as Hok.
  { intros t Ht. unfold TABLES in Ht. repeat (apply elem_of_cons in Ht as [->|Ht]; [done|]). by apply not_elem_of_nil in Ht. }
  assert (forall t, t = Content \/ t = Claims \/ t = Requests \/ t = History \/ t = Heads -> t ∈ TABLES) as Hin.
  { intros t Ht. unfold TABLES. rewrite !elem_of_cons. naive_solver. }
  change (imap pair TABLES) with [(0%nat, Content); (1%nat, Claims); (2%nat, Requests); (3%nat, History); (4%nat, Heads)]. cbn [sm_fold].
  eapply asks_bind.
  { apply (asks_table fuel validate mr mb _ 0 Content db (contents_seen validate db ∅)); [done|by auto 7|by auto 7|done|by auto 7| |].
    - intros st1 Hr _. split; [done|]. by intros id x ?%not_elem_of_nil.
    - intros l k x s s' [Hr Hs] [Hr' Hv] _. split; [congruence|]. intros id y [?|E%list_elem_of_singleton]%elem_of_app; [by apply Hs|].
      injection E as <- <-. by apply Hv. }
  intros s1 (T1 & V1 & S1). eapply asks_bind.
  { apply (asks_table fuel validate mr mb _ 1 Claims db (claims_seen ∅)); [done|by auto 7|by auto 7|done|by auto 7| |].
    - intros st1 Hr _. unfold claims_seen. by rewrite Hr, (proj1 S1).
    - intros l k x s s' Hs Hr' _. unfold claims_seen in *. cbn in Hr'. congruence. }
  intros s2 (T2 & V2 & S2). eapply asks_bind.
  { apply (asks_table fuel validate mr mb _ 2 Requests db (requests_seen (committed db))); [done|by auto 7|by auto 7|done|by auto 7| |].
    - intros st1 Hr _. split; [|by intros ns r f h ?%not_elem_of_nil|by intros ns r f h r' f' h' ?%not_elem_of_nil].
      intros ns i. rewrite Hr, S2. split; [by intros ?%elem_of_empty|by intros (r & f & h & ?%not_elem_of_nil & _)].
    - intros l k x s s' Hs Hr' _. by eapply requests_seen_snoc. }
  intros s3 (T3 & V3 & S3). eapply asks_bind.
  { apply (asks_table fuel validate mr mb _ 3 History db (history_seen (committed db) (in_receipts s3))); [done|by auto 7|by auto 7|done|by auto 7| |].
    - intros st1 Hr Hp. assert (forall ns i, ~ history_in [] ns i) as Hno by by intros ns i [c ?%not_elem_of_nil].
      split; [intros ns i; rewrite Hr; naive_solver|intros; naive_solver|by intros ns i c ?%not_elem_of_nil|intros; naive_solver|].
      intros ns i. by rewrite Hp.
    - intros l k x s s' Hs Hr' _. by eapply history_seen_snoc. }
  intros s4 (T4 & V4 & S4). eapply asks_bind.
  { apply (asks_table fuel validate mr mb _ 4 Heads db (heads_seen (committed db) (in_receipts s4))); [done|by auto 7|by auto 7|done|by auto 7| |].
    - intros st1 Hr _. split; [done|]. by intros ns h ?%not_elem_of_nil.
    - intros l k x s s' [Hr Hs] [Hr' Hv] _. split; [congruence|]. intros ns h [?|E%list_elem_of_singleton]%elem_of_app; [by apply Hs|].
      apply pair_equal_spec in E as [<- <-]. by apply Hv. }
  intros s5 (T5 & V5 & S5). apply asks_ret. split; [|split].
  - intros He. eapply (seen_linked validate db); [|done..].
    intros t k x Ht. unfold TABLES in Ht. repeat (apply elem_of_cons in Ht as [->|Ht]; [by auto|]). by apply not_elem_of_nil in Ht.
  - intros id x Hx. apply S1. by apply elem_of_rows.
  - by eapply summarized.
Qed.

(** C25: inspection is sound. With fuel for the rows of every table, and a validator that answers,
    inspecting a sound archive does not panic and leaves it. When it succeeds the rows of the
    application tables are those of one log per namespace, each entry with its history row, its
    receipt and its content; every content was validated; and the summary counts the rows and bytes
    of each table, within the limits, and hashes every row once, in the order of the tables. *)
Theorem inspect_sound fuel transaction mr mb validate db :
  DbOk db -> (forall id data, is_Some (validate id data db)) -> (forall t, t ∈ TABLES -> (length (rows_of db t) < fuel)%nat) ->
  exists r, inspect fuel transaction mr mb validate db = Some (r, db) /\ forall summary, r = Ok summary ->
    Represents (committed db) (logs_of (engine_rows (db_engine db) Heads) (engine_rows (db_engine db) Requests))
    /\ (forall id x, committed db Content (blist id) = Some x -> validate id x db = Some (Ok tt))
    /\ Summarized db mr mb summary.
Proof.
  intros Hdb Hval Hfuel. unfold inspect. apply asks_require. intros _. eapply asks_bind; [by apply asks_tables|].
  intros st (Hl & Hc & Hs). apply asks_require. intros He%bool_decide_eq_true. unfold reading at 1.
  apply asks_bind with (Q' := fun _ => True).
  - unfold asks, db_last_transaction, read_marker. destruct (db_read_ok db Metadata (ascii_bytes "last_transaction") 32 Hdb eq_refl) as (r & -> & _).
    cbn [mbind option_bind]. by eexists.
  - intros last _. apply asks_require. intros _. apply asks_ret. split; [|done]. apply linked_represents; [by apply Hl|done..].
Qed.

End Inspection.

(** ** Witness *)

Import Toy ToyEngines.

(** A validator that accepts every content. *)
Definition accept : ValidateContent := fun _ _ _ => Some (Ok tt).

(** The marker of the store after [sample_write]. *)
Definition written_marker : option (bytes 32) := match db_last_transaction written_db with Some (Ok t) => t | _ => None end.

Lemma written_fuel t : t ∈ TABLES -> (length (rows_of written_db t) < 4)%nat.
Proof.
  assert (forallb (fun t => Nat.ltb (length (rows_of written_db t)) 4) TABLES = true) as Ef by (vm_compute; reflexivity).
  intros Ht. apply Nat.ltb_lt. apply (proj1 (forallb_forall _ _) Ef). by apply list_elem_of_In.
Qed.

Definition answered {A B : Type} (r : option (result Error.AppError A * B)) : bool := match r with Some (Ok _, _) => true | _ => false end.

Lemma inspected_ok : answered (inspect 4 written_marker (of_Z 64 100) (of_Z 64 10000) accept written_db) = true.
Proof. vm_compute. reflexivity. Qed.

(** An answered inspection that promises [P] of what it answers. *)
Lemma answered_ok {A B} (o : option (result Error.AppError A * B)) (b : B) (P : A -> Prop) : answered o = true ->
  (exists r, o = Some (r, b) /\ forall a, r = Ok a -> P a) -> exists a, o = Some (Ok a, b) /\ P a.
Proof. intros Ho (r & -> & Hr). destruct r as [a|]; [|discriminate]. exists a. exact (conj eq_refl (Hr a eq_refl)). Qed.

Lemma inspect_sound_witness :
  exists summary, inspect 4 written_marker (of_Z 64 100) (of_Z 64 10000) accept written_db = Some (Ok summary, written_db)
    /\ Summarized written_db (of_Z 64 100) (of_Z 64 10000) summary.
Proof.
  destruct (answered_ok _ _ _ inspected_ok (inspect_sound 4 written_marker (of_Z 64 100) (of_Z 64 10000) accept written_db (proj1 written_db_ok)
    (fun _ _ => ex_intro _ (Ok tt) eq_refl) written_fuel)) as (summary & E & H).
  exists summary. exact (conj E (proj2 (proj2 H))).
Defined.
