(* ===== verification/TransferSpec.v ===== *)
(** * The transfer copies

    [validate_links] answers and leaves the tables of the journal; the cursor of a transfer counts the
    rows of the source that the target holds, through failures and retries. *)

From S2P Require Import Prelude.
From S2P Require Import Crypto.
From S2P Require Import Access.
From S2P Require Import Shard.
From S2P Require Import Engine.
From S2P Require Import Database.
From S2P Require Import Application.
From S2P Require Import Journal.
From S2P Require Import Fences.
From S2P Require Import Archive.
From S2P Require Import Transfer.
From S2P Require Import ArchiveSpec.
From S2P Require Import Inspection.

Local Open Scope Z_scope.

(** The calls do not panic; the answer and the state they leave satisfy [Q]. *)
Definition acts {S A} (m : SM Error.AppError S A) (s : S) (Q : AppResult A -> S -> Prop) : Prop :=
  exists r s', m s = Some (r, s') /\ Q r s'.

Lemma acts_bind {S A B} (m : SM Error.AppError S A) (k : A -> SM Error.AppError S B) s Q' (Q : AppResult B -> S -> Prop) :
  acts m s Q' -> (forall e s', Q' (Err e) s' -> Q (Err e) s') -> (forall x s', Q' (Ok x) s' -> acts (k x) s' Q) ->
  acts (x ← m; k x) s Q.
Proof.
  intros (r & s1 & E & Hr) HE HK. unfold acts. rewrite sm_bind_eq, E. destruct r as [x|e]; [by apply HK|]. eexists _, s1. split; [done|auto].
Qed.

Lemma acts_weaken {S A} (m : SM Error.AppError S A) s (Q Q' : AppResult A -> S -> Prop) :
  acts m s Q' -> (forall r s', Q' r s' -> Q r s') -> acts m s Q.
Proof. intros (r & s' & E & Hr) HQ. exists r, s'. auto. Qed.

Lemma acts_ret {S A} (x : A) (s : S) (Q : AppResult A -> S -> Prop) : Q (Ok x) s -> acts (mret x) s Q.
Proof. intros HQ. by exists (Ok x), s. Qed.

Section Links.
  Context `{Nebu, Hasher, Fjall, Redb, !FjallLaws, !RedbLaws}.

Abbreviation Owner := (SM Error.AppError Database).

Lemma acts_asks {A} (m : Owner A) db Q : asks m db Q -> acts m db (fun r db' => db' = db /\ forall x, r = Ok x -> Q x).
Proof. intros (r & E & Hr). by exists r, db. Qed.

(** A transaction of a sound owner: all of its changes, or none when it fails, or either when the
    outcome is unknown. *)
Lemma committing_ok {A} (m : SM Error.AppError Transaction A) db Q :
  DbOk db -> tx_body m -> calls m (tx_new (db_engine db)) Q (fun _ => True) ->
  acts (committing m) db (fun r db' => DbOk db' /\ match r with
    | Ok x => exists tx, Q x tx /\ sees tx db'
    | Err _ => unchanged db db' \/ exists x tx, Q x tx /\ sees tx db'
    end).
Proof.
  intros Hdb Hb Hc. unfold acts, committing. destruct (db_failure db) as [error|] eqn:Hf.
  { unfold transact. rewrite (db_transaction_failed _ _ _ error) by (done || apply Hdb). eexists (Err _), db. split_and!; [done..|by left]. }
  destruct (transact_ok m db Q _ Hdb Hf Hb Hc) as (r & db' & -> & Hdb' & Hr). exists r, db'. split_and!; [done..|]. destruct r as [x|e].
  - destruct Hr as (tx & HQ & Hs & _). by exists tx.
  - destruct Hr as [[_ ->]|[[_ Hs]|(id & message & x & tx & _ & HQ & Hs)]]; [by left|left|right; by exists x, tx].
    intros t k Ht _. unfold committed. by rewrite Hs.
Qed.

Lemma calls_remove t k tx (Q : unit -> Transaction -> Prop) (R : Error.AppError -> Prop) :
  TxOk tx -> table_ok t = true -> (forall e, storage_error e -> R e) ->
  (forall tx', TxOk tx' -> (forall t' k', tx_row tx' t' k' = view_put (tx_row tx) t k None t' k') -> Q tt tx') ->
  calls (app (tx_remove t k)) tx Q R.
Proof.
  intros Htx Ht HR HQ. unfold calls, app, tx_remove. destruct (tx_stage_ok tx t k None Htx Ht) as (r & tx' & E & Htx' & He & Hr).
  rewrite E. cbn. eexists _, tx'. split_and!; [done..|]. destruct r as [[]|e]; cbn; [|by apply HR; eexists]. apply HQ; [done|].
  intros t' k'. unfold view_put, tx_row, changed. rewrite Hr, He. case_decide as Hd; [by rewrite Hd, lookup_insert_eq|].
  by rewrite lookup_insert_ne by congruence.
Qed.

(** The tables of the journal are those of [v0], and the marks have keys in [L]. *)
Record Indexed (v0 : View) (L : list (list u8)) (v : View) : Prop := {
  ix_same : journal_same v0 v;
  ix_keys : forall k, is_Some (v Migration k) -> k ∈ L;
}.

Lemma indexed_sees v0 L tx db : Indexed v0 L (tx_row tx) -> sees tx db -> Indexed v0 L (committed db).
Proof.
  intros [Hs Hk] Hsee. split; [|intros k; rewrite Hsee by done; apply Hk]. intros t k Ht. rewrite Hsee by (by destruct t). by apply Hs.
Qed.

Lemma indexed_unchanged v0 L db db' : Indexed v0 L (committed db) -> unchanged db db' -> Indexed v0 L (committed db').
Proof.
  intros [Hs Hk] Hu. split; [|intros k; rewrite Hu by done; apply Hk]. intros t k Ht. rewrite Hu by (by destruct t). by apply Hs.
Qed.

Lemma indexed_more v0 L L' v : Indexed v0 L v -> Indexed v0 (L' ++ L) v.
Proof. intros [Hs Hk]. split; [done|]. intros k Hk'. apply elem_of_app. right. by apply Hk. Qed.

Lemma same_table db db' t : journal_same (committed db) (committed db') -> journal_table t = true -> rows_of db' t = rows_of db t.
Proof. intros Hs Ht. unfold rows_of. f_equal. apply map_eq. intros k. exact (Hs t k Ht). Qed.

(** ** [validate_links] answers *)

Lemma calls_some {A B} (o : option A) x (k : A -> SM Error.AppError Transaction B) tx Q R :
  o = Some x -> TxOk tx -> calls (k x) tx Q R -> calls (y ← sm_some o; k y) tx Q R.
Proof. intros -> Htx Hk. eapply calls_bind; [by apply (calls_ret x tx (fun y tx' => y = x /\ tx' = tx))|]. by intros y tx' _ [-> ->]. Qed.

Lemma body_some {A} (o : option A) : is_Some o -> tx_body (sm_some (E := Error.AppError) (S := Transaction) o).
Proof. intros [x ->]. apply body_ret. Qed.

(** The rows of a page have a namespace. *)
Definition named (rows : list RawEntry) : Prop := forall row, row ∈ rows -> is_Some (key_namespace row.1).

Lemma index_body rows : named rows -> tx_body (index_receipts rows).
Proof.
  intros Hn. apply body_for. intros [key value] Hrow. apply body_bind; [apply body_lift|]. intros [f h]. apply body_bind; [exact (body_some _ (Hn _ Hrow))|].
  intros ns. unfold get, put. tx_bodies.
Qed.

Definition index_key (row : RawEntry) : list u8 :=
  match decode_request row.2, key_namespace row.1 with
  | Ok (_, head), Some namespace => receipt_index namespace (head_index head)
  | _, _ => []
  end.

Lemma calls_index rows L v0 tx : TxOk tx -> Indexed v0 L (tx_row tx) -> named rows ->
  calls (index_receipts rows) tx (fun _ tx' => Indexed v0 (map index_key rows ++ L) (tx_row tx')) (fun _ => True).
Proof.
  intros Htx HL Hn. unfold index_receipts. apply (calls_for _ (fun before tx' => Indexed v0 (map index_key before ++ L) (tx_row tx'))); [done..|].
  intros before [key value] after tx1 El Htx1 [Hs Hk]. destruct (Hn (key, value)) as [ns Ens]; [subst; apply elem_of_app; right; by left|]. cbn in Ens.
  apply calls_bind_lift; [done..|]. intros [f h] Er. eapply calls_some; [exact Ens|done|]. apply calls_bind_get; [done..|].
  apply calls_bind_require; [done..|]. intros _. apply calls_put; [done..|]. intros tx2 _ Hv. split.
  - intros t k Ht. rewrite Hv, view_put_ne by (by intros [= -> ->]). by apply Hs.
  - intros k. rewrite Hv. unfold view_put. rewrite map_app, <- app_assoc. intros Hsome. apply elem_of_app. case_decide as Hd; [right|].
    + injection Hd as ->. cbn. unfold index_key. cbn. rewrite Er, Ens. by left.
    + apply Hk, elem_of_app in Hsome as [?|?]; [by left|right]. by right.
Qed.

(** What a step of the validation keeps: the owner, its journal, and a bound on its marks. *)
Definition Keeps (v0 : View) (n : nat) (db : Database) : Prop :=
  DbOk db /\ exists L, Indexed v0 L (committed db) /\ (length L <= n)%nat.

Lemma committing_index rows v0 n db : named rows -> Keeps v0 n db ->
  acts (committing (index_receipts rows)) db (fun _ db' => Keeps v0 (n + length rows) db').
Proof.
  intros Hn (Hdb & L & HL & Hlen). pose proof (tx_new_ok _ (proj1 Hdb)) as Hnew.
  eapply acts_weaken; [apply (committing_ok _ db _ Hdb (index_body rows Hn) (calls_index rows L v0 _ Hnew HL Hn))|].
  assert (length (map index_key rows ++ L) <= n + length rows)%nat as Hlen' by (rewrite length_app, length_map; lia).
  intros r db' [Hdb' Hr]. split; [done|]. exists (map index_key rows ++ L). split; [|done].
  destruct r; [destruct Hr as (tx & HQ & Hs); by eapply indexed_sees|].
  destruct Hr as [Hu|(x & tx & HQ & Hs)]; [|by eapply indexed_sees]. eapply indexed_unchanged; [by apply indexed_more|done].
Qed.

Lemma asks_check_row t previous row db :
  DbOk db -> is_Some (key_namespace row.1) -> asks (check_row t previous row) db (fun _ => True).
Proof.
  intros Hdb [ns Ens]. destruct row as [key value]. cbn in Ens. unfold check_row. eapply asks_some; [exact Ens|].
  apply asks_lift. intros [h p] _. eapply asks_bind; [by apply asks_check_head|]. intros _ _. apply asks_read; [done..|].
  apply asks_lift. intros sel _. apply asks_lift. intros selected _. apply asks_require. intros _.
  case_bool_decide; [|by apply asks_ret]. apply asks_read; [done..|]. apply asks_require. intros _. by apply asks_ret.
Qed.

Lemma asks_for {A} (f : A -> Owner unit) db l (P : A -> Prop) :
  (forall x, x ∈ l -> asks (f x) db (fun _ => P x)) -> asks (sm_for l f) db (fun _ => forall x, x ∈ l -> P x).
Proof.
  induction l as [|x l IH]; intros Hf; [by apply asks_ret; intros ? ?%not_elem_of_nil|]. cbn [sm_for].
  eapply asks_bind; [apply Hf; by left|]. intros ? Hx. cbn in Hx. eapply asks_weaken; [apply IH; intros y Hy; apply Hf; by right|].
  intros ? Hl y Hy. apply elem_of_cons in Hy as [Ey|Hy]; [subst; exact Hx|by apply Hl].
Qed.

(** The tables [validate_links] walks. *)
Definition linking (t : Table) : Prop := t = Heads \/ t = Requests \/ t = History.

Lemma linking_ok t : linking t -> table_ok t = true /\ journal_table t = true.
Proof. by intros [->|[->| ->]]. Qed.

Lemma asks_validate t rows db : linking t ->
  asks (sm_for rows (fun '(key, value) => sm_lift (validate_record t key value))) db (fun _ => named rows).
Proof.
  intros Ht. apply asks_for. intros [key value] _. exists (validate_record t key value). split; [done|]. intros [] Hv.
  apply validate_record_Ok, (valid_namespace _ _ _ Ht) in Hv as [ns Hns]. by eexists.
Qed.

Lemma keeps_more v0 n m db : Keeps v0 n db -> (n <= m)%nat -> Keeps v0 m db.
Proof. intros (Hdb & L & HL & Hlen) Hnm. split; [done|]. exists L. split; [done|lia]. Qed.

Lemma acts_check_page t previous rows v0 n db : linking t -> Keeps v0 n db ->
  acts (check_page t previous rows) db (fun _ db' => Keeps v0 (n + length rows) db').
Proof.
  intros Ht Hk. unfold check_page. eapply acts_bind.
  { apply acts_asks, (asks_validate t rows db Ht). }
  { intros e db' [-> _]. eapply keeps_more; [done|lia]. }
  intros [] db' [-> Hn]. specialize (Hn tt eq_refl). eapply acts_bind with (Q' := fun _ db' => Keeps v0 (n + length rows) db'); [|done|].
  - case_bool_decide; [by apply committing_index|]. apply acts_ret. eapply keeps_more; [done|lia].
  - intros _ db' Hk'. eapply acts_weaken.
    + apply acts_asks, (asks_fold (check_row t) (fun _ _ => True) db' rows previous [] I). intros before x b _ Hx _.
      apply asks_check_row; [apply Hk'|by apply Hn].
    + by intros r db2 [-> _].
Qed.

(** A table of the journal is walked to its end. *)
Lemma acts_check_pages fuel t v0 n db previous l1 l2 : linking t -> Keeps v0 n db -> rows_of db t = l1 ++ l2 -> (length l2 < fuel)%nat ->
  acts (check_pages fuel t (fst <$> last l1) previous) db (fun _ db' => Keeps v0 (n + length l2) db').
Proof.
  intros Ht. revert n db previous l1 l2. induction fuel as [|fuel IH]; intros n db previous l1 l2 Hk El Hfuel; [lia|].
  destruct (linking_ok t Ht) as [Hok Hjt]. cbn [check_pages]. eapply acts_bind.
  { apply acts_asks, asks_page; [apply Hk|done]. }
  { intros e db' [-> _]. eapply keeps_more; [done|lia]. }
  intros page db' [-> Hp]. specialize (Hp page eq_refl). change (btree_iter _) with (rows_of db t) in El. rewrite (scan_rest _ _ _ El) in Hp. destruct page as [|x page].
  { apply raw_page_end in Hp; [|done]. subst l2. by apply acts_ret; rewrite Nat.add_0_r. }
  destruct (rp_prefix _ _ _ Hp) as [l3 ->]. rewrite length_app in Hfuel. cbn [length] in Hfuel.
  eapply acts_bind; [by apply acts_check_page| |].
  { intros e db' Hk'. eapply keeps_more; [exact Hk'|]. rewrite length_app. lia. }
  intros previous' db' Hk'. assert (fst <$> last (x :: page) = fst <$> last (l1 ++ x :: page)) as ->.
  { rewrite last_app. by destruct (last (x :: page)) eqn:El2; [|apply last_None in El2]. }
  eapply acts_weaken; [apply (IH _ _ _ (l1 ++ x :: page) l3 Hk')|]; [|lia|].
  - rewrite <- app_assoc, <- El. unfold rows_of. f_equal. apply map_eq. intros k.
    destruct Hk as (_ & L & [Hs _] & _), Hk' as (_ & L' & [Hs' _] & _). exact (eq_trans (Hs' t k Hjt) (eq_sym (Hs t k Hjt))).
  - intros r db2 Hk2. eapply keeps_more; [exact Hk2|]. rewrite length_app. lia.
Qed.

(** *** Dropping the reverse index *)

(** The keys that stay. *)
Definition remaining (rows : list RawEntry) (L : list (list u8)) : list (list u8) := filter (fun k => k ∉ rows.*1) L.

Lemma calls_drop (rows : list RawEntry) v0 L tx : TxOk tx -> Indexed v0 L (tx_row tx) ->
  calls (sm_for rows (fun '(key, _) => app (tx_remove Migration key))) tx
    (fun _ tx' => Indexed v0 (remaining rows L) (tx_row tx')) (fun _ => True).
Proof.
  intros Htx HL. apply (calls_for _ (fun (before : list RawEntry) tx' => Indexed v0 (remaining before L) (tx_row tx'))); [done| |].
  { destruct HL as [Hs Hk]. split; [done|]. intros k Hk'. apply list_elem_of_filter. split; [by apply not_elem_of_nil|by apply Hk]. }
  intros before [k v] after tx1 El Htx1 [Hs Hk]. apply calls_remove; [done..|]. intros tx2 _ Hv. split.
  - intros t k' Ht. rewrite Hv, view_put_ne by (by intros [= -> ->]). by apply Hs.
  - intros k'. rewrite Hv. unfold view_put. case_decide as Hd; [by intros [? ?]|]. intros [Hn Hin]%Hk%list_elem_of_filter.
    apply list_elem_of_filter. split; [|done]. rewrite fmap_app. intros [?|Hin']%elem_of_app; [done|].
    apply list_elem_of_singleton in Hin'. cbn in Hin'. congruence.
Qed.

Lemma drop_body (rows : list RawEntry) : tx_body (sm_for rows (fun '(key, _) => app (tx_remove Migration key))).
Proof. apply body_for. intros [key value] _. by apply body_app, body_stage. Qed.

Lemma filter_shorter {A} (P : A -> Prop) `{!forall x, Decision (P x)} l : (length (filter P l) <= length l)%nat.
Proof. induction l as [|x l IH]; [done|]. rewrite filter_cons. case_decide; cbn; lia. Qed.

Lemma filter_drops {A} (P : A -> Prop) `{!forall x, Decision (P x)} l x : x ∈ l -> ~ P x -> (length (filter P l) < length l)%nat.
Proof.
  intros Hx Hn. induction l as [|y l IH]; [by apply not_elem_of_nil in Hx|]. rewrite filter_cons. pose proof (filter_shorter P l).
  apply elem_of_cons in Hx as [<-|Hx]; [rewrite decide_False by done; cbn; lia|]. specialize (IH Hx). case_decide; cbn; lia.
Qed.

Lemma acts_drop_index fuel v0 n db : Keeps v0 n db -> (n < fuel)%nat ->
  acts (drop_index fuel) db (fun _ db' => Keeps v0 n db').
Proof.
  revert n db. induction fuel as [|fuel IH]; intros n db (Hdb & L & HL & Hlen) Hfuel; [lia|]. cbn [drop_index]. eapply acts_bind.
  { by apply acts_asks, asks_page. }
  { intros e db' [-> _]. split; [done|]. by exists L. }
  intros page db' [-> Hp]. specialize (Hp page eq_refl). destruct page as [|x page]; [by apply acts_ret; split; [done|exists L]|].
  set (rows := x :: page) in *. pose proof (tx_new_ok _ (proj1 Hdb)) as Hnew.
  assert (length (remaining rows L) < n)%nat as Hless.
  { eapply Nat.lt_le_trans; [|exact Hlen]. apply (filter_drops _ _ x.1); [|intros Hx; apply Hx; by left].
    apply (ix_keys _ _ _ HL). exists x.2. apply elem_of_rows. destruct (rp_prefix _ _ _ Hp) as [rest Er].
    assert (x ∈ table_scan (engine_rows (db_engine db) Migration) None (ascii_bytes "r")) as Hx by (rewrite Er; by left).
    apply list_elem_of_filter in Hx as [_ Hx]. by destruct x. }
  eapply acts_bind; [apply (committing_ok _ db _ Hdb (drop_body rows) (calls_drop rows v0 L _ Hnew HL))| |].
  - intros e db' [Hdb' Hr]. split; [done|]. destruct Hr as [Hu|(y & tx & HQ & Hs)].
    + exists L. split; [by eapply indexed_unchanged|done].
    + eexists. split; [by eapply indexed_sees|lia].
  - intros y db' [Hdb' (tx & HQ & Hs)]. eapply acts_weaken; [apply (IH (pred n)); [|lia]|].
    + split; [done|]. eexists. split; [by eapply indexed_sees|lia].
    + intros r db2 Hk2. eapply keeps_more; [exact Hk2|lia].
Qed.

(** Fuel for the pages and the marks of an owner. *)
Definition links_fuel (db : Database) (fuel : nat) : Prop :=
  (forall t, linking t -> (length (rows_of db t) < fuel)%nat)
  /\ (length (rows_of db Migration) + length (rows_of db Heads) + length (rows_of db Requests) + length (rows_of db History) < fuel)%nat.

Lemma keeps_start db : DbOk db -> Keeps (committed db) (length (rows_of db Migration)) db.
Proof.
  intros Hdb. split; [done|]. exists (rows_of db Migration).*1. split; [|by rewrite length_fmap]. split; [done|].
  intros k [x Hx]. apply elem_of_rows in Hx. by apply (list_elem_of_fmap_2 fst) in Hx.
Qed.

Lemma keeps_rows v0 n db db' t : v0 = committed db -> Keeps v0 n db' -> linking t -> rows_of db' t = rows_of db t.
Proof. intros -> (_ & L & [Hs _] & _) Ht. apply same_table; [done|by apply linking_ok]. Qed.

(** Validating the links answers, and leaves the rows of the journal. *)
Lemma validate_links_ok fuel db : DbOk db -> links_fuel db fuel ->
  acts (validate_links fuel) db (fun _ db' => DbOk db' /\ journal_same (committed db) (committed db')).
Proof.
  intros Hdb [Hfuel Hmarks]. set (n := length (rows_of db Migration)) in *. unfold validate_links.
  assert (forall t m db', linking t -> Keeps (committed db) m db' ->
    acts (check_pages fuel t None None) db' (fun _ db' => Keeps (committed db) (m + length (rows_of db t)) db')) as Htable.
  { intros t m db' Ht Hk. rewrite <- (keeps_rows _ m db db' t eq_refl Hk Ht).
    apply (acts_check_pages fuel t _ m db' None [] (rows_of db' t) Ht Hk eq_refl).
    rewrite (keeps_rows _ m db db' t eq_refl Hk Ht). by apply Hfuel. }
  assert (forall m db', Keeps (committed db) m db' -> DbOk db' /\ journal_same (committed db) (committed db')) as Hend.
  { intros m db' (Hok & L & [Hs _] & _). done. }
  eapply acts_bind with (Q' := fun _ db' => Keeps (committed db) (n + length (rows_of db Heads) + length (rows_of db Requests) + length (rows_of db History)) db').
  - cbn [sm_for]. eapply acts_bind; [apply (Htable Heads n); [by left|by apply keeps_start]|intros e db' Hk; eapply keeps_more; [exact Hk|lia]|].
    intros ? db1 Hk1. eapply acts_bind; [eapply (Htable Requests); [by right; left|exact Hk1]|intros e db' Hk; eapply keeps_more; [exact Hk|lia]|].
    intros ? db2 Hk2. eapply acts_bind; [eapply (Htable History); [by right; right|exact Hk2]|intros e db' Hk; exact Hk|].
    intros ? db3 Hk3. apply acts_ret. exact Hk3.
  - intros e db' Hk. by eapply Hend.
  - intros ? db' Hk. eapply acts_weaken; [eapply acts_drop_index; [exact Hk|lia]|]. intros r db2 Hk2. eapply Hend; exact Hk2.
Qed.

End Links.

(** ** The cursor *)

(** The cursors a transfer writes. *)
Definition CursorOk (c : Cursor) : Prop :=
  uval (cu_table c) <= 5 /\ forall a, cu_after c = Some a -> 1 <= zlen a <= 64.

(** A cursor reads back as it was written, and only written cursors are read. *)
Lemma cursor_decode_Ok b c : cursor_decode b = Ok c <-> CursorOk c /\ b = cursor_encode c.
Proof.
  split.
  - unfold cursor_decode. destruct b as [|table [|len rest]]; [done..|]. destruct (_ || _) eqn:Eg; [done|].
    rewrite !orb_false_iff, negb_false_iff in Eg. destruct Eg as [[[Hl%Z.ltb_ge Ht%Z.ltb_ge] Hn%Z.ltb_ge] He%Z.eqb_eq].
    destruct (take_bytes 8 (take 8 rest)) as [rows|] eqn:Er; [|done]. cbn [mbind result_bind].
    destruct (take_bytes 8 (take 8 (drop 8 rest))) as [total|] eqn:Et; [|done]. cbn [mbind result_bind]. intros [= <-].
    apply take_bytes_ok in Er, Et. unfold zlen in He, Hl. cbn [length] in He, Hl.
    assert (Z.of_nat (length (drop 16 rest)) = uval len) as Hd by (rewrite length_drop; lia).
    assert (rest = take 8 rest ++ take 8 (drop 8 rest) ++ drop 16 rest) as Erest.
    { assert (drop 16 rest = drop 8 (drop 8 rest)) as -> by (by rewrite drop_drop). by rewrite !take_drop. }
    split.
    + split; cbn; [lia|]. intros a. destruct (Z.eqb_spec (uval len) 0); [done|]. intros [= <-]. unfold zlen. rewrite Hd. lia.
    + unfold cursor_encode. cbn [cu_table cu_after cu_rows cu_bytes]. rewrite !to_from_le_bytes, Er, Et by done. cbn [app].
      rewrite Erest at 1. apply (f_equal2 (fun x y => table :: x :: y)); [|do 2 f_equal].
      * destruct (Z.eqb_spec (uval len) 0) as [E|E]; [by apply uint_eq; rewrite uval_of_Z_small|].
        unfold zlen. by rewrite Hd, of_Z_uval.
      * destruct (Z.eqb_spec (uval len) 0) as [E|E]; [|done]. rewrite E in Hd. by apply length_zero_iff_nil, Nat2Z.inj.
  - intros [[Ht Ha] ->]. set (tail := default [] (cu_after c)).
    assert (uval (match cu_after c with None => of_Z 8 0 | Some a => of_Z 8 (zlen a) end) = zlen tail /\ zlen tail <= 64
      /\ (if zlen tail =? 0 then None else Some tail) = cu_after c) as (El & Hl & Ea).
    { unfold tail. destruct (cu_after c) as [a|]; [change (default [] (Some a)) with a|change (default [] None) with (@nil u8); split_and!; [by rewrite uval_of_Z_small|done|done]].
      specialize (Ha a eq_refl). rewrite uval_of_Z_small by (simpl; lia). split_and!; [done|lia|]. destruct (Z.eqb_spec (zlen a) 0); [lia|done]. }
    set (len := match cu_after c with None => of_Z 8 0 | Some a => of_Z 8 (zlen a) end) in *.
    set (rest := blist (to_le_bytes 8 (cu_rows c)) ++ blist (to_le_bytes 8 (cu_bytes c)) ++ tail).
    change (cursor_decode (cu_table c :: len :: rest) = Ok c).
    assert (zlen (cu_table c :: len :: rest) = 18 + zlen tail) as Hlen.
    { unfold zlen, rest. cbn [length]. rewrite !length_app, !length_blist. lia. }
    unfold cursor_decode. rewrite Hlen, El. pose proof (Zle_0_nat (length tail)) as H0. fold (zlen tail) in H0.
    destruct (_ || _) eqn:Eg; [rewrite !orb_true_iff, negb_true_iff, !Z.ltb_lt, Z.eqb_neq in Eg; lia|].
    assert (drop 16 rest = tail) as -> by (unfold rest; rewrite app_assoc; apply drop_app_length'; by rewrite length_app, !length_blist).
    unfold rest. rewrite take_app_length', drop_app_length' by by rewrite length_blist. rewrite take_app_length' by by rewrite length_blist.
    rewrite !take_bytes_blist. cbn [mbind result_bind]. rewrite !from_to_le_bytes, Ea by done.
    by destruct c.
Qed.
