(* ===== verification/LinksSpec.v ===== *)
(** * Validated links are links

    An owner without marks of its own whose [validate_links] succeeds holds the rows of one log per
    namespace. *)

From S2P Require Import Prelude.
From S2P Require Import Crypto.
From S2P Require Import Access.
From S2P Require Import Shard.
From S2P Require Import Engine.
From S2P Require Import Database.
From S2P Require Import Application.
From S2P Require Import Journal.
From S2P Require Import Archive.
From S2P Require Import ArchiveSpec.
From S2P Require Import Inspection.
From S2P Require Import TransferSpec.

Local Open Scope Z_scope.

(** When the calls succeed, the answer and the state they leave satisfy [Q]. *)
Definition yields {S A} (m : SM Error.AppError S A) (s : S) (Q : A -> S -> Prop) : Prop :=
  forall x s', m s = Some (Ok x, s') -> Q x s'.

Lemma yields_bind {S A B} (m : SM Error.AppError S A) (k : A -> SM Error.AppError S B) s Q' (Q : B -> S -> Prop) :
  yields m s Q' -> (forall x s', Q' x s' -> yields (k x) s' Q) -> yields (x ← m; k x) s Q.
Proof.
  intros Hm Hk y s' E. rewrite sm_bind_eq in E. destruct (m s) as [[[x|e] s1]|] eqn:Em; [|done..]. by apply (Hk x s1 (Hm _ _ Em)).
Qed.

Lemma yields_ret {S A} (x : A) (s : S) (Q : A -> S -> Prop) : Q x s -> yields (mret x) s Q.
Proof. by intros HQ y s' [= <- <-]. Qed.

Lemma yields_acts {S A} (m : SM Error.AppError S A) s (Q : AppResult A -> S -> Prop) : acts m s Q -> yields m s (fun x s' => Q (Ok x) s').
Proof. intros (r & s' & E & HQ) x s2 E2. rewrite E in E2. by injection E2 as -> ->. Qed.

Lemma yields_weaken {S A} (m : SM Error.AppError S A) s (Q Q' : A -> S -> Prop) :
  yields m s Q' -> (forall x s', Q' x s' -> Q x s') -> yields m s Q.
Proof. intros Hm HQ x s' E. by apply HQ, Hm. Qed.

Section Links.
  Context `{Nebu, Hasher, Fjall, Redb, !FjallLaws, !RedbLaws}.

Abbreviation Owner := (SM Error.AppError Database).

Lemma yields_asks {A} (m : Owner A) db Q : asks m db Q -> yields m db (fun x db' => db' = db /\ Q x).
Proof. intros (r & E & HQ) x s2 E2. rewrite E in E2. injection E2 as -> ->. split; [done|by apply HQ]. Qed.

(** ** Rows and the heads they lead to *)

(** The namespace and the head of a row. *)
Definition row_names (t : Table) (k x : list u8) (ns : Particle) (h : Head) : Prop :=
  match t with
  | Heads => k = blist ns /\ x = encode_head h
  | Requests => exists r f, k = request_key ns r /\ x = encode_receipt f h
  | History => k = history_key ns (head_index h) /\ x = blist (head_commit h)
  | _ => False
  end.

(** The reverse index of the receipts of these rows. *)
Definition Marked (l : list RawEntry) (v : View) : Prop := forall ns i b,
  v Migration (receipt_index ns i) = Some b <-> exists r f h, b = blist r /\ (request_key ns r, encode_receipt f h) ∈ l /\ head_index h = i.

Lemma receipt_index_inj ns i ns' i' : receipt_index ns i = receipt_index ns' i' -> ns = ns' /\ i = i'.
Proof.
  unfold receipt_index. intros E. apply (app_inj_1 (ascii_bytes "r") (ascii_bytes "r")) in E as [_ E]; [|done].
  apply (history_key_inj ns i ns' i'). exact E.
Qed.

(** The head of a valid row, and the row before the next. *)
Lemma row_head_names t previous k x ns h p :
  linking t -> valid_row t k x -> key_namespace k = Some ns -> row_head t previous k x ns = Ok (h, p) ->
  row_names t k x ns h /\ (t = History -> expected_index previous ns = Ok (head_index h) /\ p = Some (ns, head_index h)).
Proof.
  intros Ht Hv Hns. assert (forall ns' rest, k = blist ns' ++ rest -> ns' = ns) as Hkey.
  { intros ns' rest ->. rewrite key_namespace_app in Hns. by injection Hns. }
  destruct Ht as [->|[->| ->]]; cbn [row_head].
  - destruct Hv as (ns' & h' & -> & ->). rewrite decode_encode_head. cbn [mbind result_bind]. intros [= <- <-].
    rewrite <- (app_nil_r (blist ns')) in Hkey. by rewrite (Hkey ns' [] eq_refl).
  - destruct Hv as (ns' & r & f & h' & -> & ->). rewrite decode_encode_receipt. cbn [mbind result_bind]. intros [= <- <-].
    rewrite (Hkey ns' _ eq_refl). split; [by exists r, f|done].
  - destruct Hv as (ns' & i & c & -> & ->). rewrite (Hkey ns' _ eq_refl) in *. unfold history_key at 1.
    rewrite drop_app_length' by by rewrite length_blist. destruct (take_index i) as (b & -> & Eb). cbn [mbind result_bind]. rewrite Eb.
    destruct (expected_index _ _) as [e|] eqn:Ee; [|done]. cbn [mbind result_bind]. case_bool_decide as Hi; [|done].
    rewrite take_bytes_blist. cbn [mbind result_bind]. intros [= <- <-]. by subst e.
Qed.

(** A checked row is linked, and a history row has a receipt. *)
Lemma asks_row_links t previous k x db :
  DbOk db -> linking t -> valid_row t k x ->
  asks (check_row t previous (k, x)) db (fun p => exists ns h, row_names t k x ns h /\ links (committed db) ns h
    /\ (t = History -> expected_index previous ns = Ok (head_index h) /\ p = Some (ns, head_index h)
        /\ is_Some (committed db Migration (receipt_index ns (head_index h))))).
Proof.
  intros Hdb Ht Hv. destruct (valid_namespace t k x Ht Hv) as [ns Hns]. unfold check_row. eapply asks_some; [exact Hns|].
  apply asks_lift. intros [h p] Hh. destruct (row_head_names _ _ _ _ _ _ _ Ht Hv Hns Hh) as [Hn Hp].
  eapply asks_bind; [by apply asks_check_head|]. intros _ [Hc Hd]. apply asks_read; [done..|].
  apply asks_lift. intros sel Hsel. apply asks_lift. intros selected Hdec. apply asks_require. intros Hle%Z.leb_le.
  assert (links (committed db) ns h) as Hl.
  { split; [|done]. exists selected. split; [|done]. apply decode_head_Ok in Hdec as ->. by destruct (committed db Heads (blist ns)); [injection Hsel as ->|]. }
  case_bool_decide as Eh.
  - apply asks_read; [done..|]. apply asks_require. intros Hr%bool_decide_eq_true. apply asks_ret. exists ns, h. split_and!; [done..|].
    intros E. destruct (Hp E) as [? ->]. done.
  - apply asks_ret. by exists ns, h.
Qed.

(** ** The reverse index *)

Lemma calls_marks v0 l rows tx : TxOk tx -> journal_same v0 (tx_row tx) -> Marked l (tx_row tx) -> (forall k x, (k, x) ∈ rows -> valid_row Requests k x) ->
  calls (index_receipts rows) tx (fun _ tx' => journal_same v0 (tx_row tx') /\ Marked (l ++ rows) (tx_row tx')) (fun _ => True).
Proof.
  intros Htx Hs Hm Hv. unfold index_receipts.
  apply (calls_for _ (fun before tx' => journal_same v0 (tx_row tx') /\ Marked (l ++ before) (tx_row tx'))); [done|by rewrite app_nil_r|].
  intros before [k x] after tx1 El Htx1 [Hs1 Hm1]. destruct (Hv k x) as (ns & r & f & h & -> & ->); [subst; apply elem_of_app; right; by left|].
  apply calls_bind_lift; [done..|]. intros [f' h'] Er. rewrite decode_encode_receipt in Er. injection Er as <- <-.
  eapply calls_some; [apply key_namespace_app|done|]. apply calls_bind_get; [done..|].
  assert (drop 32 (request_key ns r) = blist r) as Ed by (unfold request_key; by rewrite drop_app_length' by by rewrite length_blist).
  apply calls_bind_require; [done..|]. intros Hprior. rewrite Ed in Hprior |- *. apply calls_put; [done..|]. intros tx2 _ Hv2. split.
  { intros t k Ht. rewrite Hv2, view_put_ne by (by intros [= -> ->]). by apply Hs1. }
  intros ns' i b. rewrite Hv2, app_assoc. setoid_rewrite elem_of_app. setoid_rewrite list_elem_of_singleton. unfold view_put. case_decide as Hd.
  - apply pair_equal_spec in Hd as [_ [-> ->]%receipt_index_inj]. split.
    + intros [= <-]. exists r, f, h. split_and!; [done|by right|done].
    + intros (r' & f' & h' & -> & [Hin|E] & Ei); f_equal.
      * assert (tx_row tx1 Migration (receipt_index ns (head_index h)) = Some (blist r')) as E by (apply Hm1; by exists r', f', h').
        rewrite E in Hprior. apply bool_decide_eq_true in Hprior. done.
      * by apply pair_equal_spec in E as [[_ ->]%request_key_inj _].
  - rewrite (Hm1 ns' i b). split; [intros (r' & f' & h' & -> & Hin & Ei); exists r', f', h'; by split_and!; [|left|]|].
    intros (r' & f' & h' & -> & [Hin|E] & Ei); [by exists r', f', h'|]. exfalso. apply Hd. apply pair_equal_spec in E as [[-> ->]%request_key_inj E].
    pose proof (decode_encode_receipt f' h') as D. rewrite E, decode_encode_receipt in D. by injection D as _ <-; subst i.
Qed.

Lemma marked_sees l tx db : Marked l (tx_row tx) -> sees tx db -> Marked l (committed db).
Proof. intros Hm Hs ns i b. rewrite Hs by done. apply Hm. Qed.

(** ** The rows of a table, checked in order *)

(** What the checks of these rows show; [requests] are the rows of the requests. *)
Record Chained (v : View) (requests : list RawEntry) (t : Table) (l : list RawEntry) (previous : Previous) : Prop := {
  ch_links k x : (k, x) ∈ l -> exists ns h, row_names t k x ns h /\ links v ns h /\ (t = History -> receipt_in requests ns (head_index h));
  ch_below ns i j : t = History -> history_in l ns i -> uval j <= uval i -> history_in l ns j;
  ch_previous ns i : t = History -> previous = Some (ns, i) -> history_in l ns i;
}.

Lemma chained_nil v requests t : Chained v requests t [] None.
Proof. split; [by intros k x ?%not_elem_of_nil|by intros ns i j _ [c ?%not_elem_of_nil]|done]. Qed.

Lemma chained_snoc v requests t l p k x ns h p' :
  Chained v requests t l p -> row_names t k x ns h -> links v ns h ->
  (t = History -> expected_index p ns = Ok (head_index h) /\ p' = Some (ns, head_index h) /\ receipt_in requests ns (head_index h)) ->
  Chained v requests t (l ++ [(k, x)]) p'.
Proof.
  intros [Hl Hb Hp] Hn Hlink Hh. split.
  - intros k' x' [Hin|E%list_elem_of_singleton]%elem_of_app; [by apply Hl|]. injection E as -> ->. exists ns, h. split_and!; [done..|]. intros Et. by apply Hh.
  - intros ns' i j Et Hi Hj. destruct (Hh Et) as (He & _ & _). subst t. destruct Hn as [-> ->]. apply history_in_snoc.
    apply history_in_snoc in Hi as [Hi|[-> ->]]; [left; by eapply Hb|].
    destruct (decide (j = head_index h)) as [->|Hne]; [by right|left]. assert (uval j <> uval (head_index h)) by (intros E; by apply Hne, uint_eq).
    apply (history_below l p ns (head_index h)); [by intros; eapply Hb|by intros; apply Hp|done|lia].
  - intros ns' i Et E. destruct (Hh Et) as (_ & -> & _). injection E as <- <-. subst t. destruct Hn as [-> ->]. apply history_in_snoc. by right.
Qed.

Lemma links_same v v' ns h : journal_same v v' -> links v' ns h -> links v ns h.
Proof. intros Hs. unfold links. by rewrite !(Hs _ _) by done. Qed.

(** The rows marked when the rows [l] of a table are behind. *)
Definition marked_rows (requests : list RawEntry) (t : Table) (l : list RawEntry) : list RawEntry :=
  match t with Heads => [] | Requests => l | _ => requests end.

Record Checking (v0 : View) (l : list RawEntry) (db : Database) : Prop := {
  cg_ok : DbOk db;
  cg_same : journal_same v0 (committed db);
  cg_marks : Marked l (committed db);
}.

Lemma yields_index v0 requests t l page db :
  linking t -> Checking v0 (marked_rows requests t l) db -> (forall k x, (k, x) ∈ page -> valid_row t k x) ->
  yields (if bool_decide (t = Requests) then committing (index_receipts page) else mret tt) db
    (fun _ db' => Checking v0 (marked_rows requests t (l ++ page)) db').
Proof.
  intros Ht [Hdb Hs Hm] Hv. case_bool_decide as Et; [subst t|].
  - assert (named page) as Hnamed.
    { intros [k x] Hin. apply Hv, (valid_namespace Requests) in Hin as [ns E]; [by exists ns|done]. }
    eapply yields_weaken; [apply yields_acts; eapply committing_ok; [done|by apply index_body|]; apply (calls_marks v0 l page); [by apply tx_new_ok, Hdb|done..]|].
    cbn beta iota. intros _ db' [Hdb' (tx & [Hs' Hm'] & Hsee)]. split; [done| |by eapply marked_sees].
    intros t k Ht'. rewrite Hsee by (by destruct t). by apply Hs'.
  - apply yields_ret. split; [done..|]. by destruct Ht as [->|[->| ->]].
Qed.

Lemma yields_check_page v0 requests t l p page db :
  linking t -> Checking v0 (marked_rows requests t l) db -> Chained v0 requests t l p ->
  yields (check_page t p page) db (fun p' db' => Checking v0 (marked_rows requests t (l ++ page)) db' /\ Chained v0 requests t (l ++ page) p').
Proof.
  intros Ht Hc Hl. unfold check_page. eapply yields_bind.
  { apply yields_asks, (asks_for _ db page (fun row => valid_row t row.1 row.2)). intros [k x] _. exists (validate_record t k x).
    split; [done|]. intros [] Hv. by apply validate_record_Ok. }
  intros [] db1 [-> Hv]. eapply yields_bind; [apply (yields_index v0 requests t l page db Ht Hc)|].
  { intros k x Hin. by apply (Hv (k, x)). }
  intros _ db1 [Hdb1 Hs1 Hm1]. eapply yields_weaken.
  - apply yields_asks, (asks_fold (check_row t) (fun before q => Chained v0 requests t (l ++ before) q) db1 page p []); [by rewrite app_nil_r|].
    intros before [k x] q Hq Hin _. eapply asks_weaken; [apply asks_row_links; [done..|by apply (Hv (k, x))]|].
    intros q' (ns & h & Hn & Hlink & Hh). rewrite app_assoc. eapply chained_snoc; [done..|by eapply links_same|].
    intros Et. destruct (Hh Et) as (? & ? & [b Hb]). split_and!; [done..|]. apply Hm1 in Hb as (r & f & h' & _ & Hin' & Ei). subst t. by exists r, f, h'.
  - intros q db' [-> Hq]. split; [by split|done].
Qed.

Lemma yields_check_pages fuel v0 requests t l1 l2 p db :
  linking t -> Checking v0 (marked_rows requests t l1) db -> Chained v0 requests t l1 p -> rows_of db t = l1 ++ l2 ->
  yields (check_pages fuel t (fst <$> last l1) p) db
    (fun _ db' => Checking v0 (marked_rows requests t (l1 ++ l2)) db' /\ exists p', Chained v0 requests t (l1 ++ l2) p').
Proof.
  intros Ht. revert l1 l2 p db. induction fuel as [|fuel IH]; intros l1 l2 p db Hc Hl El; [done|]. destruct (linking_ok t Ht) as [Hok Hjt]. cbn [check_pages].
  eapply yields_bind; [apply yields_asks, asks_page; [apply Hc|done]|]. intros page db1 [-> Hp]. change (btree_iter _) with (rows_of db t) in El.
  rewrite (scan_rest _ _ _ El) in Hp. destruct page as [|x page].
  { apply raw_page_end in Hp; [|done]. subst l2. rewrite app_nil_r. apply yields_ret. split; [done|by exists p]. }
  destruct (rp_prefix _ _ _ Hp) as [l3 ->]. eapply yields_bind; [by apply (yields_check_page v0 requests)|]. intros p' db1 [Hc1 Hl1].
  assert (fst <$> last (x :: page) = fst <$> last (l1 ++ x :: page)) as ->.
  { rewrite last_app. by destruct (last (x :: page)) eqn:El2; [|apply last_None in El2]. }
  rewrite app_assoc. apply IH; [done..|]. rewrite <- app_assoc, <- El. unfold rows_of. f_equal. apply map_eq. intros k.
  exact (eq_trans (cg_same _ _ _ Hc1 t k Hjt) (eq_sym (cg_same _ _ _ Hc t k Hjt))).
Qed.

(** ** The links of an owner *)

Lemma checked_links v db t p : v = committed db -> linking t -> Chained v (rows_of db Requests) t (rows_of db t) p ->
  forall k x, v t k = Some x -> exists ns h, row_names t k x ns h /\ links v ns h /\ (t = History -> receipt_in (rows_of db Requests) ns (head_index h)).
Proof. intros -> _ Hc k x Hx. by apply (ch_links _ _ _ _ _ Hc), elem_of_rows. Qed.

(** A validation that succeeds has found linked tables. *)
Lemma validate_links_linked fuel db db' :
  DbOk db -> (forall t k x, journal_table t = true -> committed db t k = Some x -> valid_row t k x) -> Marked [] (committed db) ->
  validate_links fuel db = Some (Ok tt, db') -> Linked (committed db).
Proof.
  intros Hdb Hvalid Hm. set (v := committed db). set (requests := rows_of db Requests).
  assert (forall db' t, Checking v (marked_rows requests t []) db' -> linking t -> yields (check_pages fuel t None None) db'
    (fun _ db2 => Checking v (marked_rows requests t (rows_of db t)) db2 /\ exists p, Chained v requests t (rows_of db t) p)) as Htable.
  { intros db1 t Hc Ht. apply (yields_check_pages fuel v requests t [] (rows_of db t)); [done..|apply chained_nil|].
    apply same_table; [apply Hc|by apply linking_ok]. }
  assert (yields (validate_links fuel) db (fun _ _ => exists p1 p2 p3, Chained v requests Heads (rows_of db Heads) p1
    /\ Chained v requests Requests requests p2 /\ Chained v requests History (rows_of db History) p3 /\ exists v', Marked requests v')) as Hy.
  { unfold validate_links. eapply yields_bind with (Q' := fun _ _ => exists p1 p2 p3, Chained v requests Heads (rows_of db Heads) p1
      /\ Chained v requests Requests requests p2 /\ Chained v requests History (rows_of db History) p3 /\ exists v', Marked requests v'); [|by intros x db1 Hx y db2 _].
    cbn [sm_for]. eapply yields_bind; [apply (Htable db Heads); [by split|by left]|]. intros _ db1 [Hc1 [p1 Hp1]].
    eapply yields_bind; [apply (Htable db1 Requests); [exact Hc1|by right; left]|]. intros _ db2 [Hc2 [p2 Hp2]].
    eapply yields_bind; [apply (Htable db2 History); [exact Hc2|by right; right]|]. intros _ db3 [_ [p3 Hp3]].
    apply yields_ret. exists p1, p2, p3. split_and!; [done..|]. eexists. apply Hc2. }
  intros E. destruct (Hy tt db' E) as (p1 & p2 & p3 & H1' & H2' & H3' & v' & Hmarks). clear Hy.
  assert (forall ns i, history_in (rows_of db History) ns i <-> is_Some (v History (history_key ns i))) as Hist.
  { intros ns i. split; [intros [c Hc%elem_of_rows]; by eexists|]. intros [x Hx].
    destruct (Hvalid History _ _ eq_refl Hx) as (ns' & i' & c & [<- <-]%history_key_inj & ->). exists c. by apply elem_of_rows. }
  split.
  - exact Hvalid.
  - intros ns h Hh. destruct (checked_links v db Heads p1 eq_refl ltac:(by left) H1' _ _ Hh) as (ns' & h' & [En Eh%(inj encode_head)] & Hl & _).
    apply bytes_eq in En. by subst.
  - intros ns r f h Hh. destruct (checked_links v db Requests p2 eq_refl ltac:(by right; left) H2' _ _ Hh) as (ns' & h' & (r' & f' & [-> ->]%request_key_inj & Ex) & Hl & _).
    pose proof (decode_encode_receipt f' h') as D. rewrite <- Ex, decode_encode_receipt in D. by injection D as _ ->.
  - intros ns i c Hh. destruct (checked_links v db History p3 eq_refl ltac:(by right; right) H3' _ _ Hh) as (ns' & [i' c'] & [[-> ->]%history_key_inj ->%bytes_eq] & Hl & _).
    exact Hl.
  - intros ns i j Hi Hj. apply Hist. eapply (ch_below _ _ _ _ _ H3'); [done|by apply Hist|done].
  - intros ns i [x Hx]. destruct (checked_links v db History p3 eq_refl ltac:(by right; right) H3' _ _ Hx) as (ns' & [i' c'] & [[<- <-]%history_key_inj _] & _ & Hr).
    destruct (Hr eq_refl) as (r & f & h & Hin%elem_of_rows & Ei). by exists r, f, h.
  - intros ns r f h r' f' h' Hr Hr' E'. apply (elem_of_rows db Requests) in Hr, Hr'. apply bytes_eq.
    assert (forall r f h, (request_key ns r, encode_receipt f h) ∈ requests -> v' Migration (receipt_index ns (head_index h)) = Some (blist r)) as Hmark.
    { intros r1 f1 h1 Hin. apply Hmarks. by exists r1, f1, h1. }
    apply Hmark in Hr, Hr'. congruence.
Qed.

End Links.
