(* ===== verification/Staging.v ===== *)
(** * A staged transfer copies the rows of its source

    The invariant of the durable cursor, kept by every call of [stage], failed ones included, and what
    a complete transfer shows. *)

From S2P Require Import Prelude.
From S2P Require Import Crypto.
From S2P Require Import Access.
From S2P Require Import Shard.
From S2P Require Import Engine.
From S2P Require Import Database.
From S2P Require Import Application.
From S2P Require Import Journal.
From S2P Require Import Fences.
From S2P Require Import Archive.
From S2P Require Import Transfer.
From S2P Require Import ArchiveSpec.
From S2P Require Import Inspection.
From S2P Require Import TransferSpec.

Local Open Scope Z_scope.

Section Staging.
  Context `{Nebu, Hasher, Fjall, Redb, !FjallLaws, !RedbLaws}.

(** The rows of the tables before a table of the transfer, then rows of that table. *)
Definition behind (src : Database) (i : Z) (before : list RawEntry) : list (Table * RawEntry) :=
  flat_map (fun t => map (pair t) (rows_of src t)) (take (Z.to_nat i) TABLES)
  ++ match TABLES !! Z.to_nat i with Some t => map (pair t) before | None => [] end.

Definition rows_at (src : Database) (i : Z) : list RawEntry := match TABLES !! Z.to_nat i with Some t => rows_of src t | None => [] end.

Definition tagged_bytes (l : list (Table * RawEntry)) : Z := raw_bytes (map snd l).

(** A cursor of a transfer: the target holds the rows behind it, and it counts them. *)
Record Copied (src : Database) (c : Cursor) (before : list RawEntry) (v : View) : Prop := {
  co_cursor : CursorOk c;
  co_page : before `prefix_of` rows_at src (uval (cu_table c));
  co_after : cu_after c = fst <$> last before;
  co_rows : forall t k x, (t, (k, x)) ∈ behind src (uval (cu_table c)) before -> v t k = Some x;
  co_count : uval (cu_rows c) = zlen (behind src (uval (cu_table c)) before);
  co_bytes : uval (cu_bytes c) = tagged_bytes (behind src (uval (cu_table c)) before);
}.

(** The cursor a target holds for a transfer, if it holds one, is one of it. *)
Definition Resumable (src : Database) (manifest : Particle) (v : View) : Prop :=
  forall b, v Migration (cursor_key manifest) = Some b -> exists c before, b = cursor_encode c /\ Copied src c before v.

Definition all_rows (src : Database) : list (Table * RawEntry) := behind src 5 [].

Lemma tables_journal t : t ∈ TABLES <-> journal_table t = true.
Proof. unfold TABLES. rewrite !elem_of_cons, elem_of_nil. split; [intros Ht; naive_solver|]. destruct t; naive_solver. Qed.

Lemma elem_of_all src t k x : (t, (k, x)) ∈ all_rows src <-> journal_table t = true /\ committed src t k = Some x.
Proof.
  unfold all_rows, behind. cbn [TABLES lookup list_lookup Z.to_nat]. rewrite app_nil_r. change (take _ TABLES) with TABLES.
  rewrite list_elem_of_In, in_flat_map, <- tables_journal, <- elem_of_rows. setoid_rewrite <- list_elem_of_In.
  setoid_rewrite list_elem_of_fmap. naive_solver.
Qed.

(** The invariant survives what keeps the rows of the journal. *)
Lemma behind_same src src' i before : journal_same (committed src) (committed src') -> behind src' i before = behind src i before.
Proof.
  intros Hs. unfold behind. f_equal. rewrite !flat_map_concat_map. f_equal. apply map_ext_in. intros t Ht%list_elem_of_In%elem_of_take. f_equal.
  destruct Ht as (n & Ht & _). apply list_elem_of_lookup_2, tables_journal in Ht. by apply same_table.
Qed.

Lemma rows_at_same src src' i : journal_same (committed src) (committed src') -> rows_at src' i = rows_at src i.
Proof.
  intros Hs. unfold rows_at. destruct (TABLES !! _) as [t|] eqn:Et; [|done]. apply list_elem_of_lookup_2, tables_journal in Et. by apply same_table.
Qed.

Lemma copied_source src src' c before v : journal_same (committed src) (committed src') -> Copied src c before v -> Copied src' c before v.
Proof. intros Hs [Ha Hb Hc Hd He Hf]. split; rewrite ?(behind_same _ _ _ _ Hs), ?(rows_at_same _ _ _ Hs); done. Qed.

Lemma behind_journal src i before t row : (t, row) ∈ behind src i before -> journal_table t = true.
Proof.
  rewrite <- tables_journal. intros [Hx|Hx]%elem_of_app.
  - apply list_elem_of_In, in_flat_map in Hx as (t' & Ht'%list_elem_of_In & Hx%list_elem_of_In). apply list_elem_of_fmap in Hx as (? & [= -> <-] & _).
    apply elem_of_take in Ht' as (n & Ht' & _). by apply list_elem_of_lookup_2 in Ht'.
  - destruct (TABLES !! _) as [t'|] eqn:Et; [|by apply not_elem_of_nil in Hx]. apply list_elem_of_fmap in Hx as (? & [= -> <-] & _).
    by apply list_elem_of_lookup_2 in Et.
Qed.

Lemma copied_grows src c before v v' :
  (forall t k x, journal_table t = true -> v t k = Some x -> v' t k = Some x) -> Copied src c before v -> Copied src c before v'.
Proof.
  intros Hg [Ha Hb Hc Hd He Hf]. split; [done..| |done|done]. intros t k x Hx. apply Hg, Hd; [|done]. by eapply behind_journal.
Qed.

(** ** One page *)

Lemma valid_key t k x : journal_table t = true -> valid_row t k x -> 1 <= zlen k <= 64.
Proof.
  intros Ht Hv. destruct t; try discriminate; cbn in Hv;
    [destruct Hv as (? & ->)|destruct Hv as (? & ? & -> & _)|destruct Hv as (? & ? & ? & -> & _)|destruct Hv as (? & ? & ? & ? & -> & _)|destruct Hv as (? & ? & -> & _)];
    unfold zlen, history_key, request_key; rewrite ?length_app, ?length_to_be_bytes, ?length_blist; lia.
Qed.

(** The cursor after rows of a page were validated and counted. *)
Record Stepped (t : Table) (c : Cursor) (l : list RawEntry) (next : Cursor) : Prop := {
  sp_table : cu_table next = cu_table c;
  sp_rows : uval (cu_rows next) = uval (cu_rows c) + zlen l;
  sp_bytes : uval (cu_bytes next) = uval (cu_bytes c) + raw_bytes l;
  sp_valid : forall k x, (k, x) ∈ l -> valid_row t k x;
}.

Lemma asks_stage_row validate t c before next k x db :
  zlen k + zlen x <= MAX_TRANSACTION_BYTES -> (forall id data, is_Some (validate id data db)) -> Stepped t c before next ->
  asks (stage_row validate t next (k, x)) db (Stepped t c (before ++ [(k, x)])).
Proof.
  intros Hb Hval [Ht Hr Hbytes Hv]. unfold stage_row. apply asks_lift. intros [] Hrow%validate_record_Ok.
  eapply asks_bind with (Q' := fun _ => True).
  { case_bool_decide; [|by apply asks_ret]. apply asks_lift. intros id _. unfold asks, validating. destruct (Hval id x) as [r ->]. by eexists. }
  intros [] _. apply asks_lift. intros rows Er. apply asks_lift. intros total Et. apply asks_ret.
  destruct (checked_add (cu_rows next) _) eqn:Er'; [|done]. injection Er as ->. destruct (checked_add (cu_bytes next) _) eqn:Et'; [|done]. injection Et as ->.
  apply checked_add_Some in Er', Et'. rewrite uval_of_Z_small in Er' by (simpl; lia).
  rewrite uval_of_Z_small in Et' by (unfold MAX_TRANSACTION_BYTES, zlen in *; simpl; lia). split; cbn.
  - done.
  - rewrite Er', Hr. unfold zlen. rewrite length_app. cbn. lia.
  - rewrite Et', Hbytes. unfold raw_bytes. rewrite zsum_app. cbn. lia.
  - intros k' x' [Hin|[= -> ->]%list_elem_of_singleton]%elem_of_app; [by apply Hv|done].
Qed.

(** A page of the source, and the cursor past it. *)
Record Passed (t : Table) (c : Cursor) (page : list RawEntry) (next : Cursor) : Prop := {
  ps_end : page = [] -> next = mkCursor (of_Z 8 (uval (cu_table c) + 1)) None (cu_rows c) (cu_bytes c);
  ps_page : page <> [] -> Stepped t c page next /\ cu_after next = fst <$> last page;
}.

Lemma acts_stage_next fuel validate t c page src :
  DbOk src -> links_fuel src fuel -> (forall id data, is_Some (validate id data src)) -> raw_bytes page <= MAX_TRANSACTION_BYTES ->
  acts (stage_next fuel validate t c page) src (fun r src' => DbOk src' /\ journal_same (committed src) (committed src')
    /\ forall next, r = Ok next -> Passed t c page next /\ (uval (cu_table next) <> 5 \/ page <> [] -> src' = src)).
Proof.
  intros Hsrc Hfuel Hval Hb. destruct page as [|row page].
  - cbn [stage_next]. set (next := mkCursor _ _ _ _). eapply acts_bind with (Q' := fun _ src' => DbOk src' /\ journal_same (committed src) (committed src')
      /\ (uval (cu_table next) <> 5 -> src' = src)).
    + destruct (Z.eqb_spec (uval (cu_table next)) 5); [|by apply acts_ret].
      eapply acts_weaken; [by apply validate_links_ok|]. intros r src' [Hs Hj]. split_and!; [done..|]. by intros.
    + intros e src' (Hs & Hj & _). by split_and!.
    + intros [] src' (Hs & Hj & He). apply acts_ret. split_and!; [done..|]. intros ? [= <-]. split; [by split|]. intros [?|?]; [by apply He|done].
  - set (l := row :: page) in *. change (stage_next fuel validate t c l) with
      (next ← sm_fold l (stage_row validate t) c; mret (mkCursor (cu_table next) (fst <$> last l) (cu_rows next) (cu_bytes next)) : SM Error.AppError Database Cursor).
    eapply acts_bind.
    + apply acts_asks, (asks_fold (stage_row validate t) (Stepped t c) src l c []).
      * split; [done|change (zlen []) with 0; lia|change (raw_bytes []) with 0; lia|by intros k x ?%not_elem_of_nil].
      * intros before [k x] next Hnext Hx _. apply asks_stage_row; [|done..]. apply raw_bytes_elem in Hx. cbn [fst snd] in Hx. lia.
    + intros e src' [-> _]. by split_and!.
    + intros next src' [-> Hn]. destruct (Hn next eq_refl) as [Ht Hr Hby Hv]. apply acts_ret. split_and!; [done..|].
      intros ? [= <-]. split; [|done]. split; [done|]. intros _. by split.
Qed.

(** *** The transaction of a page *)

Lemma stage_body_ok manifest t page c next : journal_table t = true -> tx_body (stage_body manifest t page c next).
Proof.
  intros Ht. unfold stage_body, get, put. assert (table_ok t = true) by by destruct t. tx_bodies.
Qed.

(** What the transaction of a page leaves: the rows of the page, the rows there were, and the cursor. *)
Record Staged (manifest : Particle) (t : Table) (page : list RawEntry) (next : Cursor) (v v' : View) : Prop := {
  sg_rows : forall k x, (k, x) ∈ page -> v' t k = Some x;
  sg_grows : forall t k x, journal_table t = true -> v t k = Some x -> v' t k = Some x;
  sg_cursor : v' Migration (cursor_key manifest) = Some (cursor_encode next);
}.

Lemma calls_stage manifest t page c next tx : TxOk tx -> journal_table t = true ->
  calls (stage_body manifest t page c next) tx
    (fun _ tx' => tx_row tx Migration (cursor_key manifest) = Some (cursor_encode c) /\ Staged manifest t page next (tx_row tx) (tx_row tx')) (fun _ => True).
Proof.
  intros Htx Ht. assert (table_ok t = true) as Hok by by destruct t. unfold stage_body. apply calls_bind_get; [done..|].
  apply calls_bind_require; [done..|]. intros Hcur%bool_decide_eq_true. eapply calls_bind.
  - apply (calls_for _ (fun before tx' => (forall k x, (k, x) ∈ before -> tx_row tx' t k = Some x)
      /\ forall t' k x, journal_table t' = true -> tx_row tx t' k = Some x -> tx_row tx' t' k = Some x)); [done| |].
    { split; [by intros k x ?%not_elem_of_nil|done]. }
    intros before [k x] after tx1 El Htx1 [Hr Hg]. apply calls_immutable; [done..|]. intros tx2 Htx2 Hk Hv. split.
    + intros k' x' [Hin|[= -> ->]%list_elem_of_singleton]%elem_of_app; rewrite Hv; [|apply view_put_same].
      unfold view_put. case_decide as Hd; [|by apply Hr]. injection Hd as ->. apply Hr in Hin. destruct Hk; congruence.
    + intros t' k' x' Ht' Hx'%Hg; [|done]. rewrite Hv. unfold view_put. case_decide as Hd; [|done]. injection Hd as -> ->. destruct Hk; congruence.
  - intros [] tx1 Htx1 [Hr Hg]. apply calls_put; [done..|]. intros tx2 Htx2 Hv. split; [done|]. split.
    + intros k x Hx. rewrite Hv, view_put_ne by (by intros [= -> _]). by apply Hr.
    + intros t' k x Ht' Hx. rewrite Hv, view_put_ne by (by intros [= -> _]). by apply Hg.
    + rewrite Hv. apply view_put_same.
Qed.

(** *** The cursor moves *)

Lemma behind_app src i t before page : TABLES !! Z.to_nat i = Some t ->
  behind src i (before ++ page) = behind src i before ++ map (pair t) page.
Proof. intros Et. unfold behind. by rewrite Et, map_app, app_assoc. Qed.

Lemma behind_next src i t : 0 <= i -> TABLES !! Z.to_nat i = Some t -> behind src (i + 1) [] = behind src i (rows_of src t).
Proof.
  intros Hi Et. unfold behind. rewrite Et, Z2Nat.inj_add, Nat.add_1_r by lia. rewrite (take_S_r _ _ _ Et), flat_map_app. cbn [flat_map]. rewrite app_nil_r.
  assert (match TABLES !! S (Z.to_nat i) with Some t => map (pair t) [] | None => [] end = []) as ->; [case_match; done|]. by rewrite app_nil_r.
Qed.

Lemma copied_page src c before v t l2 page next v' manifest :
  TABLES !! Z.to_nat (uval (cu_table c)) = Some t -> Copied src c before v -> rows_of src t = before ++ page ++ l2 -> page <> [] ->
  Passed t c page next -> Staged manifest t page next v v' -> Copied src next (before ++ page) v'.
Proof.
  intros Et [[Hc5 Hck] Hp Ha Hr Hn Hb] El Hne [_ Hs] [Hgr Hgg _]. destruct (Hs Hne) as [[Hst Hsr Hsb Hsv] Hsa].
  assert (last (before ++ page) = last page) as Hlast.
  { rewrite last_app. by destruct (last page) eqn:E; [|apply last_None in E]. }
  split; rewrite ?Hst, ?(behind_app _ _ _ _ _ Et).
  - split; [by rewrite Hst|]. intros a. rewrite Hsa. destruct (last page) as [[k x]|] eqn:E; [|done]. intros [= <-].
    apply last_Some_elem_of in E. eapply valid_key; [|by apply Hsv]. apply tables_journal. by eapply list_elem_of_lookup_2.
  - unfold rows_at. rewrite Et, El. rewrite app_assoc. by eexists.
  - by rewrite Hlast.
  - intros t' k x [Hx|Hx]%elem_of_app; [apply Hgg; [by eapply behind_journal|by apply Hr]|].
    apply list_elem_of_fmap in Hx as (? & [= -> <-] & Hx). by apply Hgr.
  - rewrite Hsr, Hn. unfold zlen. rewrite length_app, length_map. lia.
  - rewrite Hsb, Hb. unfold tagged_bytes, raw_bytes. rewrite map_app, zsum_app, map_map. cbn [snd]. by rewrite map_id.
Qed.

Lemma copied_table src c before v t next v' manifest :
  TABLES !! Z.to_nat (uval (cu_table c)) = Some t -> Copied src c before v -> rows_of src t = before ->
  Passed t c [] next -> Staged manifest t [] next v v' -> Copied src next [] v' /\ uval (cu_table next) = uval (cu_table c) + 1.
Proof.
  intros Et [[Hc5 Hck] Hp Ha Hr Hn Hb] El [Hs _] [_ Hgg _]. rewrite (Hs eq_refl). pose proof (uval_range (cu_table c)) as Hrange.
  assert (uval (cu_table c) < 5) as Hlt by (apply lookup_lt_Some in Et; cbn in Et; lia).
  assert (uval (of_Z 8 (uval (cu_table c) + 1)) = uval (cu_table c) + 1) as Et1 by (apply uval_of_Z_small; simpl; lia).
  split; [|done]. split; cbn [cu_table cu_after cu_rows cu_bytes]; rewrite ?Et1, ?(behind_next _ _ t), ?El by lia || done.
  - split; cbn [cu_table cu_after]; [lia|done].
  - apply prefix_nil.
  - done.
  - intros t' k x Hx. apply Hgg; [by eapply behind_journal|by apply Hr].
  - done.
  - done.
Qed.

(** ** Pages *)

Lemma acts_on_source {A} (m : SM Error.AppError Database A) src tgt (Q : AppResult A -> Database * Database -> Prop) :
  acts m src (fun r src' => Q r (src', tgt)) -> acts (on_source m) (src, tgt) Q.
Proof. intros (r & src' & E & HQ). exists r, (src', tgt). split; [|done]. unfold on_source, sm_zoom. cbn [fst]. by rewrite E. Qed.

Lemma acts_on_target {A} (m : SM Error.AppError Database A) src tgt (Q : AppResult A -> Database * Database -> Prop) :
  acts m tgt (fun r tgt' => Q r (src, tgt')) -> acts (on_target m) (src, tgt) Q.
Proof. intros (r & tgt' & E & HQ). exists r, (src, tgt'). split; [|done]. unfold on_target, sm_zoom. cbn [snd]. by rewrite E. Qed.

(** The target holds the cursor [c]. *)
Definition at_cursor (src : Database) (manifest : Particle) (c : Cursor) (v : View) : Prop :=
  v Migration (cursor_key manifest) = Some (cursor_encode c) /\ exists before, Copied src c before v.

Lemma at_cursor_resumable src manifest c v : at_cursor src manifest c v -> Resumable src manifest v.
Proof. intros [Ec [before Hc]] b Eb. exists c, before. split; [congruence|done]. Qed.

Lemma at_cursor_same src manifest c v v' :
  (forall t k, table_ok t = true -> t <> Metadata -> v' t k = v t k) -> at_cursor src manifest c v -> at_cursor src manifest c v'.
Proof.
  intros Hv [Ec [before Hc]]. split; [by rewrite Hv|]. exists before. apply (copied_grows _ _ _ v); [|done].
  intros t k x Ht. by rewrite Hv by by destruct t.
Qed.

Definition reach (c : Cursor) : Z := uval (cu_rows c) + uval (cu_table c).

(** Committing a page moves the cursor, or leaves it. *)
Lemma commit_page manifest t c before src l2 page next tgt :
  DbOk tgt -> TABLES !! Z.to_nat (uval (cu_table c)) = Some t ->
  committed tgt Migration (cursor_key manifest) = Some (cursor_encode c) -> Copied src c before (committed tgt) ->
  rows_of src t = before ++ page ++ l2 -> (page = [] -> l2 = []) -> Passed t c page next ->
  acts (committing (stage_body manifest t page c next)) tgt (fun r tgt' => DbOk tgt'
    /\ (at_cursor src manifest c (committed tgt') \/ at_cursor src manifest next (committed tgt'))
    /\ (r = Ok tt -> at_cursor src manifest next (committed tgt') /\ reach c + 1 <= reach next)).
Proof.
  intros Htgt Et Ec Hc El Hend Hpass. assert (journal_table t = true) as Hjt by (apply tables_journal; by eapply list_elem_of_lookup_2).
  pose proof (tx_new_ok _ (proj1 Htgt)) as Hnew.
  assert (forall v', Staged manifest t page next (committed tgt) v' -> at_cursor src manifest next v' /\ reach c + 1 <= reach next) as Hmove.
  { intros v' Hs. unfold at_cursor. rewrite (sg_cursor _ _ _ _ _ _ Hs). destruct (decide (page = [])) as [->|Hne].
    - specialize (Hend eq_refl). subst l2. cbn [app] in El. rewrite app_nil_r in El.
      destruct (copied_table _ _ _ _ _ _ _ _ Et Hc El Hpass Hs) as [Hc' Ht']. split; [by eauto|]. unfold reach. rewrite Ht', (ps_end _ _ _ _ Hpass eq_refl). cbn. lia.
    - pose proof (copied_page _ _ _ _ _ _ _ _ _ _ Et Hc El Hne Hpass Hs) as Hc'. split; [by eauto|].
      destruct (ps_page _ _ _ _ Hpass Hne) as [[Ht' Hr' _ _] _]. unfold reach. rewrite Ht', Hr'. destruct page; [done|]. unfold zlen. cbn. lia. }
  eapply acts_weaken; [apply (committing_ok _ tgt _ Htgt (stage_body_ok manifest t page c next Hjt) (calls_stage manifest t page c next _ Hnew Hjt))|].
  intros r tgt' [Htgt' Hr]. split; [done|].
  assert (forall tx, Staged manifest t page next (committed tgt) (tx_row tx) -> sees tx tgt' -> at_cursor src manifest next (committed tgt') /\ reach c + 1 <= reach next) as Hsees.
  { intros tx Hs%Hmove Hsee. destruct Hs as [Hs ?]. split; [|done]. by apply (at_cursor_same _ _ _ (tx_row tx)). }
  destruct r as [[]|e].
  - destruct Hr as (tx & [_ Hs] & Hsee). destruct (Hsees tx Hs Hsee) as [Ha Hm]. split; [by right|done].
  - split; [|done]. destruct Hr as [Hu|(x & tx & [_ Hs] & Hsee)]; [left|right; by eapply Hsees].
    apply (at_cursor_same _ _ _ (committed tgt)); [exact Hu|]. split; [done|by exists before].
Qed.

Definition staged_after (src : Database) (manifest : Particle) (c : Cursor) (pages : nat) (r : AppResult Cursor) (p : Database * Database) : Prop :=
  DbOk p.1 /\ DbOk p.2 /\ journal_same (committed src) (committed p.1) /\ Resumable src manifest (committed p.2)
  /\ forall c', r = Ok c' -> at_cursor src manifest c' (committed p.2) /\ (uval (cu_table c') = 5 \/ reach c + Z.of_nat pages <= reach c').

Lemma stage_pages_ok fuel pages validate manifest c src tgt :
  DbOk src -> DbOk tgt -> links_fuel src fuel -> (forall id data, is_Some (validate id data src)) -> at_cursor src manifest c (committed tgt) ->
  acts (stage_pages fuel pages validate manifest c) (src, tgt) (staged_after src manifest c pages).
Proof.
  intros Hsrc Htgt Hfuel Hval. revert c tgt Htgt. induction pages as [|pages IH]; intros c tgt Htgt Hat.
  { apply acts_ret. split_and!; [done..|by eapply at_cursor_resumable|]. intros ? [= <-]. split; [done|]. right. lia. }
  cbn [stage_pages]. destruct (Z.eqb_spec (uval (cu_table c)) 5) as [E5|E5].
  { apply acts_ret. split_and!; [done..|by eapply at_cursor_resumable|]. intros ? [= <-]. split; [done|by left]. }
  pose proof (at_cursor_resumable _ _ _ _ Hat) as Hres. destruct Hat as [Ec [before Hc]]. pose proof (uval_range (cu_table c)) as Hrange.
  assert (exists t, TABLES !! Z.to_nat (uval (cu_table c)) = Some t) as [t Et].
  { apply lookup_lt_is_Some. pose proof (proj1 (co_cursor _ _ _ _ Hc)). cbn. lia. }
  assert (journal_table t = true) as Hjt by (apply tables_journal; by eapply list_elem_of_lookup_2).
  rewrite Et. eapply acts_bind with (Q' := fun r p => r = Ok t /\ p = (src, tgt)); [by exists (Ok t), (src, tgt)|by intros e p [? _]|].
  intros ? ? [[= <-] ->]. destruct (co_page _ _ _ _ Hc) as [rest Erest]. unfold rows_at in Erest. rewrite Et in Erest. rewrite (co_after _ _ _ _ Hc).
  apply acts_bind with (Q' := fun r p => p = (src, tgt) /\ forall page, r = Ok page -> RawPage rest limits page).
  { apply acts_on_source. eapply acts_weaken; [apply acts_asks, asks_page; [done|by destruct x]|]. intros r src' [-> Hr]. split; [done|].
    intros page Ep. specialize (Hr page Ep). by rewrite (scan_rest _ _ _ Erest) in Hr. }
  { intros e p [-> _]. by split_and!. }
  intros page p [-> Hpage]. specialize (Hpage page eq_refl). destruct (rp_prefix _ _ _ Hpage) as [l2 ->].
  assert (page = [] -> l2 = []) as Hend by (intros ->; by apply raw_page_end in Hpage).
  assert (raw_bytes page <= MAX_TRANSACTION_BYTES) as Hbytes.
  { pose proof (rp_bytes _ _ _ Hpage) as Hb. change (bl_bytes limits) with (of_Z 64 (MAX_TRANSACTION_BYTES - 4096)) in Hb.
    rewrite uval_of_Z_small in Hb by (unfold MAX_TRANSACTION_BYTES; simpl; lia). lia. }
  apply acts_bind with (Q' := fun r p => p.2 = tgt /\ DbOk p.1 /\ journal_same (committed src) (committed p.1)
    /\ forall next, r = Ok next -> Passed x c page next /\ (uval (cu_table next) <> 5 \/ page <> [] -> p.1 = src)).
  { apply acts_on_source. eapply acts_weaken; [apply (acts_stage_next fuel validate x c page src)|]; [done..|]. intros r src' Hr. by split. }
  { intros e [src' tgt'] ([= ->] & Hs & Hj & _). by split_and!. }
  intros next [src' tgt'] ([= ->] & Hs & Hj & Hn). destruct (Hn next eq_refl) as [Hpass Hsame]. cbn [fst] in *.
  apply acts_bind with (Q' := fun r p => p.1 = src' /\ DbOk p.2 /\ (at_cursor src manifest c (committed p.2) \/ at_cursor src manifest next (committed p.2))
    /\ (r = Ok tt -> at_cursor src manifest next (committed p.2) /\ reach c + 1 <= reach next)).
  { apply acts_on_target. eapply acts_weaken; [by apply (commit_page manifest x c before src l2 page next tgt)|]. intros r tgt' Hr. by split. }
  { intros e [? tgt'] ([= ->] & Ht & Hat & _). split_and!; [done..| |done]. destruct Hat; by eapply at_cursor_resumable. }
  intros [] [? tgt'] ([= ->] & Ht & _ & Hat). destruct (Hat eq_refl) as [Hat' Hreach]. cbn [fst snd] in *.
  destruct (Z.eqb_spec (uval (cu_table next)) 5) as [E5'|E5'].
  - assert (stage_pages fuel pages validate manifest next (src', tgt') = Some (Ok next, (src', tgt'))) as Estop.
    { destruct pages; [done|]. cbn [stage_pages]. by rewrite (proj2 (Z.eqb_eq _ _) E5'). }
    exists (Ok next), (src', tgt'). split; [exact Estop|]. split_and!; [done..|by eapply at_cursor_resumable|]. intros ? [= <-]. split; [done|by left].
  - rewrite (Hsame (or_introl E5')). eapply acts_weaken; [by apply IH|]. intros r p (H1' & H2' & H3' & H4' & Hr). split_and!; [done..|].
    intros c' Ec'. destruct (Hr c' Ec') as [? [?|?]]; (split; [done|]); [by left|right; lia].
Qed.

(** ** The target is prepared *)

Lemma calls_promote g tx : TxOk tx ->
  calls (app (promote g)) tx (fun _ tx' => forall t k, (t, k) <> (Migration, STATUS) -> tx_row tx' t k = tx_row tx t k) (fun _ => True).
Proof.
  intros Htx. unfold calls, app. destruct (promote_body g tx Htx) as (r & tx' & E & Htx' & He).
  destruct (promote_ok g tx Htx) as (r2 & tx2 & E2 & Hr). rewrite E in E2. injection E2 as <- <-. rewrite E. cbn.
  eexists _, tx'. split_and!; [done..|]. destruct r as [g'|]; [|done]. cbn. by destruct (Hr g' eq_refl) as (? & _ & _ & _ & ?).
Qed.

Lemma prepare_body ts : tx_body (prepare_target ts).
Proof.
  unfold prepare_target, prepare_source, get, put. apply body_bind; [by apply body_app, body_get|]. intros [|]; [apply body_ret|].
  apply body_bind; [apply body_app, promote_body|]. intros _. apply body_bind; [|intros _; by apply body_bind; [by apply body_app, body_stage|intros _; by apply body_app, body_stage]].
  apply body_for. intros x _. tx_bodies.
Qed.

Definition first_cursor : Cursor := mkCursor (of_Z 8 0) None (of_Z 64 0) (of_Z 64 0).

Lemma copied_first src v : Copied src first_cursor [] v.
Proof. split; [split; [by apply Z.leb_le|done]|apply prefix_nil|done|by intros t k x ?%not_elem_of_nil|done|done]. Qed.

(** Preparing leaves the cursor there is, or writes the first. *)
Lemma calls_prepare src ts tx : TxOk tx -> Resumable src (ts_manifest ts) (tx_row tx) ->
  calls (prepare_target ts) tx (fun _ tx' => exists c, at_cursor src (ts_manifest ts) c (tx_row tx')) (fun _ => True).
Proof.
  intros Htx Hres. unfold prepare_target. apply calls_bind_get; [done..|].
  destruct (tx_row tx Migration (cursor_key (ts_manifest ts))) as [b|] eqn:Eb.
  { apply calls_ret; [done|]. destruct (Hres b Eb) as (c & before & -> & Hc). exists c. by split; [|exists before]. }
  eapply calls_bind; [by apply calls_promote|]. intros g tx1 Htx1 _. eapply calls_bind with (Q' := fun _ _ => True).
  { apply (calls_for _ (fun _ _ => True)); [done..|]. intros before x after tx2 _ Htx2 _. unfold prepare_source.
    apply calls_bind_require; [done..|]. intros _. do 3 (apply calls_bind_get; [done..|]; apply calls_bind_require; [done..|]; intros _).
    by apply calls_put. }
  intros _ tx2 Htx2 _. apply calls_bind_put; [done..|]. intros tx3 Htx3 _. apply calls_put; [done..|]. intros tx4 Htx4 Hv.
  exists first_cursor. split; [rewrite Hv; apply view_put_same|]. exists []. apply copied_first.
Qed.

(** Totals of a source. *)
Definition total_rows (src : Database) : Z := zlen (all_rows src).
Definition total_bytes (src : Database) : Z := tagged_bytes (all_rows src).

Lemma behind_end src before : behind src 5 before = all_rows src.
Proof. done. Qed.

Lemma behind_short src i before : 0 <= i -> before `prefix_of` rows_at src i -> zlen (behind src i before) <= total_rows src.
Proof.
  intros Hi [rest Er]. unfold total_rows, all_rows, zlen. unfold behind at 2. cbn [lookup list_lookup TABLES Z.to_nat]. rewrite app_nil_r.
  change (take _ TABLES) with TABLES. unfold rows_at in Er. unfold behind. destruct (TABLES !! Z.to_nat i) as [t|] eqn:Et.
  - rewrite <- (take_drop_middle _ _ _ Et) at 2. rewrite flat_map_app. cbn [flat_map]. rewrite Er, !length_app, !length_map, length_app. lia.
  - rewrite app_nil_r. rewrite <- (take_drop (Z.to_nat i) TABLES) at 2. rewrite flat_map_app, length_app. lia.
Qed.

Lemma copied_total src c before v : Copied src c before v -> uval (cu_rows c) <= total_rows src.
Proof. intros Hc. rewrite (co_count _ _ _ _ Hc). apply behind_short; [|apply (co_page _ _ _ _ Hc)]. by destruct (uval_range (cu_table c)). Qed.

Lemma stage_prepared src ts tgt : DbOk tgt -> Resumable src (ts_manifest ts) (committed tgt) ->
  acts (committing (prepare_target ts)) tgt (fun r tgt' => DbOk tgt' /\ Resumable src (ts_manifest ts) (committed tgt')
    /\ (r = Ok tt -> exists c, at_cursor src (ts_manifest ts) c (committed tgt'))).
Proof.
  intros Htgt Hres. pose proof (tx_new_ok _ (proj1 Htgt)) as Hnew.
  eapply acts_weaken; [apply (committing_ok _ tgt _ Htgt (prepare_body ts) (calls_prepare src ts _ Hnew Hres))|].
  assert (forall tx tgt', (exists c, at_cursor src (ts_manifest ts) c (tx_row tx)) -> sees tx tgt' -> exists c, at_cursor src (ts_manifest ts) c (committed tgt')) as Hsees.
  { intros tx tgt' [c Hc] Hs. exists c. by apply (at_cursor_same _ _ _ (tx_row tx)). }
  intros r tgt' [Htgt' Hr]. split; [done|]. destruct r as [[]|e].
  - destruct Hr as (tx & Hc & Hs). pose proof (Hsees tx tgt' Hc Hs) as [c Hc']. split; [by eapply at_cursor_resumable|]. intros _. by exists c.
  - split; [|done]. destruct Hr as [Hu|(x & tx & Hc & Hs)].
    + intros b Eb. rewrite Hu in Eb by done. destruct (Hres b Eb) as (c & before & -> & Hc). exists c, before. split; [done|].
      apply (copied_grows _ _ _ (committed tgt)); [|done]. intros t k x Ht. by rewrite Hu by by destruct t.
    + destruct (Hsees tx tgt' Hc Hs) as [c Hc']. by eapply at_cursor_resumable.
Qed.

(** What a call of [stage] comes to. *)
Definition staged (src : Database) (manifest : Particle) (pages : Z) (r : AppResult TransferProgress) (p : Database * Database) : Prop :=
  DbOk p.1 /\ DbOk p.2 /\ journal_same (committed src) (committed p.1) /\ Resumable src manifest (committed p.2)
  /\ forall progress, r = Ok progress -> exists c, at_cursor src manifest c (committed p.2) /\ pages <= 4096
       /\ progress = mkTransferProgress manifest (cu_rows c) (cu_bytes c) (uval (cu_table c) =? 5) /\ (uval (cu_table c) = 5 \/ pages <= reach c).

Lemma stage_runs fuel ts pages validate src tgt :
  DbOk src -> DbOk tgt -> links_fuel src fuel -> (forall id data, is_Some (validate id data src)) ->
  Resumable src (ts_manifest ts) (committed tgt) ->
  acts (stage fuel ts pages validate) (src, tgt) (staged src (ts_manifest ts) pages).
Proof.
  intros Hsrc Htgt Hfuel Hval Hres. unfold stage. set (m := ts_manifest ts) in *.
  apply acts_bind with (Q' := fun r p => p = (src, tgt) /\ (r = Ok tt -> pages <= 4096)).
  { destruct (_ || _) eqn:E; [by exists (Err Error.Limit), (src, tgt)|]. exists (Ok tt), (src, tgt). split; [done|]. split; [done|]. intros _. apply orb_false_iff in E. lia. }
  { intros e p [-> _]. by split_and!. }
  intros [] p [-> Hpages]. specialize (Hpages eq_refl).
  apply acts_bind with (Q' := fun r p => p.1 = src /\ DbOk p.2 /\ Resumable src m (committed p.2) /\ (r = Ok tt -> exists c, at_cursor src m c (committed p.2))).
  { apply acts_on_target. eapply acts_weaken; [by apply (stage_prepared src ts)|]. intros r tgt' Hr. by split. }
  { intros e [? tgt'] ([= ->] & Ht & Hr & _). by split_and!. }
  intros [] [? tgt1] ([= ->] & Ht1 & Hres1 & Hc). destruct (Hc eq_refl) as [c Hat]. cbn [snd] in *. pose proof Hat as [Ec [before Hcop]].
  apply acts_bind with (Q' := fun r p => p = (src, tgt1) /\ forall data, r = Ok data -> data = Some (cursor_encode c)).
  { apply acts_on_target. destruct (db_read_ok tgt1 Migration (cursor_key m) 82 Ht1 eq_refl) as (r & E & _ & Hr). unfold acts, reading. rewrite E.
    cbn [mbind option_bind]. eexists _, tgt1. split; [done|]. split; [done|]. intros data Ed. destruct r as [v|]; [|done]. injection Ed as <-.
    destruct (Hr v eq_refl) as (_ & -> & _). exact Ec. }
  { intros e p [-> _]. by split_and!. }
  intros data p [-> Hdata]. rewrite (Hdata data eq_refl). cbn [ok_or]. 
  assert (cursor_decode (cursor_encode c) = Ok c) as Edec by (apply cursor_decode_Ok; split; [apply (co_cursor _ _ _ _ Hcop)|done]).
  apply acts_bind with (Q' := fun r p => p = (src, tgt1) /\ r = Ok (cursor_encode c)); [by eexists _, _|by intros e p [_ [=]]|].
  intros ? ? [-> [= ->]]. apply acts_bind with (Q' := fun r p => p = (src, tgt1) /\ r = Ok c); [eexists _, _; split; [reflexivity|by rewrite Edec]|by intros e p [_ [=]]|].
  intros ? ? [-> [= ->]]. eapply acts_bind; [by apply (stage_pages_ok fuel (Z.to_nat pages) validate m c src tgt1)| |].
  { intros e p (? & ? & ? & ? & _). by split_and!. }
  intros c' p (? & ? & ? & ? & Hr). destruct (Hr c' eq_refl) as [Hat' Hreach]. apply acts_ret. split_and!; [done..|].
  intros ? [= <-]. exists c'. split_and!; [done..|]. destruct Hreach; [by left|right]. unfold reach in *.
  pose proof (uval_range (cu_rows c)). pose proof (uval_range (cu_table c)). lia.
Qed.

(** C26: a staged transfer copies its source. From a target that holds no cursor of the transfer, or one
    the transfer left, and with fuel for the rows of the source, a call answers, leaves the rows of
    the source and leaves such a target, whether it succeeds or fails. A complete transfer has every
    row of the five tables in the target and counts all of them and their bytes; and a successful call
    with a page for every row and table is complete. *)
Theorem stage_copies fuel ts pages validate src tgt :
  DbOk src -> DbOk tgt -> links_fuel src fuel -> (forall id data, is_Some (validate id data src)) ->
  Resumable src (ts_manifest ts) (committed tgt) ->
  exists r src' tgt', stage fuel ts pages validate (src, tgt) = Some (r, (src', tgt')) /\ DbOk src' /\ DbOk tgt'
    /\ journal_same (committed src) (committed src') /\ Resumable src' (ts_manifest ts) (committed tgt')
    /\ forall p, r = Ok p ->
         (tp_complete p = true ->
            (forall t k x, journal_table t = true -> committed src t k = Some x -> committed tgt' t k = Some x)
            /\ uval (tp_rows p) = total_rows src /\ uval (tp_bytes p) = total_bytes src)
         /\ (total_rows src + 5 <= pages -> tp_complete p = true).
Proof.
  intros Hsrc Htgt Hfuel Hval Hres. destruct (stage_runs fuel ts pages validate src tgt Hsrc Htgt Hfuel Hval Hres) as (r & [src' tgt'] & E & H1' & H2' & Hj & Hres' & Hr).
  cbn [fst snd] in *. exists r, src', tgt'. split_and!; [done..| |].
  { intros b Eb. destruct (Hres' b Eb) as (c & before & ? & Hc). exists c, before. split; [done|]. by eapply copied_source. }
  intros p Ep. destruct (Hr p Ep) as (c & [_ [before Hc]] & Hp & -> & Hreach). cbn [tp_complete tp_rows tp_bytes]. split.
  - intros E5%Z.eqb_eq. destruct Hc as [_ _ _ Hrows Hn Hb]. rewrite E5, behind_end in *. split_and!; [|done..].
    intros t k x Ht Hx. apply Hrows, elem_of_all. done.
  - intros Hpages. apply Z.eqb_eq. destruct Hreach as [?|Hreach]; [done|]. pose proof (copied_total _ _ _ _ Hc). pose proof (co_cursor _ _ _ _ Hc) as [? _].
    unfold reach in Hreach. lia.
Qed.

End Staging.

(** ** Witness *)

Import Toy ToyEngines.

(** The transfer of the store after [sample_write] into an empty one. *)
Definition sample_transfer : TransferSource := mkTransferSource (id32 7) (id32 9) [(id32 1, mkHead (of_Z 64 0) (id32 4))].

Lemma transferred_ok : answered (stage 10 sample_transfer 10 accept (written_db, sample_db)) = true.
Proof. vm_compute. reflexivity. Qed.

Lemma answered_result {A B} (o : option (result Error.AppError A * B)) r b : answered o = true -> o = Some (r, b) -> exists a, r = Ok a.
Proof. intros Ho ->. destruct r as [a|]; [by exists a|discriminate]. Qed.

Lemma sample_fuel : links_fuel written_db 10.
Proof.
  assert (forallb (fun t => Nat.ltb (length (rows_of written_db t)) 10) [Heads; Requests; History] = true) as Ef by (vm_compute; reflexivity).
  rewrite forallb_forall in Ef. setoid_rewrite <- list_elem_of_In in Ef. setoid_rewrite Nat.ltb_lt in Ef.
  split; [intros t Ht; apply Ef; destruct Ht as [->|[->| ->]]; set_solver|]. apply Nat.ltb_lt. vm_compute. reflexivity.
Qed.

Lemma sample_resumable src : Resumable src (id32 7) (committed sample_db).
Proof.
  intros b Eb. assert (match committed sample_db Migration (cursor_key (id32 7)) with Some _ => false | None => true end = true) as Hn by (vm_compute; reflexivity).
  by rewrite Eb in Hn.
Qed.

Lemma sample_total : total_rows written_db + 5 <= 10.
Proof. apply Z.leb_le. vm_compute. reflexivity. Qed.

Lemma stage_copies_witness :
  exists p src' tgt', stage 10 sample_transfer 10 accept (written_db, sample_db) = Some (Ok p, (src', tgt')) /\ tp_complete p = true
    /\ forall t k x, journal_table t = true -> committed written_db t k = Some x -> committed tgt' t k = Some x.
Proof.
  destruct (stage_copies 10 sample_transfer 10 accept written_db sample_db (proj1 written_db_ok) sample_db_ok sample_fuel
    (fun _ _ => ex_intro _ (Ok tt) eq_refl) (sample_resumable _)) as (r & src' & tgt' & E & _ & _ & _ & _ & Hr).
  destruct (answered_result _ r _ transferred_ok E) as [p Ep]. destruct (Hr p Ep) as [Hall Hdone]. pose proof (Hdone sample_total) as Hc.
  exists p, src', tgt'. exact (conj (eq_trans E (f_equal (fun r => Some (r, (src', tgt'))) Ep)) (conj Hc (proj1 (Hall Hc)))).
Defined.
