(* ===== verification/Certificate.v ===== *)
(** * State certificates (rs/src/certificate.rs)

    A certificate reveals complete dimension tables under the 14 leaves of a root. It is made from a
    state whose root is fresh, and recomputes the root from its leaves after checking every table
    against its leaf. [None] is a panic. *)

From stdpp Require Import pretty.
From S2P Require Import Prelude.
From S2P Require Import Crypto.
From S2P Require Import Keyed.
From S2P Require Import Types.
From S2P Require Import State.
From S2P Require Import Access.

Local Open Scope Z_scope.

Definition CERTIFICATE_VERSION : u32 := of_Z 32 2.
Definition MAX_FIELDS : Z := Z.shiftl 1 20.

Record DimensionTable := mkDimensionTable { dt_namespace : u64; dt_fields : list u64 }.

Record StateCertificate := mkStateCertificate {
  sc_version : u32;
  sc_lens_version : u32;
  sc_leaves : vec (quad u64) 14;
  sc_dimensions : list DimensionTable;
}.

(** [windows(2).any(|ns| ns[0] == ns[1])]. *)
Fixpoint adjacent_equal (l : list u64) : bool :=
  match l with
  | x :: (y :: _) as l' => bool_decide (x = y) || adjacent_equal l'
  | _ => false
  end.

(** The order of [sort_unstable]. *)
Definition u64_le (a b : u64) : Prop := uval a <= uval b.

#[export] Instance u64_le_dec : RelDecision u64_le.
Proof. intros a b. unfold u64_le. apply _. Defined.

(** Little-endian words. *)
Definition words_bytes (l : list u64) : list u8 := flat_map (fun v => blist (to_le_bytes 8 v)) l.

Section Certificate.
  Context `{Nebu, Hemera, !Lens}.

(** The loop of [from_state] over the sorted namespaces. *)
Fixpoint dimension_tables (s : BbgState) (total : Z) (namespaces : list u64) : option (result string (list DimensionTable)) :=
  match namespaces with
  | [] => Some (Ok [])
  | namespace :: namespaces =>
      d ← dim_from_u64 namespace;
      let entries := dim_entries s d in
      let total := total + Z.of_nat (table_count entries) in
      if 2 ^ 64 <=? total then Some (Err "certificate size overflow"%string)
      else if MAX_FIELDS <? total then Some (Err "certificate field limit exceeded"%string)
      else
        rest ← dimension_tables s total namespaces;
        Some (tables ← rest; Ok (mkDimensionTable namespace (map g_as_u64 (dim_serialize entries)) :: tables))
  end.

(** The checks of [validate_shape] on one table. *)
Definition invalid_table (fields : list u64) : bool :=
  let n := zlen fields in
  (n <? Z.of_nat HEADER_FIELDS)
  || match fields with
     | version :: count :: entries :: _ =>
         negb (bool_decide (version = TABLE_VERSION)) || negb (uval count =? n)
         || ((n - Z.of_nat HEADER_FIELDS) / Z.of_nat KEY_FIELDS <? uval entries)
         || ((uval entries =? 0) && negb (n =? Z.of_nat HEADER_FIELDS))
         || existsb (fun v => field_P <=? uval v) fields
     | _ => true
     end.

(** The loop of [validate_shape]: the previous namespace and the fields so far. *)
Definition shape_step (st : option u64 * Z) (table : DimensionTable) : result string (option u64 * Z) :=
  let '(previous, total) := st in
  if (10 <? uval (dt_namespace table)) || match previous with Some n => uval (dt_namespace table) <=? uval n | None => false end then
    Err "certificate namespaces must be unique, increasing and in 0..10"%string
  else
    let total := total + zlen (dt_fields table) in
    if 2 ^ 64 <=? total then Err "certificate size overflow"%string
    else if MAX_FIELDS <? total then Err "certificate field limit exceeded"%string
    else if invalid_table (dt_fields table) then Err "invalid dimension metadata or noncanonical field"%string
    else Ok (Some (dt_namespace table), total).

Definition validate_shape (c : StateCertificate) : result string unit :=
  if negb (bool_decide (sc_version c = CERTIFICATE_VERSION)) || negb (bool_decide (sc_lens_version c = COMMITMENT_VERSION)) then
    Err "unsupported state certificate or commitment version"%string
  else if existsb (fun leaf => existsb (fun v => field_P <=? uval v) (quad_list leaf)) (vec_to_list (sc_leaves c)) then
    Err "noncanonical root leaf"%string
  else if 11 <? zlen (sc_dimensions c) then Err "too many certificate dimensions"%string
  else _ ← try_fold shape_step (None, 0) (sc_dimensions c); Ok tt.

(** The leaves as field elements, in root order. *)
Definition field_leaves (leaves : vec (quad u64) 14) : RootLeaves :=
  let l := vmap (quad_map g_new) leaves in
  let '(ds, rest) := Vector.splitat 11 (r := 3) l in
  mkRootLeaves ds (rest !!! 0%fin) (rest !!! 1%fin) (rest !!! 2%fin).

(** The comparison of one table with its leaf; indexing past the leaves panics. *)
Definition check_table (c : StateCertificate) (table : DimensionTable) : option (result string unit) :=
  leaf ← vec_to_list (sc_leaves c) !! Z.to_nat (uval (dt_namespace table));
  if bool_decide (blist (commit_fields (map g_new (dt_fields table))) = words_bytes (quad_list leaf)) then Some (Ok tt)
  else Some (Err ("dimension " +:+ pretty (Z.to_N (uval (dt_namespace table))) +:+ " does not match its root commitment")).

Fixpoint check_tables (c : StateCertificate) (tables : list DimensionTable) : option (result string unit) :=
  match tables with
  | [] => Some (Ok tt)
  | table :: tables =>
      r ← check_table c table;
      match r with Ok _ => check_tables c tables | Err e => Some (Err e) end
  end.

(** [StateCertificate::root]. *)
Definition certificate_root (c : StateCertificate) : option (result string (quad u64)) :=
  match validate_shape c with
  | Err e => Some (Err e)
  | Ok _ =>
      r ← check_tables c (sc_dimensions c);
      Some (_ ← r; Ok (quad_map g_as_u64 (root_from_leaves (field_leaves (sc_leaves c)))))
  end.

Definition certificate_verify (c : StateCertificate) (expected_root : quad u64) : option (result string unit) :=
  if existsb (fun v => field_P <=? uval v) (quad_list expected_root) then Some (Err "noncanonical expected state root"%string)
  else
    r ← certificate_root c;
    Some (root ← r; if bool_decide (root = expected_root) then Ok tt else Err "state certificate root mismatch"%string).

(** [cell]: an unpadded cell. *)
Definition certificate_cell (c : StateCertificate) (namespace key : u64) : option u64 :=
  if negb (bool_decide (sc_version c = CERTIFICATE_VERSION)) || negb (bool_decide (sc_lens_version c = COMMITMENT_VERSION))
     || (10 <? uval namespace) || (11 <? zlen (sc_dimensions c)) then None
  else
    table ← snd <$> list_find (fun t => dt_namespace t = namespace) (sc_dimensions c);
    let fields := dt_fields table in
    match fields with
    | version :: count :: _ :: _ =>
        if (MAX_FIELDS <? zlen fields) || negb (bool_decide (version = TABLE_VERSION)) || negb (uval count =? zlen fields) then None
        else
          value ← fields !! Z.to_nat (uval key);
          if uval value <? field_P then Some value else None
    | _ => None
    end.

(** The leaves of a state as a certificate carries them. *)
Definition leaf_words (l : RootLeaves) : vec (quad u64) 14 :=
  vmap (quad_map g_as_u64) (Vector.append (dims l) [# leaf_a l; leaf_n l; leaf_stats l]).

(** [from_state]: also the state with the commitments its reads cached. *)
Definition certificate_from_state (s : BbgState) (namespaces : list u64) : option (result string StateCertificate * BbgState) :=
  if (11 <? zlen namespaces) || existsb (fun n => 10 <? uval n) namespaces then
    Some (Err "certificate namespaces must be in 0..10"%string, s)
  else
    let namespaces := merge_sort u64_le namespaces in
    if adjacent_equal namespaces then Some (Err "duplicate certificate namespace"%string, s)
    else
      r ← dimension_tables s 0 namespaces;
      match r with
      | Err e => Some (Err e, s)
      | Ok tables =>
          '(leaves, s) ← root_leaves s;
          let certificate := mkStateCertificate CERTIFICATE_VERSION COMMITMENT_VERSION (leaf_words leaves) tables in
          r ← certificate_root certificate;
          match r with
          | Err e => Some (Err e, s)
          | Ok root =>
              '(cached, s) ← compute_root s;
              if bool_decide (words_bytes (quad_list root) = blist cached) then Some (Ok certificate, s)
              else Some (Err "stale cached BBG root; refresh state after mutation"%string, s)
          end
      end.

End Certificate.
