(* ===== verification/Query.v ===== *)
(** * Queries (rs/src/proof.rs, query.rs, query_auth.rs)

    Reads of cells of the dimension tables: the opening of a cell at its corner with the certificate
    of its dimension, the entity-keyed conveniences, the look providers of the virtual machine, and
    the authentication of a proof under a trusted root. [None] is a panic, where a function answers
    an [Option] it is the inner one. A read leaves the state with the commitments it cached. *)

From S2P Require Import Prelude.
From S2P Require Import Crypto.
From S2P Require Import Keyed.
From S2P Require Import Types.
From S2P Require Import State.
From S2P Require Import Access.
From S2P Require Import Certificate.

Local Open Scope Z_scope.

(** nox: the rows of an execution trace, with their registers. *)
Class Traces := {
  TraceRow : Type;
  row_r : TraceRow -> list u64;
}.

(** lens: the Brakedown opening of an evaluation table at a point, under a transcript label. *)
Class Openings `{Nebu} := {
  Opening : Type;
  opening_eq_dec :: EqDecision Opening;
  lens_open : list Goldilocks -> list Goldilocks -> list u8 -> Opening;
  lens_verify : bytes 32 -> list Goldilocks -> Goldilocks -> Opening -> list u8 -> bool;
}.

Definition QUERY_VERSION : u32 := of_Z 32 3.
Definition MAX_QUERY_FIELDS : Z := 4096.
Definition OPEN_SEED : list u8 := ascii_bytes "bbg-dim-open".

Record QueryContext := mkQueryContext {
  qc_version : u32;
  qc_certificate : StateCertificate;
  qc_namespace : u64;
  qc_index : u64;
}.

(** [fields.get(a..b)]. *)
Definition get_range {A} (l : list A) (a b : Z) : option (list A) :=
  if b <=? zlen l then Some (take (Z.to_nat (b - a)) (drop (Z.to_nat a) l)) else None.

(** [fields.get(i)]. *)
Definition get_at {A} (l : list A) (i : Z) : option A := if i <? zlen l then l !! Z.to_nat i else None.

(** [u32::try_from]. *)
Definition try_u32 (v : u64) : option Z := if uval v <? 2 ^ 32 then Some (uval v) else None.

Section Query.
  Context `{Nebu, Hemera, !Lens, !Openings}.

Record QueryProof := mkQueryProof {
  qp_commitment : bytes 32;
  qp_opening : Opening;
  qp_value_bytes : list u8;
  qp_context : option QueryContext;
  qp_point : list Goldilocks;
}.

(** ** Opening (proof.rs) *)

Definition with_context (p : QueryProof) (c : QueryContext) : QueryProof :=
  mkQueryProof (qp_commitment p) (qp_opening p) (qp_value_bytes p) (Some c) (qp_point p).

Definition context_from_state (s : BbgState) (d : Dim) (index : nat) : option (option QueryContext * BbgState) :=
  '(c, s) ← certificate_from_state s [of_Z 64 (dim_index d)];
  Some (match c with
        | Ok c => Some (mkQueryContext QUERY_VERSION c (of_Z 64 (dim_index d)) (usize_u64 index))
        | Err _ => None
        end, s).

Definition corner_point (idx num_vars : nat) : list Goldilocks :=
  map (fun j => if Z.land (Z.shiftr (Z.of_nat idx) (Z.of_nat j)) 1 =? 1 then g_one else g_zero) (seq 0 num_vars).

Definition open_cell_from_entries (entries : list (Particle * list Goldilocks)) (idx : nat) : option QueryProof :=
  let elems := dim_serialize entries in
  if (length elems <=? idx)%nat then None
  else
    let evals := resize (next_power_of_two (length elems)) g_zero elems in
    let point := corner_point idx (Nat.log2 (length evals)) in
    value ← evals !! idx;
    Some (mkQueryProof (brakedown_commit evals) (lens_open evals point OPEN_SEED) (blist (to_le_bytes 8 (g_as_u64 value))) None point).

(** [open_cell], the one read primitive. *)
Definition open_cell (s : BbgState) (d : Dim) (idx : nat) : option (option QueryProof * BbgState) :=
  let entries := dim_entries s d in
  if (dim_index d <=? 9) && (MAX_QUERY_FIELDS <? Z.of_nat (table_count entries)) then Some (None, s)
  else
    match open_cell_from_entries entries idx with
    | None => Some (None, s)
    | Some proof =>
        if dim_index d <=? 9 then
          '(context, s) ← context_from_state s d idx;
          Some (option_map (with_context proof) context, s)
        else Some (Some proof, s)
    end.

Definition cell_value (s : BbgState) (d : Dim) (idx : nat) : option Goldilocks := dim_serialize (dim_entries s d) !! idx.

(** The loop of [open_entity]: the cell of the entry with the key. *)
Fixpoint entity_index (entries : list (Particle * list Goldilocks)) (key : Particle) (value_col offset : nat) : option nat :=
  match entries with
  | [] => None
  | (entry_key, values) :: entries =>
      if bool_decide (entry_key = key) then
        if (value_col <? length values)%nat then Some (offset + KEY_FIELDS + value_col)%nat else None
      else entity_index entries key value_col (offset + (KEY_FIELDS + length values))
  end.

Definition open_entity (s : BbgState) (d : Dim) (key : Particle) (value_col : nat) : option (option QueryProof * BbgState) :=
  match entity_index (dim_entries s d) key value_col HEADER_FIELDS with
  | Some idx => open_cell s d idx
  | None => Some (None, s)
  end.

(** The position of the primary value in the record of a dimension. *)
Definition primary_col (d : Dim) : nat := match d with DSignals => 16 | _ => 0 end.

Definition prove_particle (s : BbgState) (particle : Particle) := open_entity s DParticles particle 0.
Definition prove_neuron (s : BbgState) (id : NeuronId) := open_entity s DNeurons id 0.
Definition prove_axons_out (s : BbgState) (particle : Particle) := open_entity s DAxonsOut particle 0.
Definition prove_axons_in (s : BbgState) (particle : Particle) := open_entity s DAxonsIn particle 0.
Definition prove_location (s : BbgState) (id : Particle) := open_entity s DLocations id 0.
Definition prove_coin (s : BbgState) (denom : Particle) := open_entity s DCoins denom 0.
Definition prove_card (s : BbgState) (card_id : Particle) := open_entity s DCards card_id 0.
Definition prove_file (s : BbgState) (particle : Particle) := open_entity s DFiles particle 0.
Definition prove_signal_key (s : BbgState) (key : Particle) := open_entity s DSignals key 16.
Definition prove_signal (s : BbgState) (neuron : NeuronId) (step : u64) := prove_signal_key s (signal_key neuron step).
Definition prove_time (s : BbgState) (h : u64) := open_entity s DTime (buffer 32 (to_le_bytes 8 h)) 0.
Definition prove_balances (s : BbgState) (owner token : bytes 32) := open_entity s DBalances (balance_key owner token) 0.

Definition prove_public_balance (s : BbgState) (owner token : bytes 32) : option (option QueryProof * BbgState) :=
  let count := Z.of_nat HEADER_FIELDS + Z.of_nat (size (k_map (balances s))) * (Z.of_nat KEY_FIELDS + 2) in
  if (2 ^ 64 <=? count) || (MAX_QUERY_FIELDS <? count) then Some (None, s)
  else
    let key := balance_key owner token in
    match list_find (fun k => k = key) (btree_iter (k_map (balances s))).*1 with
    | None => Some (None, s)
    | Some (position, _) =>
        let index := (HEADER_FIELDS + position * (KEY_FIELDS + 2) + KEY_FIELDS)%nat in
        '(proof, s) ← prove_balances s owner token;
        match proof with
        | None => Some (None, s)
        | Some proof => '(context, s) ← context_from_state s DBalances index; Some (option_map (with_context proof) context, s)
        end
    end.

(** [prove_commitment] opens the private polynomial, without context. *)
Definition commitment_entries (s : BbgState) : list (Particle * list Goldilocks) := entries_of (fun g => [g]) (k_map (commitments s)).

Definition prove_commitment (s : BbgState) (point : bytes 32) : option QueryProof :=
  match commitment_entries s with
  | [] => None
  | entries => idx ← entity_index entries point 0 HEADER_FIELDS; open_cell_from_entries entries idx
  end.

(** ** Queries (query.rs) *)

Definition bbg_query (s : BbgState) (d : Dim) (key : Particle) : option (option QueryProof * BbgState) :=
  if bool_decide (d = DTime) && existsb (fun v => negb (uval v =? 0)) (drop 8 (blist key)) then Some (None, s)
  else
    match d with
    | DParticles => prove_particle s key
    | DAxonsOut => prove_axons_out s key
    | DAxonsIn => prove_axons_in s key
    | DNeurons => prove_neuron s key
    | DLocations => prove_location s key
    | DCoins => prove_coin s key
    | DCards => prove_card s key
    | DFiles => prove_file s key
    | DTime => prove_time s (from_le_bytes 64 (take 8 (blist key)))
    | DSignals => prove_signal_key s key
    | DBalances => Some (None, s)
    end.

(** [BbgLookProvider::look]. *)
Definition look (s : BbgState) (namespace key : Goldilocks) : option Goldilocks :=
  if 9 <? uval (g_as_u64 namespace) then None
  else d ← dim_from_u64 (g_as_u64 namespace); cell_value s d (Z.to_nat (uval (g_as_u64 key))).

Record LookOpening := mkLookOpening {
  lo_commitment : bytes 32;
  lo_point : list Goldilocks;
  lo_value : Goldilocks;
  lo_opening : Opening;
  lo_transcript_seed : list u8;
  lo_leaves : RootLeaves;
  lo_namespace : Goldilocks;
}.

(** The provider that records openings: the leaves, and the openings so far. *)
Record ProofLookProvider := mkProofLookProvider { pl_leaves : RootLeaves; pl_openings : list LookOpening }.

Definition provider_new (s : BbgState) : option (ProofLookProvider * BbgState) :=
  '(leaves, s) ← root_leaves s; Some (mkProofLookProvider leaves [], s).

Definition take_look_openings (p : ProofLookProvider) : list LookOpening * ProofLookProvider :=
  (pl_openings p, mkProofLookProvider (pl_leaves p) []).

Definition query_value (proof : QueryProof) : Goldilocks :=
  if zlen (qp_value_bytes proof) <? 8 then g_zero else g_new (from_le_bytes 64 (take 8 (qp_value_bytes proof))).

Definition look_opening (leaves : RootLeaves) (namespace : Goldilocks) (proof : QueryProof) : LookOpening :=
  mkLookOpening (qp_commitment proof) (qp_point proof) (query_value proof) (qp_opening proof) OPEN_SEED leaves namespace.

(** [ProofLookProvider::look]. *)
Definition proof_look (p : ProofLookProvider) (s : BbgState) (namespace key : Goldilocks)
    : option (option Goldilocks * ProofLookProvider * BbgState) :=
  if 9 <? uval (g_as_u64 namespace) then Some (None, p, s)
  else
    match dim_from_u64 (g_as_u64 namespace) with
    | None => Some (None, p, s)
    | Some d =>
        '(proof, s) ← open_cell s d (Z.to_nat (uval (g_as_u64 key)));
        match proof with
        | None => Some (None, p, s)
        | Some proof =>
            Some (Some (query_value proof), mkProofLookProvider (pl_leaves p) (pl_openings p ++ [look_opening (pl_leaves p) namespace proof]), s)
        end
    end.

(** [collect_look_openings]: the loop over the rows; a register past the row panics. *)
Fixpoint collect_rows `{!Traces} (leaves : RootLeaves) (s : BbgState) (trace : list TraceRow) : option (list LookOpening * BbgState) :=
  match trace with
  | [] => Some ([], s)
  | row :: trace =>
      tag ← row_r row !! 0%nat;
      if negb (uval tag =? 17) then collect_rows leaves s trace
      else
        ns ← row_r row !! 5%nat;
        key ← row_r row !! 6%nat;
        let ns := g_new ns in
        let key := g_new key in
        if 9 <? uval (g_as_u64 ns) then collect_rows leaves s trace
        else
          match dim_from_u64 (g_as_u64 ns) with
          | None => collect_rows leaves s trace
          | Some d =>
              '(proof, s) ← open_cell s d (Z.to_nat (uval (g_as_u64 key)));
              match proof with
              | None => collect_rows leaves s trace
              | Some proof => '(result, s) ← collect_rows leaves s trace; Some (look_opening leaves ns proof :: result, s)
              end
          end
  end.

Definition collect_look_openings `{!Traces} (s : BbgState) (trace : list TraceRow) : option (list LookOpening * BbgState) :=
  '(leaves, s) ← root_leaves s; collect_rows leaves s trace.

(** An opening alone verifies nothing. *)
Definition verify_opening (lo : LookOpening) : bool := false.

End Query.

(** ** A concrete environment

    Openings that reveal the evaluations, used to evaluate examples. *)
Module QueryToy.
Import Toy.

(** The cell of a corner. *)
Definition point_index (point : list Goldilocks) : Z := foldr (fun x acc => uval (g_as_u64 x) + 2 * acc) 0 point.

#[export] Instance openings : Openings := {|
  Opening := list Goldilocks;
  opening_eq_dec := _;
  lens_open evals _ _ := evals;
  lens_verify commitment point v opening _ :=
    bool_decide (brakedown_commit opening = commitment) && bool_decide (opening !! Z.to_nat (point_index point) = Some v);
|}.

(** A v1 state with one neuron and one public balance. *)
Definition state : BbgState :=
  let s := state_set_root_version state_new V1 in
  let s := set_neurons s (snd (keyed_insert (neurons s) (id32 1) (mkNeuronRecord (of_Z 64 9) (of_Z 64 8) (of_Z 64 7) (of_Z 64 1)))) in
  set_balances s (snd (keyed_insert (balances s) (balance_key (id32 1) (id32 2)) (of_Z 64 1000))).

End QueryToy.
