(* ===== verification/QueryAuth.v ===== *)
(** * Authentication of queries (rs/src/query_auth.rs)

    The verifier: it recomputes the root from the complete public table of a proof, and reads the claimed
    cell in it. [None] is a panic. *)

From S2P Require Import Prelude.
From S2P Require Import Crypto.
From S2P Require Import Keyed.
From S2P Require Import Types.
From S2P Require Import State.
From S2P Require Import Access.
From S2P Require Import Certificate.
From S2P Require Import Query.

Local Open Scope Z_scope.

(** [?] in a verifier, where refusing is [false]. *)
Definition or_refuse {A} (o : option A) (k : A -> option bool) : option bool :=
  match o with Some x => k x | None => Some false end.

Notation "x ←? y ; z" := (or_refuse y (fun x => z)) (at level 20, y at level 100, z at level 200, only parsing).

(** The canonical limbs of a root. *)
Definition root_fields (root : bytes 32) : option (quad u64) :=
  let values := Quad (limb64 root 0) (limb64 root 1) (limb64 root 2) (limb64 root 3) in
  if forallb (fun v => uval v <? field_P) (quad_list values) then Some values else None.

(** ** The layout of a table *)

(** The bytes of a key from its limbs. *)
Definition key_of_limbs (limbs : list u64) : option (bytes 32) :=
  words ← mapM try_u32 limbs;
  Some (buffer 32 (flat_map (fun w => le_bytes 4 w) words)).

(** The order of the entries: heights by value, other keys by their bytes. *)
Definition sort_key (d : Dim) (key : bytes 32) : option (list u8) :=
  if bool_decide (d = DTime) then
    if existsb (fun v => negb (uval v =? 0)) (drop 8 (blist key)) then None
    else Some (to_be_bytes 8 (from_le_bytes 64 (take 8 (blist key))) ++ repeat (of_Z 8 0) 24)
  else Some (blist key).

(** The number of fields of the record at [start]. *)
Definition record_width (fields : list u64) (d : Dim) (start : Z) : option Z :=
  match d with
  | DParticles => Some 12
  | DNeurons => Some 8
  | DLocations => Some 4
  | DCoins => Some 2
  | DCards => Some 28
  | DFiles => Some 4
  | DTime => Some 8
  | DSignals => Some 30
  | DAxonsOut | DAxonsIn =>
      low ← v ← get_at fields start; try_u32 v;
      high ← v ← get_at fields (start + 1); try_u32 v;
      Some (Z.lor low (Z.shiftl high 32) * 8 + 2)
  | DBalances => Some 2
  end.

(** The loop of [primary_index]: past the last entry the table must end. Offsets that exceed a
    [usize] are past the end of the table, where the slices are refused as well. *)
Fixpoint find_entry (entries : nat) (fields : list u64) (d : Dim) (key : bytes 32) (offset : Z)
    (found : option Z) (previous : option (list u8)) : option Z :=
  match entries with
  | O => if offset =? zlen fields then found else None
  | S entries =>
      limbs ← get_range fields offset (offset + Z.of_nat KEY_FIELDS);
      bytes ← key_of_limbs limbs;
      order ← sort_key d bytes;
      if match previous with Some p => negb (ord_ltb p order) | None => false end then None
      else
        let start := offset + Z.of_nat KEY_FIELDS in
        width ← record_width fields d start;
        record ← get_range fields start (start + width);
        if existsb (fun v => 2 ^ 32 <=? uval v) record then None
        else
          let found := if bool_decide (bytes = key) then Some (start + Z.of_nat (primary_col d)) else found in
          find_entry entries fields d key (start + width) found (Some order)
  end.

Definition primary_index (fields : list u64) (d : Dim) (key : bytes 32) : option Z :=
  entries ← get_at fields 2;
  find_entry (Z.to_nat (uval entries)) fields d key (Z.of_nat HEADER_FIELDS) None None.

Section QueryAuth.
  Context `{Nebu, Hemera, !Lens, !Openings}.

(** ** Verification *)

(** The corner of the cell. *)
Definition at_corner (point : list Goldilocks) (index : Z) : bool :=
  forallb (fun '(i, v) => uval (g_as_u64 v) =? Z.land (Z.shiftr index (Z.of_nat i)) 1) (imap pair point).

(** [authenticated]. *)
Definition authenticated (proof : QueryProof) (root : option (bytes 32)) : option bool :=
  context ←? qp_context proof;
  if negb (bool_decide (qc_version context = QUERY_VERSION)) || (10 <? uval (qc_namespace context)) then Some false
  else
    match sc_dimensions (qc_certificate context) with
    | [table] =>
        let fields := dt_fields table in
        if negb (bool_decide (dt_namespace table = qc_namespace context)) || (MAX_QUERY_FIELDS <? zlen fields) then Some false
        else
          actual ← certificate_root (qc_certificate context);
          match actual with
          | Err _ => Some false
          | Ok actual_root =>
              if match root with
                 | Some root => match root_fields root with Some r => bool_decide (actual_root = r) | None => false end
                 | None => true
                 end : bool
              then
                let index := uval (qc_index context) in
                value ←? get_at fields index;
                if negb (bool_decide (qp_value_bytes proof = blist (to_le_bytes 8 value))) then Some false
                else if negb (Nat.eqb (length (qp_point proof)) (Nat.log2 (next_power_of_two (length fields)))) || negb (at_corner (qp_point proof) index) then Some false
                else
                  leaf ← vec_to_list (sc_leaves (qc_certificate context)) !! Z.to_nat (uval (qc_namespace context));
                  if negb (bool_decide (blist (qp_commitment proof) = words_bytes (quad_list leaf))) then Some false
                  else Some (lens_verify (qp_commitment proof) (qp_point proof) (g_new value) (qp_opening proof) OPEN_SEED)
              else Some false
          end
    | _ => Some false
    end.

Definition verify_query (proof : QueryProof) : option bool := authenticated proof None.

Definition verify_query_at (proof : QueryProof) (root : bytes 32) (namespace index : u64) : option bool :=
  context ←? qp_context proof;
  if bool_decide (qc_namespace context = namespace) && bool_decide (qc_index context = index) then authenticated proof (Some root)
  else Some false.

(** The claim that the cell of the proof is the primary one of the entity. *)
Definition claims_entity (proof : QueryProof) (d : Dim) (key : bytes 32) : option bool :=
  context ← qp_context proof;
  if negb (uval (qc_namespace context) =? dim_index d) then Some false
  else
    table ← sc_dimensions (qc_certificate context) !! 0%nat;
    index ←? primary_index (dt_fields table) d key;
    Some (index =? uval (qc_index context)).

Definition verify_entity (proof : QueryProof) (root : bytes 32) (d : Dim) (key : bytes 32) : option bool :=
  ok ← authenticated proof (Some root);
  if ok : bool then claims_entity proof d key else Some false.

(** [verify_particle] of proof.rs. *)
Definition verify_particle (proof : QueryProof) (root particle : bytes 32) : option bool := verify_entity proof root DParticles particle.

(** Both limbs of a balance. *)
Definition verify_public_balance (proof : QueryProof) (root owner token : bytes 32) : option (option u64) :=
  ok ← verify_entity proof root DBalances (balance_key owner token);
  if negb ok then Some None
  else
    context ← qp_context proof;
    table ← sc_dimensions (qc_certificate context) !! 0%nat;
    let index := uval (qc_index context) in
    Some (low ← v ← get_at (dt_fields table) index; try_u32 v;
          high ← v ← get_at (dt_fields table) (index + 1); try_u32 v;
          Some (of_Z 64 (Z.lor low (Z.shiftl high 32)))).

Definition verify_opening_with_context (lo : LookOpening) (proof : QueryProof) (root : bytes 32) (index : u64) : option bool :=
  ok ← verify_query_at proof root (g_as_u64 (lo_namespace lo)) index;
  if negb ok then Some false
  else
    context ← qp_context proof;
    Some (bool_decide (map (quad_map g_as_u64) (ordered (lo_leaves lo)) = vec_to_list (sc_leaves (qc_certificate context)))
          && bool_decide (lo_commitment lo = qp_commitment proof) && bool_decide (lo_point lo = qp_point proof)
          && bool_decide (blist (to_le_bytes 8 (g_as_u64 (lo_value lo))) = qp_value_bytes proof)
          && bool_decide (lo_opening lo = qp_opening proof) && bool_decide (lo_transcript_seed lo = OPEN_SEED)).

End QueryAuth.
