(* ===== verification/QuerySpec.v ===== *)
(** * The layout of a table is read back

    Parsing the public table of a dimension finds the primary cell of exactly the entities of the
    dimension. *)

From S2P Require Import Prelude.
From S2P Require Import Crypto.
From S2P Require Import Keyed.
From S2P Require Import Types.
From S2P Require Import State.
From S2P Require Import Access.
From S2P Require Import Certificate.
From S2P Require Import Query.
From S2P Require Import QueryAuth.

Local Open Scope Z_scope.

(** ** Rows of words *)

Definition key_limbs (k : bytes 32) : list u64 := map (fun i => of_Z 64 (from_le_bytes 32 (take 4 (drop (i * 4) (blist k))))) (seq 0 8).

Definition layout (rows : list (bytes 32 * list u64)) : list u64 := flat_map (fun e => key_limbs e.1 ++ e.2) rows.

Lemma zlen_app {A} (l k : list A) : zlen (l ++ k) = zlen l + zlen k.
Proof. unfold zlen. rewrite length_app. lia. Qed.

Lemma zlen_ge_0 {A} (l : list A) : 0 <= zlen l.
Proof. unfold zlen. lia. Qed.

Lemma zlen_limbs k : zlen (key_limbs k) = 8.
Proof. done. Qed.

Lemma get_range_app {A} (pre ws post : list A) a b : a = zlen pre -> b = zlen pre + zlen ws -> get_range (pre ++ ws ++ post) a b = Some ws.
Proof.
  intros -> ->. pose proof (zlen_ge_0 post). unfold get_range. rewrite !zlen_app, (proj2 (Z.leb_le _ _)) by lia. f_equal.
  replace (Z.to_nat (zlen pre + zlen ws - zlen pre)) with (length ws) by (unfold zlen; lia). unfold zlen. rewrite Nat2Z.id.
  rewrite drop_app_length. by rewrite take_app_length.
Qed.

Lemma get_at_app {A} (pre post : list A) x a : a = zlen pre -> get_at (pre ++ x :: post) a = Some x.
Proof.
  intros ->. unfold get_at. pose proof (zlen_ge_0 post). rewrite zlen_app. change (zlen (x :: post)) with (zlen ([x] ++ post)). rewrite zlen_app.
  change (zlen [x]) with 1. rewrite (proj2 (Z.ltb_lt _ _)) by lia. unfold zlen. rewrite Nat2Z.id. by rewrite list_lookup_middle.
Qed.

Lemma try_u32_of z : 0 <= z < 2 ^ 32 -> try_u32 (of_Z 64 z) = Some z.
Proof. intros Hz. unfold try_u32. rewrite uval_of_Z_small by (simpl; lia). by rewrite (proj2 (Z.ltb_lt _ _)) by lia. Qed.

Lemma mapM_map_Some {A B C} (f : B -> option C) (g : A -> B) (h : A -> C) (l : list A) :
  (forall x, x ∈ l -> f (g x) = Some (h x)) -> mapM f (map g l) = Some (map h l).
Proof.
  induction l as [|x l IH]; intros Hf; [done|]. cbn [map mapM]. rewrite (Hf x) by (by left). cbn [mbind option_bind].
  rewrite IH by (intros y Hy; apply Hf; by right). done.
Qed.

(** A key is read back from its limbs. *)
Lemma key_of_limbs_ok k : key_of_limbs (key_limbs k) = Some k.
Proof.
  unfold key_of_limbs, key_limbs. set (word := fun i => uval (from_le_bytes 32 (take 4 (drop (i * 4) (blist k))))).
  rewrite (mapM_map_Some _ _ word) by (intros i _; apply try_u32_of; unfold word; apply (uval_range (w := 32))). cbn [mbind option_bind]. f_equal.
  assert (forall i, (i < 8)%nat -> le_bytes 4 (word i) = take 4 (drop (i * 4) (blist k))) as Hw.
  { intros i Hi. unfold word, from_le_bytes. set (c := take 4 (drop (i * 4) (blist k))).
    assert (length c = 4%nat) as Hc by (unfold c; rewrite length_take, length_drop, length_blist; lia).
    pose proof (le_val_bound c) as Hb. rewrite Hc in Hb. rewrite uval_of_Z_small by (simpl in *; lia). rewrite <- Hc. apply le_bytes_le_val. }
  transitivity (buffer 32 (blist k)); [f_equal|apply buffer_blist]. rewrite flat_map_concat_map, map_map.
  assert (map (fun i => le_bytes 4 (word i)) (seq 0 8) = map (fun i => take 4 (drop (i * 4) (blist k))) (seq 0 8)) as ->.
  { apply map_ext_in. intros i [_ Hi]%in_seq. by apply Hw. }
  cbn [seq map concat]. rewrite !Nat.mul_0_l, drop_0. change (1 * 4)%nat with 4%nat.
  assert (length (blist k) = 32%nat) as Hk by apply length_blist. generalize dependent (blist k). clear. intros l Hl.
  do 33 (destruct l as [|? l]; [done|]). done.
Qed.

(** ** Parsing rows *)

(** A row of a dimension: words of 32 bits, as many as the dimension says, past the primary cell. *)
Record shaped (d : Dim) (ws : list u64) : Prop := {
  sh_words : Forall (fun v => uval v < 2 ^ 32) ws;
  sh_width : forall pre post, record_width (pre ++ ws ++ post) d (zlen pre) = Some (zlen ws);
  sh_primary : Z.of_nat (primary_col d) < zlen ws;
}.

(** Where the parser finds a key. *)
Fixpoint locate (rows : list (bytes 32 * list u64)) (d : Dim) (key : bytes 32) (offset : Z) : option Z :=
  match rows with
  | [] => None
  | (k, ws) :: rows => if decide (k = key) then Some (offset + 8 + Z.of_nat (primary_col d)) else locate rows d key (offset + (8 + zlen ws))
  end.

(** Rows in the order of their keys, after a key. *)
Fixpoint in_order (d : Dim) (previous : option (list u8)) (rows : list (bytes 32 * list u64)) : Prop :=
  match rows with
  | [] => True
  | (k, _) :: rows => exists order, sort_key d k = Some order
      /\ match previous with Some p => ord_ltb p order = true | None => True end /\ in_order d (Some order) rows
  end.

Lemma locate_None rows d key offset : key ∉ rows.*1 -> locate rows d key offset = None.
Proof.
  revert offset. induction rows as [|[k ws] rows IH]; intros offset Hk; [done|]. cbn [locate].
  rewrite fmap_cons, not_elem_of_cons in Hk. cbn [fst] in Hk. destruct Hk as [Hne Hk]. rewrite decide_False by congruence. by apply IH.
Qed.

Lemma find_entry_ok d key rows pre found previous :
  Forall (fun e => shaped d e.2) rows -> NoDup rows.*1 -> in_order d previous rows ->
  find_entry (length rows) (pre ++ layout rows) d key (zlen pre) found previous
  = match locate rows d key (zlen pre) with Some i => Some i | None => found end.
Proof.
  revert pre found previous. induction rows as [|[k ws] rows IH]; intros pre found previous Hs Hn Ho.
  { cbn [length find_entry locate layout flat_map]. by rewrite app_nil_r, Z.eqb_refl. }
  apply Forall_cons in Hs as [[Hw Hwidth _] Hs]. rewrite fmap_cons in Hn. apply NoDup_cons in Hn as [Hk Hn]. destruct Ho as (order & Ek & Hp & Ho).
  change (layout ((k, ws) :: rows)) with ((key_limbs k ++ ws) ++ layout rows). cbn [length find_entry locate]. rewrite <- app_assoc.
  rewrite get_range_app with (ws := key_limbs k) by (rewrite ?zlen_limbs; done). cbn [mbind option_bind].
  rewrite key_of_limbs_ok. cbn [mbind option_bind]. rewrite Ek. cbn [mbind option_bind].
  assert (match previous with Some p => negb (ord_ltb p order) | None => false end = false) as -> by (destruct previous; [by rewrite Hp|done]).
  assert (pre ++ key_limbs k ++ ws ++ layout rows = (pre ++ key_limbs k) ++ ws ++ layout rows) as -> by by rewrite app_assoc.
  assert (zlen pre + Z.of_nat KEY_FIELDS = zlen (pre ++ key_limbs k)) as -> by by rewrite zlen_app.
  rewrite Hwidth. cbn [mbind option_bind]. rewrite get_range_app with (ws := ws) by done. cbn [mbind option_bind].
  assert (existsb (fun v => 2 ^ 32 <=? uval v) ws = false) as ->.
  { apply not_true_is_false. intros (v & Hv%list_elem_of_In & Hle%Z.leb_le)%existsb_exists. rewrite Forall_forall in Hw. specialize (Hw v Hv). lia. }
  cbn [snd] in *. rewrite app_assoc. rewrite <- (zlen_app (pre ++ key_limbs k) ws), IH by done. rewrite zlen_app, zlen_app, zlen_limbs.
  replace (zlen pre + 8 + zlen ws) with (zlen pre + (8 + zlen ws)) by lia. case_decide as Hd.
  - subst k. rewrite bool_decide_true by done. by rewrite locate_None.
  - by rewrite bool_decide_false by done.
Qed.

(** The public table of rows, and what the parser finds in it. *)
Definition table_words (rows : list (bytes 32 * list u64)) : list u64 :=
  [TABLE_VERSION; of_Z 64 (3 + zlen (layout rows)); of_Z 64 (zlen rows)] ++ layout rows.

Lemma primary_index_ok d key rows :
  Forall (fun e => shaped d e.2) rows -> NoDup rows.*1 -> in_order d None rows -> zlen rows < 2 ^ 64 ->
  primary_index (table_words rows) d key = locate rows d key 3.
Proof.
  intros Hs Hn Ho Hl. unfold primary_index, table_words. pose proof (zlen_ge_0 rows).
  set (header := [TABLE_VERSION; of_Z 64 (3 + zlen (layout rows)); of_Z 64 (zlen rows)]).
  assert (get_at (header ++ layout rows) 2 = Some (of_Z 64 (zlen rows))) as -> by exact (get_at_app [_; _] (layout rows) _ 2 eq_refl).
  cbn [mbind option_bind]. rewrite uval_of_Z_small by (simpl; lia). unfold zlen at 1. rewrite Nat2Z.id.
  transitivity (match locate rows d key 3 with Some i => Some i | None => None end); [|by destruct (locate _ _ _ _)].
  exact (find_entry_ok d key rows header None None Hs Hn Ho).
Qed.

(** What is located is the primary cell of a row. *)
Lemma locate_cell d key rows pre i : Forall (fun e => shaped d e.2) rows -> locate rows d key (zlen pre) = Some i ->
  exists ws v, (key, ws) ∈ rows /\ ws !! primary_col d = Some v /\ get_at (pre ++ layout rows) i = Some v
    /\ forall n x, ws !! (primary_col d + n)%nat = Some x -> get_at (pre ++ layout rows) (i + Z.of_nat n) = Some x.
Proof.
  revert pre. induction rows as [|[k ws] rows IH]; intros pre Hs E; [done|]. apply Forall_cons in Hs as [Hsh Hs]. cbn [locate] in E.
  change (layout ((k, ws) :: rows)) with ((key_limbs k ++ ws) ++ layout rows). case_decide as Hd.
  - subst k. injection E as <-. destruct (lookup_lt_is_Some_2 ws (primary_col d)) as [v Hv].
    { pose proof (sh_primary _ _ Hsh) as Hp. cbn in Hp. unfold zlen in Hp. lia. }
    assert (forall n x, ws !! (primary_col d + n)%nat = Some x -> get_at (pre ++ (key_limbs key ++ ws) ++ layout rows) (zlen pre + 8 + Z.of_nat (primary_col d) + Z.of_nat n) = Some x) as Hget.
    { intros n x Hx. pose proof Hx as (l1 & l2 & Ews & Hl)%list_elem_of_split_length. subst ws.
      assert (pre ++ (key_limbs key ++ l1 ++ x :: l2) ++ layout rows = (pre ++ key_limbs key ++ l1) ++ x :: (l2 ++ layout rows)) as -> by (by rewrite <- !app_assoc).
      apply get_at_app. rewrite !zlen_app, zlen_limbs. unfold zlen. rewrite <- Hl. lia. }
    exists ws, v. split_and!; [by left|done| |done]. specialize (Hget 0%nat v). rewrite Nat.add_0_r, Z.add_0_r in Hget. by apply Hget.
  - rewrite app_assoc. destruct (IH (pre ++ key_limbs k ++ ws) Hs) as (ws' & v & Hin & Hv & Hg & Hn).
    { rewrite !zlen_app, zlen_limbs. exact E. }
    exists ws', v. split_and!; [by right|done|done|done].
Qed.

(** ** The rows of a dimension *)

Section Rows.
  Context `{Nebu, Hemera, !CryptoLaws}.

Definition rows_of_dim (s : BbgState) (d : Dim) : list (bytes 32 * list u64) := map (fun e => (e.1, map g_as_u64 e.2)) (dim_entries s d).

(** A field of 32 bits. *)
Definition word_field (g : Goldilocks) : Prop := exists z, 0 <= z < 2 ^ 32 /\ g = g_new (of_Z 64 z).

Lemma word_canonical z : 0 <= z < 2 ^ 32 -> g_as_u64 (g_new (of_Z 64 z)) = of_Z 64 z.
Proof. intros Hz. by apply g_as_u64_new, limb_canonical. Qed.

Lemma word_field_u64 g : word_field g -> uval (g_as_u64 g) < 2 ^ 32 /\ g_new (g_as_u64 g) = g.
Proof. intros (z & Hz & ->). rewrite word_canonical by done. rewrite uval_of_Z_small by (simpl; lia). split; [lia|done]. Qed.

Lemma words_u64 v : Forall word_field (u64_limbs v).
Proof.
  destruct (u64_halves v) as (Hlo & Hhi & _). repeat constructor; eexists; (split; [|reflexivity]); done.
Qed.

Lemma words_scalars l : Forall word_field (scalar_fields l).
Proof. induction l as [|v l IH]; [constructor|]. cbn [scalar_fields flat_map]. apply Forall_app. split; [apply words_u64|exact IH]. Qed.

Lemma words_bytes32 k : Forall word_field (bytes32_limbs k).
Proof. unfold bytes32_limbs. apply Forall_map, Forall_forall. intros i _. eexists. split; [apply (uval_range (w := 32))|done]. Qed.

Lemma words_list (l : list Particle) : Forall word_field (flat_map bytes32_limbs l).
Proof. induction l as [|k l IH]; [constructor|]. apply Forall_app. split; [apply words_bytes32|exact IH]. Qed.

Lemma words_of_key k : map g_as_u64 (bytes32_limbs k) = key_limbs k.
Proof.
  unfold bytes32_limbs, key_limbs. rewrite map_map. apply map_ext. intros i. apply word_canonical, (uval_range (w := 32)).
Qed.

Lemma words_of_u64 v : map g_as_u64 (u64_limbs v) = [of_Z 64 (Z.land v 0xffffffff); of_Z 64 (Z.shiftr v 32)].
Proof. destruct (u64_halves v) as (Hlo & Hhi & _). unfold u64_limbs. cbn [map]. by rewrite !word_canonical. Qed.

(** The two limbs of a value. *)
Lemma limbs_value (v : u64) : Z.lor (Z.land v 0xffffffff) (Z.shiftl (Z.shiftr v 32) 32) = v.
Proof.
  destruct (u64_halves v) as (Hlo & Hhi & Hv). set (lo := Z.land v _) in *. set (hi := Z.shiftr v 32) in *.
  rewrite Hv, Z.shiftl_mul_pow2, Z.mul_comm by lia. rewrite <- Z.add_lor_land.
  assert (Z.land lo (2 ^ 32 * hi) = 0) as ->; [|lia]. apply Z.bits_inj'. intros n Hn. rewrite Z.land_spec, Z.bits_0.
  destruct (Z.ltb_spec n 32).
  - rewrite (Z.mul_comm (2 ^ 32)), <- Z.shiftl_mul_pow2, Z.shiftl_spec_low by lia. apply andb_false_r.
  - rewrite (Z.bits_above_log2 lo n), andb_false_l; [done|lia|]. destruct (decide (lo = 0)) as [->|]; [simpl; lia|]. apply Z.log2_lt_pow2; [lia|].
    apply (Z.lt_le_trans _ (2 ^ 32)); [lia|]. by apply Z.pow_le_mono_r.
Qed.

Lemma shaped_fields d (fields : list Goldilocks) : Forall word_field fields ->
  (forall pre post, record_width (pre ++ map g_as_u64 fields ++ post) d (zlen pre) = Some (zlen fields)) -> Z.of_nat (primary_col d) < zlen fields ->
  shaped d (map g_as_u64 fields).
Proof.
  intros Hw Hr Hp. assert (zlen (map g_as_u64 fields) = zlen fields) as El by (unfold zlen; by rewrite length_map).
  split; [|intros pre post; by rewrite Hr, El|by rewrite El]. apply Forall_map. eapply Forall_impl; [exact Hw|]. intros g Hg. by apply word_field_u64.
Qed.

Lemma shaped_axons d l : d = DAxonsOut \/ d = DAxonsIn -> zlen l < 2 ^ 64 -> shaped d (map g_as_u64 (axons_fields l)).
Proof.
  intros Hd Hl. pose proof (zlen_ge_0 l). apply shaped_fields.
  - apply Forall_app. split; [apply words_scalars|apply words_list].
  - intros pre post. set (v := usize_u64 (length l)). assert (uval v = zlen l) as Ev by (unfold v, usize_u64; apply uval_of_Z_small; simpl; unfold zlen in *; lia).
    assert (map g_as_u64 (axons_fields l) = [of_Z 64 (Z.land v 0xffffffff); of_Z 64 (Z.shiftr v 32)] ++ map g_as_u64 (flat_map bytes32_limbs l)) as ->.
    { unfold axons_fields, scalar_fields. fold v. cbn [flat_map]. by rewrite app_nil_r, map_app, words_of_u64. }
    set (rest := map _ _). destruct (u64_halves v) as (Hlo & Hhi & _).
    set (fields := pre ++ _). assert (get_at fields (zlen pre) = Some (of_Z 64 (Z.land v 0xffffffff))) as G1.
    { exact (get_at_app pre (of_Z 64 (Z.shiftr v 32) :: rest ++ post) _ _ eq_refl). }
    assert (get_at fields (zlen pre + 1) = Some (of_Z 64 (Z.shiftr v 32))) as G2.
    { unfold fields. cbn [app]. rewrite (cons_middle (of_Z 64 (Z.land v 0xffffffff))), app_assoc. apply get_at_app. by rewrite zlen_app. }
    assert (record_width fields d (zlen pre) = Some (Z.lor (Z.land v 0xffffffff) (Z.shiftl (Z.shiftr v 32) 32) * 8 + 2)) as ->.
    { destruct Hd as [->| ->]; unfold record_width; rewrite G1, G2; cbn [mbind option_bind]; by rewrite !try_u32_of by done. }
    rewrite limbs_value, Ev. f_equal.
    unfold axons_fields. rewrite zlen_app. assert (zlen (flat_map bytes32_limbs l) = 8 * zlen l) as ->; [|change (zlen (scalar_fields _)) with 2; lia].
    clear. induction l as [|k l IH]; [done|]. cbn [flat_map]. rewrite zlen_app, IH. change (zlen (bytes32_limbs k)) with 8. change (zlen (k :: l)) with (zlen ([k] ++ l)). rewrite zlen_app. change (zlen [k]) with 1. lia.
  - unfold axons_fields. rewrite zlen_app. change (zlen (scalar_fields _)) with 2. pose proof (zlen_ge_0 (flat_map bytes32_limbs l)). destruct Hd as [->| ->]; cbn; lia.
Qed.

Lemma elem_of_entries {K V} `{TrieKey K} (f : V -> list Goldilocks) (m : gmap K V) e :
  e ∈ entries_of f m <-> exists k v, m !! k = Some v /\ e = (key_bytes k, f v).
Proof.
  unfold entries_of. rewrite list_elem_of_fmap. split.
  - intros ([k v] & -> & Hk%elem_of_btree_iter). by exists k, v.
  - intros (k & v & Hk & ->). exists (k, v). split; [done|]. by apply elem_of_btree_iter.
Qed.

(** The fields of an entry of a dimension. *)
Lemma entry_fields s d e : e ∈ dim_entries s d -> zlen e.2 < 2 ^ 64 -> Forall word_field e.2 /\ shaped d (map g_as_u64 e.2).
Proof.
  intros He Hl. assert (Forall word_field e.2) as Hw.
  { destruct d; cbn [dim_entries] in He; apply elem_of_entries in He as (k & r & _ & ->); cbn [snd];
      unfold particle_fields, axons_fields, neuron_fields, location_fields, coin_fields, card_fields, file_fields, time_fields, signal_fields, balance_fields;
      rewrite ?Forall_app; repeat split; auto using words_scalars, words_bytes32, words_list. }
  split; [done|]. destruct (decide (d = DAxonsOut \/ d = DAxonsIn)) as [Hd|Hd].
  - assert (exists l, e.2 = axons_fields l) as [l El].
    { destruct Hd as [->| ->]; cbn [dim_entries] in He; apply elem_of_entries in He as (k & r & _ & ->); by eexists. }
    rewrite El in *. apply shaped_axons; [done|]. eapply Z.le_lt_trans; [|exact Hl]. unfold axons_fields. rewrite zlen_app. change (zlen (scalar_fields _)) with 2.
    clear. induction l as [|k l IH]; [done|]. cbn [flat_map]. rewrite zlen_app. change (zlen (bytes32_limbs k)) with 8. change (zlen (k :: l)) with (zlen ([k] ++ l)). rewrite zlen_app. change (zlen [k]) with 1. lia.
  - apply shaped_fields; [done| |].
    + intros pre post. destruct d; try tauto; cbn [dim_entries] in He; apply elem_of_entries in He as (k & r & _ & ->); reflexivity.
    + destruct d; try tauto; cbn [dim_entries] in He; apply elem_of_entries in He as (k & r & _ & ->); reflexivity.
Qed.

(** *** Order *)

Lemma sorted_in_order {K V} `{TrieKey K} (f : V -> list u64) d (order : K -> list u8) (l : list (K * V)) previous :
  (forall k, sort_key d (key_bytes k) = Some (order k)) -> (forall a b, ord_ltb a b = true -> ord_ltb (order a) (order b) = true) ->
  StronglySorted entry_le l -> NoDup l.*1 ->
  match previous with Some p => forall e, e ∈ l -> ord_ltb p (order e.1) = true | None => True end ->
  in_order d previous (map (fun e => (key_bytes e.1, f e.2)) l).
Proof.
  intros Hk Ho. revert previous. induction l as [|[k v] l IH]; intros previous Hs Hn Hp; [done|]. cbn [map in_order fst].
  apply StronglySorted_inv in Hs as [Hs Hle]. rewrite fmap_cons in Hn. apply NoDup_cons in Hn as [Hnot Hn].
  exists (order k). split; [apply Hk|]. split; [destruct previous; [|done]; apply (Hp (k, v)); by left|].
  apply IH; [done..|]. intros [k' v'] Hin. apply Ho. cbn [fst]. unfold ord_ltb. apply negb_true_iff, not_true_is_false. intros Hle'.
  rewrite Forall_forall in Hle. specialize (Hle _ Hin). apply Hnot. apply list_elem_of_fmap. exists (k', v'). split; [|done].
  by apply ord_leb_antisym.
Qed.

Lemma time_sort_key h : sort_key DTime (key_bytes_u64 h) = Some (to_be_bytes 8 h ++ repeat (of_Z 8 0) 24).
Proof.
  unfold sort_key. rewrite bool_decide_true by done. unfold key_bytes_u64.
  assert (blist (buffer 32 (blist (to_le_bytes 8 h))) = blist (to_le_bytes 8 h) ++ repeat (of_Z 8 0) 24) as ->.
  { cbn [blist buffer]. rewrite resize_ge by (rewrite length_blist; lia). rewrite length_blist. reflexivity. }
  rewrite drop_app_length', take_app_length' by by rewrite length_blist. rewrite from_to_le_bytes by done. done.
Qed.

Lemma ltb_app (l k m : list u8) : length l = length k -> ord_ltb l k = true -> ord_ltb (l ++ m) (k ++ m) = true.
Proof.
  revert k. induction l as [|x l IH]; intros [|y k] Hl; try done. unfold ord_ltb in *. cbn [app ord_leb list_ordered list_leb] in *.
  injection Hl as Hl. case_decide; [by apply IH|done].
Qed.

Lemma time_order (a b : u64) : ord_ltb a b = true -> ord_ltb (to_be_bytes 8 a ++ repeat (of_Z 8 0) 24) (to_be_bytes 8 b ++ repeat (of_Z 8 0) 24) = true.
Proof.
  intros Hab. apply ltb_app; [by rewrite !length_to_be_bytes|]. unfold ord_ltb in *. apply negb_true_iff in Hab.
  apply negb_true_iff, not_true_is_false. intros Hba. assert (ord_leb a b = true) as Hle by (destruct (ord_leb_total a b); [done|congruence]).
  apply to_be_bytes_mono in Hle. assert (to_be_bytes 8 a = to_be_bytes 8 b) as E by (by apply (ord_leb_antisym (K := list u8))).
  assert (a = b) as ->; [|by rewrite ord_leb_refl in Hab].
  unfold to_be_bytes in E. apply (f_equal (@rev u8)) in E. rewrite !rev_involutive in E. apply (to_le_bytes_inj 8); [done|]. by apply bytes_eq.
Qed.

Lemma dim_in_order s d : in_order d None (rows_of_dim s d) /\ NoDup (rows_of_dim s d).*1.
Proof.
  unfold rows_of_dim. assert (forall (K V : Type) `(TrieKey K) (f : V -> list Goldilocks) (m : gmap K V) (order : K -> list u8),
    (forall k, sort_key d (key_bytes k) = Some (order k)) -> (forall a b, ord_ltb a b = true -> ord_ltb (order a) (order b) = true) ->
    in_order d None (map (fun e => (e.1, map g_as_u64 e.2)) (entries_of f m)) /\ NoDup (map (fun e => (e.1, map g_as_u64 e.2)) (entries_of f m)).*1) as Hentries.
  { intros K V ? ? ? ? f m order Hk Ho. unfold entries_of. rewrite map_map. cbn [fst snd]. split.
    - apply (sorted_in_order (fun v => map g_as_u64 (f v)) d order); [done..|apply btree_iter_sorted|apply NoDup_btree_iter|done].
    - assert ((map (fun e : K * V => (key_bytes e.1, map g_as_u64 (f e.2))) (btree_iter m)).*1 = key_bytes <$> (btree_iter m).*1) as ->.
      { change (map fst (map (fun e : K * V => (key_bytes e.1, map g_as_u64 (f e.2))) (btree_iter m)) = map key_bytes (map fst (btree_iter m))).
        by rewrite !map_map. }
      apply NoDup_fmap; [apply _|apply NoDup_btree_iter]. }
  assert (forall (k : bytes 32), d <> DTime -> sort_key d k = Some (blist k)) as Hbytes by (intros k Hd; unfold sort_key; by rewrite bool_decide_false).
  destruct d; cbn [dim_entries]; try (apply (Hentries _ _ _ _ _ _ _ _ blist); [intros k; by apply Hbytes|done]).
  exact (Hentries _ _ _ _ _ _ _ _ (fun h => to_be_bytes 8 h ++ repeat (of_Z 8 0) 24) time_sort_key time_order).
Qed.

(** ** The table of a dimension *)

Lemma table_count_layout (entries : list (Particle * list Goldilocks)) :
  Z.of_nat (table_count entries) = 3 + zlen (layout (map (fun e => (e.1, map g_as_u64 e.2)) entries)).
Proof.
  unfold table_count. rewrite Nat2Z.inj_add. f_equal. induction entries as [|e entries IH]; [done|]. cbn [map sum_list layout flat_map fst snd].
  unfold layout in IH. rewrite Nat2Z.inj_add, IH, !zlen_app, zlen_limbs.
  assert (zlen (map g_as_u64 e.2) = zlen e.2) as -> by (unfold zlen; by rewrite length_map). unfold zlen. change (Z.of_nat (id (KEY_FIELDS + length e.2)%nat)) with (Z.of_nat (8 + length e.2)). lia.
Qed.

Lemma entry_short (entries : list (Particle * list Goldilocks)) e : e ∈ entries -> 8 + zlen e.2 <= Z.of_nat (table_count entries).
Proof.
  intros He. unfold table_count. rewrite Nat2Z.inj_add. apply list_elem_of_In, (in_map (fun e => (KEY_FIELDS + length e.2)%nat)) in He.
  assert (forall n l, In n l -> (n <= sum_list l)%nat) as Hsum.
  { clear. induction l as [|m l IH]; intros Hn; [done|]. change (sum_list (m :: l)) with (m + sum_list l)%nat. destruct Hn as [->|Hn]; [lia|]. specialize (IH Hn). lia. }
  apply Hsum in He. cbn beta in He. unfold zlen. change HEADER_FIELDS with 3%nat. change KEY_FIELDS with 8%nat in *. lia.
Qed.

Lemma length_short (entries : list (Particle * list Goldilocks)) : zlen entries <= Z.of_nat (table_count entries).
Proof.
  unfold table_count, zlen. rewrite Nat2Z.inj_add. induction entries as [|e entries IH]; [cbn; lia|]. cbn [map length].
  match goal with |- context [sum_list (?n :: ?l)] => change (sum_list (n :: l)) with (n + sum_list l)%nat end. change HEADER_FIELDS with 3%nat in *. change KEY_FIELDS with 8%nat in *. lia.
Qed.

(** Elements below the modulus. *)
Definition canonical_field (g : Goldilocks) : Prop := exists v, uval v < field_P /\ g = g_new v.

Lemma canonical_round g : canonical_field g -> g_new (g_as_u64 g) = g /\ uval (g_as_u64 g) < field_P.
Proof. intros (v & Hv & ->). by rewrite g_as_u64_new. Qed.

Lemma word_canonical_field g : word_field g -> canonical_field g.
Proof. intros (z & Hz & ->). exists (of_Z 64 z). split; [by apply limb_canonical|done]. Qed.

Lemma dim_canonical s d : Z.of_nat (table_count (dim_entries s d)) < field_P -> Forall canonical_field (dim_serialize (dim_entries s d)).
Proof.
  intros Hc. pose proof (length_short (dim_entries s d)) as Hl. unfold dim_serialize, usize_u64. assert (field_P < 2 ^ 64) as HP by done.
  assert (forall z, 0 <= z < field_P -> canonical_field (g_new (of_Z 64 z))) as Hz.
  { intros z Hz. eexists. split; [|done]. rewrite uval_of_Z_small; simpl; lia. }
  apply Forall_app. split.
  - apply Forall_cons. split; [exists TABLE_VERSION; split; [by apply Z.ltb_lt|done]|].
    apply Forall_cons. split; [apply Hz; split; [apply Nat2Z.is_nonneg|exact Hc]|].
    apply Forall_cons. split; [apply Hz; split; [apply Nat2Z.is_nonneg|exact (Z.le_lt_trans _ _ _ Hl Hc)]|by apply Forall_nil].
  - apply Forall_forall. intros g Hg. apply list_elem_of_In, in_flat_map in Hg as (e & He%list_elem_of_In & Hg%list_elem_of_In).
    apply word_canonical_field. apply elem_of_app in Hg as [Hg|Hg].
    + pose proof (words_bytes32 e.1) as Hw. rewrite Forall_forall in Hw. by apply Hw.
    + pose proof (entry_short _ _ He). destruct (entry_fields s d e He) as [Hw _]; [lia|]. rewrite Forall_forall in Hw. by apply Hw.
Qed.

(** The public words of a dimension are its table. *)
Lemma dim_words s d : Z.of_nat (table_count (dim_entries s d)) < field_P ->
  map g_as_u64 (dim_serialize (dim_entries s d)) = table_words (rows_of_dim s d).
Proof.
  intros Hc. pose proof (length_short (dim_entries s d)) as Hl. unfold dim_serialize, table_words, rows_of_dim, usize_u64.
  rewrite map_app. assert (field_P < 2 ^ 64) as HP by done. f_equal.
  - rewrite <- table_count_layout. cbn [map]. unfold zlen in *. rewrite length_map.
    rewrite !g_as_u64_new; [done|..]; rewrite ?uval_of_Z_small; simpl; lia || done.
  - clear Hc Hl. induction (dim_entries s d) as [|e entries IH]; [done|]. cbn [flat_map map layout fst snd]. rewrite !map_app, words_of_key. f_equal. exact IH.
Qed.

Lemma dim_fields s d : Z.of_nat (table_count (dim_entries s d)) < field_P -> map g_new (table_words (rows_of_dim s d)) = dim_serialize (dim_entries s d).
Proof.
  intros Hc. rewrite <- dim_words by done. rewrite map_map. pose proof (dim_canonical s d Hc) as Hf. clear Hc.
  induction Hf as [|g l Hg Hf IH]; [done|]. cbn [map]. rewrite IH. by rewrite (proj1 (canonical_round g Hg)).
Qed.

(** The parser finds the entities of the dimension, each at its primary cell. *)
Lemma dim_primary s d key : Z.of_nat (table_count (dim_entries s d)) < field_P ->
  primary_index (table_words (rows_of_dim s d)) d key = locate (rows_of_dim s d) d key 3 /\ Forall (fun e => shaped d e.2) (rows_of_dim s d).
Proof.
  intros Hc. assert (field_P < 2 ^ 64) as HP by done. assert (Forall (fun e => shaped d e.2) (rows_of_dim s d)) as Hs.
  { unfold rows_of_dim. apply Forall_map, Forall_forall. intros e He. cbn [snd]. pose proof (entry_short _ _ He). apply (entry_fields s d e He). lia. }
  split; [|done]. destruct (dim_in_order s d) as [Ho Hn]. apply primary_index_ok; [done..|].
  pose proof (length_short (dim_entries s d)). unfold zlen, rows_of_dim in *. rewrite length_map. lia.
Qed.

End Rows.
