(* ===== verification/QueryProofs.v ===== *)
(** * Verified queries are true (rs/src/query_auth.rs, certificate.rs)

    A proof that verifies for an entity under the v1 root of a state carries the primary cell of its
    record, unless the hash of the root chain or the commitment of the table collides. *)

From S2P Require Import Prelude.
From S2P Require Import Crypto.
From S2P Require Import Keyed.
From S2P Require Import AxonIndex.
From S2P Require Import Types.
From S2P Require Import Cards.
From S2P Require Import State.
From S2P Require Import Access.
From S2P Require Import Certificate.
From S2P Require Import Query.
From S2P Require Import QueryAuth.
From S2P Require Import QuerySpec.

Local Open Scope Z_scope.

(** ** The v1 root of a state *)

Section V1Root.
  Context `{Nebu, Hemera, !CryptoLaws, !Lens, !LensLaws}.

Definition entries_leaf (entries : list (Particle * list Goldilocks)) : Digest := goldilocks_from_bytes32 (commit_dim entries).

(** The v1 leaves and root of the records of a state. *)
Definition v1_root_leaves (s : BbgState) : RootLeaves :=
  let leaf d := entries_leaf (dim_entries s d) in
  mkRootLeaves [# leaf DParticles; leaf DAxonsOut; leaf DAxonsIn; leaf DNeurons; leaf DLocations; leaf DCoins; leaf DCards; leaf DFiles; leaf DTime; leaf DSignals; leaf DBalances]
    (entries_leaf (commitment_entries s)) (entries_leaf (entries_of (fun _ => [g_one]) (k_map (nullifiers s))))
    (goldilocks_from_bytes32 (stats_commit (statistics s))).

Definition v1_root (s : BbgState) : Particle := root_to_bytes (root_from_leaves (v1_root_leaves s)).

(** Every cached v1 commitment is that of the records. *)
Definition keyed_fresh {K V} `{TrieKey K} (f : V -> list Goldilocks) (k : Keyed K V) : Prop := legacy_ok (fun m => commit_dim (entries_of f m)) k.
Definition axons_fresh (a : AxonIndex) : Prop := forall c, ai_legacy a = Some c -> c = commit_dim (entries_of axons_fields (ai_map a)).

Record Fresh (s : BbgState) : Prop := {
  fr_particles : keyed_fresh particle_fields (particles s);
  fr_axons_out : axons_fresh (axons_out s);
  fr_axons_in : axons_fresh (axons_in s);
  fr_neurons : keyed_fresh neuron_fields (neurons s);
  fr_locations : keyed_fresh location_fields (locations s);
  fr_coins : keyed_fresh coin_fields (coins s);
  fr_cards : keyed_fresh card_fields (records (cards s));
  fr_files : keyed_fresh file_fields (files s);
  fr_time : keyed_fresh time_fields (time s);
  fr_signals : keyed_fresh signal_fields (signals s);
  fr_balances : keyed_fresh balance_fields (balances s);
  fr_commitments : keyed_fresh (fun g => [g]) (commitments s);
  fr_nullifiers : keyed_fresh (fun _ => [g_one]) (nullifiers s);
}.

Lemma digest_limbs_commit l : digest_limbs (brakedown_commit l) = Some (goldilocks_from_bytes32 (brakedown_commit l)).
Proof. unfold digest_limbs. by rewrite brakedown_canonical. Qed.

(** Reading a leaf caches its commitment and nothing else. *)
Lemma v1_leaf_ok {K V} `{TrieKey K} (f : V -> list Goldilocks) (k : Keyed K V) : keyed_fresh f k ->
  exists k', v1_leaf f k = Some (entries_leaf (entries_of f (k_map k)), k') /\ k_map k' = k_map k /\ keyed_fresh f k'.
Proof.
  intros Hf. destruct (keyed_legacy_ok _ _ Hf) as [E Hf']. unfold v1_leaf. destruct (keyed_legacy_commitment k _) as [c k'] eqn:Ek. cbn [fst snd] in *. subst c.
  unfold commit_dim, commit_fields. rewrite digest_limbs_commit. cbn [mbind option_bind]. exists k'. split_and!; [done| |done].
  unfold keyed_legacy_commitment in Ek. by destruct (k_legacy k); simplify_eq.
Qed.

Lemma v1_axon_leaf_ok a : axons_fresh a ->
  exists a', v1_axon_leaf a = Some (entries_leaf (entries_of axons_fields (ai_map a)), a') /\ ai_map a' = ai_map a /\ ai_degrees a' = ai_degrees a /\ axons_fresh a'.
Proof.
  intros Hf. unfold v1_axon_leaf, axon_legacy_commitment. destruct (ai_legacy a) as [c|] eqn:E.
  - rewrite (Hf c E). unfold commit_dim, commit_fields. rewrite digest_limbs_commit. by exists a.
  - unfold commit_dim, commit_fields. rewrite digest_limbs_commit. eexists. split_and!; [done..|]. by intros c [= <-].
Qed.

Lemma v1_cards_leaf_ok c : keyed_fresh card_fields (records c) ->
  exists c', v1_cards_leaf c = Some (entries_leaf (entries_of card_fields (k_map (records c))), c') /\ k_map (records c') = k_map (records c) /\ keyed_fresh card_fields (records c').
Proof.
  intros Hf. destruct (v1_leaf_ok card_fields (records c) Hf) as (k' & E & Hm & Hf'). unfold v1_cards_leaf, cards_legacy_commitment.
  unfold v1_leaf in E. destruct (keyed_legacy_commitment (records c) _) as [h recs] eqn:Ek. cbn [fst snd] in *.
  destruct (digest_limbs h) as [d|]; [|done]. cbn [mbind option_bind] in *. injection E as -> ->. by exists (mkCards k' (by_axon c)).
Qed.

(** The state after a read: the same records, with fresh caches. *)
Record Cached (s s' : BbgState) : Prop := {
  ca_dims : forall d, dim_entries s' d = dim_entries s d;
  ca_leaves : v1_root_leaves s' = v1_root_leaves s;
  ca_version : root_version s' = root_version s;
  ca_fresh : Fresh s';
}.

Ltac next_leaf H :=
  let k := fresh "k" in let E := fresh "E" in destruct H as (k & E & ?);
  cbn [particles axons_out axons_in neurons locations coins cards files time signals balances
    commitments nullifiers set_particles set_axons_out set_axons_in set_neurons set_locations
    set_coins set_cards set_files set_time set_signals set_balances set_commitments set_nullifiers];
  rewrite E; cbn [mbind option_bind]; clear E.

Lemma root_leaves_v1 s : root_version s = V1 -> Fresh s -> exists s', root_leaves s = Some (v1_root_leaves s, s') /\ Cached s s'.
Proof.
  intros Hv Hf. unfold root_leaves. rewrite Hv. unfold v1_leaves.
  next_leaf (v1_leaf_ok _ _ (fr_particles _ Hf)). next_leaf (v1_axon_leaf_ok _ (fr_axons_out _ Hf)). next_leaf (v1_axon_leaf_ok _ (fr_axons_in _ Hf)).
  next_leaf (v1_leaf_ok _ _ (fr_neurons _ Hf)). next_leaf (v1_leaf_ok _ _ (fr_locations _ Hf)). next_leaf (v1_leaf_ok _ _ (fr_coins _ Hf)).
  next_leaf (v1_cards_leaf_ok _ (fr_cards _ Hf)). next_leaf (v1_leaf_ok _ _ (fr_files _ Hf)). next_leaf (v1_leaf_ok _ _ (fr_time _ Hf)).
  next_leaf (v1_leaf_ok _ _ (fr_signals _ Hf)). next_leaf (v1_leaf_ok _ _ (fr_balances _ Hf)). next_leaf (v1_leaf_ok _ _ (fr_commitments _ Hf)).
  next_leaf (v1_leaf_ok _ _ (fr_nullifiers _ Hf)). destruct_and?.
  set (s' := set_nullifiers _ _).
  assert (statistics s' = statistics s) as Est.
  { unfold statistics, klen, max_degree, s'. cbn. repeat match goal with E : _ = _ |- _ => rewrite E; clear E end. done. }
  rewrite Est. unfold digest_limbs. unfold stats_commit. rewrite hemera_hash_canonical. cbn [mbind option_bind]. exists s'. split; [reflexivity|].
  assert (forall d, dim_entries s' d = dim_entries s d) as Hd by (intros []; cbn [dim_entries s']; cbn; congruence).
  split; [done| |done|].
  - unfold v1_root_leaves, stats_commit. rewrite Est, !Hd. unfold commitment_entries. cbn. congruence.
  - split; done.
Qed.

Lemma compute_root_v1 s : root_version s = V1 -> Fresh s -> exists s', compute_root s = Some (v1_root s, s') /\ Cached s s'.
Proof. intros Hv Hf. unfold compute_root. destruct (root_leaves_v1 s Hv Hf) as (s' & -> & Hc). by exists s'. Qed.

End V1Root.

(** ** What a certificate shows *)

Section Sound.
  Context `{Nebu, Hemera, !CryptoLaws, !Lens, !LensLaws, !Openings}.

Lemma ordered_field_leaves leaves : ordered (field_leaves leaves) = map (quad_map g_new) (vec_to_list leaves).
Proof. inv_vec leaves. by intros. Qed.

(** The tables of a valid certificate: their header and words, and their leaves. *)
Record Attested (c : StateCertificate) (table : DimensionTable) : Prop := {
  at_length : exists version entries rest, dt_fields table = version :: of_Z 64 (zlen (dt_fields table)) :: entries :: rest;
  at_size : zlen (dt_fields table) <= MAX_FIELDS;
  at_words : Forall (fun v => uval v < field_P) (dt_fields table);
  at_leaf : exists leaf, vec_to_list (sc_leaves c) !! Z.to_nat (uval (dt_namespace table)) = Some leaf
    /\ Forall (fun v => uval v < field_P) (quad_list leaf)
    /\ blist (commit_fields (map g_new (dt_fields table))) = words_bytes (quad_list leaf);
}.

Lemma existsb_words (l : list u64) : existsb (fun v => field_P <=? uval v) l = false -> Forall (fun v => uval v < field_P) l.
Proof.
  intros He. apply Forall_forall. intros v Hv. apply not_true_iff_false in He. apply Z.nle_gt. intros Hle. apply He, existsb_exists.
  exists v. split; [by apply list_elem_of_In|]. by apply Z.leb_le.
Qed.

Lemma valid_table fields : invalid_table fields = false ->
  (exists version entries rest, fields = version :: of_Z 64 (zlen fields) :: entries :: rest) /\ Forall (fun v => uval v < field_P) fields.
Proof.
  unfold invalid_table. cbn zeta. rewrite orb_false_iff. intros [_ Ht]. destruct fields as [|version [|count [|entries rest]]]; try done.
  rewrite !orb_false_iff, !negb_false_iff in Ht. destruct Ht as [[[[_ Hc%Z.eqb_eq] _] _] Hw]. split; [|by apply existsb_words].
  exists version, entries, rest. by rewrite <- Hc, of_Z_uval.
Qed.

Lemma shape_steps l st st' table : try_fold shape_step st l = Ok st' -> table ∈ l ->
  invalid_table (dt_fields table) = false /\ zlen (dt_fields table) <= MAX_FIELDS - st.2 \/ st.2 < 0.
Proof.
  revert st. induction l as [|t l IH]; intros st E Ht; [by apply not_elem_of_nil in Ht|]. cbn [try_fold] in E.
  destruct (shape_step st t) as [st1|] eqn:E1; [|done]. destruct st as [previous total]. unfold shape_step in E1. cbn [snd].
  destruct (_ || _); [done|]. cbn zeta in E1. destruct (Z.leb_spec (2 ^ 64) (total + zlen (dt_fields t))); [done|].
  destruct (Z.ltb_spec MAX_FIELDS (total + zlen (dt_fields t))); [done|]. destruct (invalid_table (dt_fields t)) eqn:Ei; [done|]. injection E1 as <-.
  pose proof (zlen_ge_0 (dt_fields t)). apply elem_of_cons in Ht as [->|Ht]; [left; split; [done|lia]|].
  destruct (IH _ E Ht) as [[Hi Hl]|Hl]; cbn [snd] in *; [left; split; [done|lia]|lia].
Qed.

Lemma certificate_root_ok c root : certificate_root c = Some (Ok root) ->
  root = quad_map g_as_u64 (root_from_leaves (field_leaves (sc_leaves c))) /\ forall table, table ∈ sc_dimensions c -> Attested c table.
Proof.
  unfold certificate_root. destruct (validate_shape c) as [[]|] eqn:Es; [|done]. destruct (check_tables c (sc_dimensions c)) as [r|] eqn:Et; [|done].
  cbn [mbind option_bind]. destruct r as [[]|]; [|done]. cbn [mbind result_bind]. intros [= <-]. split; [done|]. intros table Hin.
  unfold validate_shape in Es. destruct (_ || _); [done|]. destruct (existsb _ _) eqn:El; [done|]. destruct (11 <? _); [done|].
  destruct (try_fold shape_step (None, 0) (sc_dimensions c)) as [st|] eqn:Ef; [|done].
  destruct (shape_steps _ _ _ _ Ef Hin) as [[Hi Hl]|?]; [|cbn in *; lia]. cbn [snd] in Hl. destruct (valid_table _ Hi) as [Hh Hw].
  assert (check_table c table = Some (Ok tt)) as Ec.
  { clear -Et Hin. induction (sc_dimensions c) as [|t l IH]; [by apply not_elem_of_nil in Hin|]. cbn [check_tables] in Et.
    destruct (check_table c t) as [[[]|]|] eqn:E; try done. apply elem_of_cons in Hin as [->|Hin]; [done|by apply IH]. }
  split; [done|lia|done|]. unfold check_table in Ec. destruct (_ !! _) as [leaf|] eqn:Eleaf; [|done]. cbn [mbind option_bind] in Ec.
  destruct (bool_decide _) eqn:Eb; [|done]. apply bool_decide_eq_true in Eb. exists leaf. split_and!; [done| |done].
  apply existsb_words. apply not_true_iff_false. intros He. apply not_true_iff_false in El. apply El, existsb_exists. exists leaf. split; [|done].
  apply list_elem_of_In. by eapply list_elem_of_lookup_2.
Qed.

(** What [authenticated] checks. *)
Record Authentic (proof : QueryProof) (root : Particle) (context : QueryContext) (table : DimensionTable) (value : u64) : Prop := {
  au_context : qp_context proof = Some context;
  au_tables : sc_dimensions (qc_certificate context) = [table];
  au_namespace : dt_namespace table = qc_namespace context;
  au_public : uval (qc_namespace context) <= 10;
  au_root : exists r, root_fields root = Some r /\ certificate_root (qc_certificate context) = Some (Ok r);
  au_cell : get_at (dt_fields table) (uval (qc_index context)) = Some value;
  au_bytes : qp_value_bytes proof = blist (to_le_bytes 8 value);
}.

Lemma authenticated_ok proof root : authenticated proof (Some root) = Some true -> exists context table value, Authentic proof root context table value.
Proof.
  unfold authenticated, or_refuse. destruct (qp_context proof) as [context|] eqn:Ec; [|done]. destruct (_ || _) eqn:Ev; [done|].
  apply orb_false_iff in Ev as [_ Hns%Z.ltb_ge]. destruct (sc_dimensions _) as [|table []] eqn:Et; try done.
  destruct (_ || _) eqn:En; [done|]. apply orb_false_iff in En as [Hn%negb_false_iff%bool_decide_eq_true _].
  destruct (certificate_root _) as [[actual|]|] eqn:Er; try done. cbn [mbind option_bind]. destruct (root_fields root) as [r|] eqn:Ef; [|done].
  destruct (bool_decide (actual = r)) eqn:Ea; [|done]. apply bool_decide_eq_true in Ea. subst r.
  destruct (get_at _ _) as [value|] eqn:Eg; [|done]. destruct (negb (bool_decide (qp_value_bytes proof = _))) eqn:Eb; [done|].
  apply negb_false_iff, bool_decide_eq_true in Eb. intros _. exists context, table, value. split; try done. by exists actual.
Qed.

(** *** Words and bytes *)

Lemma words_of_digest (b : bytes 32) : words_bytes [limb64 b 0; limb64 b 1; limb64 b 2; limb64 b 3] = blist b.
Proof.
  unfold words_bytes. cbn [flat_map]. assert (forall i, (i < 4)%nat -> blist (to_le_bytes 8 (limb64 b i)) = take 8 (drop (i * 8) (blist b))) as Hl.
  { intros i Hi. unfold limb64. set (c := take 8 (drop (i * 8) (blist b))). assert (length c = 8%nat) as Hc by (unfold c; rewrite length_take, length_drop, length_blist; lia).
    rewrite <- (blist_buffer 8 c Hc). by rewrite to_from_le_bytes. }
  rewrite !Hl by lia. rewrite app_nil_r. assert (length (blist b) = 32%nat) as Hk by apply length_blist. generalize dependent (blist b). clear. intros l _ Hl.
  do 33 (destruct l as [|? l]; [done|]). done.
Qed.

Lemma words_bytes_inj l k : length l = length k -> words_bytes l = words_bytes k -> l = k.
Proof.
  revert k. induction l as [|v l IH]; intros [|w k] Hl E; try done. cbn [words_bytes flat_map] in E. injection Hl as Hl.
  apply app_inj_1 in E as [Ev E]; [|by rewrite !length_blist]. apply bytes_eq, (to_le_bytes_inj 8) in Ev; [|done]. by rewrite Ev, (IH k).
Qed.

Lemma root_fields_ok root r : root_fields root = Some r -> words_bytes (quad_list r) = blist root.
Proof. unfold root_fields. destruct (forallb _ _); [|done]. intros [= <-]. apply words_of_digest. Qed.

Lemma quad_words (q : Digest) : blist (root_to_bytes q) = words_bytes (quad_list (quad_map g_as_u64 q)).
Proof. rewrite root_to_bytes_list. by destruct q. Qed.

(** *** Tables *)

Definition padded (l : list Goldilocks) : list Goldilocks := resize (next_power_of_two (length l)) g_zero l.

Lemma power_above n : (n <= next_power_of_two n)%nat.
Proof.
  unfold next_power_of_two. destruct n as [|[|n]]; [lia|simpl; lia|]. apply Nat.log2_up_spec. lia.
Qed.

Lemma padded_app l : exists rest, padded l = l ++ rest.
Proof. unfold padded. rewrite resize_ge by apply power_above. by eexists. Qed.

(** Two tables of different words with one commitment. *)
Definition table_collision (l k : list Goldilocks) : Prop := padded l <> padded k /\ commit_fields l = commit_fields k.

Lemma commit_table fields (entries : list (Particle * list Goldilocks)) version count rest :
  fields = version :: of_Z 64 (zlen fields) :: count :: rest -> zlen fields < field_P -> Z.of_nat (table_count entries) < field_P ->
  Z.of_nat (length (dim_serialize entries)) = Z.of_nat (table_count entries) ->
  commit_fields (map g_new fields) = commit_dim entries ->
  map g_new fields = dim_serialize entries \/ table_collision (map g_new fields) (dim_serialize entries).
Proof.
  intros Ef Hl Hc Hlen E. destruct (decide (padded (map g_new fields) = padded (dim_serialize entries))) as [Ep|Hne]; [left|right; by split].
  destruct (padded_app (map g_new fields)) as [r1 E1], (padded_app (dim_serialize entries)) as [r2 E2]. rewrite E1, E2 in Ep.
  assert (zlen fields = Z.of_nat (table_count entries)) as Ez.
  { pose proof Ep as Ep2. rewrite Ef in Ep2. unfold dim_serialize in Ep2. cbn [map app] in Ep2. injection Ep2 as _ Ec _ _.
    assert (field_P < 2 ^ 64) as HP by done. pose proof (zlen_ge_0 fields). unfold usize_u64 in Ec. apply g_new_inj in Ec; [|rewrite uval_of_Z_small; simpl; lia..].
    apply (f_equal uval) in Ec. rewrite !uval_of_Z_small in Ec by (simpl; lia). exact Ec. }
  apply app_inj_1 in Ep as [Ep _]; [done|]. rewrite length_map. unfold zlen in Ez. lia.
Qed.

Lemma length_dim_serialize (entries : list (Particle * list Goldilocks)) : length (dim_serialize entries) = table_count entries.
Proof.
  unfold dim_serialize, table_count. rewrite length_app. cbn [length]. f_equal. induction entries as [|e entries IH]; [done|].
  cbn [flat_map map]. rewrite !length_app, IH. change (sum_list (?n :: ?l)) with (n + sum_list l)%nat. rewrite length_bytes32_limbs. done.
Qed.

(** The collision of one of the two hashes behind a root and its tables. *)
Definition broken (s : BbgState) (context : QueryContext) (d : Dim) : Prop :=
  collision_in (root_queries (field_leaves (sc_leaves (qc_certificate context))) ++ root_queries (v1_root_leaves s))
  \/ exists table, sc_dimensions (qc_certificate context) = [table] /\ table_collision (map g_new (dt_fields table)) (dim_serialize (dim_entries s d)).

Lemma leaf_of_dim s d : ordered (v1_root_leaves s) !! Z.to_nat (dim_index d) = Some (entries_leaf (dim_entries s d)).
Proof. by destruct d. Qed.

Lemma words_round (l : list u64) : Forall (fun v => uval v < field_P) l -> map (fun v => g_as_u64 (g_new v)) l = l.
Proof. induction 1 as [|v l Hv _ IH]; [done|]. cbn [map]. by rewrite IH, g_as_u64_new. Qed.

(** A table that verifies under the v1 root of a state is the table of its dimension. *)
Lemma authentic_table proof s d context table value :
  Z.of_nat (table_count (dim_entries s d)) < field_P -> Authentic proof (v1_root s) context table value -> uval (qc_namespace context) = dim_index d ->
  dt_fields table = table_words (rows_of_dim s d) \/ broken s context d.
Proof.
  intros Hc [Hctx Htab Hns Hpub (r & Hr & Hroot) Hcell Hbytes] Hd. apply certificate_root_ok in Hroot as [-> Hatt].
  apply root_fields_ok in Hr. unfold v1_root in Hr. rewrite <- quad_words in Hr. apply (bytes_eq (root_to_bytes _)) in Hr.
  set (Q := root_queries (field_leaves (sc_leaves (qc_certificate context))) ++ root_queries (v1_root_leaves s)).
  destruct (root_bytes_bind Q (field_leaves (sc_leaves (qc_certificate context))) (v1_root_leaves s) ltac:(intros x Hx; apply elem_of_app; left; exact Hx) ltac:(intros x Hx; apply elem_of_app; right; exact Hx) Hr) as [El|?]; [|right; by left].
  destruct (Hatt table) as [(version & count & rest & Ef) Hsize Hw (leaf & Eleaf & Hleaf & Ecommit)]; [rewrite Htab; by left|].
  assert (quad_map g_new leaf = entries_leaf (dim_entries s d)) as Eq.
  { pose proof (leaf_of_dim s d) as Ed. rewrite <- El, ordered_field_leaves, <- Hd, <- Hns in Ed.
    change (map ?f ?l) with (f <$> l) in Ed. rewrite list_lookup_fmap, Eleaf in Ed. exact (Some_inj _ _ Ed). }
  set (c := commit_dim (dim_entries s d)) in *. assert (commit_fields (map g_new (dt_fields table)) = c) as Ec.
  { apply bytes_eq. rewrite Ecommit, <- (words_of_digest c). f_equal. unfold entries_leaf in Eq. fold c in Eq.
    assert (canonical_digest c = true) as Hcan by apply brakedown_canonical. unfold canonical_digest in Hcan. cbn [seq forallb] in Hcan.
    rewrite !andb_true_iff, !Z.ltb_lt in Hcan. destruct leaf as [a b e f]. cbn [quad_list q0 q1 q2 q3] in *.
    repeat (apply Forall_cons in Hleaf as [? Hleaf]). destruct_and!. unfold quad_map, goldilocks_from_bytes32 in Eq. cbn [q0 q1 q2 q3] in Eq. injection Eq as Ea Eb Ee Eff.
    apply g_new_inj in Ea, Eb, Ee, Eff; [by rewrite Ea, Eb, Ee, Eff|assumption..]. }
  assert (MAX_FIELDS < field_P) as HM by done.
  destruct (commit_table (dt_fields table) (dim_entries s d) version count rest Ef ltac:(lia) Hc ltac:(by rewrite length_dim_serialize) Ec) as [E|?]; [left|right; right; by exists table].
  rewrite <- dim_words, <- E, map_map by done. by rewrite words_round.
Qed.

(** The primary cell of a record of a dimension, as a proof carries it. *)
Definition primary_cell (s : BbgState) (d : Dim) (key : Particle) (value_bytes : list u8) : Prop :=
  exists values v, (key, values) ∈ dim_entries s d /\ values !! primary_col d = Some v /\ value_bytes = blist (to_le_bytes 8 (g_as_u64 v)).

(** What the parser finds is the primary cell, and the cells of the record after it. *)
Lemma primary_found s d key i : Z.of_nat (table_count (dim_entries s d)) < field_P ->
  primary_index (table_words (rows_of_dim s d)) d key = Some i ->
  exists values, (key, values) ∈ dim_entries s d
    /\ forall n g, values !! (primary_col d + n)%nat = Some g -> get_at (table_words (rows_of_dim s d)) (i + Z.of_nat n) = Some (g_as_u64 g).
Proof.
  intros Hc E. destruct (dim_primary s d key Hc) as [Ep Hs]. rewrite Ep in E.
  set (header := [TABLE_VERSION; of_Z 64 (3 + zlen (layout (rows_of_dim s d))); of_Z 64 (zlen (rows_of_dim s d))]).
  destruct (locate_cell d key (rows_of_dim s d) header i Hs E) as (ws & v & Hin & _ & _ & Hn). unfold rows_of_dim in Hin at 1.
  apply list_elem_of_fmap in Hin as ([k values] & [= -> ->] & Hin). cbn [fst snd] in *. exists values. split; [done|]. intros n g Hg. apply Hn.
  change (map ?f ?l) with (f <$> l). by rewrite list_lookup_fmap, Hg.
Qed.

(** Every record of a dimension has its primary cell. *)
Lemma primary_present s d key values : Z.of_nat (table_count (dim_entries s d)) < field_P -> (key, values) ∈ dim_entries s d ->
  exists g, values !! primary_col d = Some g.
Proof.
  intros Hc Hin. apply lookup_lt_is_Some_2. destruct (dim_primary s d key Hc) as [_ Hs]. rewrite Forall_forall in Hs.
  assert ((key, map g_as_u64 values) ∈ rows_of_dim s d) as Hr by (unfold rows_of_dim; apply list_elem_of_fmap; by exists (key, values)).
  pose proof (sh_primary _ _ (Hs _ Hr)) as Hp. unfold zlen in Hp. cbn [snd] in Hp. rewrite length_map in Hp. lia.
Qed.

(** The table and the cell of a verified entity. *)
Lemma verified_table s s' root proof d key :
  root_version s = V1 -> Fresh s -> compute_root s = Some (root, s') -> Z.of_nat (table_count (dim_entries s d)) < field_P ->
  verify_entity proof root d key = Some true ->
  (exists context table value, Authentic proof root context table value /\ dt_fields table = table_words (rows_of_dim s d)
     /\ primary_index (dt_fields table) d key = Some (uval (qc_index context)))
  \/ exists context, qp_context proof = Some context /\ broken s context d.
Proof.
  intros Hv Hf Hroot Hc Hverify. destruct (compute_root_v1 s Hv Hf) as (s2 & E & _). rewrite E in Hroot. injection Hroot as <- _.
  unfold verify_entity in Hverify. destruct (authenticated proof _) as [[]|] eqn:Ea; try done. cbn [mbind option_bind] in Hverify.
  destruct (authenticated_ok _ _ Ea) as (context & table & value & Hau). unfold claims_entity in Hverify. rewrite (au_context _ _ _ _ _ Hau) in Hverify.
  cbn [mbind option_bind] in Hverify. destruct (uval (qc_namespace context) =? dim_index d) eqn:Ed; [|done]. apply Z.eqb_eq in Ed. cbn [negb] in Hverify.
  rewrite (au_tables _ _ _ _ _ Hau) in Hverify. cbn in Hverify. unfold or_refuse in Hverify.
  destruct (authentic_table _ _ _ _ _ _ Hc Hau Ed) as [Et|Hb]; [left|right; exists context; split; [apply Hau|done]].
  exists context, table, value. split_and!; [done..|]. destruct (primary_index _ d key) as [i|] eqn:Ei; [|done].
  injection Hverify as Hi%Z.eqb_eq. by rewrite Hi.
Qed.

(** C8: a verified query is true. When a proof verifies for an entity of a dimension under the root of
    a state of the v1 derivation, the value it carries is the primary cell of the record the state
    holds for the entity: or the compressions of the two root chains collide, or two different
    tables have one commitment. *)
Theorem verified_entity_true s s' root proof d key :
  root_version s = V1 -> Fresh s -> compute_root s = Some (root, s') -> Z.of_nat (table_count (dim_entries s d)) < field_P ->
  verify_entity proof root d key = Some true ->
  primary_cell s d key (qp_value_bytes proof) \/ exists context, qp_context proof = Some context /\ broken s context d.
Proof.
  intros Hv Hf Hroot Hc Hverify. destruct (verified_table s s' root proof d key Hv Hf Hroot Hc Hverify) as [(context & table & value & Hau & Et & Ei)|?]; [left|by right].
  rewrite Et in Ei. destruct (primary_found s d key _ Hc Ei) as (values & Hin & Hn). exists values.
  pose proof (au_cell _ _ _ _ _ Hau) as Hcell. rewrite Et in Hcell. pose proof (au_bytes _ _ _ _ _ Hau) as Hbytes.
  destruct (primary_present s d key values Hc Hin) as [g Hg].
  exists g. split_and!; [done..|]. specialize (Hn 0%nat g). rewrite Nat.add_0_r, Z.add_0_r in Hn. rewrite (Hn Hg) in Hcell. injection Hcell as <-. exact Hbytes.
Qed.

(** A verified public balance is the balance of the account in the state under the trusted root,
    or a hash is broken. *)
Theorem verified_balance_true s s' root proof owner token b :
  root_version s = V1 -> Fresh s -> compute_root s = Some (root, s') -> Z.of_nat (table_count (dim_entries s DBalances)) < field_P ->
  verify_public_balance proof root owner token = Some (Some b) ->
  k_map (balances s) !! balance_key owner token = Some b \/ exists context, qp_context proof = Some context /\ broken s context DBalances.
Proof.
  intros Hv Hf Hroot Hc Hverify. unfold verify_public_balance in Hverify. destruct (verify_entity _ _ _ _) as [[]|] eqn:Ee; try done.
  destruct (verified_table s s' root proof DBalances _ Hv Hf Hroot Hc Ee) as [(context & table & value & Hau & Et & Ei)|?]; [left|by right].
  cbn [mbind option_bind negb] in Hverify. rewrite (au_context _ _ _ _ _ Hau) in Hverify. cbn [mbind option_bind] in Hverify. rewrite (au_tables _ _ _ _ _ Hau) in Hverify.
  cbn [lookup list_lookup mbind option_bind] in Hverify. rewrite Et in Ei, Hverify. destruct (primary_found s DBalances _ _ Hc Ei) as (values & Hin & Hn).
  cbn [dim_entries] in Hin. apply elem_of_entries in Hin as (k & b' & Hk & [= -> ->]). destruct (u64_halves b') as (Hlo & Hhi & _).
  pose proof (Hn 0%nat _ eq_refl) as H0'. pose proof (Hn 1%nat _ eq_refl) as H1'. rewrite Z.add_0_r in H0'. change (Z.of_nat 1) with 1 in H1'.
  rewrite H0', H1' in Hverify. cbn [mbind option_bind] in Hverify. rewrite !word_canonical in Hverify by done. rewrite !try_u32_of in Hverify by done.
  cbn [mbind option_bind] in Hverify. rewrite limbs_value, of_Z_uval in Hverify. by injection Hverify as <-.
Qed.

End Sound.

(** ** Examples *)

Section Witnesses.
Import Toy QueryToy.

Lemma fresh_state : Fresh QueryToy.state.
Proof. split; intros c E; vm_compute in E; discriminate E. Qed.

(** A proof and a root that pass a check. *)
Lemma checked {X} `{EqDecision X} (q : option (option QueryProof * BbgState)) (c : option (Particle * BbgState)) (check : QueryProof -> Particle -> X) x :
  match q, c with Some (Some p, _), Some (root, _) => bool_decide (check p root = x) | _, _ => false end = true ->
  exists proof root s', c = Some (root, s') /\ check proof root = x.
Proof. destruct q as [[[p|] s1]|], c as [[root s2]|]; try done. intros E%bool_decide_eq_true. by exists p, root, s2. Qed.

Lemma toy_entity : exists proof root s', compute_root QueryToy.state = Some (root, s') /\ verify_entity proof root DNeurons (id32 1) = Some true.
Proof. apply (checked (bbg_query QueryToy.state DNeurons (id32 1)) _ (fun proof root => verify_entity proof root DNeurons (id32 1))). vm_compute. reflexivity. Qed.

Lemma toy_balance : exists proof root s', compute_root QueryToy.state = Some (root, s') /\ verify_public_balance proof root (id32 1) (id32 2) = Some (Some (of_Z 64 1000)).
Proof. apply (checked (prove_public_balance QueryToy.state (id32 1) (id32 2)) _ (fun proof root => verify_public_balance proof root (id32 1) (id32 2))). vm_compute. reflexivity. Qed.

Lemma query_limit : MAX_QUERY_FIELDS < field_P.
Proof. by apply Z.ltb_lt. Qed.

Lemma small_table d : Z.of_nat (table_count (dim_entries QueryToy.state d)) <= MAX_QUERY_FIELDS.
Proof. destruct d; apply Z.leb_le; vm_compute; reflexivity. Qed.

Lemma verified_entity_true_witness : exists proof root s', compute_root QueryToy.state = Some (root, s')
  /\ (primary_cell QueryToy.state DNeurons (id32 1) (qp_value_bytes proof) \/ exists context, qp_context proof = Some context /\ broken QueryToy.state context DNeurons).
Proof.
  destruct toy_entity as (proof & root & s' & Hr & Hv). exists proof, root, s'.
  exact (conj Hr (verified_entity_true QueryToy.state s' root proof DNeurons (id32 1) eq_refl fresh_state Hr (Z.le_lt_trans _ _ _ (small_table DNeurons) query_limit) Hv)).
Defined.

Lemma verified_balance_true_witness : exists proof root s', compute_root QueryToy.state = Some (root, s')
  /\ (k_map (balances QueryToy.state) !! balance_key (id32 1) (id32 2) = Some (of_Z 64 1000) \/ exists context, qp_context proof = Some context /\ broken QueryToy.state context DBalances).
Proof.
  destruct toy_balance as (proof & root & s' & Hr & Hv). exists proof, root, s'.
  exact (conj Hr (verified_balance_true QueryToy.state s' root proof (id32 1) (id32 2) (of_Z 64 1000) eq_refl fresh_state Hr (Z.le_lt_trans _ _ _ (small_table DBalances) query_limit) Hv)).
Defined.

End Witnesses.
