(* ===== verification/QueryComplete.v ===== *)
(** * Queries of a state verify (rs/src/proof.rs, certificate.rs)

    Reading a record of a public dimension under the v1 derivation makes a certificate and an opening
    that verify for the entity under the root of the state. *)

From S2P Require Import Prelude.
From S2P Require Import Crypto.
From S2P Require Import Keyed.
From S2P Require Import AxonIndex.
From S2P Require Import Types.
From S2P Require Import Cards.
From S2P Require Import State.
From S2P Require Import Access.
From S2P Require Import Certificate.
From S2P Require Import Query.
From S2P Require Import QueryAuth.
From S2P Require Import QuerySpec.
From S2P Require Import QueryProofs.

Local Open Scope Z_scope.

(** Brakedown is complete at the corners of the hypercube, and nebu's one is the element 1. *)
Class OpeningLaws `{Nebu, !Lens, !Openings} : Prop := {
  g_one_new : g_one = g_new (of_Z 64 1);
  lens_complete n evals idx v seed : length evals = (2 ^ n)%nat -> evals !! idx = Some v ->
    lens_verify (brakedown_commit evals) (corner_point idx n) v (lens_open evals (corner_point idx n) seed) seed = true;
}.

Section Complete.
  Context `{Nebu, Hemera, !CryptoLaws, !Lens, !LensLaws, !Openings, !OpeningLaws}.

(** ** Leaves *)

Definition canonical_digit (q : Digest) : Prop := Forall canonical_field (quad_list q).

Lemma digest_canonical (b : bytes 32) : canonical_digest b = true -> canonical_digit (goldilocks_from_bytes32 b).
Proof.
  intros Hc. unfold canonical_digest in Hc. cbn [seq forallb] in Hc. rewrite !andb_true_iff, !Z.ltb_lt in Hc. destruct_and!.
  unfold canonical_digit, goldilocks_from_bytes32. cbn [quad_list q0 q1 q2 q3]. repeat (apply Forall_cons; split; [eexists; split; [|reflexivity]; assumption|]). by apply Forall_nil.
Qed.

Lemma leaves_canonical s : Forall canonical_digit (ordered (v1_root_leaves s)).
Proof.
  assert (forall entries, canonical_digit (entries_leaf entries)) as Hl by (intros entries; apply digest_canonical, brakedown_canonical).
  unfold ordered, v1_root_leaves. cbn [dims leaf_a leaf_n leaf_stats]. cbn [vec_to_list app]. repeat (apply Forall_cons; split; [first [apply Hl|apply digest_canonical, hemera_hash_canonical]|]). by apply Forall_nil.
Qed.

Lemma quad_round q : canonical_digit q -> quad_map g_new (quad_map g_as_u64 q) = q.
Proof.
  destruct q as [a b c d]. unfold canonical_digit. cbn [quad_list q0 q1 q2 q3]. intros Hq. apply Forall_cons in Hq as [Ha [Hb [Hc [Hd _]%Forall_cons]%Forall_cons]%Forall_cons].
  unfold quad_map. cbn [q0 q1 q2 q3] in *. by rewrite (proj1 (canonical_round _ Ha)), (proj1 (canonical_round _ Hb)), (proj1 (canonical_round _ Hc)), (proj1 (canonical_round _ Hd)).
Qed.

Lemma leaf_words_list l : vec_to_list (leaf_words l) = map (quad_map g_as_u64) (ordered l).
Proof. unfold leaf_words. rewrite vec_to_list_map, vec_to_list_app. done. Qed.

Lemma field_leaf_words s : field_leaves (leaf_words (v1_root_leaves s)) = v1_root_leaves s.
Proof.
  apply RootLeaves_eq. rewrite ordered_field_leaves, leaf_words_list, map_map.
  induction (leaves_canonical s) as [|q l Hq _ IH]; [done|]. cbn [map]. by rewrite IH, quad_round.
Qed.

(** ** The certificate *)

Lemma layout_bound rows : 8 * zlen rows <= zlen (layout rows).
Proof.
  induction rows as [|[k ws] rows IH]; [done|]. change (layout ((k, ws) :: rows)) with ((key_limbs k ++ ws) ++ layout rows). rewrite !zlen_app, zlen_limbs.
  change (zlen ((k, ws) :: rows)) with (zlen ([(k, ws)] ++ rows)). rewrite zlen_app. change (zlen [(k, ws)]) with 1. pose proof (zlen_ge_0 ws). lia.
Qed.

Lemma table_valid s d : Z.of_nat (table_count (dim_entries s d)) <= MAX_FIELDS -> invalid_table (table_words (rows_of_dim s d)) = false.
Proof.
  intros Hc. assert (MAX_FIELDS < field_P) as HM by done. assert (MAX_FIELDS < 2 ^ 64) as HM2 by done.
  rewrite table_count_layout in Hc. fold (rows_of_dim s d) in Hc. set (rows := rows_of_dim s d) in *. pose proof (layout_bound rows) as Hb.
  pose proof (zlen_ge_0 rows) as Hr. pose proof (zlen_ge_0 (layout rows)) as Hl.
  assert (zlen (table_words rows) = 3 + zlen (layout rows)) as En by (unfold table_words; by rewrite zlen_app).
  unfold invalid_table. cbn zeta. rewrite En. change (Z.of_nat HEADER_FIELDS) with 3. change (Z.of_nat KEY_FIELDS) with 8.
  unfold table_words at 1. cbn [app]. rewrite bool_decide_true by done. rewrite !uval_of_Z_small by (simpl; lia). cbn [negb orb].
  rewrite Z.eqb_refl. cbn [negb orb]. rewrite !orb_false_iff. split_and!.
  - apply Z.ltb_ge. lia.
  - apply Z.ltb_ge. replace (3 + zlen (layout rows) - 3) with (zlen (layout rows)) by lia. apply Z.div_le_lower_bound; lia.
  - apply andb_false_iff. destruct (Z.eqb_spec (zlen rows) 0) as [E|]; [right|by left].
    apply negb_false_iff, Z.eqb_eq. assert (rows = []) as -> by (apply length_zero_iff_nil; unfold zlen in E; lia). done.
  - apply not_true_is_false. intros (v & Hv%list_elem_of_In & Hle%Z.leb_le)%existsb_exists.
    change (v ∈ table_words rows) in Hv. assert (Z.of_nat (table_count (dim_entries s d)) < field_P) as Hc' by (rewrite table_count_layout; fold (rows_of_dim s d); fold rows; lia).
    unfold rows in Hv. rewrite <- (dim_words s d Hc') in Hv. apply list_elem_of_fmap in Hv as (g & -> & Hg).
    pose proof (dim_canonical s d Hc') as Hcan. rewrite Forall_forall in Hcan. destruct (canonical_round g (Hcan g Hg)) as [_ Hlt]. lia.
Qed.

(** The certificate of one dimension of a state. *)
Definition dim_certificate (s : BbgState) (d : Dim) : StateCertificate :=
  mkStateCertificate CERTIFICATE_VERSION COMMITMENT_VERSION (leaf_words (v1_root_leaves s))
    [mkDimensionTable (of_Z 64 (dim_index d)) (table_words (rows_of_dim s d))].

Lemma dim_index_u64 d : uval (of_Z 64 (dim_index d)) = dim_index d /\ dim_index d <= 10.
Proof. by destruct d. Qed.

Lemma leaf_of_certificate s d : exists leaf, vec_to_list (sc_leaves (dim_certificate s d)) !! Z.to_nat (dim_index d) = Some leaf
  /\ words_bytes (quad_list leaf) = blist (commit_dim (dim_entries s d)).
Proof.
  exists (quad_map g_as_u64 (entries_leaf (dim_entries s d))). split.
  { cbn [sc_leaves dim_certificate]. rewrite leaf_words_list. etransitivity; [apply list_lookup_fmap|].
    exact (f_equal (fmap (M := option) (quad_map g_as_u64)) (leaf_of_dim s d)). }
  set (c := commit_dim (dim_entries s d)). rewrite <- (words_of_digest c). f_equal. unfold entries_leaf. fold c.
  assert (canonical_digest c = true) as Hcan by apply brakedown_canonical. unfold canonical_digest in Hcan. cbn [seq forallb] in Hcan.
  rewrite !andb_true_iff, !Z.ltb_lt in Hcan. destruct_and!. unfold quad_map, goldilocks_from_bytes32. cbn [quad_list q0 q1 q2 q3]. by rewrite !g_as_u64_new.
Qed.

Lemma certificate_root_complete s d : Z.of_nat (table_count (dim_entries s d)) <= MAX_FIELDS ->
  certificate_root (dim_certificate s d) = Some (Ok (quad_map g_as_u64 (root_from_leaves (v1_root_leaves s)))).
Proof.
  intros Hc. assert (MAX_FIELDS < field_P) as HM by done. destruct (dim_index_u64 d) as [Ed Hd]. unfold certificate_root.
  assert (validate_shape (dim_certificate s d) = Ok tt) as ->.
  { unfold validate_shape. cbn [sc_version sc_lens_version sc_leaves sc_dimensions dim_certificate]. rewrite !bool_decide_true by done. cbn [negb orb].
    rewrite leaf_words_list. assert (existsb (fun leaf => existsb (fun v => field_P <=? uval v) (quad_list leaf)) (map (quad_map g_as_u64) (ordered (v1_root_leaves s))) = false) as ->.
    { apply not_true_is_false. intros (leaf & Hin%list_elem_of_In & He)%existsb_exists. apply list_elem_of_fmap in Hin as (q & -> & Hq).
      pose proof (leaves_canonical s) as Hcan. rewrite Forall_forall in Hcan. specialize (Hcan q Hq). apply existsb_exists in He as (v & Hv%list_elem_of_In & Hle%Z.leb_le).
      assert (quad_list (quad_map g_as_u64 q) = map g_as_u64 (quad_list q)) as Eq by (by destruct q). rewrite Eq in Hv.
      apply list_elem_of_fmap in Hv as (g & -> & Hg).
      unfold canonical_digit in Hcan. rewrite Forall_forall in Hcan. destruct (canonical_round g (Hcan g Hg)). lia. }
    change (11 <? zlen [mkDimensionTable (of_Z 64 (dim_index d)) (table_words (rows_of_dim s d))]) with false. cbn [try_fold]. unfold shape_step. cbn [dt_namespace dt_fields].
    rewrite Ed, (proj2 (Z.ltb_ge _ _)) by done. cbn [orb].
    assert (zlen (table_words (rows_of_dim s d)) = Z.of_nat (table_count (dim_entries s d))) as El by (unfold table_words; rewrite zlen_app, table_count_layout; done).
    rewrite El, Z.add_0_l. rewrite (proj2 (Z.leb_gt _ _)) by (assert (MAX_FIELDS < 2 ^ 64) by done; lia). rewrite (proj2 (Z.ltb_ge _ _)) by done. by rewrite table_valid. }
  cbn [sc_dimensions dim_certificate check_tables]. unfold check_table. cbn [dt_namespace dt_fields]. rewrite Ed.
  destruct (leaf_of_certificate s d) as (leaf & Hleaf & Hw). fold (dim_certificate s d). rewrite Hleaf. cbn [mbind option_bind]. rewrite Hw, dim_fields by lia.
  rewrite bool_decide_true by done. cbn [mbind option_bind result_bind]. cbn [sc_leaves dim_certificate]. by rewrite field_leaf_words.
Qed.

Lemma certificate_complete s d : root_version s = V1 -> Fresh s -> Z.of_nat (table_count (dim_entries s d)) <= MAX_FIELDS ->
  exists s', certificate_from_state s [of_Z 64 (dim_index d)] = Some (Ok (dim_certificate s d), s') /\ Cached s s'.
Proof.
  intros Hv Hf Hc. destruct (dim_index_u64 d) as [Ed Hd]. unfold certificate_from_state. change (11 <? zlen [of_Z 64 (dim_index d)]) with false.
  cbn [existsb]. rewrite Ed, (proj2 (Z.ltb_ge _ _)) by done. cbn [orb]. change (merge_sort u64_le [of_Z 64 (dim_index d)]) with [of_Z 64 (dim_index d)].
  cbn [adjacent_equal dimension_tables]. assert (dim_from_u64 (of_Z 64 (dim_index d)) = Some d) as -> by by destruct d. cbn [mbind option_bind]. rewrite Z.add_0_l.
  rewrite (proj2 (Z.leb_gt _ _)) by (assert (MAX_FIELDS < 2 ^ 64) by done; lia). rewrite (proj2 (Z.ltb_ge _ _)) by done. cbn [mbind result_bind].
  destruct (root_leaves_v1 s Hv Hf) as (s1 & -> & Hc1). cbn [mbind option_bind]. assert (MAX_FIELDS < field_P) as HM by done. rewrite dim_words by lia.
  fold (dim_certificate s d). rewrite certificate_root_complete by done. cbn [mbind option_bind].
  destruct (compute_root_v1 s1) as (s2 & -> & Hc2); [by rewrite (ca_version _ _ Hc1)|apply Hc1|]. cbn [mbind option_bind].
  unfold v1_root. rewrite (ca_leaves _ _ Hc1), quad_words, bool_decide_true by done. exists s2. split; [done|]. destruct Hc1 as [A1 A2 A3 A4], Hc2 as [B1 B2 B3 B4].
  split; [intros e; by rewrite B1|by rewrite B2|by rewrite B3|done].
Qed.

(** ** The query *)

(** The prover and the verifier find the same cell. *)
Lemma entity_located d key (entries : list (Particle * list Goldilocks)) offset :
  (forall e, e ∈ entries -> (primary_col d < length e.2)%nat) -> key ∈ entries.*1 ->
  exists idx, entity_index entries key (primary_col d) offset = Some idx
    /\ locate (map (fun e => (e.1, map g_as_u64 e.2)) entries) d key (Z.of_nat offset) = Some (Z.of_nat idx)
    /\ (idx < offset + sum_list (map (fun e => KEY_FIELDS + length e.2)%nat entries))%nat.
Proof.
  revert offset. induction entries as [|[k values] entries IH]; intros offset Hw Hk; [by apply not_elem_of_nil in Hk|].
  pose proof (Hw (k, values) ltac:(by left)) as Hp. cbn [snd] in Hp. cbn [entity_index map locate fst snd].
  change (sum_list (?n :: ?l)) with (n + sum_list l)%nat. destruct (decide (k = key)) as [->|Hne].
  - rewrite bool_decide_true by done. rewrite (proj2 (Nat.ltb_lt _ _)) by done. eexists. split; [done|]. unfold KEY_FIELDS. split; [f_equal; lia|lia].
  - rewrite bool_decide_false by done. rewrite fmap_cons in Hk. apply elem_of_cons in Hk as [Hk|Hk]; [cbn in Hk; congruence|].
    destruct (IH (offset + (KEY_FIELDS + length values))%nat (fun e He => Hw e ltac:(by right)) Hk) as (idx & E1 & E2 & Hlt). exists idx. split; [done|].
    unfold zlen. rewrite length_map. unfold KEY_FIELDS in *. split; [|lia]. rewrite <- E2. f_equal. lia.
Qed.

(** Keys of the time dimension are heights. *)
Lemma query_opens s d key : d <> DBalances -> key ∈ (dim_entries s d).*1 -> bbg_query s d key = open_entity s d key (primary_col d).
Proof.
  intros Hd Hk. unfold bbg_query. destruct (decide (d = DTime)) as [->|Ht]; [|rewrite bool_decide_false by done; by destruct d].
  rewrite bool_decide_true by done. apply list_elem_of_fmap in Hk as (e & -> & He). cbn [dim_entries] in He.
  apply elem_of_entries in He as (h & p & _ & ->). cbn [fst]. change (key_bytes h) with (key_bytes_u64 h).
  assert (blist (key_bytes_u64 h) = blist (to_le_bytes 8 h) ++ repeat (of_Z 8 0) 24) as Eb.
  { unfold key_bytes_u64. cbn [blist buffer]. rewrite resize_ge by (rewrite length_blist; lia). rewrite length_blist. reflexivity. }
  rewrite Eb, drop_app_length', take_app_length' by by rewrite length_blist. rewrite from_to_le_bytes by done. done.
Qed.

Lemma log2_power n : Nat.log2 (next_power_of_two n) = Nat.log2_up n.
Proof. unfold next_power_of_two. by rewrite Nat.log2_pow2 by lia. Qed.

Lemma corner_holds idx n : at_corner (corner_point idx n) (Z.of_nat idx) = true.
Proof.
  unfold at_corner. apply forallb_forall. intros [i v] Hin%list_elem_of_In. apply elem_of_lookup_imap in Hin as (j & w & [= -> ->] & Hj).
  unfold corner_point in Hj. change (map ?f ?l) with (f <$> l) in Hj. rewrite list_lookup_fmap in Hj. destruct (seq 0 n !! j) as [j'|] eqn:Es; [|done].
  apply lookup_seq in Es as [-> _]. cbn [fmap option_fmap option_map Nat.add] in Hj. injection Hj as <-. set (b := Z.land _ 1). apply Z.eqb_eq.
  assert (b = 0 \/ b = 1) as Hb.
  { pose proof (Z.land_ones (Z.shiftr (Z.of_nat idx) (Z.of_nat j)) 1 ltac:(lia)) as Eb. change (Z.ones 1) with 1 in Eb. fold b in Eb.
    change (2 ^ 1) with 2 in Eb. pose proof (Z.mod_pos_bound (Z.shiftr (Z.of_nat idx) (Z.of_nat j)) 2). lia. }
  destruct Hb as [E|E]; rewrite E; [change (0 =? 1) with false; cbn match; rewrite g_zero_new|change (1 =? 1) with true; cbn match; rewrite g_one_new]; by rewrite g_as_u64_new.
Qed.

(** The proof of a cell of a public dimension. *)
Definition cell_proof (s : BbgState) (d : Dim) (idx : nat) (value : Goldilocks) : QueryProof :=
  let evals := padded (dim_serialize (dim_entries s d)) in
  let point := corner_point idx (Nat.log2_up (table_count (dim_entries s d))) in
  mkQueryProof (brakedown_commit evals) (lens_open evals point OPEN_SEED) (blist (to_le_bytes 8 (g_as_u64 value)))
    (Some (mkQueryContext QUERY_VERSION (dim_certificate s d) (of_Z 64 (dim_index d)) (usize_u64 idx))) point.

Lemma open_cell_complete s d idx value : root_version s = V1 -> Fresh s -> d <> DBalances -> Z.of_nat (table_count (dim_entries s d)) <= MAX_QUERY_FIELDS ->
  dim_serialize (dim_entries s d) !! idx = Some value ->
  exists s', open_cell s d idx = Some (Some (cell_proof s d idx value), s') /\ Cached s s'.
Proof.
  intros Hv Hf Hd Hc Hval. unfold open_cell. rewrite (proj2 (Z.ltb_ge _ _)) by done. rewrite andb_false_r. unfold open_cell_from_entries.
  pose proof (lookup_lt_Some _ _ _ Hval) as Hlt. rewrite (proj2 (Nat.leb_gt _ _)) by done. destruct (padded_app (dim_serialize (dim_entries s d))) as [rest Er].
  fold (padded (dim_serialize (dim_entries s d))). assert (padded (dim_serialize (dim_entries s d)) !! idx = Some value) as Ep by (by rewrite Er, lookup_app_l).
  rewrite Ep. cbn [mbind option_bind]. assert (dim_index d <=? 9 = true) as -> by by destruct d.
  destruct (certificate_complete s d Hv Hf) as (s' & E & Hcached); [assert (MAX_QUERY_FIELDS <= MAX_FIELDS) by done; lia|].
  unfold context_from_state. rewrite E. cbn [mbind option_bind option_map]. exists s'. split; [|done]. do 3 f_equal. unfold cell_proof, with_context. cbn [qp_commitment qp_opening qp_value_bytes qp_point].
  assert (Nat.log2 (length (padded (dim_serialize (dim_entries s d)))) = Nat.log2_up (table_count (dim_entries s d))) as ->; [|done].
  unfold padded. by rewrite length_resize, length_dim_serialize, log2_power.
Qed.

(** The root of leaves has canonical limbs. *)
Lemma root_fields_of l : root_fields (root_to_bytes (root_from_leaves l)) = Some (quad_map g_as_u64 (root_from_leaves l)).
Proof.
  set (q := root_from_leaves l). set (b := root_to_bytes q).
  assert (Quad (limb64 b 0) (limb64 b 1) (limb64 b 2) (limb64 b 3) = quad_map g_as_u64 q) as E.
  { pose proof (words_of_digest b) as Eb. unfold b at 5 in Eb. rewrite quad_words in Eb. apply words_bytes_inj in Eb; [|done]. by injection Eb as -> -> -> ->. }
  unfold root_fields. cbn zeta. rewrite E. destruct (root_canonical l) as (v0 & v1 & v2 & v3 & Eq & ? & ? & ? & ?). fold q in Eq. rewrite Eq.
  unfold quad_map. cbn [q0 q1 q2 q3]. rewrite !g_as_u64_new by done. cbn [forallb quad_list q0 q1 q2 q3]. by rewrite !(proj2 (Z.ltb_lt _ _)).
Qed.

Lemma cell_proof_authentic s d idx value : Z.of_nat (table_count (dim_entries s d)) <= MAX_QUERY_FIELDS -> dim_serialize (dim_entries s d) !! idx = Some value ->
  authenticated (cell_proof s d idx value) (Some (v1_root s)) = Some true.
Proof.
  intros Hc Hval. assert (MAX_QUERY_FIELDS < field_P) as HQ by done. assert (field_P < 2 ^ 64) as HP by done. pose proof (lookup_lt_Some _ _ _ Hval) as Hlt. rewrite length_dim_serialize in Hlt.
  destruct (dim_index_u64 d) as [Ed Hd]. unfold authenticated, cell_proof, or_refuse. cbn [qp_context qc_version qc_namespace qc_certificate qc_index sc_dimensions dim_certificate dt_namespace dt_fields qp_value_bytes qp_point qp_commitment qp_opening].
  rewrite !bool_decide_true by done. rewrite Ed, (proj2 (Z.ltb_ge _ _)) by done. cbn [negb orb].
  assert (zlen (table_words (rows_of_dim s d)) = Z.of_nat (table_count (dim_entries s d))) as El by (unfold table_words; rewrite zlen_app, table_count_layout; done).
  rewrite El, (proj2 (Z.ltb_ge _ _)) by done. fold (dim_certificate s d). rewrite certificate_root_complete by (assert (MAX_QUERY_FIELDS <= MAX_FIELDS) by done; lia).
  cbn [mbind option_bind]. unfold v1_root. rewrite root_fields_of, bool_decide_true by done. unfold or_refuse.
  assert (uval (usize_u64 idx) = Z.of_nat idx) as Ei by (unfold usize_u64; rewrite uval_of_Z_small; simpl; lia). rewrite Ei.
  assert (get_at (table_words (rows_of_dim s d)) (Z.of_nat idx) = Some (g_as_u64 value)) as ->.
  { unfold get_at. rewrite El, (proj2 (Z.ltb_lt _ _)), Nat2Z.id, <- dim_words by lia. change (map g_as_u64 ?l) with (g_as_u64 <$> l). by rewrite list_lookup_fmap, Hval. }
  rewrite bool_decide_true by done. cbn [negb].
  assert (length (table_words (rows_of_dim s d)) = table_count (dim_entries s d)) as -> by (unfold zlen in El; lia).
  rewrite log2_power, corner_holds. unfold corner_point at 1. rewrite length_map, length_seq, Nat.eqb_refl. cbn [negb orb].
  destruct (leaf_of_certificate s d) as (leaf & Hleaf & Hw). rewrite Hleaf. cbn [mbind option_bind].
  rewrite Hw, bool_decide_true by done. cbn [negb]. f_equal.
  pose proof (dim_canonical s d ltac:(lia)) as Hcan. rewrite Forall_forall in Hcan.
  destruct (canonical_round value) as [-> _]; [apply Hcan; by eapply list_elem_of_lookup_2|].
  apply lens_complete.
  - unfold padded. by rewrite length_resize, length_dim_serialize.
  - destruct (padded_app (dim_serialize (dim_entries s d))) as [rest Er]. rewrite Er, lookup_app_l; [done|]. by rewrite length_dim_serialize.
Qed.

(** The cell the parser finds is the primary cell of the record. *)
Lemma located_primary s d key idx value : Z.of_nat (table_count (dim_entries s d)) < field_P ->
  primary_index (table_words (rows_of_dim s d)) d key = Some (Z.of_nat idx) -> dim_serialize (dim_entries s d) !! idx = Some value ->
  primary_cell s d key (blist (to_le_bytes 8 (g_as_u64 value))).
Proof.
  intros Hc Ei Hval. destruct (primary_found s d key _ Hc Ei) as (values & Hin & Hn). destruct (primary_present s d key values Hc Hin) as [g Hg].
  exists values, g. split_and!; [done..|]. specialize (Hn 0%nat g). rewrite Nat.add_0_r, Z.add_0_r in Hn. specialize (Hn Hg). rewrite <- dim_words in Hn by done.
  unfold get_at in Hn. rewrite Nat2Z.id in Hn. case_match; [|done]. change (map g_as_u64 ?l) with (g_as_u64 <$> l) in Hn. rewrite list_lookup_fmap, Hval in Hn. by injection Hn as <-.
Qed.

(** A query of a state verifies. Under the v1 derivation, reading an entity of a public dimension
    whose table fits a query answers a proof, without a panic, and the proof verifies for the
    entity under the root of the state and carries the primary cell of its record. *)
Theorem query_verifies s d key :
  root_version s = V1 -> Fresh s -> d <> DBalances -> key ∈ (dim_entries s d).*1 -> Z.of_nat (table_count (dim_entries s d)) <= MAX_QUERY_FIELDS ->
  exists proof s' root s2, bbg_query s d key = Some (Some proof, s') /\ compute_root s' = Some (root, s2) /\ verify_entity proof root d key = Some true
    /\ primary_cell s d key (qp_value_bytes proof) /\ forall e, dim_entries s' e = dim_entries s e.
Proof.
  intros Hv Hf Hd Hk Hc. assert (Z.of_nat (table_count (dim_entries s d)) < field_P) as Hp by (assert (MAX_QUERY_FIELDS < field_P) by done; lia).
  destruct (dim_primary s d key Hp) as [Ei Hs]. destruct (entity_located d key (dim_entries s d) HEADER_FIELDS) as (idx & E1 & E2 & Hlt); [|done|].
  { intros e He. rewrite Forall_forall in Hs. pose proof (sh_primary _ _ (Hs (e.1, map g_as_u64 e.2) ltac:(apply list_elem_of_fmap; by exists e))) as Hcol.
    cbn [snd] in Hcol. unfold zlen in Hcol. rewrite length_map in Hcol. lia. }
  fold (table_count (dim_entries s d)) in Hlt. destruct (lookup_lt_is_Some_2 (dim_serialize (dim_entries s d)) idx) as [value Hval]; [by rewrite length_dim_serialize|].
  destruct (open_cell_complete s d idx value Hv Hf Hd Hc Hval) as (s' & E & Hcached). destruct (compute_root_v1 s') as (s2 & Er & _); [by rewrite (ca_version _ _ Hcached)|apply Hcached|].
  exists (cell_proof s d idx value), s', (v1_root s), s2. split_and!.
  - rewrite query_opens by done. unfold open_entity. by rewrite E1.
  - rewrite Er. unfold v1_root. by rewrite (ca_leaves _ _ Hcached).
  - unfold verify_entity. rewrite cell_proof_authentic by done. cbn [mbind option_bind]. unfold claims_entity.
    cbn [qp_context cell_proof mbind option_bind qc_namespace qc_certificate qc_index dim_certificate sc_dimensions lookup list_lookup dt_fields]. destruct (dim_index_u64 d) as [Ed _].
    rewrite Ed, Z.eqb_refl. cbn [negb]. unfold or_refuse. fold (rows_of_dim s d) in E2. change (Z.of_nat HEADER_FIELDS) with 3 in E2. rewrite Ei, E2. f_equal. apply Z.eqb_eq.
    unfold usize_u64. assert (field_P < 2 ^ 64) as HP by done. rewrite uval_of_Z_small; simpl; lia.
  - change (Z.of_nat HEADER_FIELDS) with 3 in E2. apply (located_primary s d key idx value Hp); [by rewrite Ei|done].
  - apply (ca_dims _ _ Hcached).
Qed.

End Complete.

(** ** Example *)

Section Witness.
Import Toy QueryToy.

Lemma toy_corner idx n : (idx < 2 ^ n)%nat -> point_index (corner_point idx n) = Z.of_nat idx.
Proof.
  revert idx. induction n as [|n IH]; intros idx Hidx; [simpl in *; lia|]. unfold corner_point. cbn [seq map]. rewrite <- seq_shift, map_map.
  pose proof (Nat.div_mod idx 2 ltac:(lia)) as Hdiv. assert (idx / 2 < 2 ^ n)%nat as Hhalf by (apply Nat.Div0.div_lt_upper_bound; exact Hidx).
  assert (map (fun j => if Z.land (Z.shiftr (Z.of_nat idx) (Z.of_nat (S j))) 1 =? 1 then g_one else g_zero) (seq 0 n) = corner_point (idx / 2) n) as ->.
  { apply map_ext. intros j. rewrite Nat2Z.inj_div. change (Z.of_nat 2) with (2 ^ 1). rewrite <- Z.shiftr_div_pow2, Z.shiftr_shiftr by lia. by replace (1 + Z.of_nat j) with (Z.of_nat (S j)) by lia. }
  cbn [point_index foldr]. fold (point_index (corner_point (idx / 2) n)). rewrite IH by done. change (Z.of_nat 0) with 0. rewrite Z.shiftr_0_r.
  pose proof (Z.land_ones (Z.of_nat idx) 1 ltac:(lia)) as Eb. change (Z.ones 1) with 1 in Eb. change (2 ^ 1) with (Z.of_nat 2) in Eb. rewrite Eb, <- Nat2Z.inj_mod.
  pose proof (Nat.mod_upper_bound idx 2 ltac:(lia)). destruct (idx mod 2)%nat as [|[|]] eqn:Em; [| |lia].
  - transitivity (0 + 2 * Z.of_nat (idx / 2)); [reflexivity|lia].
  - transitivity (1 + 2 * Z.of_nat (idx / 2)); [reflexivity|lia].
Qed.

#[export] Instance toy_opening_laws : OpeningLaws.
Proof.
  split; [done|]. intros n evals idx v seed Hl Hv. pose proof (lookup_lt_Some _ _ _ Hv) as Hlt. cbn [lens_verify lens_open openings].
  rewrite toy_corner, Nat2Z.id, !bool_decide_true by (done || lia). done.
Qed.

Lemma toy_key : id32 1 ∈ (dim_entries QueryToy.state DNeurons).*1.
Proof.
  assert (bool_decide (id32 1 ∈ (dim_entries QueryToy.state DNeurons).*1) = true) as E by (vm_compute; reflexivity). by apply bool_decide_eq_true in E.
Qed.

Lemma query_verifies_witness : exists proof s' root s2, bbg_query QueryToy.state DNeurons (id32 1) = Some (Some proof, s')
  /\ compute_root s' = Some (root, s2) /\ verify_entity proof root DNeurons (id32 1) = Some true
  /\ primary_cell QueryToy.state DNeurons (id32 1) (qp_value_bytes proof) /\ forall e, dim_entries s' e = dim_entries QueryToy.state e.
Proof.
  refine (query_verifies QueryToy.state DNeurons (id32 1) eq_refl fresh_state _ toy_key (small_table DNeurons)). intros E. discriminate E.
Defined.

End Witness.
