(* ===== verification/FreshSpec.v ===== *)
(** * Cached v1 commitments of a running facade (rs/src/lib.rs, state.rs, keyed.rs, axon_index.rs)

    Every change of a committed map drops its cached v1 commitment, so the caches of a running
    facade are those of its records; a facade of the v1 derivation never panics on a history that
    fits, and a query of it verifies under its root. *)

From S2P Require Import Prelude.
From S2P Require Import Crypto.
From S2P Require Import Trie.
From S2P Require Import Keyed.
From S2P Require Import AxonIndex.
From S2P Require Import Types.
From S2P Require Import Cards.
From S2P Require Import State.
From S2P Require Import StateSpec.
From S2P Require Import StateRoot.
From S2P Require Import Prune.
From S2P Require Import Ledger.
From S2P Require Import Facade.
From S2P Require Import Certificate.
From S2P Require Import Query.
From S2P Require Import QueryAuth.
From S2P Require Import QuerySpec.
From S2P Require Import QueryProofs.
From S2P Require Import QueryComplete.

Local Open Scope Z_scope.

Create HintDb caches.

Section Caches.
  Context `{Nebu, Hemera, !CryptoLaws, !Lens, !LensLaws}.

(** ** A committed map *)

Section Map.
  Context {K V : Type} `{TrieKey K, !LeafValue V} (f : V -> list Goldilocks).
  Implicit Types k : Keyed K V.

Lemma touched_fresh k key : keyed_fresh f (keyed_touched k key).
Proof. by intros c [=]. Qed.

Lemma new_fresh : keyed_fresh f keyed_new.
Proof. by intros c [=]. Qed.

Lemma insert_fresh k key v : keyed_fresh f (keyed_insert k key v).2.
Proof. apply touched_fresh. Qed.

Lemma remove_fresh k key : keyed_fresh f k -> keyed_fresh f (keyed_remove k key).2.
Proof. unfold keyed_remove. destruct (k_map k !! key); [intros _; apply touched_fresh|done]. Qed.

Lemma get_mut_fresh k key g k' : keyed_get_mut k key g = Some k' -> keyed_fresh f k'.
Proof. unfold keyed_get_mut. destruct (k_map k !! key); [|done]. intros [= <-]. apply touched_fresh. Qed.

Lemma entry_fresh k key v g : keyed_fresh f (keyed_entry_or_insert k key v g).
Proof. apply touched_fresh. Qed.

Lemma commitment_fresh k d k' : keyed_commitment k = Some (d, k') -> keyed_fresh f k -> keyed_fresh f k'.
Proof.
  unfold keyed_commitment, keyed_flush. destruct (fold_m _ _ _) as [t|]; cbn [mbind option_bind]; [|done].
  destruct (trie_root _) as [[r t']|]; [|done]. intros [= <- <-]. by apply legacy_ok_same.
Qed.

End Map.

(** ** An adjacency index *)

Lemma axon_touched_fresh a p : axons_fresh (axon_touched a p).
Proof. by intros c [=]. Qed.

Lemma axon_new_fresh : axons_fresh axon_new.
Proof. by intros c [=]. Qed.

Lemma axon_add_fresh a p x r a' : axon_add a p x = Some (r, a') -> axons_fresh a -> axons_fresh a'.
Proof.
  unfold axon_add. destruct (trie_set _ _ _) as [[[] set]|]; cbn [mbind option_bind]; [|by intros [= <- <-]|done].
  destruct (degree_moved _ _ _); [|done]. intros [= <- <-] _. apply axon_touched_fresh.
Qed.

Lemma remove_axon_fresh a p x r a' : axon_remove_axon a p x = Some (r, a') -> axons_fresh a -> axons_fresh a'.
Proof.
  unfold axon_remove_axon. destruct (ai_sets a !! p) as [set|]; [|by intros [= <- <-]].
  destruct (trie_remove _ _) as [[[] set']|]; cbn [mbind option_bind]; [|by intros [= <- <-]|done].
  destruct (ai_map _ !! p) as [l|]; cbn [mbind option_bind]; [|done].
  destruct (degree_moved _ _ _); [|done]. intros [= <- <-] _. apply axon_touched_fresh.
Qed.

Lemma axon_commitment_fresh a d a' : axon_commitment a = Some (d, a') -> axons_fresh a -> axons_fresh a'.
Proof.
  unfold axon_commitment, axon_flush. destruct (fold_m _ _ _) as [[sets t]|]; cbn [mbind option_bind]; [|done].
  destruct (trie_root _) as [[r t']|]; [|done]. by intros [= <- <-].
Qed.

Lemma cards_commitment_fresh c d c' : cards_commitment c = Some (d, c') -> keyed_fresh card_fields (records c) -> keyed_fresh card_fields (records c').
Proof.
  unfold cards_commitment. destruct (keyed_commitment _) as [[r k]|] eqn:E; [|done]. intros [= <- <-]. by apply (commitment_fresh _ _ _ _ E).
Qed.

#[local] Hint Resolve touched_fresh new_fresh insert_fresh remove_fresh get_mut_fresh entry_fresh commitment_fresh : caches.
#[local] Hint Resolve axon_touched_fresh axon_new_fresh axon_add_fresh remove_axon_fresh axon_commitment_fresh cards_commitment_fresh : caches.

(** ** The state *)

(** One bound call at a time. *)
Ltac next_call E :=
  match type of E with
  | mbind _ ?c = _ => let Ec := fresh "Ec" in destruct c as [[]|] eqn:Ec; cbn [mbind option_bind] in E; [|done]
  end.

(** The caches of an updated state: the fields changed, and those kept. *)
Ltac state_caches H := destruct H; split; cbn; eauto with caches.

Lemma state_new_fresh : Fresh state_new.
Proof. split; cbn; auto with caches. Qed.

Lemma box_moves_fresh ms s : Fresh s -> Fresh (foldl apply_box_move s ms).
Proof.
  revert s. induction ms as [|mv ms IH]; intros s Hs; [done|]. apply IH. unfold apply_box_move.
  destruct (box_commitment mv) as [[point value]|]; state_caches Hs.
Qed.

Lemma topology_fresh s l s' : link_topology s l = Some s' -> Fresh s -> Fresh s'.
Proof.
  unfold link_topology. intros E Hs. next_call E. next_call E.
  case_match; injection E as <-; state_caches Hs.
Qed.

Lemma credit_fresh k key a : keyed_fresh balance_fields (credit k key a).
Proof. apply insert_fresh. Qed.

Lemma debit_fresh k key a : keyed_fresh balance_fields k -> keyed_fresh balance_fields (debit k key a).
Proof. unfold debit. case_match; auto with caches. Qed.

#[local] Hint Resolve credit_fresh debit_fresh : caches.

Lemma conviction_fresh s neuron l : Fresh s -> Fresh (link_conviction s neuron l).
Proof.
  unfold link_conviction, bump_energy, bump_weight. intros Hs. destruct (keyed_get_mut _ _ _) eqn:En; state_caches Hs.
Qed.

Lemma link_fresh neuron s l s' : apply_link neuron s l = Some s' -> Fresh s -> Fresh s'.
Proof.
  unfold apply_link. destruct (link_topology s l) as [s1|] eqn:E; [|done]. intros [= <-] Hs. apply topology_fresh in E; [|done].
  case_match; [done|by apply conviction_fresh].
Qed.

Lemma links_fresh neuron ls s s' : fold_m (apply_link neuron) s ls = Some s' -> Fresh s -> Fresh s'.
Proof.
  revert s. induction ls as [|l ls IH]; intros s; cbn [fold_m]; [by intros [= <-]|].
  destruct (apply_link neuron s l) as [s1|] eqn:E; [|done]. intros E2 Hs. eapply IH; [exact E2|]. by eapply link_fresh.
Qed.

Lemma state_insert_fresh s sg r s' : state_insert s sg = Some (r, s') -> Fresh s -> Fresh s'.
Proof.
  unfold state_insert. case_match; [by intros [= <- <-]|]. destruct (fold_m _ _ _) as [s1|] eqn:E; [|done]. intros [= <- <-] Hs.
  eapply links_fresh; [exact E|]. by apply box_moves_fresh.
Qed.

Lemma v2_leaves_fresh s l s' : v2_leaves s = Some (l, s') -> Fresh s -> Fresh s'.
Proof. unfold v2_leaves. intros E Hs. do 13 next_call E. injection E as <- <-. state_caches Hs. Qed.

Lemma remove_fresh_state s ps id s' ps' : remove_axon s ps id = Some (s', ps') -> Fresh s -> Fresh s'.
Proof.
  unfold remove_axon. destruct (axon_edges _ !! id) as [[from to]|]; intros E Hs; [|injection E as <- <-; state_caches Hs].
  next_call E. next_call E. injection E as <- <-. state_caches Hs.
Qed.

Lemma prune_loop_fresh ids s ps over max s' ps' : prune_loop s ps over max ids = Some (s', ps') -> Fresh s -> Fresh s'.
Proof.
  revert s ps. induction ids as [|id ids IH]; intros s ps E Hs; cbn [prune_loop] in E; [by injection E as <- <-|].
  destruct (if over then _ else _) as [[]|]; cbn [mbind option_bind] in E; [by injection E as <- <-| |done]. next_call E. eapply IH; [exact E|]. by eapply remove_fresh_state.
Qed.

(** Reading the root of either derivation keeps the caches those of the records. *)
Lemma compute_root_fresh s root s' : compute_root s = Some (root, s') -> Fresh s -> Fresh s'.
Proof.
  intros E Hs. destruct (root_version s) eqn:Ev.
  - destruct (compute_root_v1 s Ev Hs) as (s2 & E2 & Hc). rewrite E2 in E. injection E as _ <-. apply Hc.
  - unfold compute_root, root_leaves in E. rewrite Ev in E. destruct (v2_leaves s) as [[[[ds a] n] s2]|] eqn:El; cbn [mbind option_bind] in E; [|done].
    destruct (digest_limbs _); [|done]. injection E as <- <-. by eapply v2_leaves_fresh.
Qed.

Lemma prune_fresh s ps cfg epoch s' ps' : prune s ps cfg epoch = Some (s', ps') -> Fresh s -> Fresh s'.
Proof.
  unfold prune. destruct (candidates _ _ _ _ _) as [[[over ids]|]|]; [|done|done]. cbn [mbind option_bind]. intros E Hs. next_call E. next_call E.
  injection E as <- <-. eapply compute_root_fresh, prune_loop_fresh; done.
Qed.

Lemma advance_fresh c s c' s' : checkpoint_advance c s = Some (c', s') -> Fresh s -> Fresh s'.
Proof. unfold checkpoint_advance. intros E. next_call E. injection E as <- <-. by eapply compute_root_fresh. Qed.

Lemma finalize_fresh b b' : finalize_block b = Some b' -> Fresh (bbg_state b) -> Fresh (bbg_state b').
Proof.
  unfold finalize_block. intros E Hs. next_call E. next_call E. destruct (checked_add _ _) as [h|]; cbn [mbind option_bind] in E; [|done].
  apply (compute_root_fresh _ _ _ Ec) in Hs. assert (Fresh b3) as Hs3 by (apply (compute_root_fresh _ _ _ Ec0); state_caches Hs).
  destruct (if _ =? 0 then _ else _) as [[s4 ps]|] eqn:Ep; cbn [mbind option_bind] in E; [|done]. next_call E. injection E as <-. cbn [bbg_state].
  apply (advance_fresh _ _ _ _ Ec1). case_match; [apply (prune_fresh _ _ _ _ _ _ Ep)|injection Ep as <- <-]; state_caches Hs3.
Qed.

Lemma bbg_step_fresh b o r b' : bbg_step b o = Some (r, b') -> Fresh (bbg_state b) -> Fresh (bbg_state b').
Proof.
  destruct o as [sg| |i|rec|d]; cbn [bbg_step]; intros E Hs.
  - next_call E. injection E as <- <-. unfold bbg_insert in Ec. next_call Ec. apply (state_insert_fresh _ _ _ _ Ec0) in Hs.
    by destruct r; injection Ec as <- <-.
  - destruct (finalize_block b) as [b1|] eqn:Ef; [|done]. injection E as <- <-. by eapply finalize_fresh.
  - injection E as <- <-. state_caches Hs.
  - injection E as <- <-. state_caches Hs.
  - injection E as <- <-. state_caches Hs.
Qed.

Lemma bbg_run_fresh ops b outs b' : bbg_run b ops = Some (outs, b') -> Fresh (bbg_state b) -> Fresh (bbg_state b').
Proof.
  revert b outs. induction ops as [|o ops IH]; intros b outs E Hs; cbn [bbg_run] in E; [by injection E as <- <-|].
  next_call E. next_call E. injection E as <- <-. eapply IH; [done|]. by eapply bbg_step_fresh.
Qed.

Lemma bbg_new_fresh b : bbg_new = Some b -> Fresh (bbg_state b).
Proof. unfold bbg_new, checkpoint_new. intros E. next_call E. next_call Ec. injection Ec as <- <-. injection E as <-. apply (compute_root_fresh _ _ _ Ec0), state_new_fresh. Qed.

(** ** A facade of the v1 derivation *)

Lemma v1_leaf_rep {K V} `{TrieKey K, !LeafValue V} (f : V -> list Goldilocks) (k k' : Keyed K V) d m w :
  v1_leaf f k = Some (d, k') -> KeyedRep k m w -> KeyedRep k' m w.
Proof.
  unfold v1_leaf, keyed_legacy_commitment. destruct (k_legacy k); cbn zeta; destruct (digest_limbs _); try done; intros [= <- <-] []; by split.
Qed.

Lemma v1_axon_rep a a' d m w : v1_axon_leaf a = Some (d, a') -> AxonRep a m w -> AxonRep a' m w.
Proof.
  unfold v1_axon_leaf, axon_legacy_commitment. destruct (ai_legacy a); cbn zeta; destruct (digest_limbs _); try done; intros [= <- <-] []; by split.
Qed.

Lemma v1_cards_rep c c' d m w : v1_cards_leaf c = Some (d, c') -> CardsRep c m w -> CardsRep c' m w.
Proof.
  unfold v1_cards_leaf, cards_legacy_commitment. destruct (keyed_legacy_commitment _ _) as [h k] eqn:E. destruct (digest_limbs h) as [q|] eqn:Eh; [|done].
  intros [= <- <-] []. split; cbn; [|done..]. eapply (v1_leaf_rep card_fields (records c) k q); [|done]. unfold v1_leaf. rewrite E. cbn. by rewrite Eh.
Qed.

Lemma v1_leaves_rep s l s' v w : v1_leaves s = Some (l, s') -> StateRep s v w -> StateRep s' v w.
Proof.
  unfold v1_leaves. intros E Hs. do 13 next_call E. injection E as <- <-.
  destruct Hs; split; cbn; eauto using v1_leaf_rep, v1_axon_rep, v1_cards_rep.
Qed.

Lemma second_answer {A B} (a a' : A) (b b' : B) : Some (a, b) = Some (a', b') -> b = b'.
Proof. by intros [=]. Qed.

Lemma compute_root_v1_ok s v w : StateRep s v w -> v_root_version v = V1 -> Fresh s ->
  exists s', compute_root s = Some (v1_root s, s') /\ StateRep s' v w /\ Fresh s'.
Proof.
  intros Hs Hv Hf. assert (root_version s = V1) as Ev by (by rewrite (sr_root_version _ _ _ Hs)).
  destruct (compute_root_v1 s Ev Hf) as (s' & E & Hc). exists s'. split_and!; [done| |apply Hc].
  unfold compute_root, root_leaves in E. rewrite Ev in E. destruct (v1_leaves s) as [[[[ds a] n] s2]|] eqn:El; cbn [mbind option_bind] in E; [|done].
  destruct (digest_limbs _); [|done]. apply second_answer in E as <-. by eapply v1_leaves_rep.
Qed.

Lemma prune_v1_ok s v w ps cfg epoch :
  StateRep s v w -> v_root_version v = V1 -> Fresh s -> 0 <= w -> view_bytes v < 2 ^ 64 ->
  w + 2 * Z.of_nat (size (v_particles v) + size (last_touched ps)) <= 2 ^ 32 ->
  exists ids s', prune s ps cfg epoch = Some (s', touched_without ps ids) /\ Fresh s'
    /\ StateRep s' (foldl view_remove v ids) (w + 2 * Z.of_nat (size (v_particles v) + size (last_touched ps))).
Proof.
  intros Hs Hv Hfr H0w Hb Hw. destruct (rank_floor_ok s v w (rank_floor_pct cfg) Hs) as (floor & Hf & _).
  destruct (candidates_ok s v w ps cfg epoch floor Hs Hb Hf) as (ids & Ec & _ & _ & _ & Hlen); [lia|].
  destruct (prune_loop_ok ids s v w ps (over_budget v cfg) (max_bytes cfg) Hs Hb) as (pre & post & s1 & -> & El & Hs1 & _).
  destruct (compute_root_v1_ok s1 _ _ Hs1) as (s2 & Er & Hs2 & Hf2); [by rewrite foldl_remove_root_version|by eapply prune_loop_fresh|].
  exists pre, s2. split_and!; [|done|eapply state_rep_weaken, Hs2; lia].
  unfold prune. rewrite Ec. cbn [mbind option_bind]. rewrite El. cbn [mbind option_bind]. by rewrite Er.
Qed.

(** A running facade of the v1 derivation after [n] links, presenting a view. *)
Record V1Runs (b : Bbg) (v : View) (n w : Z) : Prop := {
  vr_state : StateRep (bbg_state b) v w;
  vr_version : v_root_version v = V1;
  vr_height : uval (v_height v) <= w;
  vr_small : small v (prune_state b) n;
  vr_fresh : Fresh (bbg_state b);
}.

Lemma v1_insert_ok b v n w sg : V1Runs b v n w -> w + signal_cost sg <= 2 ^ 32 ->
  exists out b' v', bbg_step b (BInsert sg) = Some (out, b') /\ V1Runs b' v' (n + Z.of_nat (length (s_links sg))) (w + signal_cost sg).
Proof.
  intros [Hs Hv Hh [Sp St Sb] Hf] Hw. pose proof (uval_range (v_height v)) as Rh.
  destruct (state_insert_ok _ _ _ sg Hs) as (s' & Ei & Hs'); [lia..|]. pose proof (state_insert_fresh _ _ _ _ Ei Hf) as Hf'.
  pose proof (signal_cost_pos sg) as Hpos. pose proof (view_insert_version v sg) as Ev. pose proof (view_insert_height v sg) as Eh.
  cbn [bbg_step]. unfold bbg_insert. rewrite Ei. cbn [mbind option_bind].
  destruct (view_insert v sg) as [r v'] eqn:E. cbn [fst snd] in *. destruct r as [[]|e].
  - destruct (view_insert_small _ _ _ _ E) as [Sp' Sb']. pose proof (touch_links_small (prune_state b) (s_links sg) (epoch_of (height s'))) as St'.
    eexists _, _, v'. split; [done|]. split; cbn [bbg_state prune_state]; [done|congruence|rewrite Eh; lia|split; lia|done].
  - assert (v' = v) as -> by (unfold view_insert in E; case_match; congruence).
    eexists _, _, v. split; [done|]. split; cbn [bbg_state prune_state]; [done|done|lia|split; lia|done].
Qed.

(** The state of a block being finalized: the root recorded under the height, one block on. *)
Lemma v1_recorded s v w : StateRep s v w -> v_root_version v = V1 -> Fresh s -> uval (v_height v) < 2 ^ 32 ->
  exists root s1 s2 root' h, compute_root s = Some (root, s1)
    /\ compute_root (set_time s1 (keyed_insert (time s1) (height s) root).2) = Some (root', s2)
    /\ checked_add (height s2) (of_Z 64 1) = Some h /\ uval h = uval (v_height v) + 1 /\ Fresh (set_height s2 h)
    /\ StateRep (set_height s2 h) (put_height (put_time v (<[v_height v := root]> (v_time v))) h) (w + 2).
Proof.
  intros Hs Hv Hf Hh. destruct (compute_root_v1_ok _ _ _ Hs Hv Hf) as (s1 & E1 & Hs1 & Hf1). set (root := v1_root s) in *.
  destruct (keyed_rep_insert _ _ (v_height v) root _ (sr_time _ _ _ Hs1)) as [_ Htime].
  destruct (compute_root_v1_ok (set_time s1 (keyed_insert (time s1) (height s) root).2) (put_time v (<[v_height v := root]> (v_time v))) (w + 2)) as (s2 & E2 & Hs2 & Hf2).
  { rewrite (sr_height _ _ _ Hs). apply (state_rep_weaken _ _ _ (w + 2)) in Hs1; [|lia]. destruct Hs1; by split. }
  { done. }
  { state_caches Hf1. }
  pose proof (sr_height _ _ _ Hs2) as Eh. cbn [v_height put_time] in Eh. eexists root, s1, s2, _, (of_Z 64 (uval (v_height v) + 1)). split_and!; [done|exact E2| |..].
  - rewrite Eh, <- (of_Z_uval (v_height v)) at 1. pose proof (uval_range (v_height v)). apply checked_add_of_Z; simpl Z.of_N; lia.
  - pose proof (uval_range (v_height v)). apply uval_of_Z_small. simpl Z.of_N. lia.
  - state_caches Hf2.
  - destruct Hs2; by split.
Qed.

Lemma v1_finalize_ok b v n w : V1Runs b v n w -> 0 <= n -> w + 2 + 6 * n <= 2 ^ 32 ->
  exists b' v', finalize_block b = Some b' /\ V1Runs b' v' n (w + (2 + 6 * n)).
Proof.
  intros [Hs Hv Hh [Sp St Sb] Hf] H0n Hw. pose proof (uval_range (v_height v)) as Rh. unfold finalize_block.
  destruct (v1_recorded _ _ _ Hs Hv Hf) as (root & s1 & s2 & root' & h & -> & E2 & E3 & Uh & Hf3 & Hs3); [lia|]. cbn [mbind option_bind]. rewrite E2. cbn [mbind option_bind].
  rewrite E3. cbn [mbind option_bind]. set (v1 := put_height _ h) in Hs3. assert (v_particles v1 = v_particles v) as Ep by done. assert (view_bytes v1 = view_bytes v) as Eb by done.
  case_match.
  - destruct (prune_v1_ok _ _ _ (prune_state b) (prune_config b) (epoch_of (height (set_height s2 h))) Hs3) as (ids & s4 & -> & Hf4 & Hs4); [done|done|lia|lia|rewrite Ep; lia|].
    cbn [mbind option_bind]. unfold checkpoint_advance. destruct (compute_root_v1_ok _ _ _ Hs4) as (s5 & -> & Hs5 & Hf5); [by rewrite foldl_remove_root_version|done|].
    eexists _, (foldl view_remove v1 ids). split; [done|]. pose proof (touched_without_small (prune_state b) ids). destruct (view_removes_small v1 ids) as [Rp Rb].
    rewrite Ep in Rp. split; cbn [bbg_state prune_state]; [|by rewrite foldl_remove_root_version|rewrite foldl_remove_height; cbn; lia|split; lia|done].
    eapply state_rep_weaken, Hs5. rewrite Ep. lia.
  - cbn [mbind option_bind]. unfold checkpoint_advance. destruct (compute_root_v1_ok _ _ _ Hs3) as (s5 & -> & Hs5 & Hf5); [done|done|].
    eexists _, v1. split; [done|]. split; cbn [bbg_state prune_state]; [|done|cbn; lia|by split|done]. eapply state_rep_weaken, Hs5. lia.
Qed.

Lemma v1_runs_weaken b v n w w' : w <= w' -> V1Runs b v n w -> V1Runs b v n w'.
Proof. intros Hw []. split; try done; [by eapply state_rep_weaken|lia]. Qed.

Lemma v1_step_ok b v n w o total :
  V1Runs b v n w -> 0 <= n -> n + op_links o <= total -> w + op_cost total o <= 2 ^ 32 ->
  exists out b' v', bbg_step b o = Some (out, b') /\ V1Runs b' v' (n + op_links o) (w + op_cost total o).
Proof.
  intros Hb H0n Hn Hw. destruct o as [sg| |i|r|d]; cbn [op_links op_cost] in *.
  - by apply (v1_insert_ok b v).
  - destruct (v1_finalize_ok b v n w Hb H0n) as (b' & v' & E & Hb'); [lia|]. exists BDone, b', v'. cbn [bbg_step]. rewrite E. split; [done|].
    rewrite Z.add_0_r. eapply v1_runs_weaken, Hb'. lia.
  - destruct Hb as [Hs Hv Hh [Sp St Sb] Hf]. rewrite !Z.add_0_r. eexists _, _, (put_intents v (<[intent_key (ir_neuron i) (ir_h0 i) (ir_scope_hash i) := i]> (v_intents v))).
    split; [done|]. split; [destruct Hs; split; try done; cbn; congruence|done|done|by split|state_caches Hf].
  - destruct Hb as [Hs Hv Hh [Sp St Sb] Hf]. destruct (keyed_rep_insert _ _ (signal_key (sr_neuron r) (sr_step r)) r _ (sr_signals _ _ _ Hs)) as [_ Hk].
    rewrite !Z.add_0_r. eexists _, _, (put_signals v (<[signal_key (sr_neuron r) (sr_step r) := r]> (v_signals v))).
    split; [done|]. apply (state_rep_weaken _ _ _ (w + 2)) in Hs; [|lia]. split; [destruct Hs; by split|done|cbn; lia|by split|state_caches Hf].
  - destruct Hb as [Hs Hv Hh [Sp St Sb] Hf]. rewrite !Z.add_0_r. eexists _, _, (put_diameter_override v (Some d)).
    split; [done|]. split; [destruct Hs; by split|done|done|by split|state_caches Hf].
Qed.

Lemma v1_run_ok ops b v n w total :
  V1Runs b v n w -> 0 <= n -> n + total_links ops <= total -> w + run_cost total ops <= 2 ^ 32 ->
  exists outs b' v', bbg_run b ops = Some (outs, b') /\ V1Runs b' v' (n + total_links ops) (w + run_cost total ops).
Proof.
  revert b v n w. induction ops as [|o ops IH]; intros b v n w Hb H0n Hn Hw.
  { exists [], b, v. cbn. by rewrite !Z.add_0_r. }
  cbn [total_links run_cost foldr] in *. fold (total_links ops) (run_cost total ops) in *.
  pose proof (total_links_pos ops). pose proof (op_links_pos o). pose proof (run_cost_pos total ops ltac:(lia)).
  destruct (v1_step_ok b v n w o total Hb H0n) as (out & b1 & v1 & E & Hb1); [lia..|].
  destruct (IH b1 v1 _ _ Hb1) as (outs & b2 & v2 & E2 & Hb2); [lia..|].
  exists (out :: outs), b2, v2. cbn [bbg_run]. rewrite E. cbn [mbind option_bind]. rewrite E2. split; [done|]. by rewrite !Z.add_assoc.
Qed.

(** A new facade switched to the v1 derivation. *)
Lemma v1_new cfg : exists b, bbg_new = Some b /\ V1Runs (with_root_version (with_prune_config b cfg) V1) (put_root_version view_new V1) 0 0.
Proof.
  destruct (bbg_rep_new cfg) as (b & E & [Hs Ht Hc Hcp Hv Hh Hsm]). exists b. split; [done|]. pose proof (bbg_new_fresh _ E) as Hf. cbn [with_prune_config bbg_state] in Hs.
  split; cbn [with_root_version with_prune_config bbg_state prune_state]; [destruct Hs; by split|done|done| |state_caches Hf].
  cbn [with_prune_config prune_state] in Ht. rewrite Ht. destruct Hsm. by split.
Qed.

(** C9: queries of a running facade verify. Any history of calls that fits the arenas runs on a new
    facade of the v1 derivation without a panic; afterwards a query of any record of a public
    dimension whose table fits a query answers a proof, which verifies for the entity under the
    root and carries the primary cell of the record. *)
Theorem history_queries_verify `{!Openings, !OpeningLaws} cfg ops :
  run_cost (total_links ops) ops <= 2 ^ 32 ->
  exists b outs b', bbg_new = Some b /\ bbg_run (with_root_version (with_prune_config b cfg) V1) ops = Some (outs, b')
    /\ forall d key, d <> DBalances -> key ∈ (dim_entries (bbg_state b') d).*1 -> Z.of_nat (table_count (dim_entries (bbg_state b') d)) <= MAX_QUERY_FIELDS ->
      exists proof s' root s2, bbg_query (bbg_state b') d key = Some (Some proof, s') /\ compute_root s' = Some (root, s2)
        /\ verify_entity proof root d key = Some true /\ primary_cell (bbg_state b') d key (qp_value_bytes proof).
Proof.
  intros Hc. destruct (v1_new cfg) as (b & E & Hb). destruct (v1_run_ok ops _ _ 0 0 (total_links ops) Hb) as (outs & b' & v & Er & [Hs Hv _ _ Hf]); [lia..|].
  exists b, outs, b'. split_and!; [done..|]. intros d key Hd Hk Hsize. assert (root_version (bbg_state b') = V1) as Ev by (by rewrite (sr_root_version _ _ _ Hs)).
  destruct (query_verifies _ d key Ev Hf Hd Hk Hsize) as (proof & s' & root & s2 & Eq & Eroot & Ever & Hcell & _).
  exists proof, s', root, s2. exact (conj Eq (conj Eroot (conj Ever Hcell))).
Qed.

End Caches.

(** ** Example *)

Section Witness.
Import Toy QueryToy.

(** Two finalized blocks: the second particle of the first link is on record. *)
Lemma sample_recorded b outs b' : bbg_new = Some b -> bbg_run (with_root_version (with_prune_config b prune_config_default) V1) sample_history = Some (outs, b') ->
  id32 3 ∈ (dim_entries (bbg_state b') DParticles).*1 /\ Z.of_nat (table_count (dim_entries (bbg_state b') DParticles)) <= MAX_QUERY_FIELDS.
Proof.
  intros Eb Er.
  assert (match bbg_new with Some b => match bbg_run (with_root_version (with_prune_config b prune_config_default) V1) sample_history with
    | Some (_, b') => bool_decide (id32 3 ∈ (dim_entries (bbg_state b') DParticles).*1) && (Z.of_nat (table_count (dim_entries (bbg_state b') DParticles)) <=? MAX_QUERY_FIELDS)
    | None => false end | None => false end = true) as E by (vm_compute; reflexivity).
  rewrite Eb, Er in E. apply andb_true_iff in E as [E1%bool_decide_eq_true E2%Z.leb_le]. exact (conj E1 E2).
Qed.

Lemma history_queries_verify_witness : exists b outs b', bbg_new = Some b
  /\ bbg_run (with_root_version (with_prune_config b prune_config_default) V1) sample_history = Some (outs, b')
  /\ exists proof s' root s2, bbg_query (bbg_state b') DParticles (id32 3) = Some (Some proof, s') /\ compute_root s' = Some (root, s2)
    /\ verify_entity proof root DParticles (id32 3) = Some true.
Proof.
  destruct (history_queries_verify prune_config_default sample_history) as (b & outs & b' & Eb & Er & Hq); [by vm_compute|].
  destruct (sample_recorded b outs b' Eb Er) as [Hk Hs].
  destruct (Hq DParticles (id32 3) ltac:(discriminate) Hk Hs) as (proof & s' & root & s2 & E1 & E2 & E3 & _).
  exists b, outs, b'. refine (conj Eb (conj Er _)). exists proof, s', root, s2. exact (conj E1 (conj E2 E3)).
Defined.

End Witness.
