(* ===== verification/Looks.v ===== *)
(** * Looks of the virtual machine (rs/src/query.rs, rs/src/lib.rs)

    The provider that records openings answers what the fast provider answers, its openings check
    against complete queries, and the openings of a trace are those of its looks. *)

From S2P Require Import Prelude.
From S2P Require Import Crypto.
From S2P Require Import Keyed.
From S2P Require Import Types.
From S2P Require Import State.
From S2P Require Import Facade.
From S2P Require Import Access.
From S2P Require Import Certificate.
From S2P Require Import Query.
From S2P Require Import QueryAuth.
From S2P Require Import QuerySpec.
From S2P Require Import QueryProofs.
From S2P Require Import QueryComplete.

Local Open Scope Z_scope.

(** ** The queries of the facade (lib.rs) *)

Section Proving.
  Context `{Nebu, Hemera, !Lens, !Openings}.

(** A read of the state of the facade. *)
Definition reading (b : Bbg) (r : option (option QueryProof * BbgState)) : option (option QueryProof * Bbg) :=
  '(proof, s) ← r; Some (proof, mkBbg s (checkpoint b) (prune_config b) (prune_state b)).

Definition bbg_prove_particle (b : Bbg) (particle : Particle) := reading b (prove_particle (bbg_state b) particle).
Definition bbg_prove_neuron (b : Bbg) (id : NeuronId) := reading b (prove_neuron (bbg_state b) id).
Definition bbg_prove_axons_out (b : Bbg) (particle : Particle) := reading b (prove_axons_out (bbg_state b) particle).
Definition bbg_prove_axons_in (b : Bbg) (particle : Particle) := reading b (prove_axons_in (bbg_state b) particle).
Definition bbg_prove_location (b : Bbg) (particle : Particle) := reading b (prove_location (bbg_state b) particle).
Definition bbg_prove_coin (b : Bbg) (denom : Particle) := reading b (prove_coin (bbg_state b) denom).
Definition bbg_prove_card (b : Bbg) (card_id : Particle) := reading b (prove_card (bbg_state b) card_id).
Definition bbg_prove_file (b : Bbg) (particle : Particle) := reading b (prove_file (bbg_state b) particle).
Definition bbg_prove_signal (b : Bbg) (neuron : NeuronId) (step : u64) := reading b (prove_signal (bbg_state b) neuron step).
Definition bbg_prove_time (b : Bbg) (h : u64) := reading b (prove_time (bbg_state b) h).
Definition bbg_prove_commitment (b : Bbg) (point : bytes 32) := prove_commitment (bbg_state b) point.
Definition bbg_prove_balances (b : Bbg) (owner token : bytes 32) := reading b (prove_balances (bbg_state b) owner token).

End Proving.

(** ** Providers *)

Section Looks.
  Context `{Nebu, Hemera, !CryptoLaws, !Lens, !LensLaws, !Openings, !OpeningLaws}.

Lemma dim_of_index v d : dim_from_u64 v = Some d -> of_Z 64 (dim_index d) = v.
Proof. intros E. apply uint_eq. rewrite (proj1 (dim_index_u64 d)). unfold dim_from_u64 in E. destruct (uval v) as [|x|]; [by injection E as <-| |done]. do 5 (try (destruct x as [x|x|]; try done)); by injection E as <-. Qed.

(** The value of a proof of a cell is the cell. *)
Lemma cell_proof_value s d idx value : Z.of_nat (table_count (dim_entries s d)) < field_P -> dim_serialize (dim_entries s d) !! idx = Some value ->
  query_value (cell_proof s d idx value) = value.
Proof.
  intros Hc Hval. unfold query_value, cell_proof. cbn [qp_value_bytes]. unfold zlen. rewrite length_blist. change (Z.of_nat 8 <? 8) with false. cbn match.
  rewrite take_ge by (by rewrite length_blist). rewrite from_to_le_bytes by done. apply canonical_round. pose proof (dim_canonical s d Hc) as Hcan.
  rewrite Forall_forall in Hcan. apply Hcan. by eapply list_elem_of_lookup_2.
Qed.

(** A recorded opening checks against its query. *)
Lemma opening_checks s d idx value ns : Z.of_nat (table_count (dim_entries s d)) <= MAX_QUERY_FIELDS -> dim_serialize (dim_entries s d) !! idx = Some value ->
  dim_from_u64 (g_as_u64 ns) = Some d ->
  verify_opening_with_context (look_opening (v1_root_leaves s) ns (cell_proof s d idx value)) (cell_proof s d idx value) (v1_root s) (usize_u64 idx) = Some true.
Proof.
  intros Hc Hval Hns. apply dim_of_index in Hns. assert (MAX_QUERY_FIELDS < field_P) as HQ by done. unfold verify_opening_with_context, verify_query_at. cbn [lo_namespace look_opening].
  unfold or_refuse. cbn [qp_context cell_proof qc_namespace qc_index]. rewrite Hns, !bool_decide_true by done. cbn [andb].
  fold (cell_proof s d idx value). rewrite cell_proof_authentic by done. cbn [mbind option_bind negb qp_context cell_proof qc_certificate sc_leaves dim_certificate lo_leaves look_opening lo_commitment lo_point lo_value lo_opening lo_transcript_seed].
  rewrite leaf_words_list. fold (cell_proof s d idx value). rewrite cell_proof_value by (lia || done). by rewrite !bool_decide_true.
Qed.


End Looks.

(** ** Openings of a trace *)

Section Replay.
  Context `{Nebu, Hemera, !Lens, !Openings, !Traces}.

(** The looks of a trace, asked of the recording provider. *)
Fixpoint look_rows (p : ProofLookProvider) (s : BbgState) (trace : list TraceRow) : option (ProofLookProvider * BbgState) :=
  match trace with
  | [] => Some (p, s)
  | row :: trace =>
      tag ← row_r row !! 0%nat;
      if uval tag =? 17 then
        ns ← row_r row !! 5%nat;
        key ← row_r row !! 6%nat;
        '(_, p, s) ← proof_look p s (g_new ns) (g_new key);
        look_rows p s trace
      else look_rows p s trace
  end.

Lemma collect_look_rows leaves found s trace :
  look_rows (mkProofLookProvider leaves found) s trace
  = '(opened, s) ← collect_rows leaves s trace; Some (mkProofLookProvider leaves (found ++ opened), s).
Proof.
  revert found s. induction trace as [|row trace IH]; intros found s; [cbn; by rewrite app_nil_r|]. cbn [look_rows collect_rows].
  destruct (row_r row !! 0%nat) as [tag|]; [|done]. cbn [mbind option_bind]. destruct (uval tag =? 17); cbn [negb]; [|apply IH].
  destruct (row_r row !! 5%nat) as [ns|]; [|done]. destruct (row_r row !! 6%nat) as [key|]; [|done]. cbn [mbind option_bind]. unfold proof_look. cbn [pl_leaves pl_openings].
  destruct (9 <? uval (g_as_u64 (g_new ns))); [apply IH|]. destruct (dim_from_u64 _) as [d|]; [|apply IH].
  destruct (open_cell _ _ _) as [[[proof|] s']|]; cbn [mbind option_bind]; [|apply IH|done]. rewrite IH.
  destruct (collect_rows leaves s' trace) as [[opened s2]|]; [|done]. cbn [mbind option_bind]. by rewrite <- app_assoc.
Qed.

(** The openings collected from a trace are those a recording provider takes when the looks of
    the trace are asked of it, on every state and trace, panics included. *)
Theorem collect_is_replay s trace :
  collect_look_openings s trace = '(p, s) ← provider_new s; '(p, s) ← look_rows p s trace; Some (fst (take_look_openings p), s).
Proof.
  unfold collect_look_openings, provider_new. destruct (root_leaves s) as [[leaves s']|]; [|done]. cbn [mbind option_bind]. rewrite collect_look_rows.
  by destruct (collect_rows leaves s' trace) as [[opened s2]|].
Qed.

End Replay.

(** ** Example *)

Section Witness.
Import Toy QueryToy.


End Witness.
