(* ===== verification/Wire.v ===== *)
(** * The wire form of queries (rs/src/query_wire.rs, the serde modules of proof.rs and certificate.rs)

    Bounded decoding of certificates and proofs. serde hands a decoder what the format read: a
    sequence is a hint of its length and the elements that are read one after another, any of which
    may fail; a struct is its fields. The derived decoders of structs decode their fields in order. *)

From stdpp Require Import pretty.
From S2P Require Import Prelude.
From S2P Require Import Crypto.
From S2P Require Import Access.
From S2P Require Import Certificate.
From S2P Require Import Query.

Local Open Scope Z_scope.

(** [SeqAccess]. *)
Record Sequence (T : Type) := mkSequence { sq_hint : option Z; sq_items : list (result string T) }.
Arguments mkSequence {T} _ _.
Arguments sq_hint {T} _.
Arguments sq_items {T} _.

(** The sequence a [Vec] or [collect_seq] writes. *)
Definition sequence {T} (l : list T) : Sequence T := mkSequence (Some (zlen l)) (map Ok l).

(** A sequence of elements that are decoded as they are read. *)
Definition decoded {A T} (decode : A -> result string T) (s : Sequence A) : Sequence T :=
  mkSequence (sq_hint s) (map (fun item => a ← item; decode a) (sq_items s)).

Definition hint_above (max : Z) {T} (s : Sequence T) : bool := match sq_hint s with Some n => max <? n | None => false end.

(** The loop of [visit_seq]. *)
Fixpoint visit_seq {T} (max : Z) (limit : string) (out : list T) (items : list (result string T)) : result string (list T) :=
  match items with
  | [] => Ok out
  | item :: items =>
      value ← item;
      if zlen out =? max then Err limit else visit_seq max limit (out ++ [value]) items
  end.

Definition vector {T} (max : Z) (limit : string) (s : Sequence T) : result string (list T) :=
  if hint_above max s then Err limit else visit_seq max limit [] (sq_items s).

Definition QUERY_LIMIT : string := "query allocation limit".
Definition CERTIFICATE_LIMIT : string := "certificate allocation limit".

(** [vector] of query_wire.rs and of certificate.rs. *)
Definition query_vector {T} (max : Z) (s : Sequence T) : result string (list T) := vector max QUERY_LIMIT s.
Definition certificate_vector {T} (max : Z) (s : Sequence T) : result string (list T) := vector max CERTIFICATE_LIMIT s.

(** ** Points and values *)

Definition point (s : Sequence u64) : result string (list u64) := query_vector 20 s.

Definition value (s : Sequence u8) : result string (list u8) :=
  value ← query_vector 8 s;
  if negb (zlen value =? 8) then Err "query value must contain exactly eight bytes"%string
  else if field_P <=? uval (from_le_bytes 64 value) then Err "non-canonical query value"%string
  else Ok value.

(** ** Openings *)

(** [Column], with the fields of lens's [ColumnQuery]; a step of a path is a hash and a side. *)
Record Column (Step : Type) := mkColumn { co_index : usize; co_column : list u8; co_path : list Step }.
Arguments mkColumn {Step} _ _ _.
Arguments co_index {Step} _.
Arguments co_column {Step} _.
Arguments co_path {Step} _.

Record ColumnForm (Step : Type) := mkColumnForm { cf_index : usize; cf_column : Sequence u8; cf_path : Sequence Step }.
Arguments mkColumnForm {Step} _ _ _.
Arguments cf_index {Step} _.
Arguments cf_column {Step} _.
Arguments cf_path {Step} _.

Record OpeningForm (Step : Type) := mkOpeningForm { of_row_combination : Sequence u8; of_columns : Sequence (ColumnForm Step) }.
Arguments mkOpeningForm {Step} _ _.
Arguments of_row_combination {Step} _.
Arguments of_columns {Step} _.

Definition decode_column {Step} (f : ColumnForm Step) : result string (Column Step) :=
  column ← query_vector 8192 (cf_column f);
  path ← query_vector 12 (cf_path f);
  Ok (mkColumn (cf_index f) column path).

(** What a column counts for; the sum stays far below [usize::MAX], since it is checked each time. *)
Definition column_bytes {Step} (c : Column Step) : Z := zlen (co_column c) + zlen (co_path c) * 33 + 64.

(** The loop of the visitor of [columns]. *)
Fixpoint visit_columns {Step} (out : list (Column Step)) (bytes : Z) (items : list (result string (Column Step)))
    : result string (list (Column Step)) :=
  match items with
  | [] => Ok out
  | item :: items =>
      value ← item;
      let bytes := bytes + column_bytes value in
      if (16 * 1024 * 1024 <? bytes) || (zlen out =? 307200) then Err "query opening payload limit"%string
      else visit_columns (out ++ [value]) bytes items
  end.

Definition columns {Step} (s : Sequence (ColumnForm Step)) : result string (list (Column Step)) :=
  if hint_above 307200 s then Err "query column limit"%string
  else visit_columns [] 0 (sq_items (decoded decode_column s)).

(** lens: the one variant of an opening the decoder knows. *)
Class OpeningParts `{Openings} := {
  Step : Type;
  tensor_merkle : list u8 -> list (Column Step) -> Opening;
  opening_parts : Opening -> option (list u8 * list (Column Step));
}.

Class OpeningPartsLaws `{OpeningParts} : Prop := {
  opening_parts_law o row cols : opening_parts o = Some (row, cols) <-> o = tensor_merkle row cols;
}.

Section Wire.
  Context `{Nebu, Hemera, !Lens, !Openings, !OpeningParts}.

(** A variant serde does not know is an error before this. *)
Definition opening (f : result string (OpeningForm Step)) : result string Opening :=
  f ← f;
  row_combination ← query_vector 8192 (of_row_combination f);
  columns ← columns (of_columns f);
  Ok (tensor_merkle row_combination columns).

(** ** Goldilocks elements ([goldilocks_vec] of proof.rs) *)

Definition goldilocks_serialize (v : list Goldilocks) : Sequence u64 := sequence (map g_as_u64 v).

Definition goldilocks_deserialize (s : Sequence u64) : result string (list Goldilocks) :=
  raw ← point s;
  mapM (fun u => if uval u <? field_P then Ok (g_new u)
                 else Err ("non-canonical Goldilocks element " +:+ pretty (Z.to_N (uval u)) +:+ " (>= modulus)")) raw.

(** ** Certificates ([bounded] of certificate.rs) *)

Record TableForm := mkTableForm { tf_namespace : u64; tf_fields : Sequence u64 }.

Record CertificateForm := mkCertificateForm {
  ce_version : u32;
  ce_lens_version : u32;
  ce_leaves : vec (quad u64) 14;
  ce_dimensions : Sequence TableForm;
}.

Definition fields (s : Sequence u64) : result string (list u64) := certificate_vector MAX_FIELDS s.

Definition decode_table (f : TableForm) : result string DimensionTable :=
  fields ← fields (tf_fields f);
  Ok (mkDimensionTable (tf_namespace f) fields).

Definition dimensions (s : Sequence TableForm) : result string (list DimensionTable) :=
  certificate_vector 11 (decoded decode_table s).

Definition decode_certificate (f : CertificateForm) : result string StateCertificate :=
  dimensions ← dimensions (ce_dimensions f);
  Ok (mkStateCertificate (ce_version f) (ce_lens_version f) (ce_leaves f) dimensions).

(** ** Proofs *)

Record ContextForm := mkContextForm { xf_version : u32; xf_certificate : CertificateForm; xf_namespace : u64; xf_index : u64 }.

Record ProofForm := mkProofForm {
  pf_commitment : bytes 32;
  pf_opening : result string (OpeningForm Step);
  pf_value_bytes : Sequence u8;
  pf_context : option ContextForm;
  pf_point : Sequence u64;
}.

Definition decode_context (f : ContextForm) : result string QueryContext :=
  certificate ← decode_certificate (xf_certificate f);
  Ok (mkQueryContext (xf_version f) certificate (xf_namespace f) (xf_index f)).

(** An absent context is the default, none. *)
Definition decode_proof (f : ProofForm) : result string QueryProof :=
  opening ← opening (pf_opening f);
  value_bytes ← value (pf_value_bytes f);
  context ← match pf_context f with None => Ok None | Some context => Some <$> decode_context context end;
  point ← goldilocks_deserialize (pf_point f);
  Ok (mkQueryProof (pf_commitment f) opening value_bytes context point).

(** The derived encoders. *)
Definition encode_column (c : Column Step) : ColumnForm Step := mkColumnForm (co_index c) (sequence (co_column c)) (sequence (co_path c)).

Definition encode_opening (o : Opening) : result string (OpeningForm Step) :=
  match opening_parts o with
  | Some (row, cols) => Ok (mkOpeningForm (sequence row) (sequence (map encode_column cols)))
  | None => Err "unknown variant"%string
  end.

Definition encode_table (t : DimensionTable) : TableForm := mkTableForm (dt_namespace t) (sequence (dt_fields t)).

Definition encode_certificate (c : StateCertificate) : CertificateForm :=
  mkCertificateForm (sc_version c) (sc_lens_version c) (sc_leaves c) (sequence (map encode_table (sc_dimensions c))).

Definition encode_context (c : QueryContext) : ContextForm :=
  mkContextForm (qc_version c) (encode_certificate (qc_certificate c)) (qc_namespace c) (qc_index c).

Definition encode_proof (p : QueryProof) : ProofForm :=
  mkProofForm (qp_commitment p) (encode_opening (qp_opening p)) (sequence (qp_value_bytes p)) (encode_context <$> qp_context p)
    (goldilocks_serialize (qp_point p)).

End Wire.
