(* ===== verification/WireSpec.v ===== *)
(** * The wire form of queries is exact

    What a decoder accepts is within its bounds, and what is within the bounds reads back as it was
    written; the answers of queries are within the bounds. *)

From stdpp Require Import pretty.
From S2P Require Import Prelude.
From S2P Require Import Crypto.
From S2P Require Import Keyed.
From S2P Require Import Types.
From S2P Require Import State.
From S2P Require Import Access.
From S2P Require Import Certificate.
From S2P Require Import Query.
From S2P Require Import QueryAuth.
From S2P Require Import QuerySpec.
From S2P Require Import QueryProofs.
From S2P Require Import QueryComplete.
From S2P Require Import Wire.

Local Open Scope Z_scope.

(** ** Sequences *)

Lemma visit_seq_ok {T} max limit (out : list T) items l :
  zlen out <= max -> visit_seq max limit out items = Ok l <-> exists k, items = map Ok k /\ l = out ++ k /\ zlen l <= max.
Proof.
  revert out. induction items as [|item items IH]; intros out Ho; cbn [visit_seq].
  - split; [intros [= <-]; exists []; by rewrite app_nil_r|]. intros ([|? ?] & [=] & -> & _). by rewrite app_nil_r.
  - destruct item as [x|e]; [|split; [done|by intros ([|? ?] & [=] & _)]]. cbn [mbind result_bind].
    destruct (Z.eqb_spec (zlen out) max) as [E|E].
    + split; [done|]. intros ([|y k] & [=] & -> & Hl). rewrite zlen_app in Hl. unfold zlen in Hl, E. cbn [length] in Hl. lia.
    + assert (zlen (out ++ [x]) <= max) as Ho' by (rewrite zlen_app; change (zlen [x]) with 1; lia).
      rewrite (IH _ Ho'). split.
      * intros (k & -> & -> & Hl). exists (x :: k). by rewrite <- app_assoc in *.
      * intros ([|y k] & Ek & -> & Hl); [done|]. cbn [map] in Ek. injection Ek as <- Ek. exists k. by rewrite <- app_assoc.
Qed.

(** A bounded vector is exactly the sequences of that many readable elements. *)
Lemma vector_ok {T} max limit (s : Sequence T) l :
  0 <= max -> vector max limit s = Ok l <-> hint_above max s = false /\ sq_items s = map Ok l /\ zlen l <= max.
Proof.
  intros Hm. unfold vector. destruct (hint_above max s); [split; [done|by intros [? _]]|]. rewrite visit_seq_ok by done. split.
  - by intros (k & ? & -> & ?).
  - intros (_ & ? & ?). by exists l.
Qed.

Lemma vector_sequence {T} max limit (l : list T) : zlen l <= max -> vector max limit (sequence l) = Ok l.
Proof.
  intros Hl. apply vector_ok; [pose proof (zlen_ge_0 l); lia|]. split_and!; [|done..]. unfold hint_above. cbn. by apply Z.ltb_ge.
Qed.

Lemma vector_short {T} max limit (s : Sequence T) l : 0 <= max -> vector max limit s = Ok l -> zlen l <= max.
Proof. intros Hm Hv. by apply vector_ok in Hv as (_ & _ & ?). Qed.

(** Decoded elements satisfy what the decoder of an element ensures. *)
Lemma decoded_items {A T} (decode : A -> result string T) (P : T -> Prop) (s : Sequence A) l :
  (forall a x, decode a = Ok x -> P x) -> sq_items (decoded decode s) = map Ok l -> Forall P l.
Proof.
  intros HP. destruct s as [hint items]. cbn [decoded sq_items]. revert items. induction l as [|x l IH]; intros [|item items]; [by constructor|done..|].
  cbn [map]. intros [= Ex El]. constructor; [|by apply (IH items)]. destruct item as [a|]; [|done]. by apply (HP a).
Qed.

Lemma decoded_sequence {A T} (decode : A -> result string T) (encode : T -> A) l :
  Forall (fun x => decode (encode x) = Ok x) l -> sq_items (decoded decode (sequence (map encode l))) = map Ok l.
Proof. induction 1 as [|x l Hx _ IH]; [done|]. cbn [map sequence decoded sq_items] in *. cbn [mbind result_bind]. by rewrite Hx, IH. Qed.

(** ** Columns *)

Definition column_fits {S} (c : Column S) : Prop := zlen (co_column c) <= 8192 /\ zlen (co_path c) <= 12.
Definition columns_bytes {S} (l : list (Column S)) : Z := zsum column_bytes l.

Lemma column_bytes_pos {S} (c : Column S) : 0 < column_bytes c.
Proof. unfold column_bytes. pose proof (zlen_ge_0 (co_column c)). pose proof (zlen_ge_0 (co_path c)). lia. Qed.

Lemma columns_bytes_nonneg {S} (l : list (Column S)) : 0 <= columns_bytes l.
Proof. unfold columns_bytes. induction l as [|c l IH]; [done|]. unfold zsum in *. cbn [foldr]. pose proof (column_bytes_pos c). lia. Qed.

Lemma visit_columns_ok {S} (out : list (Column S)) bytes items l :
  zlen out <= 307200 -> bytes <= 16 * 1024 * 1024 ->
  visit_columns out bytes items = Ok l
    <-> exists k, items = map Ok k /\ l = out ++ k /\ zlen l <= 307200 /\ bytes + columns_bytes k <= 16 * 1024 * 1024.
Proof.
  revert out bytes. induction items as [|item items IH]; intros out bytes Ho Hb; cbn [visit_columns].
  - split; [intros [= <-]; exists []; rewrite app_nil_r; split_and!; [done..|unfold columns_bytes, zsum; cbn [foldr]; lia]|].
    intros ([|? ?] & [=] & -> & _). by rewrite app_nil_r.
  - destruct item as [x|e]; [|split; [done|by intros ([|? ?] & [=] & _)]]. cbn [mbind result_bind].
    assert (forall k, columns_bytes (x :: k) = column_bytes x + columns_bytes k) as Hcons by done. pose proof (column_bytes_pos x).
    destruct (_ || _) eqn:E; [rewrite orb_true_iff, Z.ltb_lt, Z.eqb_eq in E|rewrite orb_false_iff, Z.ltb_ge, Z.eqb_neq in E].
    + split; [done|]. intros ([|y k] & Ek & -> & Hl & Hk); [done|]. cbn [map] in Ek. injection Ek as <- Ek. rewrite Hcons in Hk.
      pose proof (columns_bytes_nonneg k). rewrite zlen_app in Hl. unfold zlen in Hl, E. cbn [length] in Hl. lia.
    + destruct E as [E1 E2]. assert (zlen (out ++ [x]) <= 307200) as Ho' by (rewrite zlen_app; change (zlen [x]) with 1; lia).
      rewrite (IH _ _ Ho' E1). split.
      * intros (k & -> & -> & Hl & Hk). exists (x :: k). rewrite <- app_assoc in *. rewrite Hcons. split_and!; [done..|lia].
      * intros ([|y k] & Ek & -> & Hl & Hk); [done|]. cbn [map] in Ek. injection Ek as <- Ek. exists k. rewrite <- app_assoc. rewrite Hcons in Hk. split_and!; [done..|lia].
Qed.

Lemma columns_ok {S} (s : Sequence (ColumnForm S)) l :
  columns s = Ok l <-> hint_above 307200 s = false /\ sq_items (decoded decode_column s) = map Ok l /\ zlen l <= 307200 /\ columns_bytes l <= 16 * 1024 * 1024.
Proof.
  unfold columns. destruct (hint_above 307200 s); [split; [done|by intros [? _]]|]. rewrite visit_columns_ok by done. split.
  - by intros (k & ? & -> & ? & ?).
  - intros (_ & ? & ? & ?). by exists l.
Qed.

Lemma decode_column_fits {S} (f : ColumnForm S) c : decode_column f = Ok c -> column_fits c.
Proof.
  unfold decode_column, query_vector. destruct (vector 8192 _ _) as [column|] eqn:E1; [|done]. destruct (vector 12 _ _) as [path|] eqn:E2; [|done].
  cbn [mbind result_bind]. intros [= <-]. split; [by eapply vector_short|by eapply vector_short].
Qed.

Section WireSpec.
  Context `{Nebu, Hemera, !CryptoLaws, !Lens, !Openings, !OpeningParts, !OpeningPartsLaws}.

(** ** Proofs within the bounds *)

Definition opening_fits (o : Opening) : Prop := exists row cols, opening_parts o = Some (row, cols)
  /\ zlen row <= 8192 /\ zlen cols <= 307200 /\ Forall column_fits cols /\ columns_bytes cols <= 16 * 1024 * 1024.

Definition value_fits (b : list u8) : Prop := zlen b = 8 /\ uval (from_le_bytes 64 b) < field_P.

Definition certificate_fits (c : StateCertificate) : Prop :=
  zlen (sc_dimensions c) <= 11 /\ Forall (fun t => zlen (dt_fields t) <= MAX_FIELDS) (sc_dimensions c).

(** The bounds of the decoder. *)
Record Fits (p : QueryProof) : Prop := {
  ft_opening : opening_fits (qp_opening p);
  ft_value : value_fits (qp_value_bytes p);
  ft_context : forall c, qp_context p = Some c -> certificate_fits (qc_certificate c);
  ft_point : zlen (qp_point p) <= 20 /\ Forall canonical_field (qp_point p);
}.

(** ** The parts *)

Lemma opening_decodes f o : opening f = Ok o -> opening_fits o.
Proof.
  unfold opening, query_vector. destruct f as [f|]; [|done]. cbn [mbind result_bind]. destruct (vector 8192 _ _) as [row|] eqn:Er; [|done]. cbn [mbind result_bind].
  destruct (columns _) as [cols|] eqn:Ec; [|done]. cbn [mbind result_bind]. intros [= <-]. apply columns_ok in Ec as (_ & Hi & Hl & Hb).
  exists row, cols. split_and!; [by apply opening_parts_law|by eapply vector_short|done|by eapply decoded_items; [apply decode_column_fits|]|done].
Qed.

Lemma opening_encodes o : opening_fits o -> opening (encode_opening o) = Ok o.
Proof.
  intros (row & cols & Hp & Hr & Hl & Hc & Hb). unfold opening, encode_opening, query_vector. rewrite Hp. cbn [mbind result_bind of_row_combination of_columns].
  rewrite (vector_sequence _ _ row Hr). cbn [mbind result_bind].
  assert (columns (sequence (map encode_column cols)) = Ok cols) as ->.
  { apply columns_ok. split_and!; [|apply decoded_sequence|done..].
    - unfold hint_above. cbn. apply Z.ltb_ge. unfold zlen in *. by rewrite length_map.
    - eapply Forall_impl; [exact Hc|]. intros [i c p] [H1' H2']. unfold decode_column, encode_column, query_vector. cbn in *.
      by rewrite (vector_sequence _ _ c H1'), (vector_sequence _ _ p H2'). }
  cbn [mbind result_bind]. f_equal. symmetry. by apply opening_parts_law.
Qed.

Lemma value_decodes s b : value s = Ok b -> value_fits b.
Proof.
  unfold value, query_vector. destruct (vector 8 _ _) as [l|]; [|done]. cbn [mbind result_bind]. destruct (Z.eqb_spec (zlen l) 8); [|done].
  destruct (Z.leb_spec field_P (uval (from_le_bytes 64 l))); [done|]. by intros [= <-].
Qed.

Lemma value_encodes b : value_fits b -> value (sequence b) = Ok b.
Proof.
  intros [Hl Hv]. unfold value, query_vector. rewrite (vector_sequence 8 _ b) by lia. cbn [mbind result_bind]. rewrite Hl. cbn [Z.eqb negb].
  by rewrite (proj2 (Z.leb_gt _ _) Hv).
Qed.

Lemma certificate_decodes f c : decode_certificate f = Ok c -> certificate_fits c.
Proof.
  unfold decode_certificate. destruct (dimensions _) as [dims|] eqn:Ed; [|done]. cbn [mbind result_bind]. intros [= <-].
  apply vector_ok in Ed as (_ & Hi & Hl); [|done]. split; [done|]. eapply decoded_items; [|exact Hi].
  intros t x. unfold decode_table. destruct (fields _) as [l|] eqn:Ef; [|done]. intros [= <-]. by eapply vector_short.
Qed.

Lemma certificate_encodes c : certificate_fits c -> decode_certificate (encode_certificate c) = Ok c.
Proof.
  intros [Hl Hf]. unfold decode_certificate, encode_certificate. cbn [ce_dimensions ce_version ce_lens_version ce_leaves].
  assert (dimensions (sequence (map encode_table (sc_dimensions c))) = Ok (sc_dimensions c)) as ->; [|by destruct c].
  apply vector_ok; [done|]. split_and!; [|apply decoded_sequence|done].
  - unfold hint_above. cbn. apply Z.ltb_ge. unfold zlen in *. by rewrite length_map.
  - eapply Forall_impl; [exact Hf|]. intros [n l] Ht. unfold decode_table, encode_table, fields, certificate_vector. cbn in *. by rewrite (vector_sequence _ _ l Ht).
Qed.

Lemma goldilocks_decodes s v : goldilocks_deserialize s = Ok v -> zlen v <= 20 /\ Forall canonical_field v.
Proof.
  unfold goldilocks_deserialize. destruct (point s) as [raw|] eqn:Ep; [|done]. cbn [mbind result_bind].
  apply vector_ok in Ep as (_ & _ & Hl); [|done]. clear s. assert (forall v : list Goldilocks, mapM (M := result string) (fun u : u64 =>
    if uval u <? field_P then Ok (g_new u) else Err ("non-canonical Goldilocks element " +:+ pretty (Z.to_N (uval u)) +:+ " (>= modulus)")) raw = Ok v ->
    length v = length raw /\ Forall canonical_field v) as Hm; [|intros [El Hv]%Hm; split; [|done]; unfold zlen in *; by rewrite El].
  clear Hl v. induction raw as [|u raw IH]; intros v; cbn [mapM]; [by intros [= <-]|].
  destruct (Z.ltb_spec (uval u) field_P); [|done]. cbn [mbind result_bind]. destruct (mapM _ raw) as [w|]; [|done]. cbn [mbind result_bind]. intros [= <-].
  destruct (IH w eq_refl) as [El Hw]. split; [cbn; by rewrite El|]. constructor; [by exists u|done].
Qed.

Lemma goldilocks_encodes v : zlen v <= 20 -> Forall canonical_field v -> goldilocks_deserialize (goldilocks_serialize v) = Ok v.
Proof.
  intros Hl Hv. unfold goldilocks_deserialize, goldilocks_serialize, point, query_vector. rewrite vector_sequence by (unfold zlen in *; by rewrite length_map).
  cbn [mbind result_bind]. clear Hl. induction Hv as [|g v Hg _ IH]; [done|]. cbn [map mapM]. destruct (canonical_round g Hg) as [Eg Hlt].
  rewrite (proj2 (Z.ltb_lt _ _) Hlt). cbn [mbind result_bind]. rewrite IH. cbn [mbind result_bind]. by rewrite Eg.
Qed.

Lemma wire_decodes f p : decode_proof f = Ok p -> Fits p.
Proof.
  destruct f as [commitment o v context pt]. unfold decode_proof. cbn [pf_opening pf_value_bytes pf_context pf_point pf_commitment].
  destruct (opening o) as [o'|] eqn:Eo; [|done]. destruct (value v) as [v'|] eqn:Ev; [|done]. cbn [mbind result_bind].
  destruct (match context with None => _ | Some _ => _ end) as [x|] eqn:Ex; [|done]. cbn [mbind result_bind].
  destruct (goldilocks_deserialize pt) as [pt'|] eqn:Ep; [|done]. cbn [mbind result_bind]. intros [= <-].
  split; cbn; [by eapply opening_decodes|by eapply value_decodes| |by eapply goldilocks_decodes].
  intros c ->. destruct context as [f|]; [|done]. unfold decode_context in Ex. destruct (decode_certificate _) as [cert|] eqn:Ec; [|done].
  injection Ex as <-. by eapply certificate_decodes.
Qed.

Lemma wire_encodes p : Fits p -> decode_proof (encode_proof p) = Ok p.
Proof.
  intros [Ho Hv Hc [Hp1 Hp2]]. unfold decode_proof, encode_proof. cbn [pf_opening pf_value_bytes pf_context pf_point pf_commitment].
  rewrite opening_encodes by done. cbn [mbind result_bind]. rewrite value_encodes by done. cbn [mbind result_bind].
  assert (match encode_context <$> qp_context p with None => Ok None | Some f => Some <$> decode_context f end = Ok (E := string) (qp_context p)) as ->.
  { destruct (qp_context p) as [c|]; [|done]. cbn. unfold decode_context, encode_context. cbn [xf_certificate xf_version xf_namespace xf_index].
    rewrite certificate_encodes by by apply Hc. cbn. by destruct c. }
  cbn [mbind result_bind]. rewrite goldilocks_encodes by done. cbn [mbind result_bind]. by destruct p.
Qed.

(** C12: the wire form is exact. Whatever the decoder of proofs is handed, a proof it accepts is within
    the bounds: at most 20 canonical coordinates, eight bytes of a canonical value, a bounded
    certificate, and an opening of bounded columns and paths whose payload stays within 16 MiB. And
    every proof within the bounds reads back from its encoding as it was written. *)
Theorem wire_exact :
  (forall f p, decode_proof f = Ok p -> Fits p) /\ (forall p, Fits p -> decode_proof (encode_proof p) = Ok p).
Proof. split; [exact wire_decodes|exact wire_encodes]. Qed.

(** ** The answers of queries *)

Context `{!OpeningLaws}.

Lemma corner_canonical idx n : Forall canonical_field (corner_point idx n).
Proof.
  apply Forall_map, Forall_forall. intros j _. case_match; [rewrite g_one_new|rewrite g_zero_new]; eexists; (split; [|done]); by apply Z.ltb_lt.
Qed.

Lemma opening_point entries idx p : open_cell_from_entries entries idx = Some p -> zlen (qp_point p) = Z.of_nat (Nat.log2_up (table_count entries)).
Proof.
  intros Hp. rewrite <- length_dim_serialize. revert Hp. unfold open_cell_from_entries. generalize (dim_serialize entries). intros elems. case_match; [done|]. destruct (resize _ _ _ !! idx); [|done].
  cbn [mbind option_bind]. intros [= <-]. cbn [qp_point]. unfold corner_point, zlen. rewrite length_map, length_seq, length_resize. by rewrite log2_power.
Qed.

(** An opening of a table of canonical elements, without a context. *)
Lemma cell_opening_fits entries idx p :
  Forall canonical_field (dim_serialize entries) -> open_cell_from_entries entries idx = Some p ->
  value_fits (qp_value_bytes p) /\ Forall canonical_field (qp_point p) /\ qp_context p = None.
Proof.
  intros Hc. unfold open_cell_from_entries. destruct (Nat.leb_spec (length (dim_serialize entries)) idx) as [|Hlt]; [done|]. set (evals := resize _ _ _). destruct (evals !! idx) as [v|] eqn:Ev; [|done].
  cbn [mbind option_bind]. intros [= <-]. cbn [qp_value_bytes qp_point qp_context]. split_and!; [|apply corner_canonical|done].
  assert (canonical_field v) as Hv.
    { destruct (padded_app (dim_serialize entries)) as [rest Er]. unfold padded in Er. fold evals in Er. rewrite Er, lookup_app_l in Ev by done.
      rewrite Forall_forall in Hc. by eapply Hc, list_elem_of_lookup_2. }
    destruct (canonical_round v Hv) as [_ Hv']. change (value_fits (blist (to_le_bytes 8 (g_as_u64 v)))). unfold value_fits, zlen. by rewrite length_blist, from_to_le_bytes.
Qed.

Lemma tables_bounded s total namespaces tables : 0 <= total -> dimension_tables s total namespaces = Some (Ok tables) ->
  zlen tables = zlen namespaces /\ Forall (fun t => zlen (dt_fields t) <= MAX_FIELDS) tables.
Proof.
  revert total tables. induction namespaces as [|n namespaces IH]; intros total tables Ht; cbn [dimension_tables]; [by intros [= <-]|].
  destruct (dim_from_u64 n) as [d|]; [|done]. cbn [mbind option_bind]. case_match; [done|].
  destruct (Z.ltb_spec MAX_FIELDS (total + Z.of_nat (table_count (dim_entries s d)))); [done|].
  destruct (dimension_tables s _ namespaces) as [[rest|]|] eqn:E; [|done..]. cbn [mbind option_bind result_bind]. intros [= <-].
  apply IH in E as [El Ef]; [|lia]. split; [unfold zlen in *; cbn [length]; lia|]. constructor; [|done]. 
  change (zlen (map g_as_u64 (dim_serialize (dim_entries s d))) <= MAX_FIELDS). unfold zlen. rewrite length_map, length_dim_serialize. lia.
Qed.

Lemma made_certificate_fits s namespaces c s' : certificate_from_state s namespaces = Some (Ok c, s') -> certificate_fits c.
Proof.
  unfold certificate_from_state. destruct (Z.ltb_spec 11 (zlen namespaces)); [done|]. cbn [orb]. case_match; [done|]. case_match; [done|].
  destruct (dimension_tables s 0 _) as [[tables|]|] eqn:Et; [|done..]. cbn [mbind option_bind].
  destruct (root_leaves s) as [[leaves s1]|]; [|done]. cbn [mbind option_bind]. destruct (certificate_root _) as [[root|]|]; [|done..]. cbn [mbind option_bind].
  destruct (compute_root s1) as [[cached s2]|]; [|done]. cbn [mbind option_bind]. case_match; [|done]. intros [= <- _].
  apply tables_bounded in Et as [El Ef]; [|done]. split; [|done]. cbn [sc_dimensions]. rewrite El. unfold zlen in *.
  by rewrite (Permutation_length (merge_sort_Permutation u64_le namespaces)).
Qed.

Lemma context_fits s d idx c s' : context_from_state s d idx = Some (Some c, s') -> certificate_fits (qc_certificate c).
Proof.
  unfold context_from_state. destruct (certificate_from_state s _) as [[[cert|] s1]|] eqn:E; [|done..]. cbn [mbind option_bind]. intros [= <- _].
  by eapply made_certificate_fits.
Qed.

Lemma log2_bound n k : (n <= 2 ^ k)%nat -> (Nat.log2_up n <= k)%nat.
Proof. intros Hn. rewrite <- (Nat.log2_up_pow2 k) by lia. by apply Nat.log2_up_le_mono. Qed.

Lemma open_cell_fits s d idx p s' :
  d <> DBalances -> open_cell s d idx = Some (Some p, s') -> opening_fits (qp_opening p) -> Fits p.
Proof.
  intros Hd. unfold open_cell. assert (dim_index d <=? 9 = true) as -> by by destruct d. cbn [andb].
  destruct (Z.ltb_spec MAX_QUERY_FIELDS (Z.of_nat (table_count (dim_entries s d)))) as [|Hc]; [done|].
  destruct (open_cell_from_entries _ idx) as [q|] eqn:E; [|done].
  destruct (context_from_state s d idx) as [[[c|] s1]|] eqn:Ex; [|done..]. cbn [mbind option_bind option_map]. intros [= <- _] Ho.
  pose proof (opening_point _ _ _ E) as Hp. apply cell_opening_fits in E as (Hv & Hcan & _); [|apply dim_canonical; assert (MAX_QUERY_FIELDS < field_P) by done; lia].
  split; cbn [with_context qp_opening qp_value_bytes qp_context qp_point] in *; [done..| |].
  - intros c' [= <-]. by eapply context_fits.
  - split; [|done]. rewrite Hp. pose proof (log2_bound (table_count (dim_entries s d)) 12) as Hlog. unfold MAX_QUERY_FIELDS in Hc.
    change (2 ^ 12)%nat with (Z.to_nat 4096) in Hlog. lia.
Qed.

(** The answer of a query reads back from its encoding, when its opening is within the bounds. *)
Lemma query_reads_back s d key p s' :
  bbg_query s d key = Some (Some p, s') -> opening_fits (qp_opening p) -> decode_proof (encode_proof p) = Ok p.
Proof.
  intros Hq Ho. apply wire_encodes. assert (d <> DBalances /\ exists idx, open_cell s d idx = Some (Some p, s')) as [Hd [idx E]]; [|by eapply open_cell_fits].
  unfold bbg_query in Hq. destruct (bool_decide _ && _); [done|]. destruct d; try done; (split; [done|]);
    unfold prove_particle, prove_axons_out, prove_axons_in, prove_neuron, prove_location, prove_coin, prove_card, prove_file, prove_time, prove_signal_key, open_entity in Hq;
    (destruct (entity_index _ _ _ _) as [idx|]; [by exists idx|done]).
Qed.

(** A proof of a private commitment has a coordinate for each doubling of its table: past 2 ^ 20
    fields the decoder refuses what the prover made. *)
Lemma large_commitment_refused s key p :
  2 ^ 20 < Z.of_nat (table_count (commitment_entries s)) -> prove_commitment s key = Some p -> forall q, decode_proof (encode_proof p) <> Ok q.
Proof.
  intros Hl Hp q Hq. assert (20 < zlen (qp_point p)) as H20.
  { unfold prove_commitment in Hp. destruct (commitment_entries s) as [|e entries] eqn:Ee; [done|]. rewrite <- Ee in *. clear Ee.
    destruct (entity_index _ _ _ _) as [idx|]; [|done]. cbn [mbind option_bind] in Hp. apply opening_point in Hp as ->.
    assert (~ (Nat.log2_up (table_count (commitment_entries s)) <= 20)%nat) as Hn; [|lia]. intros Hle.
    set (n := table_count (commitment_entries s)) in *. assert (0 < n)%nat as Hn by lia. apply Nat.log2_log2_up_spec in Hn as [_ Hn].
    apply Nat2Z.inj_le in Hn. rewrite Nat2Z.inj_pow in Hn. change (Z.of_nat 2) with 2 in Hn.
    pose proof (Z.pow_le_mono_r 2 (Z.of_nat (Nat.log2_up n)) 20). lia. }
  unfold decode_proof, encode_proof in Hq. cbn [pf_opening pf_value_bytes pf_context pf_point] in Hq.
  destruct (opening _); [|done]. destruct (value _); [|done]. cbn [mbind result_bind] in Hq. destruct (match encode_context <$> qp_context p with None => _ | Some _ => _ end); [|done].
  cbn [mbind result_bind] in Hq. destruct (goldilocks_deserialize _) as [v|] eqn:Ev; [|done]. unfold goldilocks_deserialize, point, query_vector, goldilocks_serialize in Ev.
  destruct (vector 20 _ _) as [raw|] eqn:Er; [|done]. apply vector_ok in Er as (_ & Hi & Hn); [|done]. cbn [sequence sq_items] in Hi.
  apply (f_equal length) in Hi. rewrite !length_map in Hi. unfold zlen in *. lia.
Qed.

End WireSpec.

(** ** Witness *)

Module WireToy.
Import Toy.

(** Openings that are their parts. *)
#[export] Instance column_eq_dec : EqDecision (Column bool).
Proof. solve_decision. Defined.

#[export] Instance openings : Openings := {|
  Opening := list u8 * list (Column bool);
  opening_eq_dec := _;
  lens_open _ _ seed := (seed, []);
  lens_verify _ _ _ _ _ := true;
|}.

#[export] Instance parts : OpeningParts := {|
  Step := bool;
  tensor_merkle row cols := (row, cols);
  opening_parts o := Some o;
|}.

#[export] Instance parts_laws : OpeningPartsLaws.
Proof. constructor. intros [r c] row cols. cbn. split; intros E; congruence. Qed.

(** A proof with one column and a point of three coordinates. *)
Definition sample_proof : QueryProof :=
  mkQueryProof (id32 1) ([of_Z 8 1; of_Z 8 2], [mkColumn (of_Z 64 5) [of_Z 8 3] [true; false]]) (blist (to_le_bytes 8 (of_Z 64 77))) None
    [g_one; g_zero; g_one].

End WireToy.

Import Toy WireToy.

Lemma sample_proof_fits : Fits sample_proof.
Proof.
  split.
  - eexists _, _. split; [reflexivity|]. split_and!; [done..| |done]. by constructor.
  - split; by vm_compute.
  - done.
  - split; [done|]. assert (forall b : bool, canonical_field (if b then g_one else g_zero)) as Hb.
    { intros b. exists (of_Z 64 (if b then 1 else 0)). by destruct b. }
    repeat apply Forall_cons_2; [apply (Hb true)|apply (Hb false)|apply (Hb true)|apply Forall_nil_2].
Qed.

Lemma wire_exact_witness : Fits sample_proof /\ decode_proof (encode_proof sample_proof) = Ok sample_proof.
Proof. exact (conj sample_proof_fits (proj2 wire_exact sample_proof sample_proof_fits)). Defined.
