(* ===== verification/Disk.v ===== *)
(** * The disk store (rs/src/storage/disk.rs)

    Shards over the transaction owner: staged rows in a write buffer, committed rows in the engine.
    The store has its owner to itself: a handle shared with other adapters is one owner used by
    turns. *)

From S2P Require Import Prelude.
From S2P Require Import Crypto.
From S2P Require Import Access.
From S2P Require Import Buffer.
From S2P Require Import Shard.
From S2P Require Import Engine.
From S2P Require Import Database.
From S2P Require Import Tiered.

Local Open Scope Z_scope.

(** An element is the one its canonical representative makes. *)
Class ElementLaws `{Nebu} : Prop := {
  g_new_as_u64 x : uval (g_as_u64 x) < field_P -> g_new (g_as_u64 x) = x;
}.

(** ** The store *)

Section Disk.
  Context `{Nebu, Hemera, Hasher, Fjall, Redb}.

Record DiskStore := mkDiskStore { ds_db : Database; ds_pending : WriteBuffer }.

Abbreviation Disking := (SM StorageError DiskStore).

Definition disk_new (db : Database) : DiskStore := mkDiskStore db wb_default.
Definition set_db (s : DiskStore) db : DiskStore := mkDiskStore db (ds_pending s).
Definition set_pending (s : DiskStore) b : DiskStore := mkDiskStore (ds_db s) b.

Definition disk_ready (s : DiskStore) : StorageResult unit :=
  _ ← wb_ready (ds_pending s);
  db_ready (ds_db s).

(** The start of [load], [read] and [scan]. *)
Definition disk_checks (s : DiskStore) (d : u8) (check : StorageResult unit) : StorageResult unit :=
  _ ← disk_ready s;
  _ ← check_dimension d;
  check.

Definition disk_load (s : DiskStore) (d : u8) (k : bytes 32) (limit : Z) : option (StorageResult (option (list Goldilocks))) :=
  match disk_checks s d (check_read_limit limit) with
  | Err error => Some (Err error)
  | Ok _ =>
      if bool_decide (d = EPHEMERAL) then Some (Ok None)
      else
        r ← db_read (Shard d) (blist k) (limit * 8) (ds_db s);
        Some (v ← r; transpose ((fun b => deserialize_goldilocks b limit) <$> v))
  end.

Definition disk_is_poisoned (s : DiskStore) : bool :=
  bool_decide (is_Some (wb_unknown (ds_pending s))) || db_is_poisoned (ds_db s).

Definition disk_has_pending (s : DiskStore) : bool :=
  bool_decide (wb_dirty (ds_pending s) <> []) || bool_decide (wb_deleted (ds_pending s) <> ∅).

Definition disk_get (s : DiskStore) (d : u8) (k : bytes 32) : option (list Goldilocks) :=
  if disk_is_poisoned s then None else wb_cache (ds_pending s) !! (d, k).

Definition disk_put (d : u8) (k : bytes 32) (v : list Goldilocks) : Disking unit :=
  s ← sm_get;
  _ ← sm_lift (disk_ready s);
  sm_zoom ds_pending set_pending (wb_put d k v).

Definition disk_last_commit (s : DiskStore) : option (StorageResult (option (bytes 32))) :=
  match disk_ready s with
  | Err error => Some (Err error)
  | Ok _ => read_marker "last_commit" (ds_db s)
  end.

(** The body of the transaction of [commit]. *)
Definition commit_body (b : WriteBuffer) : SM StorageError Transaction unit :=
  _ ← sm_for (wb_dirty b) (fun row => tx_put_shard row.1.1 row.1.2 row.2);
  sm_for (btree_keys (wb_deleted b)) (fun k => tx_remove (Shard k.1) (blist k.2)).

Definition disk_commit : Disking (bytes 32) :=
  s ← sm_get;
  _ ← sm_lift (disk_ready s);
  if negb (disk_has_pending s) then
    last ← sm_some (disk_last_commit s);
    last ← sm_lift last;
    mret (default (wb_change_id (ds_pending s)) last)
  else
    let '(result, db) := db_transaction Datatypes.id (commit_body (ds_pending s)) (ds_db s) in
    _ ← sm_modify (fun s => set_db s db);
    result ← sm_some result;
    match result with
    | Ok commit =>
        id ← sm_lift (ok_or (cm_change_id commit) (Corrupt "missing shard commit identity"));
        _ ← sm_modify (fun s => set_pending s (wb_finish (ds_pending s)));
        mret id
    | Err error =>
        _ ← sm_modify (fun s => if is_unknown error then set_pending s (set_unknown (ds_pending s) (Some error)) else s);
        sm_throw error
    end.

Definition disk_read (s : DiskStore) (d : u8) (k : bytes 32) (max : Z) : option (StorageResult (option (list Goldilocks))) :=
  match disk_checks s d (check_read_limit max) with
  | Err error => Some (Err error)
  | Ok _ =>
      if bool_decide ((d, k) ∈ wb_deleted (ds_pending s)) then Some (Ok None)
      else
        match wb_cache (ds_pending s) !! (d, k) with
        | Some v => Some (Some <$> copy_value v max)
        | None => disk_load s d k max
        end
  end.

(** One row of [scan]. *)
Definition decode_row (max : usize) (row : RawEntry) : StorageResult ShardEntry :=
  key ← ok_or (try_into 32 row.1) (Corrupt "shard key length");
  v ← deserialize_goldilocks row.2 (uval max);
  Ok (key, v).

Definition disk_scan (s : DiskStore) (d : u8) (after : option (bytes 32)) (limits : ScanLimits)
    : option (StorageResult (list ShardEntry)) :=
  match disk_checks s d (_ ← limits_validate limits; wb_clean (ds_pending s)) with
  | Err error => Some (Err error)
  | Ok _ =>
      if bool_decide (d = EPHEMERAL) then Some (scan_cache (wb_cache (ds_pending s)) d after limits)
      else
        rows ← db_scan (Shard d) (blist <$> after) []
                 (mkByteLimits (max_entries limits) (of_Z 64 (uval (max_elements limits) * 8 + uval (max_entries limits) * 32))) (ds_db s);
        Some (rows ← rows; collect_page (map (decode_row (max_elements limits)) rows) limits)
  end.

Definition disk_mark_dirty (d : u8) (k : bytes 32) : Disking unit :=
  s ← sm_get;
  _ ← sm_lift (disk_ready s);
  sm_lift (check_dimension d).

Definition disk_remove (d : u8) (k : bytes 32) : Disking (option (list Goldilocks)) :=
  s ← sm_get;
  v ← sm_some (disk_read s d k MAX_VALUE_ELEMENTS);
  v ← sm_lift v;
  _ ← sm_zoom ds_pending set_pending (wb_delete d k);
  mret v.

Definition disk_iter (s : DiskStore) (d : u8) : list ShardEntry :=
  map (fun e => (e.1.2, e.2))
    (filter (fun e => bool_decide (e.1.1 = d) && negb (disk_is_poisoned s) = true) (btree_iter (wb_cache (ds_pending s)))).

(** *** The reads never panic *)

Lemma engine_get_total e d k max : uval d <= 13 -> is_Some (engine_get e (Shard d) k max).
Proof.
  intros Hd. destruct e as [e|db]; cbn [engine_get]; [by eexists|]. unfold redb_get.
  destruct (map_err Io (rd_begin_read db)) as [txn|]; [|by eexists].
  destruct (table_name_ok (Shard d)) as [n ->]; [cbn; lia|]. cbn [mbind option_bind]. destruct (rd_open_table txn n) as [|[]]; by eexists.
Qed.

Lemma scan_page_total limits entries : is_Some (scan_page limits entries).
Proof.
  unfold scan_page. pose proof (uval_range (bl_bytes limits)).
  destruct (scan_rows_ok limits (take (Z.to_nat (uval (bl_entries limits))) entries) []) as (r & page & used & E & _); [cbn; lia|].
  change (raw_bytes []) with 0 in E. rewrite E. by eexists.
Qed.

Lemma engine_scan_total e d after prefix limits : uval d <= 13 -> is_Some (engine_scan e (Shard d) after prefix limits).
Proof.
  intros Hd. destruct e as [e|db]; cbn [engine_scan].
  - unfold fjall_scan. destruct (scan_bounds after prefix) as [[lo hi]|]; [|by eexists].
    destruct (fjall_table e (Shard d)); [apply scan_page_total|by eexists].
  - unfold redb_scan. destruct (scan_bounds after prefix) as [[lo hi]|]; [|by eexists].
    destruct (map_err Io (rd_begin_read db)) as [txn|]; [|by eexists].
    destruct (table_name_ok (Shard d)) as [n ->]; [cbn; lia|]. cbn [mbind option_bind].
    destruct (rd_open_table txn n) as [table|[]]; [|by eexists..]. destruct (map_err Io (rd_range table lo hi)); [apply scan_page_total|by eexists].
Qed.

Lemma db_view_total {A} (f : Transaction -> option (StorageResult A)) db :
  is_Some (f (tx_new (db_engine db))) -> is_Some (db_view f db).
Proof.
  intros [r Hr]. unfold db_view, db_transaction. destruct (db_panicked db); [by eexists|]. destruct (db_failure db); [by eexists|].
  unfold tx_view. rewrite Hr. cbn [mbind option_bind]. destruct r; [|by eexists]. cbn [tx_changes tx_new].
  rewrite bool_decide_eq_true_2 by done. by eexists.
Qed.

Lemma db_read_total d k max db : uval d <= 13 -> is_Some (db_read (Shard d) k max db).
Proof.
  intros Hd. apply db_view_total. unfold tx_get. destruct (_ || _); [by eexists|]. cbn [tx_changes tx_new].
  rewrite lookup_empty. by apply engine_get_total.
Qed.

Lemma db_scan_total d after prefix limits db : uval d <= 13 -> is_Some (db_scan (Shard d) after prefix limits db).
Proof.
  intros Hd. apply db_view_total. unfold tx_scan. destruct (byte_limits_validate limits); [|by eexists].
  destruct (_ || _); [by eexists|]. cbn [tx_changes tx_new]. destruct (existsb _ _); [by eexists|]. by apply engine_scan_total.
Qed.

Lemma disk_checks_dim s d check : disk_checks s d check = Ok tt -> uval d <= 13.
Proof.
  unfold disk_checks. destruct (disk_ready s) as [[]|]; [|done]. rewrite check_dimension_eq. cbn [mbind result_bind].
  destruct (Z.ltb_spec 13 (uval d)); done.
Qed.

Lemma disk_load_total s d k limit : is_Some (disk_load s d k limit).
Proof.
  unfold disk_load. destruct (disk_checks s d _) as [[]|] eqn:E; [|by eexists]. apply disk_checks_dim in E.
  case_bool_decide; [by eexists|]. destruct (db_read_total d (blist k) (limit * 8) (ds_db s) E) as [r ->]. by eexists.
Qed.

Lemma disk_read_total s d k max : is_Some (disk_read s d k max).
Proof.
  unfold disk_read. destruct (disk_checks s d _); [|by eexists]. case_bool_decide; [by eexists|].
  destruct (wb_cache _ !! _); [by eexists|apply disk_load_total].
Qed.

Lemma disk_scan_total s d after limits : is_Some (disk_scan s d after limits).
Proof.
  unfold disk_scan. destruct (disk_checks s d _) as [[]|] eqn:E; [|by eexists]. apply disk_checks_dim in E.
  case_bool_decide; [by eexists|]. match goal with |- context [db_scan _ ?a ?p ?l ?db] => destruct (db_scan_total d a p l db E) as [r ->] end.
  by eexists.
Qed.

Lemma disk_last_commit_total s : is_Some (disk_last_commit s).
Proof.
  unfold disk_last_commit. destruct (disk_ready s); [|by eexists]. unfold read_marker.
  assert (is_Some (db_read Metadata (ascii_bytes "last_commit") 32 (ds_db s))) as [r ->]; [|by eexists].
  apply db_view_total. unfold tx_get. destruct (_ || _); [by eexists|]. cbn [tx_changes tx_engine tx_new]. rewrite lookup_empty.
  destruct (db_engine (ds_db s)) as [e|db]; cbn [engine_get]; [by eexists|]. unfold redb_get.
  destruct (map_err Io (rd_begin_read db)) as [txn|]; [|by eexists]. cbn [table_name mbind option_bind].
  destruct (rd_open_table txn _) as [|[]]; by eexists.
Qed.

(** [impl ShardStore for DiskStore]; the reads, which never panic, are their answers. *)
#[export] Instance disk_store : ShardStore DiskStore := {|
  ss_get := disk_get;
  ss_put := disk_put;
  ss_dirty_entries s := wb_dirty (ds_pending s);
  ss_commit := disk_commit;
  ss_read s d k max := is_Some_proj (disk_read_total s d k max);
  ss_scan s d after limits := is_Some_proj (disk_scan_total s d after limits);
  ss_durability s := Disk;
  ss_last_commit s := is_Some_proj (disk_last_commit_total s);
  ss_is_poisoned := disk_is_poisoned;
  ss_has_pending := disk_has_pending;
  ss_get_mut d k f s := None;
  ss_mark_dirty := disk_mark_dirty;
  ss_remove := disk_remove;
  ss_iter := disk_iter;
|}.

(** *** The public stores (the [shard_view!] macro) *)

(** [FjallStore] and [RedbStore]: a disk store under a name of their own. *)
Record ShardView := mkShardView { inner : DiskStore }.

Definition view_from_database (db : Database) : ShardView := mkShardView (disk_new db).
Definition view_database (v : ShardView) : Database := ds_db (inner v).
Definition view_load (v : ShardView) (d : u8) (k : bytes 32) : option (StorageResult (option (list Goldilocks))) :=
  disk_load (inner v) d k MAX_VALUE_ELEMENTS.

(** A call forwarded to the inner store. *)
Definition forward {A} (m : SM StorageError DiskStore A) : SM StorageError ShardView A := sm_zoom inner (fun _ s => mkShardView s) m.

#[export] Instance view_store : ShardStore ShardView := {|
  ss_get v := ss_get (inner v);
  ss_get_mut d k f v := mkShardView <$> ss_get_mut d k f (inner v);
  ss_put d k x := forward (ss_put d k x);
  ss_mark_dirty d k := forward (ss_mark_dirty d k);
  ss_remove d k := forward (ss_remove d k);
  ss_dirty_entries v := ss_dirty_entries (inner v);
  ss_has_pending v := ss_has_pending (inner v);
  ss_commit := forward ss_commit;
  ss_last_commit v := ss_last_commit (inner v);
  ss_durability v := ss_durability (inner v);
  ss_is_poisoned v := ss_is_poisoned (inner v);
  ss_read v := ss_read (inner v);
  ss_scan v := ss_scan (inner v);
  ss_iter v := ss_iter (inner v);
|}.

(** A view answers as the store in it. *)
Lemma view_step o v :
  store_step o v = '(r, s) ← store_step o (inner v); Some (r, mkShardView s).
Proof.
  destruct v as [s]. destruct o as [d k|d k max|d after limits|d| |d k x|d k f|d k|d k|]; cbn [store_step]; try done;
    unfold forward, sm_zoom; cbn [ss_put ss_mark_dirty ss_remove ss_commit view_store]; unfold forward, sm_zoom; cbn [inner];
    match goal with |- context [?m s ≫= _] => destruct (m s) as [[r s']|]; done end.
Qed.

End Disk.

(** ** The rows of the store *)

Section DiskSpec.
  Context `{Nebu, Hemera, Hasher, Fjall, Redb, !FjallLaws, !RedbLaws, !CryptoLaws, !ElementLaws}.

Abbreviation ShardRows := (gmap EntryKey (list Goldilocks)).
Abbreviation ShardChanges := (gmap EntryKey (option (list Goldilocks))).

(** Pending changes over the rows on disk. *)
Definition over_disk (p : ShardChanges) (disk : ShardRows) (k : EntryKey) : option (list Goldilocks) :=
  match p !! k with Some c => c | None => disk !! k end.

(** The engine holds the encodings of [disk]. *)
Definition stored (e : Engine) (disk : ShardRows) : Prop :=
  forall d k, uval d < 13 -> engine_rows e (Shard d) !! blist k = serialize_goldilocks <$> disk !! (d, k).

(** A sound store that presents [m]: local rows from the cache, the others from the pending changes
    over the rows on disk; cached persistent rows are pending writes. *)
Record DiskRep (s : DiskStore) (m mc : ShardRows) (p : ShardChanges) (disk : ShardRows) : Prop := {
  dr_db : DbOk (ds_db s);
  dr_sound : db_failure (ds_db s) = None;
  dr_flag : db_poisoned (ds_db s) = false;
  dr_buffer : WbRep (ds_pending s) mc p;
  dr_limits : within_limits p;
  dr_cached : forall d k, d <> EPHEMERAL -> mc !! (d, k) = match p !! (d, k) with Some c => c | None => None end;
  dr_stored : stored (db_engine (ds_db s)) disk;
  dr_rows : forall d k, m !! (d, k) = if decide (d = EPHEMERAL) then mc !! (d, k) else over_disk p disk (d, k);
}.

(** *** Batches *)

Definition shard_key (k : EntryKey) : Table * list u8 := (Shard k.1, blist k.2).

#[local] Instance shard_key_inj : Inj (=) (=) shard_key.
Proof. intros [d k] [d' k'] [= -> E]. by apply bytes_eq in E as ->. Qed.

(** The staged form of pending changes. *)
Definition shard_changes (p : ShardChanges) : Changes :=
  kmap (M2 := gmap (Table * list u8)) shard_key (fmap (M := gmap EntryKey) (fmap (M := option) serialize_goldilocks) p).

Lemma shard_changes_insert p k c :
  shard_changes (<[k := c]> p) = <[shard_key k := serialize_goldilocks <$> c]> (shard_changes p).
Proof. unfold shard_changes. by rewrite fmap_insert, kmap_insert by apply _. Qed.

Lemma shard_changes_lookup p d k : shard_changes p !! (Shard d, blist k) = fmap (M := option) serialize_goldilocks <$> p !! (d, k).
Proof. unfold shard_changes. change (Shard d, blist k) with (shard_key (d, k)). by rewrite lookup_kmap, lookup_fmap by apply _. Qed.

Lemma shard_changes_absent p k : p !! k = None -> shard_changes p !! shard_key k = None.
Proof. destruct k as [d k]. unfold shard_key. rewrite shard_changes_lookup. cbn. by intros ->. Qed.

Lemma size_shard_changes p : size (shard_changes p) = size p.
Proof.
  induction p as [|k c p Hk IH] using map_ind; [done|]. rewrite shard_changes_insert, !map_size_insert_None, IH; [done|done|].
  by apply shard_changes_absent.
Qed.

Lemma staged_shard_changes p : staged_bytes (shard_changes p) = 32 * Z.of_nat (size p) + 8 * total_elements p.
Proof.
  induction p as [|k c p Hk IH] using map_ind; [done|]. rewrite shard_changes_insert.
  unfold staged_bytes. rewrite map_sum_insert. fold (staged_bytes (shard_changes p)). rewrite IH.
  rewrite shard_changes_absent by done. rewrite map_size_insert_None, total_insert, Hk by done. cbn [from_option]. unfold staged_size, shard_key. cbn [fst snd].
  unfold zlen at 1. rewrite length_blist. destruct c as [v|]; cbn; unfold zlen; [rewrite length_serialize|]; lia.
Qed.

Lemma total_mono (p q : ShardChanges) : p ⊆ q -> total_elements p <= total_elements q.
Proof.
  intros Hs%map_to_list_submseteq%submseteq_Permutation. destruct Hs as [l Hl]. unfold total_elements. rewrite Hl, zsum_app.
  pose proof (zsum_nonneg (fun e : EntryKey * option (list Goldilocks) => change_elements e.2) l (fun e => change_elements_nonneg e.2)). lia.
Qed.

(** Staging one more of the pending changes always fits. *)
Lemma stage_pending tx p m k c :
  TxOk tx -> within_limits p -> tx_changes tx = shard_changes m -> m ⊆ p -> p !! k = Some c ->
  exists tx', tx_stage (Shard k.1) (blist k.2) (serialize_goldilocks <$> c) tx = Some (Ok tt, tx')
    /\ TxOk tx' /\ tx_engine tx' = tx_engine tx /\ tx_changes tx' = shard_changes (<[k := c]> m) /\ <[k := c]> m ⊆ p.
Proof.
  intros Htx (Ht & Hs & Ha) Hm Hsub Hp. destruct (Ha k c Hp) as [Hd Hc].
  assert (<[k := c]> m ⊆ p) as Hsub' by (by apply insert_subseteq_l).
  destruct (tx_stage_ok tx (Shard k.1) (blist k.2) (serialize_goldilocks <$> c) Htx) as (r & tx' & E & Htx' & He & Hr); [cbn; lia|].
  assert (<[(Shard k.1, blist k.2) := serialize_goldilocks <$> c]> (tx_changes tx) = shard_changes (<[k := c]> m)) as Hi by by rewrite shard_changes_insert, Hm.
  assert (r = Ok tt) as ->; [|exists tx'; rewrite Hi in Hr; done].
  rewrite tx_stage_eq in E by done. cbn zeta in E. rewrite Hi, staged_shard_changes in E.
  pose proof (total_mono _ _ Hsub'). pose proof (map_subseteq_size _ _ Hsub'). pose proof (map_subseteq_size _ _ Hsub).
  unfold MAX_PENDING_ELEMENTS, MAX_PENDING_KEYS, MAX_VALUE_ELEMENTS, MAX_BYTES_VALUE, MAX_TRANSACTION_BYTES, MAX_TRANSACTION_KEYS in *.
  assert (Z.of_nat (size (tx_changes tx)) <= 65536) as Hsize.
  { rewrite Hm, size_shard_changes. lia. }
  rewrite (proj2 (Z.ltb_lt (Z.of_nat (size (tx_changes tx))) _)) in E by lia. rewrite orb_true_r in E.
  rewrite (proj2 (Z.ltb_ge _ (32 * _ + _))) in E by lia. unfold zlen in E at 1. rewrite length_blist in E.
  change (Z.of_nat 32 <=? 64) with true in E. cbn [andb negb] in E.
  destruct c as [v|]; cbn [fmap option_fmap option_map] in E; [|by injection E as <- _].
  rewrite (proj2 (Z.leb_le _ _)) in E; [by injection E as <- _|]. unfold zlen. rewrite length_serialize. cbn in Hc. unfold zlen in Hc. lia.
Qed.

Lemma stage_pending_list {A} (f : A -> SM StorageError Transaction unit) (change : A -> EntryKey * option (list Goldilocks)) xs tx p m :
  TxOk tx -> within_limits p -> tx_changes tx = shard_changes m -> m ⊆ p ->
  (forall x, x ∈ xs -> p !! (change x).1 = Some (change x).2
     /\ forall tx, f x tx = tx_stage (Shard (change x).1.1) (blist (change x).1.2) (serialize_goldilocks <$> (change x).2) tx) ->
  exists tx', sm_for xs f tx = Some (Ok tt, tx') /\ TxOk tx' /\ tx_engine tx' = tx_engine tx
    /\ tx_changes tx' = shard_changes (foldl (fun m x => <[(change x).1 := (change x).2]> m) m xs)
    /\ foldl (fun m x => <[(change x).1 := (change x).2]> m) m xs ⊆ p.
Proof.
  intros Htx Hp. revert tx m Htx. induction xs as [|x xs IH]; intros tx m Htx Hm Hsub Hx; [by exists tx|].
  destruct (Hx x) as [Hl Hf]; [by left|]. cbn [sm_for foldl].
  destruct (stage_pending tx p m _ _ Htx Hp Hm Hsub Hl) as (tx1 & E & Htx1 & He1 & Hm1 & Hsub1). rewrite sm_bind_eq, Hf, E.
  destruct (IH tx1 _ Htx1 Hm1 Hsub1) as (tx2 & E2 & Htx2 & He2 & Hm2 & Hsub2); [intros y Hy; apply Hx; by right|].
  exists tx2. split_and!; [done|done|congruence|done|done].
Qed.

(** The transaction of a commit stages exactly the pending changes; no limit is in its way. *)
Lemma commit_body_ok b mc p e :
  WbRep b mc p -> within_limits p -> engine_wf e ->
  exists tx, commit_body b (tx_new e) = Some (Ok tt, tx) /\ TxOk tx /\ tx_engine tx = e /\ tx_changes tx = shard_changes p.
Proof.
  intros Hb Hp He. unfold commit_body. rewrite sm_bind_eq.
  destruct (stage_pending_list (fun row => tx_put_shard row.1.1 row.1.2 row.2) (fun row => (row.1, Some row.2)) (wb_dirty b) (tx_new e) p ∅)
    as (tx1 & E1 & Htx1 & He1 & Hm1 & Hsub1); [by apply tx_new_ok|done|done|apply map_empty_subseteq|..].
  { intros [[d k] v] Hx. cbn [fst snd]. assert (p !! (d, k) = Some (Some v)) as Hl by by apply (wr_written _ _ _ Hb). split; [done|].
    intros tx. destruct Hp as (_ & _ & Ha). destruct (Ha _ _ Hl) as [Hd Hv]. cbn in Hd, Hv. unfold tx_put_shard, disk_dimension.
    rewrite check_dimension_eq, (proj2 (Z.ltb_ge _ _)) by lia. cbn [mbind result_bind].
    rewrite bool_decide_eq_false_2 by (intros ->; by vm_compute in Hd). sm_run. by rewrite check_read_limit_ok by done. }
  rewrite E1.
  destruct (stage_pending_list (fun k => tx_remove (Shard k.1) (blist k.2)) (fun k => (k, None)) (btree_keys (wb_deleted b)) tx1 p _ Htx1 Hp Hm1 Hsub1)
    as (tx2 & E2 & Htx2 & He2 & Hm2 & _).
  { intros [d k] Hx%elem_of_btree_keys. cbn [fst snd]. split; [by apply (wr_erased _ _ _ Hb)|done]. }
  exists tx2. split_and!; [done|done|by rewrite He2|]. rewrite Hm2. f_equal. by rewrite <- (wb_changes_ok _ _ _ Hb).
Qed.

(** *** Reading the engine *)

Lemma words_eq (v w : list Goldilocks) :
  map g_as_u64 v = map g_as_u64 w -> Forall (fun x => uval (g_as_u64 x) < field_P) w -> v = w.
Proof.
  revert w. induction v as [|x v IH]; intros [|y w] E Hw; try done. injection E as Ex E. apply Forall_cons in Hw as [Hy Hw].
  f_equal; [|by apply IH]. rewrite <- (g_new_as_u64 x), <- (g_new_as_u64 y); [by rewrite Ex|done|by rewrite Ex].
Qed.

Lemma deserialize_words b max w :
  deserialize_goldilocks b max = Ok w -> Forall (fun x => uval (g_as_u64 x) < field_P) w.
Proof.
  unfold deserialize_goldilocks. destruct (check_read_limit max); [|done]. cbn [mbind result_bind].
  destruct (negb _); [done|]. destruct (max <? _); [done|]. revert w. induction (chunks_exact 8 b) as [|c l IH]; intros w; cbn [mapM]; [by intros [= <-]|].
  destruct (decode_goldilocks c) as [x|] eqn:Ec; cbn [mbind result_bind]; [|done].
  destruct (mapM _ l) as [l'|]; [|done]. cbn [mbind result_bind]. intros [= <-]. apply Forall_cons. split; [|by apply IH].
  unfold decode_goldilocks in Ec. destruct (Z.leb_spec field_P (uval (from_le_bytes 64 c))); [done|]. injection Ec as <-.
  by rewrite g_as_u64_new.
Qed.

Lemma deserialize_serialized v max w : deserialize_goldilocks (serialize_goldilocks v) max = Ok w -> w = v /\ zlen v <= max.
Proof.
  intros E. pose proof (deserialize_words _ _ _ E) as Hw. apply deserialize_ok in E as [Es Hl].
  assert (length w = length v) as Hlen by (apply (f_equal length) in Es; rewrite !length_serialize in Es; lia).
  rewrite <- (app_nil_r (serialize_goldilocks w)), <- (app_nil_r (serialize_goldilocks v)) in Es.
  apply serialize_inj in Es as [Es _]; [|done]. symmetry in Es. apply words_eq in Es as ->; [|done]. split; [done|lia].
Qed.

Lemma disk_ready_ok s m mc p disk : DiskRep s m mc p disk -> disk_ready s = Ok tt.
Proof.
  intros Hr. unfold disk_ready, wb_ready, db_ready. rewrite (wr_known _ _ _ (dr_buffer _ _ _ _ _ Hr)). cbn.
  destruct (dr_db _ _ _ _ _ Hr) as [_ ->]. by rewrite (dr_sound _ _ _ _ _ Hr).
Qed.

Lemma disk_checks_ok s m mc p disk d check :
  DiskRep s m mc p disk -> disk_checks s d check = if 13 <? uval d then Err (InvalidDimension d) else check.
Proof.
  intros Hr. unfold disk_checks. rewrite (disk_ready_ok _ _ _ _ _ Hr), check_dimension_eq. by destruct (13 <? uval d).
Qed.

Lemma disk_healthy s m mc p disk : DiskRep s m mc p disk -> disk_is_poisoned s = false.
Proof.
  intros Hr. unfold disk_is_poisoned, db_is_poisoned. rewrite (wr_known _ _ _ (dr_buffer _ _ _ _ _ Hr)), (dr_flag _ _ _ _ _ Hr).
  by destruct (dr_db _ _ _ _ _ Hr) as [_ ->].
Qed.

(** A read that succeeds answers the row. *)
Lemma disk_read_ok s m mc p disk d k max v :
  DiskRep s m mc p disk -> disk_read s d k max = Some (Ok v) -> v = m !! (d, k).
Proof.
  intros Hr. pose proof (dr_buffer _ _ _ _ _ Hr) as Hb. rewrite (dr_rows _ _ _ _ _ Hr). unfold disk_read, over_disk.
  rewrite (disk_checks_ok _ _ _ _ _ _ _ Hr). destruct (Z.ltb_spec 13 (uval d)) as [|Hd]; [done|].
  destruct (check_read_limit max) eqn:Em; [|done]. rewrite (wr_cache _ _ _ Hb).
  case_bool_decide as Hdel.
  { apply (wr_erased _ _ _ Hb) in Hdel as Hp. intros [= <-]. destruct (dr_limits _ _ _ _ _ Hr) as (_ & _ & Ha).
    destruct (Ha _ _ Hp) as [Hlt _]. rewrite Hp, decide_False; [done|]. intros ->. by vm_compute in Hlt. }
  assert (p !! (d, k) <> Some None) as Hne by by rewrite (wr_erased _ _ _ Hb).
  pose proof (dr_cached _ _ _ _ _ Hr d k) as Hc. destruct (mc !! (d, k)) as [c|] eqn:Ec.
  { intros E. unfold copy_value in E. rewrite Em in E. cbn in E. destruct (max <? zlen c); [done|]. injection E as <-.
    case_decide as He; [done|]. specialize (Hc He). by destruct (p !! (d, k)) as [[]|]. }
  unfold disk_load. rewrite (disk_checks_ok _ _ _ _ _ _ _ Hr), (proj2 (Z.ltb_ge _ _)), Em by done.
  destruct (decide (d = EPHEMERAL)) as [->|He]; [rewrite bool_decide_eq_true_2 by done; by intros [= <-]|].
  rewrite bool_decide_eq_false_2 by done. pose proof (ephemeral_lt d Hd He) as Hlt.
  destruct (db_read_ok (ds_db s) (Shard d) (blist k) (max * 8) (dr_db _ _ _ _ _ Hr)) as (r & Er & _ & Hv); [cbn; lia|].
  rewrite Er. cbn [mbind option_bind]. destruct r as [b|]; [|done]. destruct (Hv b eq_refl) as (_ & -> & _).
  rewrite (dr_stored _ _ _ _ _ Hr) by done. cbn [mbind result_bind]. specialize (Hc He).
  destruct (p !! (d, k)) as [[]|]; [done|done|]. destruct (disk !! (d, k)) as [w|]; cbn [fmap option_fmap option_map transpose]; [|by intros [= <-]].
  destruct (deserialize_goldilocks _ max) as [w'|] eqn:Ed; [|done]. apply deserialize_serialized in Ed as [-> _]. by intros [= <-].
Qed.

(** *** Writes *)

(** A write to one key of the view, staged unless the dimension is local. *)
Lemma disk_rep_write s m mc p disk d k (v : option (list Goldilocks)) b mc' p' :
  DiskRep s m mc p disk -> uval d <= 13 -> mc' = partial_alter (fun _ => v) (d, k) mc ->
  p' = (if decide (d = EPHEMERAL) then p else <[(d, k) := v]> p) -> within_limits p' -> WbRep b mc' p' ->
  DiskRep (set_pending s b) (partial_alter (fun _ => v) (d, k) m) mc' p' disk.
Proof.
  intros [Hdb Hf Hp Hb Hl Hc Hs Hr] Hd -> -> Hl' Hb'. split; try done.
  - intros d' k' Hd'. destruct (decide ((d', k') = (d, k))) as [[= -> ->]|Hne].
    + rewrite lookup_partial_alter_eq, decide_False, lookup_insert_eq by done. done.
    + rewrite lookup_partial_alter_ne by congruence. rewrite Hc by done. case_decide; [done|]. by rewrite lookup_insert_ne by congruence.
  - intros d' k'. destruct (decide ((d', k') = (d, k))) as [[= -> ->]|Hne].
    + rewrite !lookup_partial_alter_eq. case_decide; [done|]. unfold over_disk. by rewrite lookup_insert_eq.
    + rewrite !lookup_partial_alter_ne by congruence. rewrite Hr. case_decide; [done|]. unfold over_disk. case_decide; [done|].
      by rewrite lookup_insert_ne by congruence.
Qed.

Lemma disk_put_ok s m mc p disk d k v :
  DiskRep s m mc p disk ->
  exists r s' mc' p', disk_put d k v s = Some (r, s')
    /\ DiskRep s' (match r with Ok _ => <[(d, k) := v]> m | Err _ => m end) mc' p' disk.
Proof.
  intros Hr. unfold disk_put. sm_run. rewrite (disk_ready_ok _ _ _ _ _ Hr). sm_run. unfold sm_zoom.
  destruct (wb_put_ok _ _ _ d k v (dr_buffer _ _ _ _ _ Hr)) as (b & -> & Hb). cbn [mbind option_bind].
  pose proof (view_put_limits mc p d k v (dr_limits _ _ _ _ _ Hr)) as Hl.
  eexists _, _, (view_put mc p d k v).2.1, (view_put mc p d k v).2.2. split; [done|]. revert Hb Hl. unfold view_put.
  destruct (Z.ltb_spec 13 (uval d)); [|destruct (MAX_VALUE_ELEMENTS <? zlen v)]; cbn [fst snd].
  1,2: intros Hb _; by destruct Hr.
  destruct (decide (d = EPHEMERAL)) as [He|He]; [|destruct (MAX_PENDING_ELEMENTS <? _); [|destruct (over_keys p (d, k))]]; cbn [fst snd]; intros Hb Hl.
  2,3: by destruct Hr.
  all: apply (disk_rep_write s m mc p disk d k (Some v)); try done.
  - by rewrite decide_True.
  - by rewrite decide_False.
Qed.

Lemma disk_delete_ok s m mc p disk d k :
  DiskRep s m mc p disk ->
  exists r s' mc' p', sm_zoom ds_pending set_pending (wb_delete d k) s = Some (r, s')
    /\ DiskRep s' (match r with Ok _ => delete (d, k) m | Err _ => m end) mc' p' disk.
Proof.
  intros Hr. unfold sm_zoom. destruct (wb_delete_ok _ _ _ d k (dr_buffer _ _ _ _ _ Hr)) as (b & -> & Hb). cbn [mbind option_bind].
  pose proof (view_delete_limits mc p d k (dr_limits _ _ _ _ _ Hr)) as Hl.
  eexists _, _, (view_delete mc p d k).2.1, (view_delete mc p d k).2.2. split; [done|]. revert Hb Hl. unfold view_delete.
  destruct (Z.ltb_spec 13 (uval d)); cbn [fst snd]; [intros Hb _; by destruct Hr|].
  destruct (decide (d = EPHEMERAL)) as [He|He]; [|destruct (over_keys p (d, k))]; cbn [fst snd]; intros Hb Hl.
  2: by destruct Hr.
  all: apply (disk_rep_write s m mc p disk d k None); try done.
  - by rewrite decide_True.
  - by rewrite decide_False.
Qed.

(** *** Commits *)

(** The rows on disk once the pending changes are applied. *)
Definition settled_disk (p : ShardChanges) (disk : ShardRows) : ShardRows :=
  merge (fun c o => match c with Some c => c | None => o end) p disk.

Lemma settled_disk_lookup p disk k : settled_disk p disk !! k = over_disk p disk k.
Proof. unfold settled_disk, over_disk. rewrite lookup_merge. by destruct (p !! k), (disk !! k). Qed.

Lemma applied_stored p disk e e' id :
  stored e disk -> applied (with_markers (shard_changes p) id) e e' -> stored e' (settled_disk p disk).
Proof.
  intros Hs Ha d k Hd. rewrite (Ha (Shard d)) by (cbn; lia). unfold changed. rewrite with_markers_lookup.
  rewrite decide_False by done. rewrite decide_False by (by intros [[=] _]). rewrite shard_changes_lookup, settled_disk_lookup. unfold over_disk.
  destruct (p !! (d, k)) as [c|]; [done|]. by apply Hs.
Qed.

Lemma same_stored disk e e' : stored e disk -> same_rows e e' -> stored e' disk.
Proof. intros Hs Ha d k Hd. rewrite (Ha (Shard d)) by (cbn; lia). by apply Hs. Qed.

Lemma wb_finish_ok b m p : WbRep b m p -> WbRep (wb_finish b) (filter (fun e => e.1.1 = EPHEMERAL) m) ∅.
Proof.
  intros Hb. destruct (clear_pending_ok _ _ _ Hb) as [Hc ? ? ? ? ? ?]. split; try done. cbn. by rewrite (wr_cache _ _ _ Hb).
Qed.

(** A store reopened on the engine. *)
Definition reopened (s : DiskStore) : DiskStore := disk_new (from_engine (db_engine (ds_db s))).

Definition persistent (m : ShardRows) : ShardRows := filter (fun e => e.1.1 <> EPHEMERAL) m.

Lemma reopened_ok s disk m :
  engine_wf (db_engine (ds_db s)) -> stored (db_engine (ds_db s)) disk ->
  (forall d k, d <> EPHEMERAL -> m !! (d, k) = disk !! (d, k)) -> DiskRep (reopened s) (persistent m) ∅ ∅ disk.
Proof.
  intros He Hs Hm. split; try done.
  - apply wb_rep_default.
  - intros d k. unfold persistent. case_decide as Hd.
    + rewrite lookup_empty. apply map_lookup_filter_None_2. right. intros v _ E. by apply E.
    + unfold over_disk. rewrite lookup_empty, <- Hm by done. destruct (m !! (d, k)) as [v|] eqn:E; [by apply map_lookup_filter_Some_2|].
      apply map_lookup_filter_None_2. by left.
Qed.

(** The marker of the last commit is read where it is kept. *)
Lemma last_commit_read s m mc p disk :
  DiskRep s m mc p disk -> exists r, disk_last_commit s = Some r.
Proof. intros _. destruct (disk_last_commit_total s) as [r Hr]. by exists r. Qed.

(** The outcome of a commit. *)
Inductive disk_outcome (s : DiskStore) (m mc : ShardRows) (p : ShardChanges) (disk : ShardRows)
    : StorageResult (bytes 32) -> DiskStore -> Prop :=
| disk_nothing r : p = ∅ -> disk_outcome s m mc p disk r s
| disk_published id s' : p <> ∅ ->
    engine_rows (db_engine (ds_db s')) Metadata !! ascii_bytes "last_commit" = Some (blist id) ->
    DiskRep s' m (filter (fun e => e.1.1 = EPHEMERAL) mc) ∅ (settled_disk p disk) ->
    disk_outcome s m mc p disk (Ok id) s'
| disk_refused error s' : p <> ∅ -> is_unknown error = false -> DiskRep s' m mc p disk ->
    disk_outcome s m mc p disk (Err error) s'
| disk_lost id message s' : p <> ∅ -> disk_is_poisoned s' = true -> engine_wf (db_engine (ds_db s')) ->
    stored (db_engine (ds_db s')) disk \/ stored (db_engine (ds_db s')) (settled_disk p disk) ->
    disk_outcome s m mc p disk (Err (CommitUnknown id message)) s'.

Lemma touches_shard_changes p : p <> ∅ -> touches_shards (shard_changes p) = true.
Proof.
  intros Hp. destruct (map_choose _ Hp) as ([d k] & c & Hc). apply existsb_exists. exists (Shard d, blist k). split; [|done].
  apply list_elem_of_In, list_elem_of_fmap. eexists ((Shard d, blist k), _). split; [done|]. apply elem_of_btree_iter.
  by rewrite shard_changes_lookup, Hc.
Qed.

Lemma published_rows s m mc p disk s' :
  DiskRep s m mc p disk -> DbOk (ds_db s') -> db_failure (ds_db s') = None -> db_poisoned (ds_db s') = false ->
  stored (db_engine (ds_db s')) (settled_disk p disk) -> ds_pending s' = wb_finish (ds_pending s) ->
  DiskRep s' m (filter (fun e => e.1.1 = EPHEMERAL) mc) ∅ (settled_disk p disk).
Proof.
  intros [Hdb Hf Hp Hb Hl Hc Hs Hr] Hdb' Hf' Hp' Hs' Epend. split; try done.
  - rewrite Epend. by eapply wb_finish_ok.
  - intros d k Hd. rewrite lookup_empty. apply map_lookup_filter_None_2. right. by intros v _ E.
  - intros d k. rewrite Hr. unfold over_disk at 2. rewrite lookup_empty, settled_disk_lookup. case_decide as Hd; [|done].
    destruct (mc !! (d, k)) as [v|] eqn:E; [symmetry; by apply map_lookup_filter_Some_2|]. symmetry. apply map_lookup_filter_None_2. by left.
Qed.

Lemma disk_commit_ok s m mc p disk :
  DiskRep s m mc p disk -> exists r s', disk_commit s = Some (r, s') /\ disk_outcome s m mc p disk r s'.
Proof.
  intros Hr. pose proof (dr_buffer _ _ _ _ _ Hr) as Hb. destruct (dr_db _ _ _ _ _ Hr) as [He Hpan]. unfold disk_commit. sm_run.
  rewrite (disk_ready_ok _ _ _ _ _ Hr). sm_run. unfold disk_has_pending. rewrite (wb_pending_ok _ _ _ Hb).
  case_bool_decide as Hp; cbn [negb].
  2:{ destruct (last_commit_read _ _ _ _ _ Hr) as [r Er]. rewrite Er. sm_run.
      destruct r as [last|e]; eexists _, s; (split; [done|by apply disk_nothing]). }
  assert (tx_body (commit_body (ds_pending s))) as Hbody.
  { unfold commit_body. apply body_bind; [apply body_for; intros x Hx; apply body_put_shard|]. intros _. apply body_for.
    intros [d k] Hx%elem_of_btree_keys. apply body_stage. apply (wr_erased _ _ _ Hb) in Hx. destruct (dr_limits _ _ _ _ _ Hr) as (_ & _ & Ha).
    destruct (Ha _ _ Hx). cbn in *. lia. }
  destruct (db_transaction_ok Datatypes.id (commit_body (ds_pending s)) (ds_db s) (conj He Hpan) (dr_sound _ _ _ _ _ Hr) Hbody)
    as (rb & tx & r & db' & Eb & Htx & Het & E & Hdb' & Hout).
  destruct (commit_body_ok _ _ _ _ Hb (dr_limits _ _ _ _ _ Hr) He) as (tx' & Eb' & _ & _ & Hch).
  rewrite Eb in Eb'. injection Eb' as -> ->. rewrite E, Hch in *.
  assert (shard_changes p <> ∅) as Hne.
  { intros Em. apply Hp, map_size_empty_inv. by rewrite <- size_shard_changes, Em, map_size_empty. }
  pose proof (dr_stored _ _ _ _ _ Hr) as Hst. pose proof (dr_flag _ _ _ _ _ Hr) as Hfl.
  destruct Hout as [Hc|id db' Hc Hid Hf Hpo Happ|error db' Hc Hu Hf Hpo Hsame|id message db' Hc Hid Hf Hpo Hrows]; [done|..]; sm_run.
  - eexists _, _. split; [done|]. apply disk_published; [done|..].
    + cbn. rewrite (Happ Metadata) by done. unfold changed. rewrite with_markers_lookup.
      rewrite decide_False by (intros Ek; apply marker_keys_differ; symmetry; exact Ek). by rewrite decide_True by (by rewrite touches_shard_changes).
    + apply (published_rows s); try done; cbn; [by rewrite Hpo|by eapply applied_stored].
  - cbn [Datatypes.id]. rewrite Hu. eexists _, _. split; [done|]. apply disk_refused; [done|done|]. destruct Hr. split; try done; cbn; [by rewrite Hpo|by eapply same_stored].
  - cbn [Datatypes.id is_unknown]. eexists _, _. split; [done|]. apply disk_lost; [done|..]; cbn.
    + unfold disk_is_poisoned. cbn. done.
    + apply Hdb'.
    + destruct Hrows as [Ha|Hs]; [right; by eapply applied_stored|left; by eapply same_stored].
Qed.

(** *** The store is lawful *)

Lemma disk_get_ok s m mc p disk d k v :
  DiskRep s m mc p disk -> disk_get s d k = Some v -> m !! (d, k) = Some v.
Proof.
  intros Hr. unfold disk_get. rewrite (disk_healthy _ _ _ _ _ Hr), (wr_cache _ _ _ (dr_buffer _ _ _ _ _ Hr)). intros E.
  rewrite (dr_rows _ _ _ _ _ Hr). case_decide as Hd; [done|]. pose proof (dr_cached _ _ _ _ _ Hr d k Hd) as Hc. rewrite E in Hc.
  unfold over_disk. by destruct (p !! (d, k)) as [c|].
Qed.

Lemma is_Some_proj_eq {A} (o : option A) (Ho : is_Some o) : o = Some (is_Some_proj Ho).
Proof. destruct o as [a|]; [done|]. by destruct Ho. Qed.

#[export] Program Instance disk_laws : StoreLaws DiskStore := {|
  sl_rep s m := exists mc p disk, DiskRep s m mc p disk;
|}.
Next Obligation. intros s m (mc & p & disk & Hr). by eapply disk_healthy. Qed.
Next Obligation.
  intros s m o (mc & p & disk & Hr).
  assert (sl_ok : forall r, store_ok m o r m -> exists r' s' m', Some (r, s) = Some (r', s') /\ store_ok m o r' m'
    /\ ((exists mc p disk, DiskRep s' m' mc p disk) \/ failed r' /\ ss_is_poisoned s' = true)).
  { intros r Hok. exists r, s, m. split_and!; [done..|left]. by exists mc, p, disk. }
  destruct o as [d k|d k max|d after limits|d| |d k v|d k f|d k|d k|]; cbn [store_step ss_get ss_read ss_scan ss_iter ss_has_pending
    ss_put ss_get_mut ss_mark_dirty ss_remove ss_commit disk_store].
  - apply sl_ok. split; [done|]. intros x. by apply disk_get_ok with (1 := Hr).
  - apply sl_ok. split; [done|]. intros v Ev. apply (disk_read_ok _ _ _ _ _ _ _ max _ Hr). rewrite <- Ev. apply is_Some_proj_eq.
  - by apply sl_ok.
  - by apply sl_ok.
  - by apply sl_ok.
  - destruct (disk_put_ok s m mc p disk d k v Hr) as (r & s' & mc' & p' & -> & Hr'). cbn [mbind option_bind].
    eexists _, _, _. split; [done|]. split; [done|]. left. by exists mc', p', disk.
  - by apply sl_ok.
  - unfold disk_mark_dirty. sm_run. rewrite (disk_ready_ok _ _ _ _ _ Hr). sm_run. by apply sl_ok.
  - unfold disk_remove. sm_run. destruct (disk_read_total s d k MAX_VALUE_ELEMENTS) as [r Er]. rewrite Er. sm_run.
    destruct r as [v|e]; [|sm_run; by apply sl_ok]. sm_run. pose proof (disk_read_ok _ _ _ _ _ _ _ _ _ Hr Er) as Hv.
    destruct (disk_delete_ok s m mc p disk d k Hr) as (r & s' & mc' & p' & E & Hr'). rewrite E. destruct r as [[]|e]; sm_run;
      (eexists _, _, _; split; [done|]; split; [done|]; left; by exists mc', p', disk).
  - destruct (disk_commit_ok s m mc p disk Hr) as (r & s' & E & Hout). rewrite E. cbn [mbind option_bind].
    exists (RId r), s', m. split; [done|]. split; [done|].
    destruct Hout as [r Hp|id s' Hp Hm Hr'|error s' Hp Hu Hr'|id message s' Hp Hpo He Hs].
    + left. by exists mc, p, disk.
    + left. by eexists _, _, _.
    + left. by eexists _, _, _.
    + by right.
Qed.

#[export] Program Instance view_laws : StoreLaws ShardView := {|
  sl_rep v m := sl_rep (S := DiskStore) (inner v) m;
|}.
Next Obligation. intros v m Hr. exact (sl_healthy (inner v) m Hr). Qed.
Next Obligation.
  intros v m o Hr. destruct (sl_step (inner v) m o Hr) as (r & s & m' & E & Hok & Hs). rewrite view_step, E.
  by exists r, (mkShardView s), m'.
Qed.

(** C30: a commit of the disk store is durable or names what is unknown. It never panics, and the
    limits of the write buffer keep the transaction within its own, so only the engine can refuse
    it. When it answers an identity, that is the recorded last commit, nothing is pending, the store
    presents the same rows, and a store reopened on the engine presents all of them but the local
    ones. When the engine refuses, the pending changes are still there. When the outcome is unknown
    the store is poisoned, and a reopened store presents the rows before or after the batch. *)
Theorem disk_commit_durable s m mc p disk :
  DiskRep s m mc p disk -> p <> ∅ ->
  exists r s', disk_commit s = Some (r, s')
    /\ match r with
       | Ok id => engine_rows (db_engine (ds_db s')) Metadata !! ascii_bytes "last_commit" = Some (blist id)
           /\ (exists mc' disk', DiskRep s' m mc' ∅ disk') /\ (exists disk', DiskRep (reopened s') (persistent m) ∅ ∅ disk')
       | Err e => (is_unknown e = false /\ DiskRep s' m mc p disk)
           \/ (is_unknown e = true /\ disk_is_poisoned s' = true
               /\ exists disk', DiskRep (reopened s') (persistent m) ∅ ∅ disk' \/ DiskRep (reopened s') (persistent disk) ∅ ∅ disk')
       end.
Proof.
  intros Hr Hp. destruct (disk_commit_ok s m mc p disk Hr) as (r & s' & E & Hout). exists r, s'. split; [done|].
  assert (forall d k, d <> EPHEMERAL -> m !! (d, k) = settled_disk p disk !! (d, k)) as Hm.
  { intros d k Hd. by rewrite (dr_rows _ _ _ _ _ Hr), decide_False, settled_disk_lookup. }
  destruct Hout as [r|id s' _ Hk Hr'|error s' _ Hu Hr'|id message s' _ Hpo He Hs]; [done|..].
  - split_and!; [done|by eexists _, _|]. exists (settled_disk p disk). apply reopened_ok; [apply (dr_db _ _ _ _ _ Hr')|apply (dr_stored _ _ _ _ _ Hr')|done].
  - by left.
  - right. split_and!; [done..|]. destruct Hs as [Hs|Hs]; [exists disk; right|exists (settled_disk p disk); left]; by apply reopened_ok.
Qed.

(** A history of calls on a lawful store and the rows it presents. *)
Inductive store_trace {S} `{!ShardStore S, !StoreLaws S} : S -> ShardRows -> list store_op -> list store_out -> Prop :=
| st_nil s m : store_trace s m [] []
| st_cons s m o ops r s' m' rs : store_step o s = Some (r, s') -> store_ok m o r m' -> store_trace s' m' ops rs ->
    store_trace s m (o :: ops) (r :: rs)
| st_poisoned s m o ops r s' m' : store_step o s = Some (r, s') -> store_ok m o r m' -> failed r -> ss_is_poisoned s' = true ->
    store_trace s m (o :: ops) [r].

Lemma law_trace {S} `{!ShardStore S, !StoreLaws S} ops (s : S) m : sl_rep s m -> exists outs, store_trace s m ops outs.
Proof.
  revert s m. induction ops as [|o ops IH]; intros s m Hs; [exists []; constructor|].
  destruct (sl_step s m o Hs) as (r & s' & m' & E & Hok & [Hs'|[Hf Hp]]).
  - destruct (IH s' m' Hs') as [outs Ho]. exists (r :: outs). by eapply st_cons.
  - exists [r]. by eapply st_poisoned.
Qed.


End DiskSpec.

(** ** Witnesses *)

Import Toy ToyEngines.

#[export] Instance element_laws : ElementLaws.
Proof.
  split. intros x Hx. cbn in *. apply uint_eq. rewrite Z.mod_small by (pose proof (uval_range x); lia).
  rewrite uval_of_Z_small; [done|]. pose proof (uval_range x). lia.
Qed.

Definition sample_disk : DiskStore := disk_new sample_db.

Lemma sample_disk_rep : DiskRep sample_disk ∅ ∅ ∅ ∅.
Proof.
  split; [exact sample_db_ok|done|done|exact wb_rep_default|exact within_limits_empty|done|..].
  - intros d k _. rewrite lookup_empty. cbn. by destruct (SHARD_NAMES !! _).
  - intros d k. unfold over_disk. case_decide; by rewrite ?lookup_empty.
Qed.

Definition sample_row : list Goldilocks := [of_Z 64 7 : u64].

Definition sample_ops : list store_op :=
  [OPut (of_Z 8 2) (id32 1) [of_Z 64 7]; OPut (of_Z 8 13) (id32 2) []; OCommit; ORead (of_Z 8 2) (id32 1) 8;
   ORemove (of_Z 8 2) (id32 1); OScan (of_Z 8 2) None (mkScanLimits (of_Z 64 4) (of_Z 64 16)); OCommit].


(** A store with one pending write commits. *)
Lemma disk_commit_durable_witness :
  exists s m mc p disk r s', DiskRep s m mc p disk /\ p <> ∅ /\ disk_commit s = Some (r, s').
Proof.
  destruct (disk_put_ok _ _ _ _ _ (of_Z 8 2) (id32 1) sample_row sample_disk_rep) as (r0 & s & mc & p & E & Hr).
  assert (option_map (fun x => bool_decide (wb_dirty (ds_pending x.2) = [])) (disk_put (of_Z 8 2) (id32 1) sample_row sample_disk) = Some false)
    as Hd by (vm_compute; reflexivity).
  rewrite E in Hd. cbn [option_map snd] in Hd. injection Hd as Hd. apply bool_decide_eq_false in Hd.
  assert (p <> ∅) as Hp.
  { apply (bool_decide_eq_true (p <> ∅)). rewrite <- (wb_pending_ok _ _ _ (dr_buffer _ _ _ _ _ Hr)). by rewrite (bool_decide_eq_true_2 _ Hd). }
  destruct (disk_commit_durable _ _ _ _ _ Hr Hp) as (r & s' & Ec & _). eexists s, _, mc, p, _, r, s'. exact (conj Hr (conj Hp Ec)).
Defined.
