(* ===== verification/Unimem.v ===== *)
(** * The shared-memory store (rs/src/storage/unimem.rs, [hash_dirty] of storage/mod.rs)

    Rows as words of raw memory: a block per row, or cells of one block per dimension (a pool). A
    block of the unimem crate is its bytes; reading elements from it is the source's cast of a
    pointer, which answers [None] (undefined behaviour) when it is misaligned or leaves the block.
    Elsewhere [None] is a panic. [UnimemStore] answers whether a block could be opened by an
    argument, the environment. *)

From S2P Require Import Prelude.
From S2P Require Import Crypto.
From S2P Require Import Access.
From S2P Require Import Shard.

Local Open Scope Z_scope.

(** nebu: the element whose representation is a word of memory. *)
Class Raw `{Nebu} := { g_from_raw : u64 -> Goldilocks }.

(** [Goldilocks] is [repr(transparent)] over [u64]: the word of an element is the element. *)
Class RawLaws `{Raw} : Prop := { g_raw_round x : g_from_raw (g_as_u64 x) = x }.

(** The unimem crate: opening a block of a size answers its bytes, at least as many, or an error. *)
Definition MemError : Type := string.
Definition Opener : Type := nat -> result MemError (list u8).
Definition opener_ok (open : Opener) : Prop := forall n b, open n = Ok b -> (n <= length b)%nat.

(** [idx * bytes_per_entry] in a [usize]. *)
Definition usize_mul (a b : nat) : option nat := if 2 ^ 64 <=? Z.of_nat a * Z.of_nat b then None else Some (a * b)%nat.

(** [&mut bytes[offset..offset + cell.len()]] overwritten by [cell]. *)
Definition write_at (bytes : list u8) (offset : nat) (cell : list u8) : option (list u8) :=
  if (offset + length cell <=? length bytes)%nat then Some (take offset bytes ++ cell ++ drop (offset + length cell) bytes) else None.

Section Unimem.
  Context `{Nebu, Hemera, !Raw}.

Definition word_at (bytes : list u8) (i : nat) : u64 := from_le_bytes 64 (take 8 (drop i bytes)).

(** [from_raw_parts(bytes[offset..].as_ptr(), count)]: [count] elements from [offset]. *)
Definition raw_slice (bytes : list u8) (offset count : nat) : option (list Goldilocks) :=
  if (offset mod 8 =? 0)%nat && (offset + 8 * count <=? length bytes)%nat
  then Some (map (fun i => g_from_raw (word_at bytes (offset + 8 * i))) (seq 0 count)) else None.

Inductive Entry :=
| Pinned (block : list u8) (count : nat)
| Heap (v : list Goldilocks).

Record Pool := mkPool {
  p_block : list u8;
  bytes_per_entry : nat;
  capacity : nat;
  next_slot : nat;
  slots : gmap (bytes 32) (nat * nat);
  p_free : list nat;
}.

Record UnimemStore := mkUnimemStore {
  u_entries : gmap EntryKey Entry;
  u_pools : gmap u8 Pool;
  u_dirty : list (EntryKey * list Goldilocks);
}.

Definition uni_new : UnimemStore := mkUnimemStore ∅ ∅ [].

Definition set_u_entries (s : UnimemStore) x := mkUnimemStore x (u_pools s) (u_dirty s).
Definition set_u_pools (s : UnimemStore) x := mkUnimemStore (u_entries s) x (u_dirty s).
Definition set_u_dirty (s : UnimemStore) x := mkUnimemStore (u_entries s) (u_pools s) x.

(** [free.pop()] takes the last slot. *)
Definition alloc_slot (p : Pool) (key : bytes 32) : nat * Pool :=
  match slots p !! key with
  | Some (idx, _) => (idx, p)
  | None =>
      match last (p_free p) with
      | Some idx => (idx, mkPool (p_block p) (bytes_per_entry p) (capacity p) (next_slot p) (slots p) (removelast (p_free p)))
      | None => (next_slot p, mkPool (p_block p) (bytes_per_entry p) (capacity p) (S (next_slot p)) (slots p) (p_free p))
      end
  end.

(** ** Reads *)

Definition pool_slice (p : Pool) (idx count : nat) : option (list Goldilocks) :=
  offset ← usize_mul idx (bytes_per_entry p); raw_slice (p_block p) offset count.

Definition entry_slice (e : Entry) : option (list Goldilocks) :=
  match e with
  | Heap v => Some v
  | Pinned block count => raw_slice block 0 count
  end.

Definition entry_get (s : UnimemStore) (d : u8) (key : bytes 32) : option (option (list Goldilocks)) :=
  match u_entries s !! (d, key) with
  | None => Some None
  | Some e => v ← entry_slice e; Some (Some v)
  end.

Definition pool_slot (s : UnimemStore) (d : u8) (key : bytes 32) : option (Pool * (nat * nat)) :=
  p ← u_pools s !! d; slot ← slots p !! key; Some (p, slot).

Definition uni_get (s : UnimemStore) (d : u8) (key : bytes 32) : option (option (list Goldilocks)) :=
  match pool_slot s d key with
  | Some (p, (idx, count)) => v ← pool_slice p idx count; Some (Some v)
  | None => entry_get s d key
  end.

(** The rows of a pool, in some order of the hash map, then those of the entries. *)
Definition uni_iter (s : UnimemStore) (d : u8) : option (list ShardEntry) :=
  pooled ← match u_pools s !! d with
           | Some p => mapM (fun '(k, (idx, count)) => v ← pool_slice p idx count; Some (k, v)) (map_to_list (slots p))
           | None => Some []
           end;
  single ← mapM (fun '(k, e) => v ← entry_slice e; Some (k.2, v)) (filter (fun '(k, _) => k.1 = d) (map_to_list (u_entries s)));
  Some (pooled ++ single).

(** [block] and [cell]. *)
Definition uni_block (s : UnimemStore) (d : u8) (key : bytes 32) : option (list u8) :=
  match u_entries s !! (d, key) with Some (Pinned block _) => Some block | _ => None end.
Definition uni_cell (s : UnimemStore) (d : u8) (key : bytes 32) : option (list u8 * nat) :=
  p ← u_pools s !! d; slot ← slots p !! key; Some (p_block p, slot.1).

(** ** Writes *)

(** The bytes of a cell: zeros, and as many elements as fit. *)
Definition cell_bytes (size : nat) (value : list Goldilocks) : list u8 :=
  resize size (of_Z 8 0) (serialize_goldilocks (take (min (length value) (size / 8)) value)).

Definition pool_put (p : Pool) (key : bytes 32) (value : list Goldilocks) : option Pool :=
  let '(idx, p) := alloc_slot p key in
  offset ← usize_mul idx (bytes_per_entry p);
  block ← write_at (p_block p) offset (cell_bytes (bytes_per_entry p) value);
  Some (mkPool block (bytes_per_entry p) (capacity p) (next_slot p) (<[key := (idx, length value)]> (slots p)) (p_free p)).

Definition uni_put (open : Opener) (d : u8) (key : bytes 32) (value : list Goldilocks) : SM StorageError UnimemStore unit :=
  _ ← sm_lift (check_dimension d);
  _ ← sm_require (zlen value <=? MAX_VALUE_ELEMENTS) (Limit "value element count");
  _ ← sm_modify (fun s => if decide (d = EPHEMERAL) then s else set_u_dirty s (u_dirty s ++ [((d, key), value)]));
  s ← sm_get;
  match u_pools s !! d with
  | Some p =>
      p ← sm_some (pool_put p key value);
      sm_modify (fun s => set_u_pools s (<[d := p]> (u_pools s)))
  | None =>
      entry ← match open (max (length value * 8) 8) with
              | Ok block => block ← sm_some (write_at block 0 (serialize_goldilocks value)); mret (Pinned block (length value))
              | Err _ => mret (Heap value)
              end;
      sm_modify (fun s => set_u_entries s (<[(d, key) := entry]> (u_entries s)))
  end.

(** [hash_dirty]. *)
Definition hash_dirty (dirty : list (EntryKey * list Goldilocks)) : bytes 32 :=
  hemera_hash (flat_map (fun e => e.1.1 :: blist e.1.2) dirty).

Definition uni_commit : SM StorageError UnimemStore (bytes 32) :=
  s ← sm_get;
  let out := hash_dirty (u_dirty s) in
  _ ← sm_modify (fun s => set_u_dirty s []);
  mret out.

(** The slice of a row written through by [f], which keeps the length of a slice. *)
Definition uni_get_mut (d : u8) (key : bytes 32) (f : list Goldilocks -> list Goldilocks) (s : UnimemStore) : option (option UnimemStore) :=
  match pool_slot s d key with
  | Some (p, (idx, count)) =>
      offset ← usize_mul idx (bytes_per_entry p);
      v ← raw_slice (p_block p) offset count;
      block ← write_at (p_block p) offset (serialize_goldilocks (f v));
      Some (Some (set_u_pools s (<[d := mkPool block (bytes_per_entry p) (capacity p) (next_slot p) (slots p) (p_free p)]> (u_pools s))))
  | None =>
      match u_entries s !! (d, key) with
      | None => Some None
      | Some (Heap v) => Some (Some (set_u_entries s (<[(d, key) := Heap (f v)]> (u_entries s))))
      | Some (Pinned block count) =>
          v ← raw_slice block 0 count;
          block ← write_at block 0 (serialize_goldilocks (f v));
          Some (Some (set_u_entries s (<[(d, key) := Pinned block count]> (u_entries s))))
      end
  end.

Definition uni_mark_dirty (d : u8) (key : bytes 32) : SM StorageError UnimemStore unit :=
  _ ← sm_lift (check_dimension d);
  if decide (d = EPHEMERAL) then mret tt
  else
    s ← sm_get;
    v ← sm_some (uni_get s d key);
    match v with
    | Some v => sm_modify (fun s => set_u_dirty s (u_dirty s ++ [((d, key), v)]))
    | None => mret tt
    end.

Definition pool_remove (p : Pool) (key : bytes 32) : Pool :=
  match slots p !! key with
  | Some (idx, _) => mkPool (p_block p) (bytes_per_entry p) (capacity p) (next_slot p) (delete key (slots p)) (p_free p ++ [idx])
  | None => p
  end.

Definition drop_row (d : u8) (key : bytes 32) (s : UnimemStore) : UnimemStore :=
  let s := match u_pools s !! d with
           | Some p => set_u_pools s (<[d := pool_remove p key]> (u_pools s))
           | None => set_u_entries s (delete (d, key) (u_entries s))
           end in
  set_u_dirty s (filter (fun e => e.1 <> (d, key)) (u_dirty s)).

Definition uni_remove (d : u8) (key : bytes 32) : SM StorageError UnimemStore (option (list Goldilocks)) :=
  _ ← sm_lift (check_dimension d);
  s ← sm_get;
  v ← sm_some (uni_get s d key);
  match v with
  | None => mret None
  | Some v => _ ← sm_modify (drop_row d key); mret (Some v)
  end.

(** [reserve_pool]: its own errors are those of the unimem crate. *)
Definition reserve_pool (open : Opener) (d : u8) (expected_count bpe : nat) : SM MemError UnimemStore unit :=
  total ← sm_some (usize_mul expected_count bpe);
  block ← sm_lift (open (max total 8));
  sm_modify (fun s => set_u_pools s (<[d := mkPool block bpe expected_count 0 ∅ []]> (u_pools s))).

End Unimem.
