(* ===== verification/Cells.v ===== *)
(** * Memory cells of the shared-memory store

    Writing a cell stores its elements and keeps every word outside it; the pool invariant: cells of
    different keys are disjoint, and a cell holds the value of its key. *)

From S2P Require Import Prelude.
From S2P Require Import Crypto.
From S2P Require Import Access.
From S2P Require Import Shard.
From S2P Require Import Unimem.

Local Open Scope Z_scope.

Section Cells.
  Context `{Nebu, Hemera, !Raw, !RawLaws}.

(** ** Bytes *)

Lemma write_at_ok bytes offset cell : (offset + length cell <= length bytes)%nat ->
  exists bytes', write_at bytes offset cell = Some bytes' /\ length bytes' = length bytes
    /\ (forall i, (offset <= i)%nat -> (i + 8 <= offset + length cell)%nat -> word_at bytes' i = word_at cell (i - offset))
    /\ (forall i, (i + 8 <= offset \/ offset + length cell <= i)%nat -> word_at bytes' i = word_at bytes i).
Proof.
  intros Hl. unfold write_at. rewrite (proj2 (Nat.leb_le _ _)) by done. eexists. split; [done|].
  assert (length (take offset bytes) = offset) as Ht by (rewrite length_take; lia).
  split; [rewrite !length_app, Ht, length_drop; lia|]. unfold word_at. split.
  - intros i Hi Hi'. rewrite drop_app_ge, Ht by lia. rewrite drop_app_le by lia. rewrite take_app_le; [done|]. rewrite length_drop. lia.
  - intros i [Hi|Hi].
    + rewrite drop_app_le by lia. rewrite take_app_le by (rewrite length_drop; lia). rewrite <- (take_drop offset bytes) at 2. rewrite drop_app_le by lia.
      by rewrite take_app_le by (rewrite length_drop; lia).
    + rewrite drop_app_ge, Ht by lia. rewrite drop_app_ge by lia. rewrite drop_drop. do 3 f_equal. lia.
Qed.

Lemma word_at_serialize vals i x rest : vals !! i = Some x -> word_at (serialize_goldilocks vals ++ rest) (8 * i) = g_as_u64 x.
Proof.
  intros Hx. rewrite <- (take_drop_middle vals i x Hx). pose proof (lookup_lt_Some _ _ _ Hx) as Hi. unfold word_at, serialize_goldilocks. rewrite flat_map_app. cbn [flat_map].
  rewrite <- !app_assoc. fold (serialize_goldilocks (take i vals)). rewrite drop_app_length' by (rewrite length_serialize, length_take; lia).
  rewrite take_app_length' by by rewrite length_blist. by rewrite from_to_le_bytes.
Qed.

(** A value stored at an offset. *)
Record stored (block : list u8) (offset : nat) (v : list Goldilocks) : Prop := {
  st_fits : (offset + 8 * length v <= length block)%nat;
  st_words : forall i x, v !! i = Some x -> word_at block (offset + 8 * i) = g_as_u64 x;
}.

Lemma stored_slice block offset v : (offset mod 8 = 0)%nat -> stored block offset v -> raw_slice block offset (length v) = Some v.
Proof.
  intros Hm [Hf Hw]. unfold raw_slice. rewrite (proj2 (Nat.eqb_eq _ _)) by done. rewrite (proj2 (Nat.leb_le _ _)) by done. cbn [andb]. f_equal.
  apply list_eq. intros i. change (map ?f ?l) with (f <$> l). rewrite list_lookup_fmap. destruct (v !! i) as [x|] eqn:Ex.
  - rewrite lookup_seq_lt by by eapply lookup_lt_Some. cbn [fmap option_fmap option_map Nat.add]. by rewrite (Hw i x Ex), g_raw_round.
  - apply lookup_ge_None in Ex. by rewrite lookup_seq_ge.
Qed.

Lemma slice_stored block offset count v : raw_slice block offset count = Some v -> length v = count /\ (offset mod 8 = 0)%nat /\ (offset + 8 * count <= length block)%nat.
Proof.
  unfold raw_slice. destruct (_ =? _)%nat eqn:Em; [|done]. destruct (_ <=? _)%nat eqn:El; [|done]. intros [= <-]. rewrite length_map, length_seq.
  apply Nat.eqb_eq in Em. by apply Nat.leb_le in El.
Qed.

Lemma length_cell size v : length (cell_bytes size v) = size.
Proof. apply length_resize. Qed.

Lemma cell_app size v : (8 * length v <= size)%nat -> exists rest, cell_bytes size v = serialize_goldilocks v ++ rest.
Proof.
  intros Hv. unfold cell_bytes. pose proof (Nat.div_le_lower_bound size 8 (length v) ltac:(lia) ltac:(lia)). rewrite Nat.min_l, take_ge by lia.
  rewrite resize_ge by (rewrite length_serialize; lia). by eexists.
Qed.

Lemma write_stored block offset cell v rest : (offset + length cell <= length block)%nat -> cell = serialize_goldilocks v ++ rest ->
  exists block', write_at block offset cell = Some block' /\ length block' = length block /\ stored block' offset v
    /\ forall offset' w, (offset' + 8 * length w <= offset \/ offset + length cell <= offset')%nat -> stored block offset' w -> stored block' offset' w.
Proof.
  intros Hl Ec. destruct (write_at_ok block offset cell Hl) as (block' & E & Hlen & Hin & Hout). exists block'. split_and!; [done|done|..].
  - assert (8 * length v <= length cell)%nat as Hv by (rewrite Ec, length_app, length_serialize; lia). split; [lia|]. intros i x Hx.
    pose proof (lookup_lt_Some _ _ _ Hx). rewrite Hin by lia. replace (offset + 8 * i - offset)%nat with (8 * i)%nat by lia. rewrite Ec. by apply word_at_serialize.
  - intros offset' w Hd [Hf Hw]. split; [lia|]. intros i x Hx. pose proof (lookup_lt_Some _ _ _ Hx). rewrite Hout by lia. by apply Hw.
Qed.

(** ** Pools *)

(** The pool of rows: cells within the block, disjoint, and a free list of the others. *)
Record PoolRep (p : Pool) (m : gmap (bytes 32) (list Goldilocks)) : Prop := {
  pr_block : (capacity p * bytes_per_entry p <= length (p_block p))%nat;
  pr_width : Z.of_nat (length (p_block p)) < 2 ^ 64;
  pr_align : (bytes_per_entry p mod 8 = 0)%nat;
  pr_rows : forall k, match slots p !! k, m !! k with
    | Some (idx, count), Some v => (idx < next_slot p)%nat /\ count = length v /\ (8 * length v <= bytes_per_entry p)%nat /\ stored (p_block p) (idx * bytes_per_entry p) v
    | None, None => True
    | _, _ => False
    end;
  pr_inj : forall k k' idx c c', slots p !! k = Some (idx, c) -> slots p !! k' = Some (idx, c') -> k = k';
  pr_free : NoDup (p_free p) /\ Forall (fun i => (i < next_slot p)%nat /\ forall k c, slots p !! k <> Some (i, c)) (p_free p);
  pr_count : (next_slot p = size (slots p) + length (p_free p))%nat;
  pr_room : (next_slot p <= capacity p)%nat;
}.

Lemma slot_offset p m idx : PoolRep p m -> (idx < next_slot p)%nat ->
  usize_mul idx (bytes_per_entry p) = Some (idx * bytes_per_entry p)%nat /\ ((idx * bytes_per_entry p) mod 8 = 0)%nat
  /\ (idx * bytes_per_entry p + bytes_per_entry p <= length (p_block p))%nat.
Proof.
  intros [Hb Hw Ha _ _ _ _ Hr] Hi. assert ((idx + 1) * bytes_per_entry p <= capacity p * bytes_per_entry p)%nat by (apply Nat.mul_le_mono_r; lia).
  split_and!; [|by rewrite Nat.Div0.mul_mod, Ha, Nat.mul_0_r|lia]. unfold usize_mul. rewrite (proj2 (Z.leb_gt _ _)); [done|]. lia.
Qed.

(** What a pool answers for a key. *)
Lemma pool_row p m k idx count v : PoolRep p m -> slots p !! k = Some (idx, count) -> m !! k = Some v ->
  count = length v /\ pool_slice p idx count = Some v /\ (8 * length v <= bytes_per_entry p)%nat.
Proof.
  intros Hp Es Em. pose proof (pr_rows _ _ Hp k) as Hk. rewrite Es, Em in Hk. destruct Hk as (Hi & -> & Hf & Hs).
  destruct (slot_offset _ _ idx Hp Hi) as (E & Ha & _). split_and!; [done| |done]. unfold pool_slice. rewrite E. cbn [mbind option_bind]. by apply stored_slice.
Qed.

Lemma pool_dom p m k : PoolRep p m -> slots p !! k = None <-> m !! k = None.
Proof. intros Hp. pose proof (pr_rows _ _ Hp k) as Hk. destruct (slots p !! k) as [[]|], (m !! k); try done; by split. Qed.

Lemma pool_size p m : PoolRep p m -> size (slots p) = size m.
Proof.
  intros Hp. assert (dom (slots p) = dom m) as E.
  { apply set_eq. intros k. rewrite !elem_of_dom. rewrite <- !not_eq_None_Some. by rewrite (pool_dom p m k Hp). }
  by rewrite <- !size_dom, E.
Qed.

Lemma last_split {A} (l : list A) x : last l = Some x -> exists l', l = l' ++ [x] /\ removelast l = l'.
Proof. intros [l0 ->]%last_Some. exists l0. by rewrite removelast_last. Qed.

(** Allocation answers a slot that no other key has. *)
Lemma alloc_slot_ok p m key : PoolRep p m -> (m !! key <> None \/ size m < capacity p)%nat ->
  exists idx p', alloc_slot p key = (idx, p') /\ p_block p' = p_block p /\ bytes_per_entry p' = bytes_per_entry p /\ capacity p' = capacity p /\ slots p' = slots p
    /\ (idx < next_slot p')%nat /\ (next_slot p <= next_slot p')%nat /\ (next_slot p' <= capacity p)%nat /\ (forall k c, slots p !! k = Some (idx, c) -> k = key)
    /\ NoDup (p_free p') /\ Forall (fun i => (i < next_slot p')%nat /\ i <> idx /\ forall k c, slots p !! k <> Some (i, c)) (p_free p')
    /\ (next_slot p' = size (slots p) + (if slots p !! key then 0 else 1) + length (p_free p'))%nat.
Proof.
  intros Hp Hroom. pose proof Hp as [Hb Hw Ha Hrows Hinj [Hnd Hfree] Hcount Hr]. unfold alloc_slot. destruct (slots p !! key) as [[idx c]|] eqn:Ek.
  - exists idx, p. pose proof (Hrows key) as Hk. rewrite Ek in Hk. destruct (m !! key); [|done]. destruct Hk as (Hi & _).
    split_and!; try done; [intros k c' Hk'; by eapply Hinj| |lia]. eapply Forall_impl; [exact Hfree|]. intros i [Hlt Hno]. split_and!; [done| |done]. intros ->. by eapply Hno.
  - assert (size m < capacity p)%nat as Hsz by (destruct Hroom as [Hn|]; [|done]; by apply (pool_dom p m key Hp) in Ek).
    destruct (last (p_free p)) as [idx|] eqn:El.
    + apply last_split in El as (l & El & Erem). rewrite El in Hnd, Hfree, Hcount. apply Forall_app in Hfree as [Hf [Hidx _]%Forall_cons]. apply NoDup_app in Hnd as (Hnd & Hdis & _).
      rewrite length_app in Hcount. cbn [length] in Hcount. eexists _, _. split; [done|]. cbn [p_block bytes_per_entry capacity slots next_slot p_free]. rewrite Erem.
      split_and!; try done; try lia; [intros k c Hk; by apply Hidx in Hk|]. apply Forall_forall. intros i Hi. rewrite Forall_forall in Hf. destruct (Hf i Hi) as [Hlt Hno].
      split_and!; [done| |done]. intros ->. apply (Hdis idx Hi). by left.
    + apply last_None in El. rewrite El in *. cbn [length] in Hcount. pose proof (pool_size p m Hp). eexists _, _. split; [done|]. cbn [p_block bytes_per_entry capacity slots next_slot p_free].
      cbn [length]. split_and!; try done; try lia. intros k c Hk. pose proof (Hrows k) as Hk'. rewrite Hk in Hk'. destruct (m !! k); [|done]. lia.
Qed.

(** Putting a value that fits a cell changes the row of its key and no other. *)
Lemma pool_put_ok p m key v : PoolRep p m -> (8 * length v <= bytes_per_entry p)%nat -> (m !! key <> None \/ size m < capacity p)%nat ->
  exists p', pool_put p key v = Some p' /\ PoolRep p' (<[key := v]> m) /\ capacity p' = capacity p /\ bytes_per_entry p' = bytes_per_entry p.
Proof.
  intros Hp Hv Hroom. pose proof Hp as [Hb Hw Ha Hrows Hinj _ _ _]. destruct (alloc_slot_ok p m key Hp Hroom) as (idx & q & E & Eb & Ebpe & Ecap & Es & Hlt & Hmono & Hcap & Hown & Hnd & Hfree & Hcount).
  unfold pool_put. rewrite E. cbn [mbind option_bind]. rewrite Ebpe.
  assert ((idx + 1) * bytes_per_entry p <= capacity p * bytes_per_entry p)%nat by (apply Nat.mul_le_mono_r; lia).
  assert (usize_mul idx (bytes_per_entry p) = Some (idx * bytes_per_entry p)%nat) as -> by (unfold usize_mul; rewrite (proj2 (Z.leb_gt _ _)); [done|lia]).
  cbn [mbind option_bind]. rewrite Eb. destruct (cell_app (bytes_per_entry p) v Hv) as [rest Ecell].
  destruct (write_stored (p_block p) (idx * bytes_per_entry p) (cell_bytes (bytes_per_entry p) v) v rest) as (block & -> & Hlen & Hst & Hkeep); [rewrite length_cell; lia|done|].
  cbn [mbind option_bind]. eexists. split; [done|]. cbn [capacity bytes_per_entry]. split; [|done].
  assert (forall k i c, k <> key -> slots p !! k = Some (i, c) -> i <> idx) as Hother by (intros k i c Hne Hk ->; by apply Hown in Hk).
  split; cbn [p_block capacity bytes_per_entry slots next_slot p_free].
  - by rewrite Hlen, Ecap.
  - by rewrite Hlen.
  - done.
  - intros k. rewrite Es. destruct (decide (k = key)) as [->|Hne]; [by rewrite !lookup_insert_eq|]. rewrite !lookup_insert_ne by done. pose proof (Hrows k) as Hk.
    destruct (slots p !! k) as [[i c]|] eqn:Ek, (m !! k) as [w|]; try done. destruct Hk as (Hi & -> & Hf & Hs). split_and!; [lia|done..|].
    apply Hkeep; [|done]. rewrite length_cell. pose proof (Hother k i _ Hne Ek). assert (i < idx \/ idx < i)%nat as [?|?] by lia.
    + left. assert ((i + 1) * bytes_per_entry p <= idx * bytes_per_entry p)%nat by (apply Nat.mul_le_mono_r; lia). lia.
    + right. assert ((idx + 1) * bytes_per_entry p <= i * bytes_per_entry p)%nat by (apply Nat.mul_le_mono_r; lia). lia.
  - rewrite Es. intros k k' i c c' [[-> [= <- <-]]|[Hne Hk]]%lookup_insert_Some [[-> E2]|[Hne' Hk']]%lookup_insert_Some; try congruence.
    + exfalso. by eapply (Hother k'); [|exact Hk'|].
    + exfalso. injection E2 as <- _. by eapply (Hother k); [|exact Hk|].
    + by eapply Hinj.
  - split; [done|]. eapply Forall_impl; [exact Hfree|]. intros i (Hi & Hne & Hno). split; [done|]. rewrite Es. intros k c [[_ [= ? _]]|[_ Hk]]%lookup_insert_Some; [done|]. by eapply Hno.
  - rewrite Es, map_size_insert, Hcount. destruct (slots p !! key); simpl; lia.
  - lia.
Qed.

(** Removing a key frees its slot and keeps the other rows. *)
Lemma pool_remove_ok p m key : PoolRep p m -> PoolRep (pool_remove p key) (delete key m) /\ capacity (pool_remove p key) = capacity p /\ bytes_per_entry (pool_remove p key) = bytes_per_entry p.
Proof.
  intros Hp. pose proof Hp as [Hb Hw Ha Hrows Hinj [Hnd Hfree] Hcount Hr]. unfold pool_remove. destruct (slots p !! key) as [[idx c]|] eqn:Ek.
  - split; [|done]. split; cbn [p_block capacity bytes_per_entry slots next_slot p_free]; [done..| | | | |done].
    + intros k. destruct (decide (k = key)) as [->|Hne]; [by rewrite !lookup_delete_eq|]. rewrite !lookup_delete_ne by done. apply Hrows.
    + intros k k' i c1 c2 [_ Hk]%lookup_delete_Some [_ Hk']%lookup_delete_Some. by eapply Hinj.
    + split.
      * apply NoDup_app. split_and!; [done| |apply NoDup_singleton]. intros i Hi ->%list_elem_of_singleton. rewrite Forall_forall in Hfree. by apply (Hfree idx Hi) in Ek.
      * apply Forall_app. split.
        -- eapply Forall_impl; [exact Hfree|]. intros i [Hi Hno]. split; [done|]. intros k c' [_ Hk]%lookup_delete_Some. by apply Hno in Hk.
        -- apply Forall_singleton. pose proof (Hrows key) as Hk. rewrite Ek in Hk. destruct (m !! key); [|done]. split; [apply Hk|].
           intros k c' [Hne Hk']%lookup_delete_Some. apply Hne. by eapply Hinj.
    + rewrite length_app. cbn [length]. rewrite <- (insert_delete_id (slots p) key _ Ek), map_size_insert_None in Hcount by apply lookup_delete_eq. lia.
  - split; [|done]. assert (delete key m = m) as -> by (apply delete_id; by apply (pool_dom p m key Hp)). done.
Qed.

(** A write through the slice of a row keeps the other rows. *)
Lemma pool_write_ok p m key idx count v w : PoolRep p m -> slots p !! key = Some (idx, count) -> m !! key = Some v -> length w = length v ->
  exists block, write_at (p_block p) (idx * bytes_per_entry p) (serialize_goldilocks w) = Some block
    /\ PoolRep (mkPool block (bytes_per_entry p) (capacity p) (next_slot p) (slots p) (p_free p)) (<[key := w]> m).
Proof.
  intros Hp Ek Em Hl. pose proof Hp as [Hb Hw Ha Hrows Hinj Hfree Hcount Hr]. pose proof (Hrows key) as Hk. rewrite Ek, Em in Hk. destruct Hk as (Hi & -> & Hf & Hs).
  destruct (slot_offset p m idx Hp Hi) as (_ & _ & Hend).
  destruct (write_stored (p_block p) (idx * bytes_per_entry p) (serialize_goldilocks w) w []) as (block & E & Hlen & Hst & Hkeep); [rewrite length_serialize; lia|by rewrite app_nil_r|].
  exists block. split; [done|]. split; cbn [p_block capacity bytes_per_entry slots next_slot p_free]; [by rewrite Hlen|by rewrite Hlen|done| |done..].
  intros k. destruct (decide (k = key)) as [->|Hne].
  - rewrite Ek, lookup_insert_eq, Hl. split_and!; [done..|]. done.
  - rewrite lookup_insert_ne by done. pose proof (Hrows k) as Hk. destruct (slots p !! k) as [[i c]|] eqn:Ek', (m !! k) as [u|]; try done. destruct Hk as (Hi' & -> & Hf' & Hs').
    split_and!; [done..|]. apply Hkeep; [|done]. rewrite length_serialize. assert (i <> idx) by (intros ->; by apply Hne; eapply Hinj). assert (i < idx \/ idx < i)%nat as [?|?] by lia.
    + left. assert ((i + 1) * bytes_per_entry p <= idx * bytes_per_entry p)%nat by (apply Nat.mul_le_mono_r; lia). lia.
    + right. assert ((idx + 1) * bytes_per_entry p <= i * bytes_per_entry p)%nat by (apply Nat.mul_le_mono_r; lia). lia.
Qed.

End Cells.
