(* ===== verification/UnimemSpec.v ===== *)
(** * The shared-memory store is a table

    Histories that respect the pools answer for a table of rows; a cell stays where it is; and what
    happens to histories that do not: a value longer than its cell reads into the next one, a full
    pool panics, and a row put before its pool survives its removal. *)

From S2P Require Import Prelude.
From S2P Require Import Crypto.
From S2P Require Import Access.
From S2P Require Import Buffer.
From S2P Require Import Shard.
From S2P Require Import Unimem.
From S2P Require Import Cells.

Local Open Scope Z_scope.

(** ** Histories *)

Section Spec.
  Context `{Nebu, Hemera, !Raw}.

Inductive uni_op :=
| UGet (d : u8) (k : bytes 32)
| UPut (open : Opener) (d : u8) (k : bytes 32) (v : list Goldilocks)
| UGetMut (d : u8) (k : bytes 32) (f : list Goldilocks -> list Goldilocks)
| UMarkDirty (d : u8) (k : bytes 32)
| URemove (d : u8) (k : bytes 32)
| UCommit
| UReserve (open : Opener) (d : u8) (expected_count bpe : nat).

Inductive uni_out :=
| ARow (v : option (list Goldilocks))
| ADone (r : StorageResult unit)
| AWrote (b : bool)
| ARemoved (r : StorageResult (option (list Goldilocks)))
| AId (r : StorageResult (bytes 32))
| AReserved (r : result MemError unit).

Definition uni_step (o : uni_op) (s : UnimemStore) : option (uni_out * UnimemStore) :=
  match o with
  | UGet d k => v ← uni_get s d k; Some (ARow v, s)
  | UPut open d k v => '(r, s) ← uni_put open d k v s; Some (ADone r, s)
  | UGetMut d k f => r ← uni_get_mut d k f s; Some (match r with Some s => (AWrote true, s) | None => (AWrote false, s) end)
  | UMarkDirty d k => '(r, s) ← uni_mark_dirty d k s; Some (ADone r, s)
  | URemove d k => '(r, s) ← uni_remove d k s; Some (ARemoved r, s)
  | UCommit => '(r, s) ← uni_commit s; Some (AId r, s)
  | UReserve open d n bpe => '(r, s) ← reserve_pool open d n bpe s; Some (AReserved r, s)
  end.

Fixpoint uni_run (ops : list uni_op) (s : UnimemStore) : option (list uni_out * UnimemStore) :=
  match ops with
  | [] => Some ([], s)
  | o :: ops => '(r, s) ← uni_step o s; '(rs, s) ← uni_run ops s; Some (r :: rs, s)
  end.

(** ** The table *)

(** Rows, unpublished changes, and the cell size and capacity of each pool. *)
Record Table := mkTable {
  t_rows : Rows;
  t_dirty : list (EntryKey * list Goldilocks);
  t_pools : gmap u8 (nat * nat);
}.

Definition table_new : Table := mkTable ∅ [] ∅.

Definition table_step (o : uni_op) (t : Table) : uni_out * Table :=
  match o with
  | UGet d k => (ARow (t_rows t !! (d, k)), t)
  | UPut _ d k v =>
      if 13 <? uval d then (ADone (Err (InvalidDimension d)), t)
      else if MAX_VALUE_ELEMENTS <? zlen v then (ADone (Err (Limit "value element count")), t)
      else (ADone (Ok tt), mkTable (<[(d, k) := v]> (t_rows t)) (if decide (d = EPHEMERAL) then t_dirty t else t_dirty t ++ [((d, k), v)]) (t_pools t))
  | UGetMut d k f =>
      match t_rows t !! (d, k) with
      | Some v => (AWrote true, mkTable (<[(d, k) := f v]> (t_rows t)) (t_dirty t) (t_pools t))
      | None => (AWrote false, t)
      end
  | UMarkDirty d k =>
      if 13 <? uval d then (ADone (Err (InvalidDimension d)), t)
      else if decide (d = EPHEMERAL) then (ADone (Ok tt), t)
      else match t_rows t !! (d, k) with
           | Some v => (ADone (Ok tt), mkTable (t_rows t) (t_dirty t ++ [((d, k), v)]) (t_pools t))
           | None => (ADone (Ok tt), t)
           end
  | URemove d k =>
      if 13 <? uval d then (ARemoved (Err (InvalidDimension d)), t)
      else match t_rows t !! (d, k) with
           | Some v => (ARemoved (Ok (Some v)), mkTable (delete (d, k) (t_rows t)) (filter (fun e => e.1 <> (d, k)) (t_dirty t)) (t_pools t))
           | None => (ARemoved (Ok None), t)
           end
  | UCommit => (AId (Ok (hash_dirty (t_dirty t))), mkTable (t_rows t) [] (t_pools t))
  | UReserve open d n bpe =>
      match open (max (n * bpe) 8) with
      | Ok _ => (AReserved (Ok tt), mkTable (t_rows t) (t_dirty t) (<[d := (bpe, n)]> (t_pools t)))
      | Err e => (AReserved (Err e), t)
      end
  end.

Fixpoint table_run (ops : list uni_op) (t : Table) : list uni_out * Table :=
  match ops with
  | [] => ([], t)
  | o :: ops => let '(r, t) := table_step o t in let '(rs, t) := table_run ops t in (r :: rs, t)
  end.

(** The rows of a dimension. *)
Definition dim_part (rows : Rows) (d : u8) : gmap (bytes 32) (list Goldilocks) := default ∅ (map_curry (M1 := gmap u8) (M2 := gmap (bytes 32)) rows !! d).

(** What a caller has to respect: a value fits its cell, a new key of a pool has a cell left, a
    write through a slice keeps its length, and a pool of whole words is reserved while its
    dimension has no row. A block is as long as asked, and a [usize] counts it. *)
Definition admissible (o : uni_op) (t : Table) : Prop :=
  match o with
  | UPut open d k v => opener_ok open
      /\ match t_pools t !! d with
         | Some (bpe, cap) => (8 * length v <= bpe)%nat /\ (t_rows t !! (d, k) <> None \/ size (dim_part (t_rows t) d) < cap)%nat
         | None => True
         end
  | UGetMut d k f => forall v, length (f v) = length v
  | UReserve open d n bpe => opener_ok open /\ (forall m b, open m = Ok b -> Z.of_nat (length b) < 2 ^ 64)
      /\ (bpe mod 8 = 0)%nat /\ Z.of_nat n * Z.of_nat bpe < 2 ^ 64 /\ forall k, t_rows t !! (d, k) = None
  | _ => True
  end.

Fixpoint admissible_run (ops : list uni_op) (t : Table) : Prop :=
  match ops with
  | [] => True
  | o :: ops => admissible o t /\ admissible_run ops (table_step o t).2
  end.

End Spec.

(** ** Representation *)

Section Refine.
  Context `{Nebu, Hemera, !Raw, !RawLaws}.

Lemma dim_part_lookup (rows : Rows) d k : dim_part rows d !! k = rows !! (d, k).
Proof.
  unfold dim_part. rewrite <- (lookup_map_curry (M1 := gmap u8) (M2 := gmap (bytes 32)) rows d k). destruct (map_curry rows !! d); [done|]. apply lookup_empty.
Qed.

Lemma dim_part_insert (rows : Rows) d k v : dim_part (<[(d, k) := v]> rows) d = <[k := v]> (dim_part rows d).
Proof.
  apply map_eq. intros k'. rewrite dim_part_lookup. destruct (decide (k = k')) as [->|Hne]; [by rewrite !lookup_insert_eq|].
  rewrite !lookup_insert_ne by congruence. by rewrite dim_part_lookup.
Qed.

Lemma dim_part_delete (rows : Rows) d k : dim_part (delete (d, k) rows) d = delete k (dim_part rows d).
Proof.
  apply map_eq. intros k'. rewrite dim_part_lookup. destruct (decide (k = k')) as [->|Hne]; [by rewrite !lookup_delete_eq|].
  rewrite !lookup_delete_ne by congruence. by rewrite dim_part_lookup.
Qed.

Lemma dim_part_other (rows rows' : Rows) d : (forall k, rows' !! (d, k) = rows !! (d, k)) -> dim_part rows' d = dim_part rows d.
Proof. intros E. apply map_eq. intros k. by rewrite !dim_part_lookup. Qed.

Definition entry_holds (e : option Entry) (v : option (list Goldilocks)) : Prop :=
  match e, v with
  | Some (Heap w), Some v => w = v
  | Some (Pinned block count), Some v => count = length v /\ stored block 0 v
  | None, None => True
  | _, _ => False
  end.

(** One dimension: its pool, or its entries. *)
Definition dim_holds (s : UnimemStore) (t : Table) (d : u8) : Prop :=
  match u_pools s !! d, t_pools t !! d with
  | Some p, Some (bpe, cap) => bytes_per_entry p = bpe /\ capacity p = cap /\ PoolRep p (dim_part (t_rows t) d) /\ forall k, u_entries s !! (d, k) = None
  | None, None => forall k, entry_holds (u_entries s !! (d, k)) (t_rows t !! (d, k))
  | _, _ => False
  end.

Record UniRep (s : UnimemStore) (t : Table) : Prop := {
  ur_dirty : u_dirty s = t_dirty t;
  ur_dims : forall d, dim_holds s t d;
}.

(** A dimension that neither side changed. *)
Lemma dim_holds_same s s' t t' d : u_pools s' !! d = u_pools s !! d -> t_pools t' !! d = t_pools t !! d ->
  (forall k, u_entries s' !! (d, k) = u_entries s !! (d, k)) -> (forall k, t_rows t' !! (d, k) = t_rows t !! (d, k)) -> dim_holds s t d -> dim_holds s' t' d.
Proof.
  intros Ep Et Ee Er. unfold dim_holds. rewrite Ep, Et, (dim_part_other (t_rows t) (t_rows t') d Er). destruct (u_pools s !! d), (t_pools t !! d) as [[]|]; try done.
  - intros (? & ? & ? & He). split_and!; [done..|]. intros k. by rewrite Ee.
  - intros Hd k. by rewrite Ee, Er.
Qed.

Lemma entry_holds_slice e v : entry_holds (Some e) (Some v) -> entry_slice e = Some v.
Proof. destruct e as [block count|w]; [intros [-> Hs]; by apply stored_slice|by intros ->]. Qed.

Lemma uni_get_ok s t d k : UniRep s t -> uni_get s d k = Some (t_rows t !! (d, k)).
Proof.
  intros [_ Hd]. specialize (Hd d). unfold dim_holds in Hd. unfold uni_get, pool_slot. destruct (u_pools s !! d) as [p|] eqn:Ep, (t_pools t !! d) as [[bpe cap]|]; try done; cbn [mbind option_bind].
  - destruct Hd as (_ & _ & Hp & He). rewrite <- dim_part_lookup. destruct (slots p !! k) as [[idx count]|] eqn:Es; cbn [mbind option_bind].
    + destruct (dim_part (t_rows t) d !! k) as [v|] eqn:Em; [|by apply (pool_dom p _ k Hp) in Em; congruence].
      destruct (pool_row p _ k idx count v Hp Es Em) as (_ & -> & _). done.
    + apply (pool_dom p _ k Hp) in Es as ->. unfold entry_get. by rewrite He.
  - specialize (Hd k). unfold entry_get. destruct (u_entries s !! (d, k)) as [e|], (t_rows t !! (d, k)) as [v|]; try done.
    + by rewrite (entry_holds_slice e v Hd).
    + by destruct e.
Qed.

Lemma dirty_rep s t x : UniRep s t -> UniRep (set_u_dirty s x) (mkTable (t_rows t) x (t_pools t)).
Proof. intros [_ Hd]. split; [done|]. intros d. by apply (dim_holds_same s _ t). Qed.

(** Writing the row of a key, in the pool or in the entries. *)
Lemma pool_row_rep s t d k p bpe cap rows' dirty : UniRep s t -> (forall d' k', (d', k') <> (d, k) -> rows' !! (d', k') = t_rows t !! (d', k')) -> u_dirty s = dirty ->
  u_pools s !! d <> None -> t_pools t !! d = Some (bpe, cap) -> bytes_per_entry p = bpe -> capacity p = cap -> PoolRep p (dim_part rows' d) ->
  UniRep (set_u_pools s (<[d := p]> (u_pools s))) (mkTable rows' dirty (t_pools t)).
Proof.
  intros [_ Hd] Hr Ed Hpool Et Hb Hc Hp. split; [done|]. intros d'. destruct (decide (d' = d)) as [->|Hne].
  - specialize (Hd d). unfold dim_holds in *. cbn [set_u_pools u_pools u_entries t_pools t_rows]. rewrite lookup_insert_eq, Et in *. destruct (u_pools s !! d); [|done].
    destruct Hd as (_ & _ & _ & He). done.
  - apply (dim_holds_same s _ t); [by apply lookup_insert_ne|done|done| |done]. intros k'. apply Hr. congruence.
Qed.

Lemma entry_row_rep s t d k e rows' dirty : UniRep s t -> (forall d' k', (d', k') <> (d, k) -> rows' !! (d', k') = t_rows t !! (d', k')) -> u_dirty s = dirty ->
  u_pools s !! d = None -> entry_holds e (rows' !! (d, k)) ->
  UniRep (set_u_entries s (partial_alter (fun _ => e) (d, k) (u_entries s))) (mkTable rows' dirty (t_pools t)).
Proof.
  intros [_ Hd] Hr Ed Hpool He. split; [done|]. intros d'. destruct (decide (d' = d)) as [->|Hne].
  - specialize (Hd d). unfold dim_holds in *. cbn [set_u_entries u_pools u_entries t_pools t_rows]. rewrite Hpool in *. destruct (t_pools t !! d); [done|].
    intros k'. destruct (decide (k' = k)) as [->|Hne]; [by rewrite lookup_partial_alter_eq|]. rewrite lookup_partial_alter_ne by congruence. rewrite Hr by congruence. apply Hd.
  - apply (dim_holds_same s _ t); [done|done| | |done]; intros k'; [by apply lookup_partial_alter_ne; congruence|apply Hr; congruence].
Qed.

Lemma insert_other (rows : Rows) d k v d' k' : (d', k') <> (d, k) -> <[(d, k) := v]> rows !! (d', k') = rows !! (d', k').
Proof. intros Hne. by apply lookup_insert_ne. Qed.

Lemma delete_other (rows : Rows) d k d' k' : (d', k') <> (d, k) -> delete (d, k) rows !! (d', k') = rows !! (d', k').
Proof. intros Hne. by apply lookup_delete_ne. Qed.

(** ** Steps *)

Lemma uni_put_ok s t open d k v : UniRep s t -> admissible (UPut open d k v) t ->
  exists s', uni_step (UPut open d k v) s = Some ((table_step (UPut open d k v) t).1, s') /\ UniRep s' (table_step (UPut open d k v) t).2.
Proof.
  intros Hs [Hopen Hadm]. unfold uni_step, uni_put, table_step. sm_run. rewrite check_dimension_eq. destruct (13 <? uval d); [by exists s|]. sm_run.
  unfold sm_require. rewrite Z.ltb_antisym. destruct (zlen v <=? MAX_VALUE_ELEMENTS) eqn:El; cbn [negb]; [|by exists s]. sm_run. clear El.
  set (s1 := if decide (d = EPHEMERAL) then s else _). set (dirty := if decide (d = EPHEMERAL) then _ else _).
  assert (UniRep s1 (mkTable (t_rows t) dirty (t_pools t))) as Hs1.
  { unfold s1, dirty. rewrite (ur_dirty s t Hs). case_decide; [by destruct t|by apply dirty_rep]. }
  assert (u_pools s1 = u_pools s) as Ep by (unfold s1; by case_decide). pose proof (ur_dims s t Hs d) as Hd. unfold dim_holds in Hd. rewrite <- Ep in Hd.
  destruct (u_pools s1 !! d) as [p|] eqn:Epool, (t_pools t !! d) as [[bpe cap]|] eqn:Et; try done.
  - destruct Hadm as [Hfit Hroom], Hd as (<- & <- & Hp & _). rewrite <- dim_part_lookup in Hroom. destruct (pool_put_ok p _ k v Hp Hfit Hroom) as (p' & -> & Hp' & Hc & Hb). cbn [mbind option_bind sm_modify].
    eexists. split; [done|]. eapply (pool_row_rep s1 (mkTable (t_rows t) dirty (t_pools t)) d k p'); try done; [intros; by apply insert_other|apply Hs1|by rewrite Epool|]. by rewrite dim_part_insert.
  - assert (forall e, entry_holds (Some e) (Some v) -> UniRep (set_u_entries s1 (<[(d, k) := e]> (u_entries s1))) (mkTable (<[(d, k) := v]> (t_rows t)) dirty (t_pools t))) as Hrep.
    { intros e He. apply (entry_row_rep s1 (mkTable (t_rows t) dirty (t_pools t)) d k (Some e)); try done; [intros; by apply insert_other|apply Hs1|]. by rewrite lookup_insert_eq. }
    destruct (open _) as [block|err] eqn:Eo; sm_run.
    + apply Hopen in Eo. destruct (write_stored block 0 (serialize_goldilocks v) v []) as (block' & -> & _ & Hst & _); [rewrite length_serialize; lia|by rewrite app_nil_r|].
      sm_run. eexists. split; [done|]. by apply Hrep.
    + eexists. split; [done|]. by apply Hrep.
Qed.

Lemma uni_get_mut_ok s t d k f : UniRep s t -> admissible (UGetMut d k f) t ->
  exists s', uni_step (UGetMut d k f) s = Some ((table_step (UGetMut d k f) t).1, s') /\ UniRep s' (table_step (UGetMut d k f) t).2.
Proof.
  intros Hs Hf. cbn [admissible] in Hf. pose proof (ur_dims s t Hs d) as Hd. unfold dim_holds in Hd. unfold uni_step, table_step, uni_get_mut, pool_slot. rewrite <- dim_part_lookup.
  destruct (u_pools s !! d) as [p|] eqn:Ep, (t_pools t !! d) as [[bpe cap]|] eqn:Et; try done; cbn [mbind option_bind].
  - destruct Hd as (Hb & Hc & Hp & He). destruct (slots p !! k) as [[idx count]|] eqn:Es; cbn [mbind option_bind].
    + destruct (dim_part (t_rows t) d !! k) as [v|] eqn:Em; [|by apply (pool_dom p _ k Hp) in Em; congruence].
      destruct (pool_row p _ k idx count v Hp Es Em) as (_ & Eslice & _). pose proof (pr_rows _ _ Hp k) as Hk. rewrite Es, Em in Hk. destruct (slot_offset p _ idx Hp (proj1 Hk)) as (Emul & _ & _).
      unfold pool_slice in Eslice. rewrite Emul in Eslice |- *. cbn [mbind option_bind] in *. rewrite Eslice. cbn [mbind option_bind].
      destruct (pool_write_ok p _ k idx count v (f v) Hp Es Em (Hf v)) as (block & -> & Hp'). cbn [mbind option_bind]. eexists. split; [done|].
      eapply (pool_row_rep s t d k _); try done; [intros; by apply insert_other|apply Hs|by rewrite Ep|]. by rewrite dim_part_insert.
    + apply (pool_dom p _ k Hp) in Es as ->. rewrite He. by exists s.
  - specialize (Hd k). rewrite dim_part_lookup. destruct (u_entries s !! (d, k)) as [e|] eqn:Ee, (t_rows t !! (d, k)) as [v|] eqn:Ev; try done; [|by destruct e|by exists s].
    assert (forall e', entry_holds (Some e') (Some (f v)) -> UniRep (set_u_entries s (<[(d, k) := e']> (u_entries s))) (mkTable (<[(d, k) := f v]> (t_rows t)) (t_dirty t) (t_pools t))) as Hrep.
    { intros e' He'. apply (entry_row_rep s t d k (Some e')); try done; [intros; by apply insert_other|apply Hs|]. by rewrite lookup_insert_eq. }
    destruct e as [block count|w].
    + destruct Hd as [-> Hst]. rewrite (stored_slice block 0 v) by done. cbn [mbind option_bind].
      destruct (write_stored block 0 (serialize_goldilocks (f v)) (f v) []) as (block' & -> & _ & Hst' & _); [rewrite length_serialize, Hf; pose proof (st_fits _ _ _ Hst); lia|by rewrite app_nil_r|].
      cbn [mbind option_bind]. eexists. split; [done|]. apply Hrep. cbn. by rewrite Hf.
    + cbn in Hd. subst w. eexists. split; [done|]. by apply Hrep.
Qed.

Lemma uni_remove_ok s t d k : UniRep s t ->
  exists s', uni_step (URemove d k) s = Some ((table_step (URemove d k) t).1, s') /\ UniRep s' (table_step (URemove d k) t).2.
Proof.
  intros Hs. unfold uni_step, uni_remove, table_step. sm_run. rewrite check_dimension_eq. destruct (13 <? uval d); [by exists s|]. sm_run. rewrite (uni_get_ok s t d k Hs). sm_run.
  destruct (t_rows t !! (d, k)) as [v|] eqn:Ev; [|by exists s]. sm_run. eexists. split; [done|]. unfold drop_row. pose proof (ur_dims s t Hs d) as Hd. unfold dim_holds in Hd.
  rewrite <- (ur_dirty s t Hs). set (dirty := filter (fun e : EntryKey * list Goldilocks => e.1 <> (d, k)) (u_dirty s)). assert (forall s1, UniRep s1 (mkTable (delete (d, k) (t_rows t)) (u_dirty s1) (t_pools t)) -> u_dirty s1 = u_dirty s ->
    UniRep (set_u_dirty s1 (filter (fun e => e.1 <> (d, k)) (u_dirty s1))) (mkTable (delete (d, k) (t_rows t)) dirty (t_pools t))) as Hfin.
  { intros s1 Hs1 E. unfold dirty. rewrite <- E. exact (dirty_rep s1 _ _ Hs1). }
  destruct (u_pools s !! d) as [p|] eqn:Ep, (t_pools t !! d) as [[bpe cap]|] eqn:Et; try done; apply Hfin; try done.
  - destruct Hd as (<- & <- & Hp & _). destruct (pool_remove_ok p _ k Hp) as (Hp' & Hc & Hb). eapply (pool_row_rep s t d k); try done; [intros; by apply delete_other|by rewrite Ep|]. by rewrite dim_part_delete.
  - apply (entry_row_rep s t d k None); try done; [intros; by apply delete_other|]. by rewrite lookup_delete_eq.
Qed.

Lemma reserve_ok s t open d n bpe : UniRep s t -> admissible (UReserve open d n bpe) t ->
  exists s', uni_step (UReserve open d n bpe) s = Some ((table_step (UReserve open d n bpe) t).1, s') /\ UniRep s' (table_step (UReserve open d n bpe) t).2.
Proof.
  intros Hs (Hopen & Hwidth & Ha & Hsize & Hnone). unfold uni_step, reserve_pool, table_step. sm_run. unfold usize_mul. rewrite (proj2 (Z.leb_gt _ _)) by done. cbn [mbind option_bind]. sm_run.
  destruct (open (max (n * bpe) 8)) as [block|e] eqn:Eo; [|by exists s]. sm_run. eexists. split; [done|]. split; [apply Hs|]. intros d'. destruct (decide (d' = d)) as [->|Hne].
  - unfold dim_holds. cbn [set_u_pools u_pools u_entries t_pools t_rows]. rewrite !lookup_insert_eq. cbn [bytes_per_entry capacity]. split_and!; [done..| |].
    + assert (dim_part (t_rows t) d = ∅) as -> by (apply map_eq; intros k; by rewrite dim_part_lookup, lookup_empty).
      split; cbn [p_block capacity bytes_per_entry slots next_slot p_free]; [apply Hopen in Eo; lia|by eapply Hwidth|done|intros k; by rewrite !lookup_empty|by intros ? ? ? ? ? ?%lookup_empty_Some| |by rewrite map_size_empty|lia].
      split; [apply NoDup_nil_2|by apply Forall_nil].
    + intros k. pose proof (ur_dims s t Hs d) as Hd. unfold dim_holds in Hd. destruct (u_pools s !! d), (t_pools t !! d) as [[]|]; try done; [by apply Hd|].
      specialize (Hd k). rewrite Hnone in Hd. destruct (u_entries s !! (d, k)) as [[]|]; done.
  - apply (dim_holds_same s _ t); [by apply lookup_insert_ne|by apply lookup_insert_ne|done..|apply Hs].
Qed.

Lemma uni_step_ok o s t : UniRep s t -> admissible o t -> exists s', uni_step o s = Some ((table_step o t).1, s') /\ UniRep s' (table_step o t).2.
Proof.
  intros Hs Ha. destruct o as [d k|open d k v|d k f|d k|d k| |open d n bpe]; [|by apply uni_put_ok|by apply uni_get_mut_ok| |by apply uni_remove_ok| |by apply reserve_ok].
  - unfold uni_step, table_step. rewrite (uni_get_ok s t d k Hs). by exists s.
  - unfold uni_step, uni_mark_dirty, table_step. sm_run. rewrite check_dimension_eq. destruct (13 <? uval d); [by exists s|]. sm_run. case_decide; [by exists s|]. sm_run.
    rewrite (uni_get_ok s t d k Hs). sm_run. destruct (t_rows t !! (d, k)) as [v|]; [|by exists s]. sm_run. eexists. split; [done|]. rewrite <- (ur_dirty s t Hs). by apply dirty_rep.
  - unfold uni_step, uni_commit, table_step. sm_run. rewrite (ur_dirty s t Hs). eexists. split; [done|]. by apply dirty_rep.
Qed.

Lemma uni_run_ok ops s t : UniRep s t -> admissible_run ops t -> exists s', uni_run ops s = Some ((table_run ops t).1, s') /\ UniRep s' (table_run ops t).2.
Proof.
  revert s t. induction ops as [|o ops IH]; intros s t Hs Ha; [by exists s|]. destruct Ha as [Ha Hrest]. cbn [uni_run table_run].
  destruct (uni_step_ok o s t Hs Ha) as (s1 & -> & Hs1). cbn [mbind option_bind]. destruct (table_step o t) as [r t1]. cbn [fst snd] in *.
  destruct (IH s1 t1 Hs1 Hrest) as (s2 & -> & Hs2). cbn [mbind option_bind]. exists s2. by destruct (table_run ops t1).
Qed.

Lemma uni_rep_new : UniRep uni_new table_new.
Proof. split; [done|]. intros d. unfold dim_holds. cbn. by rewrite !lookup_empty. Qed.

End Refine.

(** ** Main theorems *)

Section Main.
  Context `{Nebu, Hemera, !Raw, !RawLaws}.

(** C11: a shared-memory store is a table of rows. Any history that respects its pools runs without a
    panic and without a read outside its blocks, and answers what the table answers, whether or not
    blocks could be opened: reads see the last value put, a removed row is gone, a commit answers
    the hash of the changed keys and leaves none. *)
Theorem unimem_refines ops : admissible_run ops table_new ->
  exists s, uni_run ops uni_new = Some ((table_run ops table_new).1, s) /\ u_dirty s = t_dirty (table_run ops table_new).2
    /\ forall d k, uni_get s d k = Some (t_rows (table_run ops table_new).2 !! (d, k)).
Proof.
  intros Ha. destruct (uni_run_ok ops uni_new table_new uni_rep_new Ha) as (s & E & Hs). exists s. split_and!; [done|apply Hs|]. intros d k. by apply uni_get_ok.
Qed.

Definition cell_slot (s : UnimemStore) (d : u8) (k : bytes 32) : option nat := snd <$> uni_cell s d k.

Lemma cell_slot_eq s d k : cell_slot s d k = p ← u_pools s !! d; fst <$> slots p !! k.
Proof. unfold cell_slot, uni_cell. destruct (u_pools s !! d) as [p|]; [|done]. cbn [mbind option_bind]. by destruct (slots p !! k). Qed.

Lemma pool_put_slot p key v p' k idx : pool_put p key v = Some p' -> fst <$> slots p !! k = Some idx -> fst <$> slots p' !! k = Some idx.
Proof.
  unfold pool_put, alloc_slot. destruct (slots p !! key) as [[i c]|] eqn:Ek.
  - destruct (usize_mul _ _); [|done]. cbn [mbind option_bind]. destruct (write_at _ _ _); [|done]. intros [= <-] Hk. cbn [slots].
    destruct (decide (k = key)) as [->|Hne]; [|by rewrite lookup_insert_ne]. rewrite lookup_insert_eq. rewrite Ek in Hk. exact Hk.
  - intros E Hk. assert (k <> key) as Hne by (intros ->; by rewrite Ek in Hk). destruct (last (p_free p));
      (destruct (usize_mul _ _); [|done]; cbn [mbind option_bind] in E; destruct (write_at _ _ _); [|done]; injection E as <-; cbn [slots]; by rewrite lookup_insert_ne).
Qed.

Lemma pool_update_slot s d p p' d' k idx : u_pools s !! d = Some p -> (forall i, fst <$> slots p !! k = Some i -> fst <$> slots p' !! k = Some i) ->
  cell_slot s d' k = Some idx -> cell_slot (set_u_pools s (<[d := p']> (u_pools s))) d' k = Some idx.
Proof.
  intros Ep Hkeep. rewrite !cell_slot_eq. cbn [set_u_pools u_pools]. destruct (decide (d' = d)) as [->|Hne]; [|by rewrite lookup_insert_ne].
  rewrite lookup_insert_eq, Ep. cbn [mbind option_bind]. apply Hkeep.
Qed.

(** A cell stays where it is. After a history that respects the pools, no other key of the
    dimension has the slot of a key, and whatever is called next, the slot is kept until the row is
    removed or the pool is reserved again. *)
Theorem cells_stable ops outs s d k idx :
  admissible_run ops table_new -> uni_run ops uni_new = Some (outs, s) -> cell_slot s d k = Some idx ->
  (forall k', cell_slot s d k' = Some idx -> k' = k)
  /\ forall o out s', uni_step o s = Some (out, s') -> o <> URemove d k -> (forall open n bpe, o <> UReserve open d n bpe) -> cell_slot s' d k = Some idx.
Proof.
  intros Ha E Hk. destruct (uni_run_ok ops uni_new table_new uni_rep_new Ha) as (s0 & E0 & Hs). rewrite E in E0. injection E0 as _ <-. split.
  - intros k'. rewrite cell_slot_eq in *. pose proof (ur_dims _ _ Hs d) as Hd. unfold dim_holds in Hd. destruct (u_pools s !! d) as [p|]; [|done]. cbn [mbind option_bind] in *.
    destruct (t_pools _ !! d) as [[bpe cap]|]; [|done]. destruct Hd as (_ & _ & Hp & _). destruct (slots p !! k) as [[i c]|] eqn:Ek; [|done]. injection Hk as ->.
    destruct (slots p !! k') as [[i' c']|] eqn:Ek'; [|done]. intros [= ->]. by eapply (pr_inj _ _ Hp).
  - intros o out s' Estep Hremove Hreserve. clear Ha E Hs.
    destruct o as [d' k'|open d' k' v|d' k' f|d' k'|d' k'| |open d' n bpe]; unfold uni_step in Estep.
    + destruct (uni_get s d' k'); [|done]. by injection Estep as _ <-.
    + unfold uni_put in Estep. revert Estep. sm_run. destruct (check_dimension d'); sm_run; [|by intros [= _ <-]]. unfold sm_require. destruct (zlen v <=? _); sm_run; [|by intros [= _ <-]].
      set (s1 := if decide (d' = EPHEMERAL) then s else _). assert (cell_slot s1 d k = Some idx) as Hk1 by (unfold s1; by case_decide).
      destruct (u_pools s1 !! d') as [p|] eqn:Ep; sm_run.
      * destruct (pool_put p k' v) as [p'|] eqn:Eput; [|done]. sm_run. intros [= _ <-]. by apply (pool_update_slot s1 d' p); [|intros i; apply (pool_put_slot p k' v)|].
      * destruct (open _); sm_run; [destruct (write_at _ _ _); sm_run; [|done]|]; by intros [= _ <-].
    + destruct (uni_get_mut d' k' f s) as [r|] eqn:Em; [|done]. cbn [mbind option_bind] in Estep. unfold uni_get_mut in Em. revert Em. unfold pool_slot.
      destruct (u_pools s !! d') as [p|] eqn:Ep; cbn [mbind option_bind]; [destruct (slots p !! k') as [[i c]|]; cbn [mbind option_bind]|].
      * destruct (usize_mul _ _); [|done]. cbn [mbind option_bind]. destruct (raw_slice _ _ _); [|done]. cbn [mbind option_bind]. destruct (write_at _ _ _); [|done]. cbn [mbind option_bind].
        intros [= <-]. injection Estep as _ <-. by apply (pool_update_slot s d' p).
      * destruct (u_entries s !! (d', k')) as [[]|]; [destruct (raw_slice _ _ _); [|done]; cbn [mbind option_bind]; destruct (write_at _ _ _); [|done]; cbn [mbind option_bind]|..]; intros [= <-]; by injection Estep as _ <-.
      * destruct (u_entries s !! (d', k')) as [[]|]; [destruct (raw_slice _ _ _); [|done]; cbn [mbind option_bind]; destruct (write_at _ _ _); [|done]; cbn [mbind option_bind]|..]; intros [= <-]; by injection Estep as _ <-.
    + revert Estep. unfold uni_mark_dirty. sm_run. destruct (check_dimension d'); sm_run; [|by intros [= _ <-]]. case_decide; [by intros [= _ <-]|]. sm_run.
      destruct (uni_get s d' k') as [[v|]|]; sm_run; [by intros [= _ <-]..|done].
    + revert Estep. unfold uni_remove. sm_run. destruct (check_dimension d'); sm_run; [|by intros [= _ <-]]. destruct (uni_get s d' k') as [[v|]|]; sm_run; [|by intros [= _ <-]|done].
      intros [= _ <-]. unfold drop_row. destruct (u_pools s !! d') as [p|] eqn:Ep; [|done]. unfold cell_slot, uni_cell. cbn [set_u_dirty set_u_pools u_pools]. fold (cell_slot (set_u_pools s (<[d' := pool_remove p k']> (u_pools s))) d k).
      destruct (decide (d' = d)) as [->|Hne]; [|rewrite lookup_insert_ne by done; exact Hk]. rewrite lookup_insert_eq. cbn [mbind option_bind].
      unfold cell_slot, uni_cell in Hk. rewrite Ep in Hk. cbn [mbind option_bind] in Hk. assert (k' <> k) by congruence. unfold pool_remove.
      destruct (slots p !! k') as [[i c]|]; [|done]. cbn [slots]. rewrite lookup_delete_ne by done. by destruct (slots p !! k) as [[i' c']|].
    + revert Estep. unfold uni_commit. sm_run. by intros [= _ <-].
    + revert Estep. unfold reserve_pool. sm_run. destruct (usize_mul n bpe); [|done]. cbn [mbind option_bind]. sm_run. destruct (open _); sm_run; [|by intros [= _ <-]]. intros [= _ <-].
      rewrite cell_slot_eq in *. cbn [set_u_pools u_pools]. rewrite lookup_insert_ne; [exact Hk|]. intros ->. by eapply Hreserve.
Qed.

(** ** Histories that do not respect the pools *)

(** A row put before its dimension had a pool survives its removal: [remove] answers it, and the next
    read answers it again. *)
Lemma removed_row_survives s d k p e v : check_dimension d = Ok tt -> u_pools s !! d = Some p -> slots p !! k = None -> u_entries s !! (d, k) = Some e -> entry_slice e = Some v ->
  exists s', uni_remove d k s = Some (Ok (Some v), s') /\ uni_get s' d k = Some (Some v).
Proof.
  intros Hd Ep Es Ee Ev. assert (forall s', u_pools s' !! d = Some p -> u_entries s' = u_entries s -> uni_get s' d k = Some (Some v)) as Hget.
  { intros s' Ep' Ee'. unfold uni_get, pool_slot. rewrite Ep'. cbn [mbind option_bind]. rewrite Es. cbn [mbind option_bind]. unfold entry_get. by rewrite Ee', Ee, Ev. }
  unfold uni_remove. sm_run. rewrite Hd. sm_run. rewrite (Hget s) by done. sm_run. eexists. split; [done|]. apply Hget.
  - unfold drop_row. rewrite Ep. cbn. rewrite lookup_insert_eq. unfold pool_remove. by rewrite Es.
  - unfold drop_row. by rewrite Ep.
Qed.

(** A put into a pool whose block has no room for another cell panics; the capacity is not consulted. *)
Lemma full_pool_panics p key v : slots p !! key = None -> p_free p = [] -> (length (p_block p) < next_slot p * bytes_per_entry p + bytes_per_entry p)%nat -> pool_put p key v = None.
Proof.
  intros Es Ef Hl. unfold pool_put, alloc_slot. rewrite Es, Ef. cbn [last mbind option_bind bytes_per_entry p_block next_slot]. destruct (usize_mul _ _) as [offset|] eqn:E; [|done]. cbn [mbind option_bind].
  unfold usize_mul in E. destruct (_ <=? _); [done|]. injection E as <-. unfold write_at. rewrite length_cell. by rewrite (proj2 (Nat.leb_gt _ _)).
Qed.

End Main.

(** ** Examples *)

Section Witnesses.
Import Toy.

#[local] Instance toy_raw : Raw := {| g_from_raw v := v |}.
#[local] Instance toy_raw_laws : RawLaws.
Proof. by split. Qed.

(** An opener of zeroed blocks, and one that fails. *)
Definition zeroed : Opener := fun n => if (Z.of_nat n <? 4096) then Ok (repeat (of_Z 8 0) n) else Err "no surface"%string.
Definition no_block : Opener := fun _ => Err "no surface"%string.

(** A value longer than its cell is recorded with its whole length: reading it reads the cell of
    another key. *)
Lemma overlong_value_leaks :
  ('(_, s) ← uni_run [UReserve zeroed (of_Z 8 0) 4 8; UPut no_block (of_Z 8 0) (id32 1) [of_Z 64 7; of_Z 64 8]; UPut no_block (of_Z 8 0) (id32 2) [of_Z 64 99]] uni_new; uni_get s (of_Z 8 0) (id32 1))
  = Some (Some [of_Z 64 7; of_Z 64 99]).
Proof. vm_compute. reflexivity. Qed.

Definition toy_history : list uni_op :=
  [UReserve zeroed (of_Z 8 0) 2 16; UPut no_block (of_Z 8 0) (id32 1) [of_Z 64 7; of_Z 64 8]; UPut no_block (of_Z 8 3) (id32 1) [of_Z 64 5]; URemove (of_Z 8 3) (id32 1); UPut no_block (of_Z 8 0) (id32 2) [of_Z 64 9]].

Lemma zeroed_ok : opener_ok zeroed /\ forall n b, zeroed n = Ok b -> Z.of_nat (length b) < 2 ^ 64.
Proof. unfold opener_ok, zeroed. split; intros n b; destruct (Z.ltb_spec (Z.of_nat n) 4096); try done; intros [= <-]; rewrite repeat_length; lia. Qed.

Lemma put_admissible open d k v (t : Table) : opener_ok open ->
  match t_pools t !! d with
  | Some (bpe, cap) => bool_decide (8 * length v <= bpe)%nat && (negb (bool_decide (t_rows t !! (d, k) = None)) || bool_decide (size (dim_part (t_rows t) d) < cap)%nat)
  | None => true
  end = true -> admissible (UPut open d k v) t.
Proof.
  intros Ho Hb. split; [done|]. destruct (t_pools t !! d) as [[bpe cap]|]; [|done]. apply andb_true_iff in Hb as [?%bool_decide_eq_true Hb]. split; [done|].
  apply orb_true_iff in Hb as [Hb%negb_true_iff%bool_decide_eq_false|Hb%bool_decide_eq_true]; [by left|by right].
Qed.

Lemma toy_history_ok : admissible_run toy_history table_new.
Proof.
  assert (opener_ok no_block) as Hn by done. destruct zeroed_ok as [Hz Hz']. cbn [admissible_run toy_history]. split_and!; try done.
  - apply put_admissible; [done|]. vm_compute. reflexivity.
  - apply put_admissible; [done|]. vm_compute. reflexivity.
Qed.

Lemma unimem_refines_witness : exists s, uni_run toy_history uni_new = Some ((table_run toy_history table_new).1, s) /\ u_dirty s = t_dirty (table_run toy_history table_new).2
  /\ forall d k, uni_get s d k = Some (t_rows (table_run toy_history table_new).2 !! (d, k)).
Proof. exact (unimem_refines toy_history toy_history_ok). Defined.

Lemma toy_slot : exists outs s, uni_run toy_history uni_new = Some (outs, s) /\ cell_slot s (of_Z 8 0) (id32 1) = Some 0%nat.
Proof.
  assert (match uni_run toy_history uni_new with Some (_, s) => bool_decide (cell_slot s (of_Z 8 0) (id32 1) = Some 0%nat) | None => false end = true) as E by (vm_compute; reflexivity).
  revert E. generalize (uni_run toy_history uni_new). intros [[outs s]|]; [|done]. intros E%bool_decide_eq_true. by exists outs, s.
Qed.

Lemma cells_stable_witness : exists s, cell_slot s (of_Z 8 0) (id32 1) = Some 0%nat
  /\ (forall k', cell_slot s (of_Z 8 0) k' = Some 0%nat -> k' = id32 1)
  /\ forall o out s', uni_step o s = Some (out, s') -> o <> URemove (of_Z 8 0) (id32 1) -> (forall open n bpe, o <> UReserve open (of_Z 8 0) n bpe) -> cell_slot s' (of_Z 8 0) (id32 1) = Some 0%nat.
Proof.
  destruct toy_slot as (outs & s & E & Hk). exists s. exact (conj Hk (cells_stable toy_history outs s (of_Z 8 0) (id32 1) 0 toy_history_ok E Hk)).
Defined.

End Witnesses.
