(* ===== verification/Importer.v ===== *)
(** * The import of an application store (rs/src/storage/application/migration.rs)

    A redb file of the application tables is copied into a new directory, under a guard file that
    seals the directory until the copy is complete. The state is the place of the import: what is at
    the destination, and whether the guard is there. The calls to the file system, their failures
    and what other processes do meanwhile are an argument. A loop over pages takes fuel; [None] is a
    panic, or fuel that ran out. *)

From S2P Require Import Prelude.
From S2P Require Import Crypto.
From S2P Require Import Access.
From S2P Require Import Shard.
From S2P Require Import Engine.
From S2P Require Import Database.
From S2P Require Import Application.
From S2P Require Import Archive.

Local Open Scope Z_scope.

(** The tables of a redb file, and how its errors print. *)
Class RedbTables `{Redb} := {
  rd_list_multimap_tables : RdRead -> result string (list string);
  rd_list_tables : RdRead -> result string (list string);
  rd_table_error : TableError -> string;
}.

(** Every table with a row is listed. *)
Class RedbTablesLaws `{Redb, !RedbLaws, !RedbTables} : Prop := {
  rd_list_tables_law txn l n : rd_list_tables txn = Ok l -> n ∉ l -> rd_read_rows txn n = ∅;
}.

Definition APPLICATION_TABLES : list Table := [Content; Heads; History; Requests; Claims].

(** [.map_err(io)?]. *)
Definition io {A} (r : result string A) : AppResult A := map_err (fun error => from_storage (Io error)) r.

(** ** The source *)

(** The loop of [source_page] over the rows taken, with the page and its bytes. *)
Fixpoint source_rows (entries : list (result string RawEntry)) : SM Error.AppError (list RawEntry * Z) unit :=
  match entries with
  | [] => mret tt
  | entry :: rest =>
      '(key, value) ← sm_lift (io entry);
      _ ← sm_require (negb ((64 <? zlen key) || (MAX_BYTES_VALUE <? zlen value))) Error.Corrupt;
      let size := zlen key + zlen value in
      _ ← sm_require (negb (uval (bl_bytes page_limits) <? size)) Error.Limit;
      '(rows, bytes) ← sm_get;
      room ← sm_some (usize_sub (uval (bl_bytes page_limits)) bytes);
      if room <? size then mret tt
      else
        _ ← sm_modify (fun _ => (rows ++ [(key, value)], bytes + size));
        source_rows rest
  end.

Section Migrate.
  Context `{Nebu, Hasher, Fjall, Redb, !RedbTables}.

Abbreviation Owner := (SM Error.AppError Database).

Definition source_page (table : RdTable) (after : option (list u8)) : option (AppResult (list RawEntry)) :=
  match io (rd_range table (match after with Some after => Excluded after | None => Unbounded end) Unbounded) with
  | Err error => Some (Err error)
  | Ok entries =>
      '(r, (rows, _)) ← source_rows (take (Z.to_nat (uval (bl_entries page_limits))) entries) ([], 0);
      Some (_ ← r; Ok rows)
  end.

(** The checks of the tables of the source. *)
Definition check_source (snapshot : RdRead) : AppResult unit :=
  multimaps ← io (rd_list_multimap_tables snapshot);
  _ ← (match multimaps with
       | [] => Ok tt
       | _ => Err (Error.Storage "migration rejects unsupported multimap tables")
       end : AppResult unit);
  tables ← io (rd_list_tables snapshot);
  count ← try_fold (fun count name =>
    if existsb (fun t => bool_decide (table_name t = Some name)) APPLICATION_TABLES then Ok (count + 1)
    else Err (Error.Storage "migration expects a legacy application-only database")) 0 tables;
  if count =? zlen APPLICATION_TABLES then Ok tt else Err Error.Corrupt.

(** ** The copy of a table *)

(** The loop over the pages of the source; it answers what was hashed. *)
Fixpoint copy_pages (fuel : nat) (source : RdTable) (table : Table) (after : option (list u8)) (hash : list (list u8))
    : Owner (list (list u8)) :=
  match fuel with
  | O => sm_some None
  | S fuel =>
      page ← sm_some (source_page source after);
      rows ← sm_lift page;
      match rows with
      | [] => mret hash
      | _ =>
          hash ← sm_fold rows (fun hash '(key, value) =>
            _ ← sm_lift (validate_record table key value);
            mret (hash ++ hash_row key value)) hash;
          _ ← committing (sm_for rows (fun '(key, value) => put table key value));
          copy_pages fuel source table (fst <$> last rows) hash
      end
  end.

(** The loop over the pages of the target. *)
Fixpoint hash_pages (fuel : nat) (table : Table) (after : option (list u8)) (hash : list (list u8)) : Owner (list (list u8)) :=
  match fuel with
  | O => sm_some None
  | S fuel =>
      rows ← reading (db_scan table after [] page_limits);
      match rows with
      | [] => mret hash
      | _ => hash_pages fuel table (fst <$> last rows) (hash ++ flat_map (fun row => hash_row row.1 row.2) rows)
      end
  end.

(** The body of the loop over the tables. *)
Definition copy_table (fuel : nat) (snapshot : RdRead) (table : Table) : Owner unit :=
  name ← sm_some (table_name table);
  source ← sm_lift (io (map_err rd_table_error (rd_open_table snapshot name)));
  expected ← copy_pages fuel source table None [];
  actual ← hash_pages fuel table None [];
  sm_require (bool_decide (hasher_digest expected = hasher_digest actual)) Error.Corrupt.

(** What is done to the target, once it is open. *)
Definition import_rows (fuel : nat) (snapshot : RdRead) : Owner unit :=
  _ ← committing (put Migration STATUS (ascii_bytes "copying"));
  _ ← sm_for APPLICATION_TABLES (copy_table fuel snapshot);
  _ ← validate_links fuel;
  committing (put Migration STATUS (ascii_bytes "complete")).

(** ** The place of an import *)

(** What is at the destination: nothing, a directory without a database, or a database. *)
Inductive Target := Absent | Bare | Stored (engine : Engine).

Record Place := mkPlace { pl_target : Target; pl_guard : bool }.

Definition absent (t : Target) : bool := match t with Absent => true | _ => false end.

(** The calls to the file system, in order. *)
Inductive Call :=
| LookTarget | GuardPath | OpenGuard | SyncGuard | SyncParent | CreateTarget | UndoGuard | SyncUndo | RemoveGuard | SyncRemoved.

(** The environment of an import: the calls that fail and how, without an effect; the error of
    creating what is there; what other processes do to the place between the look at the
    destination and its creation; and the engine a new directory opens as. *)
Record Environment := mkEnvironment {
  en_fault : Call -> option StorageError;
  en_exists : string;
  en_rival : Place -> Place;
  en_engine : StorageResult Engine;
}.

Abbreviation Importing := (SM Error.AppError Place).

Definition attempt (env : Environment) (c : Call) : Importing unit :=
  match en_fault env c with Some error => sm_throw (from_storage error) | None => mret tt end.

Definition set_guard (b : bool) (p : Place) : Place := mkPlace (pl_target p) b.
Definition set_target (t : Target) (p : Place) : Place := mkPlace t (pl_guard p).

(** [create_new] of the guard. *)
Definition create_guard (env : Environment) : Importing unit :=
  _ ← attempt env OpenGuard;
  p ← sm_get;
  _ ← sm_require (negb (pl_guard p)) (from_storage (Io (en_exists env)));
  sm_modify (set_guard true).

(** [create_destination]. *)
Definition create_destination (env : Environment) : Importing unit :=
  _ ← attempt env CreateTarget;
  p ← sm_get;
  _ ← sm_require (absent (pl_target p)) (from_storage (Io (en_exists env)));
  sm_modify (set_target Bare).

(** The guard is removed when the destination could not be created. *)
Definition or_undo (env : Environment) (m : Importing unit) : Importing unit := fun p =>
  '(r, p) ← m p;
  match r with
  | Ok _ => Some (r, p)
  | Err error =>
      (_ ← attempt env UndoGuard;
       _ ← sm_modify (set_guard false);
       _ ← attempt env SyncUndo;
       sm_throw error : Importing unit) p
  end.

(** The target is opened, and filled. *)
Definition fill_target (env : Environment) (m : Owner unit) : Importing unit :=
  engine ← sm_lift (map_err from_storage (en_engine env));
  (fun p => '(r, db) ← m (from_engine engine); Some (r, set_target (Stored (db_engine db)) p)) : Importing unit.

Definition migrate (fuel : nat) (env : Environment) (source : result string RdDatabase) : Importing unit :=
  legacy ← sm_lift (io source);
  snapshot ← sm_lift (io (rd_begin_read legacy));
  _ ← sm_lift (check_source snapshot);
  _ ← attempt env LookTarget;
  p ← sm_get;
  _ ← sm_require (absent (pl_target p)) (Error.Storage "migration destination already exists");
  _ ← sm_modify (en_rival env);
  _ ← attempt env GuardPath;
  _ ← create_guard env;
  _ ← attempt env SyncGuard;
  _ ← attempt env SyncParent;
  _ ← or_undo env (create_destination env);
  _ ← fill_target env (import_rows fuel snapshot);
  _ ← attempt env RemoveGuard;
  _ ← sm_modify (set_guard false);
  attempt env SyncRemoved.

End Migrate.
