(* ===== verification/ImporterSpec.v ===== *)
(** * An import is complete or sealed

    What is at the destination after an import, whatever fails: a complete copy of the source, a
    target the guard seals, or what other processes put there. *)

From S2P Require Import Prelude.
From S2P Require Import Crypto.
From S2P Require Import Access.
From S2P Require Import Shard.
From S2P Require Import Engine.
From S2P Require Import Database.
From S2P Require Import Application.
From S2P Require Import Journal.
From S2P Require Import Fences.
From S2P Require Import Archive.
From S2P Require Import ArchiveSpec.
From S2P Require Import Inspection.
From S2P Require Import TransferSpec.
From S2P Require Import LinksSpec.
From S2P Require Import Importer.

Local Open Scope Z_scope.

Section ImporterSpec.
  Context `{Nebu, Hasher, Fjall, Redb, !RedbTables, !FjallLaws, !RedbLaws, !RedbTablesLaws}.

Abbreviation Owner := (SM Error.AppError Database).

(** ** The pages of the source *)

(** The loop takes the rows [scan_rows] takes. *)
Lemma source_rows_scan entries page used :
  0 <= used <= uval (bl_bytes page_limits) ->
  exists r st, source_rows entries (page, used) = Some (r, st)
    /\ (r = Ok tt -> scan_rows page_limits entries (page, used) = Some (Ok tt, st)).
Proof.
  revert page used. induction entries as [|entry entries IH]; intros page used Hu; [by eexists (Ok tt), _|].
  cbn [source_rows scan_rows]. rewrite !sm_bind_eq. destruct entry as [[k v]|error]; cbn [io map_err sm_lift]; [|by eexists (Err _), _].
  rewrite !sm_bind_eq. unfold push_row, sm_require.
  destruct (Z.ltb_spec 64 (zlen k)); [by eexists (Err _), _|]. destruct (Z.ltb_spec MAX_BYTES_VALUE (zlen v)); [by eexists (Err _), _|].
  rewrite (proj2 (Z.leb_le (zlen k) 64)) by lia. unfold MAX_BYTES_VALUE in *. rewrite (proj2 (Z.leb_le (zlen v) (16 * 1024 * 1024 + 1))) by lia.
  cbn [orb negb]. destruct (Z.ltb_spec (uval (bl_bytes page_limits)) (zlen k + zlen v)); [by eexists (Err _), _|].
  rewrite (proj2 (Z.leb_le _ (uval (bl_bytes page_limits)))) by lia. rewrite (proj2 (Z.ltb_lt _ (2 ^ 64))) by lia.
  cbn [negb]. sm_run. rewrite usize_sub_ok by lia. sm_run.
  destruct (Z.ltb_spec (uval (bl_bytes page_limits) - used) (zlen k + zlen v)); [by eexists (Ok tt), _|].
  sm_run. unfold zlen in *. apply IH. lia.
Qed.

Lemma source_page_ok table after :
  exists r, source_page table after = Some r
    /\ forall page, r = Ok page -> RawPage (table_scan (rd_table_rows table) after []) page_limits page.
Proof.
  unfold source_page. set (lo := match after with Some a => Excluded a | None => Unbounded end).
  destruct (rd_range table lo Unbounded) as [entries|] eqn:Er; [|by eexists]. cbn [io map_err].
  assert (scan_bounds after [] = Some (lo, Unbounded)) as Eb by (by destruct after).
  apply rd_range_law in Er. rewrite (range_scan _ _ _ _ _ Eb) in Er.
  destruct (scan_page_ok page_limits entries _ Er) as (r & Es & Hr). unfold scan_page in Es.
  destruct (source_rows_scan (take (Z.to_nat (uval (bl_entries page_limits))) entries) [] 0) as (q & [rows used] & -> & Hq).
  { pose proof (uval_range (bl_bytes page_limits)). lia. }
  cbn. eexists. split; [done|]. intros page. destruct q as [[]|]; [|done]. intros [= <-].
  rewrite (Hq eq_refl) in Es. cbn in Es. injection Es as <-. by apply Hr.
Qed.

(** ** The copy of a table *)

(** A table of the target holds these rows, the others what they held. *)
Record Filled (v0 : View) (t : Table) (l : list RawEntry) (v : View) : Prop := {
  fi_rows : forall k x, v t k = Some x <-> (k, x) ∈ l;
  fi_other : forall t' k, table_ok t' = true -> t' <> Metadata -> t' <> t -> v t' k = v0 t' k;
}.

Lemma filled_sees v0 t l tx db : journal_table t = true -> Filled v0 t l (tx_row tx) -> sees tx db -> Filled v0 t l (committed db).
Proof.
  intros Ht [Hr Ho] Hs. assert (table_ok t = true /\ t <> Metadata) as [Hok Hm] by by destruct t.
  split; [intros k x; by rewrite Hs|]. intros t' k Ht' Hm' Hne. rewrite Hs by done. by apply Ho.
Qed.

Lemma calls_copy v0 t l rows rest tx : TxOk tx -> table_ok t = true -> NoDup (l ++ rows ++ rest).*1 -> Filled v0 t l (tx_row tx) ->
  calls (sm_for rows (fun '(key, value) => put t key value)) tx (fun _ tx' => Filled v0 t (l ++ rows) (tx_row tx')) (fun _ => True).
Proof.
  intros Htx Ht Hnd Hl. apply (calls_for _ (fun before tx' => Filled v0 t (l ++ before) (tx_row tx'))); [done|by rewrite app_nil_r|].
  intros before [k v] after tx1 -> Htx1 [Hr Ho]. apply calls_put; [done..|]. intros tx2 _ Hv. split.
  - intros k' x. rewrite Hv. unfold view_put. rewrite app_assoc, elem_of_app, list_elem_of_singleton. case_decide as Hd.
    + injection Hd as ->. split; [intros [= ->]; by right|]. intros [Hin|[= ->]]; [|done]. exfalso.
      rewrite <- !app_assoc, app_assoc, fmap_app in Hnd. apply NoDup_app in Hnd as (_ & Hnd & _).
      apply (list_elem_of_fmap_2 fst) in Hin. cbn in Hin. apply (Hnd k Hin). cbn. by left.
    + rewrite Hr. split; [by left|]. intros [Hin|[= -> ->]]; [done|]. congruence.
  - intros t' k' Ht' Hm Hne. rewrite Hv, view_put_ne by (by intros [= -> _]). by apply Ho.
Qed.

Lemma copy_body t (rows : list RawEntry) : table_ok t = true -> tx_body (sm_for rows (fun '(key, value) => put t key value)).
Proof. intros Ht. unfold put. tx_bodies. Qed.

(** The pages of a table are copied to the last; every row is a valid one. *)
Lemma acts_copy_pages fuel source t v0 l1 l2 hash db :
  DbOk db -> journal_table t = true -> btree_iter (rd_table_rows source) = l1 ++ l2 -> (length l2 < fuel)%nat -> Filled v0 t l1 (committed db) ->
  acts (copy_pages fuel source t (fst <$> last l1) hash) db
    (fun r db' => DbOk db' /\ (is_ok r = true -> Filled v0 t (l1 ++ l2) (committed db') /\ forall k x, (k, x) ∈ l2 -> valid_row t k x)).
Proof.
  intros Hdb Ht. assert (table_ok t = true) as Hok by by destruct t. revert l1 l2 hash db Hdb.
  induction fuel as [|fuel IH]; intros l1 l2 hash db Hdb El Hfuel Hl; [lia|]. cbn [copy_pages].
  destruct (source_page_ok source (fst <$> last l1)) as (page & -> & Hp). rewrite (scan_rest _ _ _ El) in Hp.
  unfold acts. rewrite sm_bind_eq. cbn [sm_some mbind option_bind]. rewrite sm_bind_eq. cbn [sm_lift].
  destruct page as [rows|e]; [|eexists (Err e), db; by split_and!]. specialize (Hp rows eq_refl). destruct rows as [|row rows].
  { apply raw_page_end in Hp; [|done]. subst l2. exists (Ok hash), db. rewrite app_nil_r. split_and!; [done..|].
    intros _. split; [done|]. by intros k x ?%not_elem_of_nil. }
  set (page := row :: rows) in *. destruct (rp_prefix _ _ _ Hp) as [l3 ->]. rewrite length_app in Hfuel.
  assert (NoDup (l1 ++ page ++ l3).*1) as Hnd by (rewrite <- El; apply NoDup_btree_iter).
  eapply acts_bind.
  { apply acts_asks, (asks_fold _ (fun before _ => forall k x, (k, x) ∈ before -> valid_row t k x) db page hash []); [by intros k x ?%not_elem_of_nil|].
    intros before [k x] b Hb _ _. apply asks_lift. intros [] Hv%validate_record_Ok. apply asks_ret.
    intros k' x' [Hin|[= -> ->]%list_elem_of_singleton]%elem_of_app; [by apply Hb|done]. }
  { intros e db' [-> _]. by split. }
  intros hash' db' [-> Hv]. specialize (Hv hash' eq_refl). cbn [app] in Hv. eapply acts_bind.
  { apply committing_ok; [done|by apply copy_body|]. apply (calls_copy v0 t l1 page l3); [by apply tx_new_ok, Hdb|done..]. }
  { intros e db' [Hdb' _]. by split. }
  intros [] db' [Hdb' (tx & Htx & Hs)]. pose proof (filled_sees _ _ _ _ _ Ht Htx Hs) as Hf.
  assert (fst <$> last page = fst <$> last (l1 ++ page)) as ->.
  { rewrite last_app. by destruct (last page) eqn:E; [|apply last_None in E]. }
  eapply acts_weaken; [apply (IH (l1 ++ page) l3 hash' db' Hdb')|]; [by rewrite <- app_assoc|unfold page in Hfuel; cbn [length] in Hfuel; lia|done|].
  intros r db2 [Hdb2 Hr]. split; [done|]. intros Hok2%Hr. rewrite <- app_assoc in Hok2. destruct Hok2 as [? Hv2]. split; [done|].
  intros k x [?|?]%elem_of_app; [by apply Hv|by apply Hv2].
Qed.

Lemma asks_hash_pages fuel t l1 l2 hash db :
  DbOk db -> table_ok t = true -> rows_of db t = l1 ++ l2 -> (length l2 < fuel)%nat ->
  asks (hash_pages fuel t (fst <$> last l1) hash) db (fun _ => True).
Proof.
  intros Hdb Ht. revert l1 l2 hash. induction fuel as [|fuel IH]; intros l1 l2 hash El Hfuel; [lia|]. cbn [hash_pages].
  apply asks_scan; [done..|]. intros page Hp. change (btree_iter _) with (rows_of db t) in El. rewrite (scan_rest _ _ _ El) in Hp.
  destruct page as [|x page]; [by apply asks_ret|]. destruct (rp_prefix _ _ _ Hp) as [l3 ->]. rewrite length_app in Hfuel. cbn [length] in Hfuel.
  assert (fst <$> last (x :: page) = fst <$> last (l1 ++ x :: page)) as ->.
  { rewrite last_app. by destruct (last (x :: page)) eqn:El2; [|apply last_None in El2]. }
  apply (IH (l1 ++ x :: page) l3); [by rewrite <- app_assoc|lia].
Qed.

(** ** The target is filled *)

(** A loop keeps an invariant of the elements behind it, as long as its steps succeed. *)
Lemma acts_for {A S} (f : A -> SM Error.AppError S unit) (I : list A -> S -> Prop) l s :
  I [] s -> (forall before x after s, l = before ++ x :: after -> I before s ->
    acts (f x) s (fun r s' => is_ok r = true -> I (before ++ [x]) s')) ->
  acts (sm_for l f) s (fun r s' => is_ok r = true -> I l s').
Proof.
  intros HI Hf. assert (forall before after s, l = before ++ after -> I before s -> acts (sm_for after f) s (fun r s' => is_ok r = true -> I l s')) as Hgo;
    [|by apply (Hgo [] l)].
  clear s HI. intros before after. revert before. induction after as [|x after IH]; intros before s -> HI.
  { apply acts_ret. intros _. by rewrite app_nil_r. }
  cbn [sm_for]. eapply acts_bind; [by apply (Hf before x after)|by intros e s' _|]. intros [] s' Hs'.
  apply (IH (before ++ [x])); [by rewrite <- app_assoc|by apply Hs'].
Qed.

(** The rows of a table of the source. *)
Definition legacy_rows (legacy : RdDatabase) (t : Table) : Rows :=
  match table_name t with Some n => rd_rows legacy n | None => ∅ end.

(** Fuel for the pages of the source, and for the links between them. *)
Definition import_fuel (legacy : RdDatabase) (fuel : nat) : Prop :=
  (forall t, journal_table t = true -> (size (legacy_rows legacy t) < fuel)%nat)
  /\ (1 + size (legacy_rows legacy Heads) + size (legacy_rows legacy Requests) + size (legacy_rows legacy History) < fuel)%nat.

(** A target under way: the tables behind are copied, the others empty, and the status seals it. *)
Record Filling (legacy : RdDatabase) (behind : list Table) (db : Database) : Prop := {
  fl_ok : DbOk db;
  fl_journal t : t ∈ behind -> journal_table t = true;
  fl_behind t k : t ∈ behind -> committed db t k = legacy_rows legacy t !! k;
  fl_valid t k x : t ∈ behind -> committed db t k = Some x -> valid_row t k x;
  fl_ahead t k : journal_table t = true -> t ∉ behind -> committed db t k = None;
  fl_marks k : committed db Migration k = if decide (k = STATUS) then Some (ascii_bytes "copying") else None;
}.

Lemma acts_copy_table fuel legacy snapshot behind t db :
  rd_begin_read legacy = Ok snapshot -> import_fuel legacy fuel -> journal_table t = true -> t ∉ behind -> Filling legacy behind db ->
  acts (copy_table fuel snapshot t) db (fun r db' => is_ok r = true -> Filling legacy (behind ++ [t]) db').
Proof.
  intros Hb Hfuel Ht Hn [Hdb Hjt Hbeh Hval Hah Hm]. assert (table_ok t = true) as Hok by by destruct t.
  destruct (table_name_ok t Hok) as [n En]. pose proof (proj1 Hfuel t Ht) as Hsize. unfold legacy_rows in Hsize. rewrite En in Hsize.
  unfold copy_table. rewrite En. eapply acts_bind with (Q' := fun r db' => db' = db /\ r = Ok n); [by eexists (Ok n), db|by intros e db' [_ [=]]|].
  intros ? db' [-> [= ->]]. pose proof (rd_open_table_law snapshot n) as Ho.
  eapply acts_bind with (Q' := fun r db' => db' = db /\ forall source, r = Ok source -> rd_table_rows source = rd_rows legacy n).
  { eexists _, db. split; [done|]. split; [done|]. intros source. destruct (rd_open_table snapshot n); [|done]. intros [= <-].
    by rewrite Ho, (rd_begin_read_law _ _ _ Hb). }
  { by intros e db' _. }
  intros source db' [-> Hs]. specialize (Hs source eq_refl).
  eapply acts_bind with (Q' := fun r db' => is_ok r = true -> Filling legacy (behind ++ [t]) db').
  { eapply acts_weaken.
    - apply (acts_copy_pages fuel source t (committed db) [] (btree_iter (rd_table_rows source)) [] db Hdb Ht eq_refl).
      + by rewrite length_btree_iter, Hs.
      + split; [|done]. intros k x. rewrite Hah by done. split; [done|by intros ?%not_elem_of_nil].
    - intros r db' [Hdb' Hr] [[Hrows Hother] Hv]%Hr. cbn [app] in Hrows.
      assert (forall t', t' ∈ behind -> forall k, committed db' t' k = committed db t' k) as Hsame.
      { intros t' Ht' k. pose proof (Hjt t' Ht'). apply Hother; [by destruct t'..|by intros ->]. }
      split; [done|..].
      + intros t' [?| ->%list_elem_of_singleton]%elem_of_app; [by apply Hjt|done].
      + intros t' k [Ht'| ->%list_elem_of_singleton]%elem_of_app.
        * rewrite Hsame by done. by apply Hbeh.
        * unfold legacy_rows. rewrite En, <- Hs. apply option_eq. intros x. rewrite Hrows. apply elem_of_btree_iter.
      + intros t' k x [Ht'| ->%list_elem_of_singleton]%elem_of_app; [|by intros Hx%Hrows; apply Hv].
        rewrite Hsame by done. by apply Hval.
      + intros t' k Ht' Hn'. rewrite not_elem_of_app, list_elem_of_singleton in Hn'. destruct Hn' as [Hn' Hne].
        rewrite Hother by (done || by destruct t'). by apply Hah.
      + intros k. rewrite Hother by (done || by destruct t). apply Hm. }
  { by intros e db' _. }
  intros hash db' Hf. specialize (Hf eq_refl). eapply acts_bind.
  { apply acts_asks, (asks_hash_pages fuel t [] (rows_of db' t)); [apply Hf|done..|].
    unfold rows_of. rewrite length_btree_iter. unfold legacy_rows in *.
    assert (engine_rows (db_engine db') t = legacy_rows legacy t) as ->; [|by apply Hfuel].
    apply map_eq. intros k. apply (fl_behind _ _ _ Hf). apply elem_of_app. right. by left. }
  { by intros e db2 _. }
  intros actual db2 [-> _]. unfold sm_require. case_bool_decide; [by apply acts_ret|]. by eexists (Err _), db'.
Qed.

Lemma copied_to_rows legacy db t : Filling legacy APPLICATION_TABLES db -> journal_table t = true -> engine_rows (db_engine db) t = legacy_rows legacy t.
Proof. intros Hf Ht. apply map_eq. intros k. apply (fl_behind _ _ _ Hf). destruct t; try discriminate; unfold APPLICATION_TABLES; set_solver. Qed.

Lemma status_unmarked ns i : receipt_index ns i <> STATUS.
Proof. intros E. apply (f_equal (take 1)) in E. vm_compute in E. discriminate. Qed.

(** A complete copy: the tables of the source, which spell one log per namespace. *)
Record Imported (legacy : RdDatabase) (e : Engine) : Prop := {
  im_wf : engine_wf e;
  im_rows t : journal_table t = true -> engine_rows e t = legacy_rows legacy t;
  im_logs : Represents (committed (from_engine e)) (logs_of (engine_rows e Heads) (engine_rows e Requests));
  im_status : engine_rows e Migration !! STATUS = Some (ascii_bytes "complete");
}.

Lemma filled_links fuel legacy db : Filling legacy APPLICATION_TABLES db -> import_fuel legacy fuel ->
  acts (validate_links fuel) db (fun r db' => DbOk db' /\ journal_same (committed db) (committed db') /\ (is_ok r = true -> Linked (committed db))).
Proof.
  intros Hf Hfuel. pose proof (copied_to_rows legacy db) as Hrows.
  assert (forall t, journal_table t = true -> length (rows_of db t) = size (legacy_rows legacy t)) as Hlen.
  { intros t Ht. unfold rows_of. by rewrite length_btree_iter, Hrows. }
  assert (length (rows_of db Migration) = 1%nat) as Hone.
  { unfold rows_of. rewrite length_btree_iter. assert (engine_rows (db_engine db) Migration = {[STATUS := ascii_bytes "copying"]}) as ->; [|by rewrite map_size_singleton].
    apply map_eq. intros k. pose proof (fl_marks _ _ _ Hf k) as Hm. unfold committed in Hm. rewrite Hm. case_decide as Hk; [by rewrite Hk, lookup_singleton_eq|].
    by rewrite lookup_singleton_ne. }
  destruct (validate_links_ok fuel db (fl_ok _ _ _ Hf)) as (r & db' & E & Hdb' & Hs).
  { destruct Hfuel as [Hall Hsum]. split; [intros t [_ Ht]%linking_ok; rewrite Hlen by done; by apply Hall|]. rewrite Hone, !Hlen by done. lia. }
  exists r, db'. split_and!; [done..|]. destruct r as [[]|]; [|done]. intros _.
  apply (validate_links_linked fuel db db'); [apply Hf| | |done].
  - intros t k x Ht. apply (fl_valid _ _ _ Hf). destruct t; try discriminate; unfold APPLICATION_TABLES; set_solver.
  - intros ns i b. rewrite (fl_marks _ _ _ Hf). case_decide as Hd; [by apply status_unmarked in Hd|]. split; [done|]. by intros (r & f & h & _ & ?%not_elem_of_nil & _).
Qed.

(** A fresh engine, as a new directory opens. *)
Definition fresh (e : Engine) : Prop := engine_wf e /\ forall t, table_ok t = true -> engine_rows e t = ∅.

Lemma put_status db s : DbOk db ->
  acts (committing (put Migration STATUS s)) db (fun r db' => is_ok r = true -> DbOk db'
    /\ forall t k, table_ok t = true -> t <> Metadata -> committed db' t k = view_put (committed db) Migration STATUS (Some s) t k).
Proof.
  intros Hdb. eapply acts_weaken.
  - apply (committing_ok _ db (fun _ tx' => forall t k, tx_row tx' t k = view_put (committed db) Migration STATUS (Some s) t k) Hdb); [unfold put; tx_bodies|].
    apply calls_put; [by apply tx_new_ok, Hdb|done..|]. intros tx' _ Hv t k. exact (Hv t k).
  - intros [[]|] db' [Hdb' Hr]; [|done]. intros _. split; [done|]. destruct Hr as (tx & Hv & Hs). intros t k Ht Hm. by rewrite Hs, Hv.
Qed.

Lemma acts_import fuel legacy snapshot e :
  rd_begin_read legacy = Ok snapshot -> import_fuel legacy fuel -> fresh e ->
  acts (import_rows fuel snapshot) (from_engine e) (fun r db' => is_ok r = true -> Imported legacy (db_engine db')).
Proof.
  intros Hb Hfuel [Hwf He]. assert (DbOk (from_engine e)) as Hdb by done. unfold import_rows.
  eapply acts_bind; [by apply put_status|by intros error db' _|]. intros [] db1 H1'. destruct (H1' eq_refl) as [Hdb1 Hv1]. clear H1'.
  assert (forall t k, table_ok t = true -> t <> Metadata -> committed db1 t k = view_put (fun _ _ => None) Migration STATUS (Some (ascii_bytes "copying")) t k) as Hstart.
  { intros t k Ht Hm. rewrite Hv1 by done. unfold view_put. case_decide; [done|]. unfold committed. cbn [from_engine db_engine]. by rewrite He. }
  eapply acts_bind.
  { apply (acts_for _ (fun before db => Filling legacy before db)).
    - split; [done|by intros t ?%not_elem_of_nil|by intros t k ?%not_elem_of_nil|by intros t k x ?%not_elem_of_nil| |].
      + intros t k Ht _. rewrite Hstart by by destruct t. apply view_put_ne. by intros [= -> _].
      + intros k. rewrite Hstart by done. unfold view_put. repeat case_decide; congruence.
    - intros before t after db El Hf. assert (t ∈ APPLICATION_TABLES /\ t ∉ before) as [Hin Hn].
      { split; [rewrite El; apply elem_of_app; right; by left|]. assert (NoDup APPLICATION_TABLES) as Hnd by (apply (bool_decide_unpack _); vm_compute; exact I).
        rewrite El in Hnd. apply NoDup_app in Hnd as (_ & Hnd & _). intros Hx. apply (Hnd t Hx). by left. }
      apply (acts_copy_table fuel legacy); [done..| |done|done]. unfold APPLICATION_TABLES in Hin. set_solver. }
  { by intros error db' _. }
  intros [] db2 Hf. specialize (Hf eq_refl). eapply acts_bind; [by apply (filled_links fuel legacy)|by intros error db' _|].
  intros [] db3 (Hdb3 & Hs3 & Hl). specialize (Hl eq_refl). eapply acts_weaken; [by apply put_status|].
  intros r db4 Hr Hok. destruct (Hr Hok) as [Hdb4 Hv4]. clear Hr Hok.
  assert (journal_same (committed db2) (committed db4)) as Hsame.
  { intros t k Ht. rewrite Hv4, view_put_ne by (by destruct t || by intros [= -> _]). by apply Hs3. }
  split.
  - apply Hdb4.
  - intros t Ht. rewrite <- (copied_to_rows legacy db2) by done. apply map_eq. intros k. exact (Hsame t k Ht).
  - apply (represents_same (committed db2)); [|intros t k Ht; exact (Hsame t k Ht)].
    apply linked_represents; [done|intros k; by apply (Hsame Heads k)|intros k; by apply (Hsame Requests k)].
  - change (committed db4 Migration STATUS = Some (ascii_bytes "complete")). rewrite Hv4 by done. apply view_put_same.
Qed.

(** ** The place of an import *)

(** Every table of the source that has rows is one of the application's. *)
Definition only_application (legacy : RdDatabase) : Prop :=
  forall n, rd_rows legacy n <> ∅ -> exists t, journal_table t = true /\ table_name t = Some n.

(** What an import of a source leaves at a place, under an environment. *)
Inductive import_outcome (env : Environment) (source : result string RdDatabase) (p : Place) : AppResult unit -> Place -> Prop :=
(** Refused before anything is done. *)
| import_refused error : import_outcome env source p (Err error) p
(** The guard was not created: the place is what others made of it. *)
| import_preempted error : pl_target p = Absent -> import_outcome env source p (Err error) (en_rival env p)
(** The destination was not created: it is what others made of it. *)
| import_undone error guard : pl_target p = Absent -> pl_guard (en_rival env p) = false ->
    import_outcome env source p (Err error) (mkPlace (pl_target (en_rival env p)) guard)
(** The destination was created, and is sealed. *)
| import_sealed error target : pl_target p = Absent -> en_rival env p = mkPlace Absent false ->
    import_outcome env source p (Err error) (mkPlace target true)
(** The destination is complete; only the last sync may have failed. *)
| import_complete r legacy e : pl_target p = Absent -> en_rival env p = mkPlace Absent false ->
    source = Ok legacy -> only_application legacy -> Imported legacy e -> r = Ok tt \/ is_Some (en_fault env SyncRemoved) ->
    import_outcome env source p r (mkPlace (Stored e) false).

Lemma acts_attempt env c p (Q : AppResult unit -> Place -> Prop) :
  (forall error, Q (Err error) p) -> Q (Ok tt) p -> acts (attempt env c) p Q.
Proof. intros HE HO. unfold attempt. destruct (en_fault env c); [by eexists (Err _), p|by exists (Ok tt), p]. Qed.

Lemma acts_step {B} env c (k : unit -> SM Error.AppError Place B) p Q :
  (forall error, Q (Err error) p) -> acts (k tt) p Q -> acts (x ← attempt env c; k x) p Q.
Proof.
  intros HE Hk. eapply acts_bind with (Q' := fun _ p' => p' = p); [by apply acts_attempt|by intros e ? ->|by intros [] ? ->].
Qed.

Lemma acts_lift {A B} (r : AppResult A) (k : A -> SM Error.AppError Place B) p Q :
  (forall error, r = Err error -> Q (Err error) p) -> (forall x, r = Ok x -> acts (k x) p Q) -> acts (x ← sm_lift r; k x) p Q.
Proof.
  intros HE HK. eapply acts_bind with (Q' := fun r' p' => r' = r /\ p' = p); [by exists r, p|intros e ? [<- ->]; by apply HE|intros x ? [<- ->]; by apply HK].
Qed.

Lemma acts_need {B} b e (k : unit -> SM Error.AppError Place B) p Q :
  Q (Err e) p -> (b = true -> acts (k tt) p Q) -> acts (x ← sm_require b e; k x) p Q.
Proof.
  intros HE HK. destruct b; [|by exists (Err e), p]. eapply acts_bind with (Q' := fun r p' => r = Ok tt /\ p' = p); [by eexists _, p|by intros ? ? [? _]|].
  intros [] ? [_ ->]. by apply HK.
Qed.

Lemma acts_modify {B} f (k : unit -> SM Error.AppError Place B) p Q : acts (k tt) (f p) Q -> acts (x ← sm_modify f; k x) p Q.
Proof. intros (r & p' & E & HQ). exists r, p'. by rewrite sm_bind_eq. Qed.

Lemma acts_here {B} (k : Place -> SM Error.AppError Place B) p Q : acts (k p) p Q -> acts (x ← sm_get; k x) p Q.
Proof. intros (r & p' & E & HQ). exists r, p'. by rewrite sm_bind_eq. Qed.

Lemma check_source_ok legacy snapshot : rd_begin_read legacy = Ok snapshot -> check_source snapshot = Ok tt -> only_application legacy.
Proof.
  intros Hb. unfold check_source. destruct (rd_list_multimap_tables snapshot) as [[]|]; [|done..]. cbn [io map_err mbind result_bind].
  destruct (rd_list_tables snapshot) as [l|] eqn:El; [|done]. cbn [io map_err mbind result_bind].
  destruct (try_fold _ 0 l) as [count|] eqn:Ec; [|done]. intros _ n Hn. destruct (decide (n ∈ l)) as [Hin|Hout].
  - clear El. revert Ec. generalize 0. induction l as [|m l IH]; intros z; [by apply not_elem_of_nil in Hin|]. cbn [try_fold].
    destruct (existsb _ _) eqn:Ex; [|done]. apply elem_of_cons in Hin as [<-|Hin]; [|by apply IH]. intros _.
    apply existsb_exists in Ex as (t & Ht & En%bool_decide_eq_true). exists t. split; [|done].
    apply list_elem_of_In in Ht. clear En. unfold APPLICATION_TABLES in Ht. rewrite !elem_of_cons, elem_of_nil in Ht. naive_solver.
  - destruct Hn. rewrite <- (rd_begin_read_law _ _ _ Hb). by apply (rd_list_tables_law snapshot l).
Qed.

Lemma acts_create env source p : pl_target p = Absent -> pl_guard (en_rival env p) = false ->
  acts (or_undo env (create_destination env)) (set_guard true (en_rival env p)) (fun r p' =>
    (r = Ok tt /\ pl_target (en_rival env p) = Absent /\ p' = mkPlace Bare true) \/ (is_ok r = false /\ import_outcome env source p r p')).
Proof.
  intros Hp Hg. set (q := set_guard true (en_rival env p)).
  assert (acts (create_destination env) q (fun r p' => (r = Ok tt /\ pl_target (en_rival env p) = Absent /\ p' = mkPlace Bare true)
    \/ (is_ok r = false /\ p' = q))) as (r & q' & E & Hr).
  { unfold create_destination. apply acts_step; [by right|]. apply acts_here, acts_need; [by right|]. intros Ha. exists (Ok tt), (set_target Bare q).
    split; [done|]. left. cbn in Ha. by destruct (pl_target (en_rival env p)). }
  unfold acts, or_undo. rewrite E. cbn [mbind option_bind]. destruct Hr as [(-> & Ha & ->)|[Hr ->]]; [by eexists _, _; split; [|left]|].
  destruct r as [|error]; [done|]. change (acts (_ ← attempt env UndoGuard; _ ← sm_modify (set_guard false); _ ← attempt env SyncUndo; sm_throw error : SM Error.AppError Place unit) q
    (fun r p' => (r = Ok tt /\ pl_target (en_rival env p) = Absent /\ p' = mkPlace Bare true) \/ (is_ok r = false /\ import_outcome env source p r p'))).
  assert (forall e b, is_ok (Err (A := unit) (E := Error.AppError) e) = false /\ import_outcome env source p (Err e) (set_guard b (en_rival env p))) as Hout by (split; [done|by apply import_undone]).
  apply acts_step; [intros e; right; apply Hout|]. apply acts_modify. change (set_guard false q) with (set_guard false (en_rival env p)).
  apply acts_step; [intros e; right; apply Hout|]. exists (Err error), (set_guard false (en_rival env p)). split; [done|]. right. apply Hout.
Qed.

(** C27: an import is complete or sealed. With fuel for the rows of the source, and a new directory that
    opens as a fresh engine, an import answers, whatever calls fail and whatever other processes do
    between its look at the destination and the creation: it is refused and leaves the place; or it
    leaves what others put there, and removes no guard but its own; or the destination it created is
    sealed by the guard, so that opening it is refused; or the destination is complete: every
    application table has the rows of the source, which has no others, they are one log per
    namespace, and the status says so. It succeeds only when the destination is complete. *)
Theorem import_complete_or_sealed fuel env source p :
  (forall legacy, source = Ok legacy -> import_fuel legacy fuel) -> (forall e, en_engine env = Ok e -> fresh e) ->
  exists r p', migrate fuel env source p = Some (r, p') /\ import_outcome env source p r p'
    /\ forall guard' engine, pl_guard p' = true -> db_open (Ok (pl_guard p')) guard' engine = Some (Err (Corrupt "incomplete application migration")).
Proof.
  intros Hfuel Hfresh. enough (acts (migrate fuel env source) p (import_outcome env source p)) as (r & p' & E & Ho).
  { exists r, p'. split_and!; [done..|]. by intros guard' engine ->. }
  pose proof (import_refused env source p) as Hrefused. unfold migrate. apply acts_lift; [done|]. intros legacy Hl.
  destruct source as [legacy'|]; [injection Hl as ->|done]. specialize (Hfuel legacy eq_refl).
  apply acts_lift; [done|]. intros snapshot Hs. destruct (rd_begin_read legacy) as [snapshot'|] eqn:Hb; [injection Hs as ->|done].
  apply acts_lift; [done|]. intros [] Hcheck. apply (check_source_ok legacy) in Hcheck; [|done].
  apply acts_step; [done|]. apply acts_here, acts_need; [done|]. intros Ha. assert (pl_target p = Absent) as Hp by by destruct (pl_target p).
  apply acts_modify. pose proof (fun e => import_preempted env (Ok legacy) p e Hp) as Hpre. apply acts_step; [done|].
  eapply acts_bind with (Q' := fun r p' => (r = Ok tt /\ pl_guard (en_rival env p) = false /\ p' = set_guard true (en_rival env p)) \/ (is_ok r = false /\ p' = en_rival env p)).
  { unfold create_guard. apply acts_step; [by right|]. apply acts_here, acts_need; [by right|]. intros Hg%negb_true_iff.
    eexists (Ok tt), _. split; [done|]. by left. }
  { intros e p' [[? _]|[_ ->]]; [done|]. apply Hpre. }
  intros [] p' [(_ & Hg & ->)|[? _]]; [|done]. pose proof (fun e => import_undone env (Ok legacy) p e true Hp Hg) as Hund.
  apply acts_step; [done|]. apply acts_step; [done|]. eapply acts_bind; [by apply (acts_create env (Ok legacy))|by intros e p' [[? _]|[_ ?]]|].
  intros [] p' [(_ & Hr & ->)|[? _]]; [|done]. assert (en_rival env p = mkPlace Absent false) as Hrival by (destruct (en_rival env p); cbn in *; congruence).
  pose proof (fun e t => import_sealed env (Ok legacy) p e t Hp Hrival) as Hseal.
  unfold fill_target. destruct (en_engine env) as [engine|error] eqn:Ee; [|by eexists (Err _), _; split; [|apply Hseal]].
  destruct (acts_import fuel legacy snapshot engine Hb Hfuel (Hfresh engine eq_refl)) as (r & db & E & Hi).
  eapply acts_bind with (Q' := fun r' p' => r' = r /\ p' = mkPlace (Stored (db_engine db)) true).
  { exists r, (mkPlace (Stored (db_engine db)) true). split; [|exact (conj eq_refl eq_refl)]. rewrite sm_bind_eq. cbn [map_err sm_lift]. cbv beta. rewrite E. reflexivity. }
  { intros e p' [_ ->]. apply Hseal. }
  intros [] p' [<- ->]. specialize (Hi eq_refl). apply acts_step; [intros e; apply Hseal|]. apply acts_modify.
  change (set_guard false _) with (mkPlace (Stored (db_engine db)) false).
  pose proof (fun r => import_complete env (Ok legacy) p r legacy (db_engine db) Hp Hrival eq_refl Hcheck Hi) as Hdone.
  unfold attempt. destruct (en_fault env SyncRemoved) eqn:Ef; [|by eexists (Ok tt), _; split; [|apply Hdone; left]].
  eexists (Err _), _. split; [done|]. apply Hdone. right. by eexists.
Qed.

End ImporterSpec.

(** ** Witness *)

Import Toy ToyEngines.

#[export] Instance toy_tables : RedbTables := {|
  rd_list_multimap_tables _ := Ok [];
  rd_list_tables s := Ok (map_to_list s).*1;
  rd_table_error e := match e with TableDoesNotExist name => name | TableFault error => error end;
|}.

#[export] Program Instance toy_tables_laws : RedbTablesLaws.
Next Obligation.
  intros s l n [= <-] Hn. change (rows_at s n = ∅). unfold rows_at. destruct ((s : Store) !! n) eqn:E; [|reflexivity]. destruct Hn.
  apply list_elem_of_fmap. eexists (_, _). split; [done|]. by apply elem_of_map_to_list.
Qed.

(** The application tables of the store after [sample_write], in a redb file. *)
Definition legacy_store : Store :=
  match db_engine written_db with
  | ERedb s => filter (fun e => existsb (fun t => bool_decide (table_name t = Some e.1)) APPLICATION_TABLES = true) s
  | _ => ∅
  end.

Definition quiet : Environment := mkEnvironment (fun _ => None) "exists" Datatypes.id (Ok (ERedb ∅)).
Definition empty_place : Place := mkPlace Absent false.

Lemma quiet_fresh e : en_engine quiet = Ok e -> fresh e.
Proof. intros [= <-]. split; [done|]. intros t Ht. unfold engine_rows. by destruct (table_name t). Qed.

Lemma legacy_fuel : import_fuel legacy_store 10.
Proof.
  assert (forallb (fun t => Nat.ltb (size (legacy_rows legacy_store t)) 10) APPLICATION_TABLES = true) as Ef by (vm_compute; reflexivity).
  rewrite forallb_forall in Ef. split.
  - intros t Ht. apply Nat.ltb_lt, Ef. clear Ef. destruct t; try discriminate; unfold APPLICATION_TABLES; cbn; tauto.
  - apply Nat.ltb_lt. vm_compute. reflexivity.
Qed.

Lemma source_fuel (store legacy : RdDatabase) fuel : import_fuel store fuel -> Ok (E := string) store = Ok legacy -> import_fuel legacy fuel.
Proof. by intros Hf [= <-]. Qed.

Lemma imported_ok : answered (migrate 10 quiet (Ok legacy_store) empty_place) = true.
Proof. vm_compute. reflexivity. Qed.

Lemma outcome_imported env legacy p r p' :
  answered (Some (r, p')) = true -> import_outcome env (Ok legacy) p r p' -> exists e, p' = mkPlace (Stored e) false /\ Imported legacy e.
Proof.
  intros Ha Ho. destruct Ho as [| | | |r legacy' e _ _ El _ Hi _]; [discriminate Ha..|]. exists e. split; [reflexivity|].
  assert (legacy' = legacy) as <- by congruence. exact Hi.
Qed.

Lemma import_complete_or_sealed_witness :
  exists r p' e, migrate 10 quiet (Ok legacy_store) empty_place = Some (r, p') /\ p' = mkPlace (Stored e) false /\ Imported legacy_store e.
Proof.
  destruct (import_complete_or_sealed 10 quiet (Ok legacy_store) empty_place
    (fun legacy => source_fuel legacy_store legacy 10 legacy_fuel) quiet_fresh) as (r & p' & E & Ho & _).
  assert (answered (Some (r, p')) = true) as Ha by (rewrite <- E; exact imported_ok).
  destruct (outcome_imported _ _ _ _ _ Ha Ho) as (e & Ep & Hi). exists r, p', e. exact (conj E (conj Ep Hi)).
Defined.
