(* ===== verification/Frame.v ===== *)
(** * The frames of the command line's log (cli/src/frame.rs)

    Signals, intents and block boundaries as frames of the tape crate, and the decoder of a log. A
    payload is read by a cursor: a decoder takes the bytes that are left and answers the rest. *)

From S2P Require Import Prelude.
From S2P Require Import Crypto.
From S2P Require Import Types.
From S2P Require Import Access.

Local Open Scope Z_scope.

(** The tape crate: chunks, their frames, and the chunks a reader answers from fed bytes until it is
    pending or at the end. *)
Record Chunk := mkChunk { c_sigil : u8; c_render : u8; c_payload : list u8 }.

Class Tape := {
  ZAP : u8;
  KET : u8;
  tape_encode : Chunk -> list u8;
  tape_chunks : list u8 -> list Chunk;
}.

Definition RENDER_BIN : u8 := of_Z 8 98.
Definition SIG_FINALIZE : u8 := of_Z 8 46.

(** The sigils differ, and frames are self-delimiting: a stream of frames is read back. *)
Class TapeLaws `{Tape} : Prop := {
  sigils_differ : ZAP <> KET /\ ZAP <> SIG_FINALIZE /\ KET <> SIG_FINALIZE;
  tape_stream cs : tape_chunks (flat_map tape_encode cs) = cs;
}.

Inductive Event :=
| ESignal (sg : Signal)
| EIntent (i : IntentRecord)
| EFinalize.

(** ** Casts *)

(** [v as i8] of a byte, and back. *)
Definition wrap_i8 (v : u8) : Z := if uval v <? 128 then uval v else uval v - 256.

Lemma wrap_i8_ok v : in_swidth 8 (wrap_i8 v) = true.
Proof. pose proof (uval_range v). unfold in_swidth, wrap_i8. change (2 ^ (Z.of_N 8 - 1)) with 128. simpl Z.of_N in *. destruct (Z.ltb_spec (uval v) 128); lia. Qed.

Definition as_i8 (v : u8) : i8 := SInt 8 (wrap_i8 v) (certify (wrap_i8_ok v)).
Definition as_u8 (v : i8) : u8 := of_Z 8 (sval v).

Lemma as_i8_u8 v : as_i8 (as_u8 v) = v.
Proof.
  apply (sval_cast_inj (w := 8)); [done|]. apply uint_eq. rewrite uval_of_Z. cbn [sval as_i8]. unfold wrap_i8, as_u8. rewrite !uval_of_Z. simpl Z.of_N.
  destruct (Z.ltb_spec (sval v mod 2 ^ 8) 128); [by rewrite Z.mod_mod|]. replace (sval v mod 2 ^ 8 - 256) with (sval v mod 2 ^ 8 + (-1) * 2 ^ 8) by lia. by rewrite Z_mod_plus_full, Z.mod_mod.
Qed.

(** ** Encoding *)

Definition link_bytes (l : Cyberlink) : list u8 :=
  blist (l_from l) ++ blist (l_to l) ++ blist (l_token l) ++ blist (to_le_bytes 8 (l_amount l)) ++ [as_u8 (l_valence l)].

Definition move_bytes (m : BoxMove) : list u8 :=
  blist (nullifier m) ++
  match box_commitment m with
  | Some (point, value) => of_Z 8 1 :: blist point ++ blist (to_le_bytes 8 value)
  | None => [of_Z 8 0]
  end.

(** [len() as u32] in four bytes. *)
Definition count_bytes {A} (l : list A) : list u8 := blist (to_le_bytes 4 (of_Z 32 (zlen l))).

Definition serialize_signal (s : Signal) : list u8 :=
  blist (s_neuron s) ++ blist (to_le_bytes 8 (s_height s))
  ++ count_bytes (s_links s) ++ flat_map link_bytes (s_links s)
  ++ count_bytes (s_box_moves s) ++ flat_map move_bytes (s_box_moves s).

Definition serialize_intent (i : IntentRecord) : list u8 :=
  blist (ir_neuron i) ++ blist (to_le_bytes 8 (ir_h0 i)) ++ blist (ir_scope_hash i) ++ blist (ir_signature i).

(** ** The cursor *)

(** [take32], [take64] and the fixed-width reads: [buf.get(p..p + n)]. *)
Definition take_n (n : nat) (buf : list u8) : option (list u8 * list u8) :=
  if (n <=? length buf)%nat then Some (take n buf, drop n buf) else None.

Definition take_array (n : nat) (buf : list u8) : option (bytes n * list u8) :=
  '(s, buf) ← take_n n buf; a ← try_into n s; Some (a, buf).
Definition take_u64 (buf : list u8) : option (u64 * list u8) := '(s, buf) ← take_n 8 buf; Some (from_le_bytes 64 s, buf).
Definition take_u32 (buf : list u8) : option (u32 * list u8) := '(s, buf) ← take_n 4 buf; Some (from_le_bytes 32 s, buf).
Definition take_u8 (buf : list u8) : option (u8 * list u8) :=
  match buf with b :: buf => Some (b, buf) | [] => None end.

(** ** Decoding *)

Definition LINK_BYTES : Z := 105.
Definition MOVE_MIN_BYTES : Z := 33.

Definition take_link (buf : list u8) : option (Cyberlink * list u8) :=
  '(from, buf) ← take_array 32 buf;
  '(to, buf) ← take_array 32 buf;
  '(token, buf) ← take_array 32 buf;
  '(amount, buf) ← take_u64 buf;
  '(valence, buf) ← take_u8 buf;
  Some (mkCyberlink from to token amount (as_i8 valence), buf).

Definition take_move (buf : list u8) : option (BoxMove * list u8) :=
  '(nullifier, buf) ← take_array 32 buf;
  '(tag, buf) ← take_u8 buf;
  if uval tag =? 1 then
    '(point, buf) ← take_array 32 buf;
    '(value, buf) ← take_u64 buf;
    Some (mkBoxMove nullifier (Some (point, value)), buf)
  else Some (mkBoxMove nullifier None, buf).

(** [for _ in 0..n]. *)
Fixpoint take_many {A} (f : list u8 -> option (A * list u8)) (n : nat) (buf : list u8) : option (list A * list u8) :=
  match n with
  | O => Some ([], buf)
  | S n => '(x, buf) ← f buf; '(l, buf) ← take_many f n buf; Some (x :: l, buf)
  end.

(** A count, refused when the records cannot fit what is left, and its records. *)
Definition take_counted {A} (f : list u8 -> option (A * list u8)) (size : Z) (buf : list u8) : option (list A * list u8) :=
  '(n, buf) ← take_u32 buf;
  if zlen buf / size <? uval n then None else take_many f (Z.to_nat (uval n)) buf.

Definition deserialize_signal (buf : list u8) : option Signal :=
  '(neuron, buf) ← take_array 32 buf;
  '(height, buf) ← take_u64 buf;
  '(links, buf) ← take_counted take_link LINK_BYTES buf;
  '(box_moves, _) ← take_counted take_move MOVE_MIN_BYTES buf;
  Some (mkSignal neuron links box_moves height).

Definition deserialize_intent (buf : list u8) : option IntentRecord :=
  '(neuron, buf) ← take_array 32 buf;
  '(h0, buf) ← take_u64 buf;
  '(scope_hash, buf) ← take_array 32 buf;
  '(signature, _) ← take_array 64 buf;
  Some (mkIntentRecord neuron h0 scope_hash signature).

(** ** Frames and logs *)

Section Frames.
  Context `{Tape}.

Definition encode_signal (s : Signal) : list u8 := tape_encode (mkChunk ZAP RENDER_BIN (serialize_signal s)).
Definition encode_intent (i : IntentRecord) : list u8 := tape_encode (mkChunk KET RENDER_BIN (serialize_intent i)).
Definition encode_finalize : list u8 := tape_encode (mkChunk SIG_FINALIZE RENDER_BIN []).

(** One turn of the loop of [decode_events]: payloads that do not decode and unknown sigils are
    skipped. *)
Definition chunk_event (c : Chunk) : list Event :=
  if decide (c_sigil c = ZAP) then match deserialize_signal (c_payload c) with Some s => [ESignal s] | None => [] end
  else if decide (c_sigil c = KET) then match deserialize_intent (c_payload c) with Some i => [EIntent i] | None => [] end
  else if decide (c_sigil c = SIG_FINALIZE) then [EFinalize]
  else [].

Definition decode_events (bytes : list u8) : list Event := flat_map chunk_event (tape_chunks bytes).

End Frames.

(** ** Reading back what was written *)

Lemma take_array_app n (b : bytes n) rest : take_array n (blist b ++ rest) = Some (b, rest).
Proof.
  unfold take_array, take_n. rewrite length_app, length_blist, (proj2 (Nat.leb_le _ _)) by lia. cbn [mbind option_bind].
  rewrite take_app_length', drop_app_length' by by rewrite length_blist. assert (try_into n (blist b) = Some b) as ->; [|done].
  unfold try_into. destruct b as [l Hl]. cbn [blist]. destruct (Bool.bool_dec _ _) as [Hl'|]; [|by rewrite Hl in *]. by rewrite (bool_true_irrel _ Hl Hl').
Qed.

Lemma take_u64_app (v : u64) rest : take_u64 (blist (to_le_bytes 8 v) ++ rest) = Some (v, rest).
Proof.
  unfold take_u64, take_n. rewrite length_app, length_blist, (proj2 (Nat.leb_le _ _)) by lia. cbn [mbind option_bind].
  rewrite take_app_length', drop_app_length' by by rewrite length_blist. by rewrite from_to_le_bytes.
Qed.

Lemma take_u32_app (v : u32) rest : take_u32 (blist (to_le_bytes 4 v) ++ rest) = Some (v, rest).
Proof.
  unfold take_u32, take_n. rewrite length_app, length_blist, (proj2 (Nat.leb_le _ _)) by lia. cbn [mbind option_bind].
  rewrite take_app_length', drop_app_length' by by rewrite length_blist. by rewrite from_to_le_bytes.
Qed.

Lemma take_link_app l rest : take_link (link_bytes l ++ rest) = Some (l, rest).
Proof.
  unfold take_link, link_bytes. rewrite <- !app_assoc. do 3 (rewrite take_array_app; cbn [mbind option_bind]). rewrite take_u64_app. cbn [mbind option_bind app take_u8].
  rewrite as_i8_u8. by destruct l.
Qed.

Lemma take_move_app m rest : take_move (move_bytes m ++ rest) = Some (m, rest).
Proof.
  unfold take_move, move_bytes. rewrite <- app_assoc, take_array_app. cbn [mbind option_bind]. destruct m as [n [[point value]|]]; cbn [nullifier box_commitment app take_u8 mbind option_bind].
  - change (uval (of_Z 8 1) =? 1) with true. rewrite <- app_assoc, take_array_app. cbn [mbind option_bind]. by rewrite take_u64_app.
  - done.
Qed.

Lemma take_many_app {A} (f : list u8 -> option (A * list u8)) (g : A -> list u8) l rest : (forall x rest, f (g x ++ rest) = Some (x, rest)) ->
  take_many f (length l) (flat_map g l ++ rest) = Some (l, rest).
Proof.
  intros Hf. induction l as [|x l IH]; [done|]. cbn [length take_many flat_map]. rewrite <- app_assoc, Hf. cbn [mbind option_bind]. by rewrite IH.
Qed.

Lemma length_flat_ge {A} (g : A -> list u8) size l : 0 <= size -> (forall x, size <= zlen (g x)) -> size * zlen l <= zlen (flat_map g l).
Proof.
  intros Hs Hg. induction l as [|x l IH]; [unfold zlen; simpl; lia|]. specialize (Hg x). unfold zlen in *. cbn [flat_map length]. rewrite length_app. lia.
Qed.

Lemma take_counted_app {A} (f : list u8 -> option (A * list u8)) (g : A -> list u8) size l rest :
  (forall x rest, f (g x ++ rest) = Some (x, rest)) -> 0 < size -> (forall x, size <= zlen (g x)) -> zlen l < 2 ^ 32 ->
  take_counted f size (count_bytes l ++ flat_map g l ++ rest) = Some (l, rest).
Proof.
  intros Hf Hs Hg Hl. unfold take_counted, count_bytes. rewrite take_u32_app. cbn [mbind option_bind]. assert (0 <= zlen l) as H0 by (unfold zlen; lia).
  rewrite uval_of_Z_small by (simpl; lia). rewrite (proj2 (Z.ltb_ge _ _)).
  - unfold zlen at 1. rewrite Nat2Z.id. by apply take_many_app.
  - apply Z.div_le_lower_bound; [done|]. pose proof (length_flat_ge g size l ltac:(lia) Hg). unfold zlen in *. rewrite length_app. lia.
Qed.

Lemma link_size l : LINK_BYTES <= zlen (link_bytes l).
Proof. unfold zlen, link_bytes. rewrite !length_app, !length_blist. by vm_compute. Qed.

Lemma move_size m : MOVE_MIN_BYTES <= zlen (move_bytes m).
Proof. unfold zlen, move_bytes. rewrite length_app, length_blist. destruct (box_commitment m) as [[]|]; cbn [length]; unfold MOVE_MIN_BYTES; lia. Qed.

(** A signal whose lists a [u32] can count. *)
Definition countable_signal (s : Signal) : Prop := zlen (s_links s) < 2 ^ 32 /\ zlen (s_box_moves s) < 2 ^ 32.

Lemma signal_decodes s rest : countable_signal s -> deserialize_signal (serialize_signal s ++ rest) = Some s.
Proof.
  intros [Hl Hm]. unfold deserialize_signal, serialize_signal. rewrite <- !app_assoc, take_array_app. cbn [mbind option_bind]. rewrite take_u64_app. cbn [mbind option_bind].
  rewrite take_counted_app by (apply take_link_app || done || apply link_size). cbn [mbind option_bind].
  rewrite take_counted_app by (apply take_move_app || done || apply move_size). cbn [mbind option_bind]. by destruct s.
Qed.

Lemma intent_decodes i rest : deserialize_intent (serialize_intent i ++ rest) = Some i.
Proof.
  unfold deserialize_intent, serialize_intent. rewrite <- !app_assoc, take_array_app. cbn [mbind option_bind]. rewrite take_u64_app. cbn [mbind option_bind].
  do 2 (rewrite take_array_app; cbn [mbind option_bind]). by destruct i.
Qed.

(** ** What a decoded payload holds *)

Lemma take_n_ok n buf s rest : take_n n buf = Some (s, rest) -> zlen buf = Z.of_nat n + zlen rest.
Proof. unfold take_n. destruct (Nat.leb_spec n (length buf)); [|done]. intros [= <- <-]. unfold zlen. rewrite length_drop. lia. Qed.

Lemma take_array_ok n buf a rest : take_array n buf = Some (a, rest) -> zlen buf = Z.of_nat n + zlen rest.
Proof. unfold take_array. destruct (take_n n buf) as [[s r]|] eqn:E; [|done]. cbn [mbind option_bind]. destruct (try_into n s); [|done]. intros [= _ <-]. by eapply take_n_ok. Qed.

Lemma take_u64_ok buf v rest : take_u64 buf = Some (v, rest) -> zlen buf = 8 + zlen rest.
Proof. unfold take_u64. destruct (take_n 8 buf) as [[s r]|] eqn:E; [|done]. intros [= _ <-]. by apply take_n_ok in E. Qed.

Lemma take_u32_ok buf v rest : take_u32 buf = Some (v, rest) -> zlen buf = 4 + zlen rest.
Proof. unfold take_u32. destruct (take_n 4 buf) as [[s r]|] eqn:E; [|done]. intros [= _ <-]. by apply take_n_ok in E. Qed.

Lemma take_u8_ok buf v rest : take_u8 buf = Some (v, rest) -> zlen buf = 1 + zlen rest.
Proof. destruct buf; [done|]. intros [= _ <-]. unfold zlen. cbn [length]. lia. Qed.

Ltac next_take E := match type of E with context [mbind _ ?m] => destruct m as [[? ?]|] eqn:?; [|done]; cbn [mbind option_bind] in E end.

Lemma take_link_ok buf l rest : take_link buf = Some (l, rest) -> zlen buf = LINK_BYTES + zlen rest.
Proof.
  unfold take_link. intros E. repeat next_take E. injection E as _ <-.
  repeat match goal with
  | H : take_array _ _ = Some _ |- _ => apply take_array_ok in H
  | H : take_u64 _ = Some _ |- _ => apply take_u64_ok in H
  | H : take_u8 _ = Some _ |- _ => apply take_u8_ok in H
  end. unfold LINK_BYTES. lia.
Qed.

Lemma take_move_ok buf m rest : take_move buf = Some (m, rest) -> MOVE_MIN_BYTES + zlen rest <= zlen buf.
Proof.
  unfold take_move. intros E. do 2 next_take E. unfold MOVE_MIN_BYTES. destruct (_ =? 1); [do 2 next_take E|]; injection E as _ <-;
  repeat match goal with
  | H : take_array _ _ = Some _ |- _ => apply take_array_ok in H
  | H : take_u64 _ = Some _ |- _ => apply take_u64_ok in H
  | H : take_u8 _ = Some _ |- _ => apply take_u8_ok in H
  end; lia.
Qed.

Lemma take_many_ok {A} (f : list u8 -> option (A * list u8)) size : (forall buf x rest, f buf = Some (x, rest) -> size + zlen rest <= zlen buf) ->
  forall n buf l rest, take_many f n buf = Some (l, rest) -> length l = n /\ size * zlen l + zlen rest <= zlen buf.
Proof.
  intros Hf. induction n as [|n IH]; intros buf l rest E; cbn [take_many] in E; [injection E as <- <-; split; [done|unfold zlen; simpl; lia]|].
  next_take E. next_take E. injection E as <- <-. match goal with H : f _ = Some _ |- _ => apply Hf in H end. match goal with H : take_many _ _ _ = Some _ |- _ => apply IH in H as [<- ?] end.
  split; [done|]. unfold zlen in *. cbn [length]. lia.
Qed.

Lemma take_counted_ok {A} (f : list u8 -> option (A * list u8)) size buf l rest : (forall buf x rest, f buf = Some (x, rest) -> size + zlen rest <= zlen buf) ->
  take_counted f size buf = Some (l, rest) -> size * zlen l + zlen rest + 4 <= zlen buf.
Proof.
  intros Hf E. unfold take_counted in E. next_take E. destruct (_ <? _); [done|]. apply (take_many_ok f size Hf) in E as [_ E]. match goal with H : take_u32 _ = Some _ |- _ => apply take_u32_ok in H end. lia.
Qed.
