(* ===== verification/Cli.v ===== *)
(** * The command line (cli/src/main.rs)

    The commands over a store directory with a log of frames, replayed on open. A run answers its exit
    code, its lines on standard output and the directory; [None] is a panic. The file system and its
    failures are an argument, parsed arguments are those of the clap crate. *)

From stdpp Require Import pretty.
From S2P Require Import Prelude.
From S2P Require Import Crypto.
From S2P Require Import Keyed.
From S2P Require Import AxonIndex.
From S2P Require Import Types.
From S2P Require Import State.
From S2P Require Import Prune.
From S2P Require Import Facade.
From S2P Require Import Access.
From S2P Require Import Certificate.
From S2P Require Import Query.
From S2P Require Import QueryAuth.
From S2P Require Import Frame.

Local Open Scope Z_scope.

(** ** Text *)

Definition dec (v : u64) : string := pretty (Z.to_N (uval v)).
Definition dec_nat (n : nat) : string := pretty (N.of_nat n).

Definition nibble (z : Z) : string :=
  String (Ascii.ascii_of_N (Z.to_N (if z <? 10 then 48 + z else 87 + z))) EmptyString.

(** [hex]: two lower-case digits per byte. *)
Definition hex (bytes : list u8) : string :=
  foldr (fun b s => nibble (uval b / 16) +:+ nibble (uval b mod 16) +:+ s) EmptyString bytes.

Definition ascii_code (a : Ascii.ascii) : Z := Z.of_N (Ascii.N_of_ascii a).
Definition in_codes (lo hi : Z) (a : Ascii.ascii) : bool := (lo <=? ascii_code a) && (ascii_code a <=? hi).

Definition hex_digit (a : Ascii.ascii) : option Z :=
  if in_codes 48 57 a then Some (ascii_code a - 48)
  else if in_codes 97 102 a then Some (ascii_code a - 87)
  else if in_codes 65 70 a then Some (ascii_code a - 55)
  else None.

Definition dec_digit (a : Ascii.ascii) : option Z := if in_codes 48 57 a then Some (ascii_code a - 48) else None.

(** [strip_prefix("0x").unwrap_or(s)]. *)
Definition strip_0x (s : string) : string :=
  match s with
  | String a (String b rest) => if (ascii_code a =? 48) && (ascii_code b =? 120) then rest else s
  | _ => s
  end.

(** Two digits to a byte. *)
Fixpoint digit_pairs (digits : list Z) : list u8 :=
  match digits with
  | hi :: lo :: digits => of_Z 8 (16 * hi + lo) :: digit_pairs digits
  | _ => []
  end.

(** [h32]: up to 64 hex digits, padded with zeros on the left. *)
Definition h32 (s : string) : option (bytes 32) :=
  let l := String.list_ascii_of_string (strip_0x s) in
  if (length l =? 0)%nat || (64 <? length l)%nat then None
  else
    digits ← mapM hex_digit l;
    Some (buffer 32 (digit_pairs (repeat 0 (64 - length digits) ++ digits))).

(** [str::parse] of a [u64]: an optional plus, decimal digits, no overflow. *)
Definition parse_u64 (s : string) : option u64 :=
  let l := match String.list_ascii_of_string s with
           | a :: (_ :: _) as l => if ascii_code a =? 43 then tail l else l
           | l => l
           end in
  if (length l =? 0)%nat then None
  else
    digits ← mapM dec_digit l;
    let v := foldl (fun acc d => 10 * acc + d) 0 digits in
    if v <? 2 ^ 64 then Some (of_Z 64 v) else None.

(** [split(':')]. *)
Fixpoint split_colon (s : string) : list string :=
  match s with
  | EmptyString => [EmptyString]
  | String a s =>
      if ascii_code a =? 58 then EmptyString :: split_colon s
      else match split_colon s with
           | part :: parts => String a part :: parts
           | [] => [String a EmptyString]
           end
  end.

(** [split_once(':')]. *)
Fixpoint split_once (s : string) : option (string * string) :=
  match s with
  | EmptyString => None
  | String a s =>
      if ascii_code a =? 58 then Some (EmptyString, s)
      else '(l, r) ← split_once s; Some (String a l, r)
  end.

Definition dim_from (s : string) : option Dim :=
  if decide (s = "particles"%string) then Some DParticles
  else if decide (s = "axons-out"%string) then Some DAxonsOut
  else if decide (s = "axons-in"%string) then Some DAxonsIn
  else if decide (s = "neurons"%string) then Some DNeurons
  else if decide (s = "locations"%string) then Some DLocations
  else if decide (s = "coins"%string) then Some DCoins
  else if decide (s = "cards"%string) then Some DCards
  else if decide (s = "files"%string) then Some DFiles
  else if decide (s = "time"%string) then Some DTime
  else if decide (s = "signals"%string) then Some DSignals
  else None.

Definition height_key (s : string) : option (bytes 32) := n ← parse_u64 s; Some (buffer 32 (to_le_bytes 8 n)).

(** A quoted name of a JSON line. *)
Definition quoted (s : string) : string := String (Ascii.ascii_of_N 34) s +:+ String (Ascii.ascii_of_N 34) EmptyString.

(** The debug form of a list of numbers. *)
Definition dec_list (l : list u64) : string := "[" +:+ String.concat ", " (map dec l) +:+ "]".

(** ** The store *)

(** The directory of a store: none was given, or its log when there is one. *)
Abbreviation World := (option (option (list u8))).

(** The file system: whether an existing log can be read, and which bytes of an append reach the log,
    or that it could not be opened. *)
Record Io := mkIo { io_read_ok : bool; io_append : list u8 -> option (list u8) }.

Inductive Command :=
| CRoot
| CHeight
| CStats
| CGet (dim key : string)
| CDump (dim : option string)
| CApply (neuron from to token : string) (amount : u64) (valence : i8)
| CIntend (neuron : string) (h0 : u64) (scope : string)
| CFinalize
| CPrune
| CProve (dim key : string).

Section Cli.
  Context `{Nebu, Hemera, !Lens, !Openings, !Tape}.

Definition signal_key_arg (s : string) : option (bytes 32) :=
  match split_once s with
  | Some (neuron, step) => neuron ← h32 neuron; step ← parse_u64 step; Some (signal_key neuron step)
  | None => h32 s
  end.

Definition card_key_arg (s : string) : option (bytes 32) :=
  match split_colon s with
  | [author; p; q] => author ← h32 author; p ← h32 p; q ← h32 q; Some (card_id author p q)
  | [card] => h32 card
  | _ => None
  end.

(** The loop of [open_store]; the answer of an insertion is dropped. *)
Fixpoint replay (b : Bbg) (events : list Event) : option Bbg :=
  match events with
  | [] => Some b
  | ESignal s :: events => '(_, b) ← bbg_insert b s; replay b events
  | EIntent i :: events => replay (bbg_apply_intent b i).2 events
  | EFinalize :: events => b ← finalize_block b; replay b events
  end.

Definition open_store (io : Io) (w : World) : option (result string Bbg) :=
  b ← bbg_new;
  match w with
  | None | Some None => Some (Ok b)
  | Some (Some bytes) =>
      if io_read_ok io then b ← replay b (decode_events bytes); Some (Ok b)
      else Some (Err "store error"%string)
  end.

(** [append]: a failure is reported on standard error and the run goes on. *)
Definition append (io : Io) (w : World) (frame : list u8) : World :=
  match w with
  | None => None
  | Some log =>
      match io_append io frame with
      | None => Some log
      | Some written => Some (Some (default [] log ++ written))
      end
  end.

(** ** Inspection *)

Definition print_stats (b : Bbg) (json : bool) : list string :=
  let s := bbg_statistics b in
  if json then
    ["{" +:+ quoted "node_count" +:+ ":" +:+ dec (node_count s) +:+ "," +:+ quoted "max_degree" +:+ ":" +:+ dec (st_max_degree s)
     +:+ "," +:+ quoted "diameter_bound" +:+ ":" +:+ dec (diameter_bound s) +:+ "," +:+ quoted "relation_sizes" +:+ ":" +:+ dec_list (relation_sizes s) +:+ "}"]
  else
    ["node_count      " +:+ dec (node_count s); "max_degree      " +:+ dec (st_max_degree s);
     "diameter_bound  " +:+ dec (diameter_bound s); "relation_sizes  " +:+ dec_list (relation_sizes s)].

Definition cmd_get (b : Bbg) (dim key : string) (json : bool) : Z * list string :=
  let found (line : option string) := match line with Some l => (0, [l]) | None => (1, []) end in
  match h32 key with
  | None => (3, [])
  | Some k =>
      if decide (dim = "particles"%string) then
        found ((fun p => if json : bool
                         then "{" +:+ quoted "energy" +:+ ":" +:+ dec (energy p) +:+ "," +:+ quoted "pi_star" +:+ ":" +:+ dec (pi_star p) +:+ "," +:+ quoted "weight" +:+ ":" +:+ dec (weight p) +:+ "}"
                         else "energy " +:+ dec (energy p) +:+ "  pi_star " +:+ dec (pi_star p) +:+ "  weight " +:+ dec (weight p)) <$> k_map (particles (bbg_state b)) !! k)
      else if decide (dim = "neurons"%string) then
        found ((fun n => if json : bool
                         then "{" +:+ quoted "focus" +:+ ":" +:+ dec (focus n) +:+ "," +:+ quoted "karma" +:+ ":" +:+ dec (karma n) +:+ "," +:+ quoted "stake" +:+ ":" +:+ dec (stake n) +:+ "}"
                         else "focus " +:+ dec (focus n) +:+ "  karma " +:+ dec (karma n) +:+ "  stake " +:+ dec (stake n)) <$> k_map (neurons (bbg_state b)) !! k)
      else if decide (dim = "axons-out"%string) then found ((fun v => "out " +:+ dec_nat (length v)) <$> ai_map (axons_out (bbg_state b)) !! k)
      else if decide (dim = "axons-in"%string) then found ((fun v => "in " +:+ dec_nat (length v)) <$> ai_map (axons_in (bbg_state b)) !! k)
      else (3, [])
  end.

Definition print_dump (b : Bbg) (dim : option string) : list string :=
  let show (name : string) (l : list string) := if decide (dim = None \/ dim = Some name) then l else [] in
  let s := bbg_state b in
  show "particles"%string (map (fun '(k, p) => "particles " +:+ hex (blist k) +:+ "  energy " +:+ dec (energy p) +:+ "  weight " +:+ dec (weight p)) (btree_iter (k_map (particles s))))
  ++ show "neurons"%string (map (fun '(k, n) => "neurons " +:+ hex (blist k) +:+ "  focus " +:+ dec (focus n) +:+ "  karma " +:+ dec (karma n) +:+ "  stake " +:+ dec (stake n)) (btree_iter (k_map (neurons s))))
  ++ show "axons"%string (map (fun '(aid, (f, t)) =>
       "axon " +:+ hex (blist f) +:+ " → " +:+ hex (blist t) +:+ "  weight " +:+ dec (default (of_Z 64 0) (weight <$> k_map (particles s) !! aid))) (btree_iter (axon_edges s)))
  ++ show "signals"%string (map (fun '(k, r) =>
       "signal " +:+ hex (blist k) +:+ "  neuron " +:+ hex (blist (sr_neuron r)) +:+ "  step " +:+ dec (sr_step r) +:+ "  links " +:+ pretty (Z.to_N (uval (sr_link_count r)))
       +:+ "  height " +:+ dec (sr_block_height r)) (btree_iter (k_map (signals s)))).

(** ** Proving *)

Definition cmd_prove (b : Bbg) (dim key : string) (json : bool) : option (Z * list string) :=
  match dim_from dim with
  | None => Some (3, [])
  | Some d =>
      let parsed := if decide (dim = "time"%string) then height_key key
                    else if decide (dim = "signals"%string) then signal_key_arg key
                    else if decide (dim = "cards"%string) then card_key_arg key
                    else h32 key in
      match parsed with
      | None => Some (3, [])
      | Some k =>
          '(proof, _) ← bbg_query (bbg_state b) d k;
          match proof with
          | None => Some (1, [])
          | Some proof =>
              ok ← verify_query proof;
              let value := hex (qp_value_bytes proof) in
              Some (if ok : bool then 0 else 2,
                    if json then ["{" +:+ quoted "dim" +:+ ":" +:+ quoted dim +:+ "," +:+ quoted "value" +:+ ":" +:+ quoted value +:+ "," +:+ quoted "verified" +:+ ":" +:+ (if ok : bool then "true" else "false") +:+ "}"]
                    else ["value    " +:+ value; "verified " +:+ (if ok : bool then "ok" else "FAIL");
                          "note     proof held in-process; portable proof export awaits lens serde"%string])
          end
      end
  end.

(** ** Runs *)

Definition run (io : Io) (json : bool) (w : World) (c : Command) : option (Z * list string * World) :=
  opened ← open_store io w;
  match opened with
  | Err _ => Some (3, [], w)
  | Ok b =>
      match c with
      | CRoot => '(root, _) ← compute_root (bbg_state b); Some (0, [hex (blist root)], w)
      | CHeight => Some (0, [dec (height (bbg_state b))], w)
      | CStats => Some (0, print_stats b json, w)
      | CGet dim key => let '(code, out) := cmd_get b dim key json in Some (code, out, w)
      | CDump dim => Some (0, print_dump b dim, w)
      | CApply neuron from to token amount valence =>
          match h32 neuron, h32 from, h32 to, h32 token with
          | Some n, Some f, Some t, Some tok =>
              let signal := mkSignal n [mkCyberlink f t tok amount valence] [] (height (bbg_state b)) in
              '(r, b) ← bbg_insert b signal;
              match r with
              | Err _ => Some (2, [], w)
              | Ok _ =>
                  let w := append io w (encode_signal signal) in
                  '(root, _) ← compute_root (bbg_state b);
                  Some (0, [hex (blist root)], w)
              end
          | _, _, _, _ => Some (3, [], w)
          end
      | CIntend neuron h0 scope =>
          match h32 neuron, h32 scope with
          | Some n, Some s =>
              let intent := mkIntentRecord n h0 s (buffer 64 []) in
              let '(key, b) := bbg_apply_intent b intent in
              Some (0, [hex (blist key)], append io w (encode_intent intent))
          | _, _ => Some (3, [], w)
          end
      | CFinalize =>
          b ← finalize_block b;
          let w := append io w encode_finalize in
          '(root, _) ← compute_root (bbg_state b);
          Some (0, ["height " +:+ dec (height (bbg_state b)) +:+ "  root " +:+ hex (blist root)], w)
      | CPrune =>
          let epoch := epoch_of (height (bbg_state b)) in
          let before := size (axon_edges (bbg_state b)) in
          '(s, _) ← prune (bbg_state b) (prune_state b) (prune_config b) epoch;
          Some (0, ["pruned: axons " +:+ dec_nat before +:+ " → " +:+ dec_nat (size (axon_edges s))], w)
      | CProve dim key => '(code, out) ← cmd_prove b dim key json; Some (code, out, w)
      end
  end.

(** One process after the other. *)
Fixpoint session (io : Io) (json : bool) (w : World) (cs : list Command) {struct cs} : option (list (Z * list string) * World) :=
  match cs with
  | [] => Some ([], w)
  | c :: cs =>
      '(code, out, w) ← run io json w c;
      '(rest, w) ← session io json w cs;
      Some ((code, out) :: rest, w)
  end.

End Cli.
