(* ===== verification/CliSpec.v ===== *)
(** * The log is the state (cli/src/frame.rs, cli/src/main.rs)

    Frames are read back, a payload is never larger than it claims, and a sequence of runs over a
    store is a sequence of calls on one state in memory: the log is replayed to exactly the state
    the runs before left. Proving a key of such a state, which has the v2 derivation, does not
    succeed. *)

From S2P Require Import Prelude.
From S2P Require Import Crypto.
From S2P Require Import Keyed.
From S2P Require Import Types.
From S2P Require Import State.
From S2P Require Import Prune.
From S2P Require Import Facade.
From S2P Require Import Access.
From S2P Require Import Certificate.
From S2P Require Import Query.
From S2P Require Import QueryAuth.
From S2P Require Import QuerySpec.
From S2P Require Import QueryProofs.
From S2P Require Import Frame.
From S2P Require Import Cli.

Local Open Scope Z_scope.

(** ** Frames *)

Section Frames.
  Context `{Tape, !TapeLaws}.

Definition event_chunk (e : Event) : Chunk :=
  match e with
  | ESignal s => mkChunk ZAP RENDER_BIN (serialize_signal s)
  | EIntent i => mkChunk KET RENDER_BIN (serialize_intent i)
  | EFinalize => mkChunk SIG_FINALIZE RENDER_BIN []
  end.

Definition encode_event (e : Event) : list u8 :=
  match e with
  | ESignal s => encode_signal s
  | EIntent i => encode_intent i
  | EFinalize => encode_finalize
  end.

(** A log of events. *)
Definition log_of (events : list Event) : list u8 := flat_map encode_event events.

Definition countable (e : Event) : Prop := match e with ESignal s => countable_signal s | _ => True end.

Lemma chunk_event_ok e : countable e -> chunk_event (event_chunk e) = [e].
Proof.
  destruct sigils_differ as (Hzk & Hzf & Hkf). unfold chunk_event. destruct e as [s|i|]; intros He; cbn [event_chunk c_sigil c_payload].
  - rewrite decide_True by done. pose proof (signal_decodes s [] He) as E. rewrite app_nil_r in E. by rewrite E.
  - rewrite decide_False, decide_True by congruence. pose proof (intent_decodes i []) as E. rewrite app_nil_r in E. by rewrite E.
  - by rewrite !decide_False, decide_True by congruence.
Qed.

Lemma log_chunks events : tape_chunks (log_of events) = map event_chunk events.
Proof.
  rewrite <- (tape_stream (map event_chunk events)). f_equal. unfold log_of. induction events as [|e events IH]; [done|]. cbn [flat_map map]. rewrite IH. by destruct e.
Qed.

Lemma log_decodes events : Forall countable events -> decode_events (log_of events) = events.
Proof.
  intros Hc. unfold decode_events. rewrite log_chunks. induction Hc as [|e events He _ IH]; [done|]. cbn [map flat_map]. by rewrite chunk_event_ok, IH.
Qed.

(** C14: a log reads back. Decoding the frames of any events, one after the other, answers the events
    in order, with every link, move, valence and signature, whenever a [u32] counts the lists of the
    signals. *)
Theorem log_roundtrip events : Forall countable events -> decode_events (flat_map encode_event events) = events.
Proof. apply log_decodes. Qed.

End Frames.


(** ** Keys as text *)

Definition digit_char (z : Z) : Ascii.ascii := Ascii.ascii_of_N (Z.to_N (if z <? 10 then 48 + z else 87 + z)).

Lemma digit_cases (P : Z -> Prop) : (forall n, (n < 16)%nat -> P (Z.of_nat n)) -> forall z, 0 <= z < 16 -> P z.
Proof. intros HP z Hz. rewrite <- (Z2Nat.id z) by lia. apply HP. lia. Qed.

Lemma hex_digit_char z : 0 <= z < 16 -> hex_digit (digit_char z) = Some z /\ ascii_code (digit_char z) <> 120.
Proof. revert z. apply digit_cases. intros n Hn. do 16 (destruct n as [|n]; [by split; [reflexivity|vm_compute]|]). lia. Qed.

(** The digits of a byte. *)
Definition byte_digits (b : u8) : list Z := [uval b / 16; uval b mod 16].

Definition byte_chars (b : u8) : list Ascii.ascii := [digit_char (uval b / 16); digit_char (uval b mod 16)].

Lemma byte_digits_range (b : u8) : 0 <= uval b / 16 < 16 /\ 0 <= uval b mod 16 < 16.
Proof. pose proof (uval_range b). simpl Z.of_N in *. pose proof (Z.mod_pos_bound (uval b) 16 ltac:(lia)). split; [|lia]. split; [by apply Z.div_pos; lia|]. apply Z.div_lt_upper_bound; lia. Qed.

Lemma hex_chars l : String.list_ascii_of_string (hex l) = flat_map byte_chars l.
Proof. induction l as [|b l IH]; [done|]. cbn [flat_map byte_chars app]. change (String.list_ascii_of_string (hex (b :: l))) with (digit_char (uval b / 16) :: digit_char (uval b mod 16) :: String.list_ascii_of_string (hex l)). by rewrite IH. Qed.

Lemma hex_digits l : mapM hex_digit (flat_map byte_chars l) = Some (flat_map byte_digits l).
Proof.
  induction l as [|b l IH]; [done|]. destruct (byte_digits_range b) as [Hh Hl]. cbn [flat_map byte_chars byte_digits app mapM].
  rewrite (proj1 (hex_digit_char _ Hh)), (proj1 (hex_digit_char _ Hl)). cbn [mbind option_bind]. by rewrite IH.
Qed.

Lemma pairs_digits l : digit_pairs (flat_map byte_digits l) = l.
Proof.
  induction l as [|b l IH]; [done|]. cbn [flat_map byte_digits app digit_pairs]. rewrite IH. f_equal. rewrite <- Z.div_mod by lia. apply of_Z_uval.
Qed.

Lemma strip_hex l : strip_0x (hex l) = hex l.
Proof.
  destruct l as [|b l]; [done|]. destruct (byte_digits_range b) as [_ Hl]. pose proof (proj2 (hex_digit_char _ Hl)) as Hx.
  change (hex (b :: l)) with (String (digit_char (uval b / 16)) (String (digit_char (uval b mod 16)) (hex l))). unfold strip_0x.
  rewrite (proj2 (Z.eqb_neq _ _) Hx). by rewrite andb_false_r.
Qed.

(** A printed key is an accepted key: parsing the hex form of 32 bytes answers them. *)
Theorem hex_roundtrip (b : bytes 32) : h32 (hex (blist b)) = Some b.
Proof.
  assert (forall l : list u8, length (flat_map byte_digits l) = (2 * length l)%nat) as Hlen by (induction l as [|x l IH]; [done|]; cbn [flat_map byte_digits app length]; lia).
  assert (forall l : list u8, length (flat_map byte_chars l) = (2 * length l)%nat) as Hlen' by (induction l as [|x l IH]; [done|]; cbn [flat_map byte_chars app length]; lia).
  unfold h32. rewrite strip_hex, hex_chars, Hlen', length_blist. cbn [Nat.mul Nat.add Nat.eqb Nat.ltb Nat.leb orb]. rewrite hex_digits. cbn [mbind option_bind].
  rewrite Hlen, length_blist. cbn [Nat.mul Nat.add Nat.sub repeat app]. rewrite pairs_digits. by rewrite buffer_blist.
Qed.

(** ** Runs *)

Section Runs.
  Context `{Nebu, Hemera, !Lens, !Openings, !Tape, !TapeLaws}.

(** The events of a list, applied to a new state. *)
Definition folded (events : list Event) (b : Bbg) : Prop := exists b0, bbg_new = Some b0 /\ replay b0 events = Some b.

(** A store holds a state when its log is that of events that fold to it. *)
Definition Represents (w : World) (b : Bbg) : Prop :=
  exists events log, w = Some log /\ default [] log = log_of events /\ Forall countable events /\ folded events b.

(** A file system that reads and appends. *)
Definition reliable (io : Io) : Prop := io_read_ok io = true /\ forall frame, io_append io frame = Some frame.

Lemma replay_app b events events' : replay b (events ++ events') = b ← replay b events; replay b events'.
Proof.
  revert b. induction events as [|[s|i|] events IH]; intros b; cbn [app replay]; [done|..].
  - destruct (bbg_insert b s) as [[r b1]|]; [|done]. apply IH.
  - apply IH.
  - destruct (finalize_block b) as [b1|]; [|done]. apply IH.
Qed.

Lemma represents_opens io w b : reliable io -> Represents w b -> open_store io w = Some (Ok b).
Proof.
  intros [Hr _] (events & log & -> & El & Hc & b0 & Eb & Er). unfold open_store. rewrite Eb. cbn [mbind option_bind]. destruct log as [log|].
  - change (log = log_of events) in El. rewrite Hr, El, log_decodes by done. by rewrite Er.
  - destruct events as [|e events]; [by injection Er as ->|]. exfalso. assert (map event_chunk (e :: events) = []) as E; [|done].
    rewrite <- log_chunks, <- El. exact (tape_stream []).
Qed.

Lemma represents_push io w b e b' : reliable io -> Represents w b -> countable e -> replay b [e] = Some b' -> Represents (append io w (encode_event e)) b'.
Proof.
  intros [_ Ha] (events & log & -> & El & Hc & b0 & Eb & Er) He E. unfold append. rewrite Ha. exists (events ++ [e]), (Some (default [] log ++ encode_event e)).
  split_and!; [done| |by apply Forall_app; split; [|by apply Forall_singleton]|].
  - change (default [] log ++ encode_event e = log_of (events ++ [e])). rewrite El. unfold log_of. rewrite flat_map_app. cbn [flat_map]. by rewrite app_nil_r.
  - exists b0. split; [done|]. by rewrite replay_app, Er.
Qed.

(** The console over one state in memory: the state a command leaves is its last one before the root
    is printed. Pruning by hand is not kept. *)
Definition console (json : bool) (b : Bbg) (c : Command) : option (Z * list string * Bbg) :=
  match c with
  | CRoot => '(root, _) ← compute_root (bbg_state b); Some (0, [hex (blist root)], b)
  | CHeight => Some (0, [dec (height (bbg_state b))], b)
  | CStats => Some (0, print_stats b json, b)
  | CGet dim key => let '(code, out) := cmd_get b dim key json in Some (code, out, b)
  | CDump dim => Some (0, print_dump b dim, b)
  | CApply neuron from to token amount valence =>
      match h32 neuron, h32 from, h32 to, h32 token with
      | Some n, Some f, Some t, Some tok =>
          '(r, b') ← bbg_insert b (mkSignal n [mkCyberlink f t tok amount valence] [] (height (bbg_state b)));
          match r with
          | Err _ => Some (2, [], b)
          | Ok _ => '(root, _) ← compute_root (bbg_state b'); Some (0, [hex (blist root)], b')
          end
      | _, _, _, _ => Some (3, [], b)
      end
  | CIntend neuron h0 scope =>
      match h32 neuron, h32 scope with
      | Some n, Some s => let '(key, b) := bbg_apply_intent b (mkIntentRecord n h0 s (buffer 64 [])) in Some (0, [hex (blist key)], b)
      | _, _ => Some (3, [], b)
      end
  | CFinalize =>
      b ← finalize_block b;
      '(root, _) ← compute_root (bbg_state b);
      Some (0, ["height " +:+ dec (height (bbg_state b)) +:+ "  root " +:+ hex (blist root)], b)
  | CPrune =>
      '(s, _) ← prune (bbg_state b) (prune_state b) (prune_config b) (epoch_of (height (bbg_state b)));
      Some (0, ["pruned: axons " +:+ dec_nat (size (axon_edges (bbg_state b))) +:+ " → " +:+ dec_nat (size (axon_edges s))], b)
  | CProve dim key => '(code, out) ← cmd_prove b dim key json; Some (code, out, b)
  end.

Fixpoint console_run (json : bool) (b : Bbg) (cs : list Command) {struct cs} : option (list (Z * list string) * Bbg) :=
  match cs with
  | [] => Some ([], b)
  | c :: cs => '(code, out, b) ← console json b c; '(rest, b) ← console_run json b cs; Some ((code, out) :: rest, b)
  end.

(** A run over a store does what the console does, and leaves the store of its state. *)
Definition same_run (r : option (Z * list string * World)) (m : option (Z * list string * Bbg)) : Prop :=
  match m with
  | None => r = None
  | Some (code, out, b) => exists w, r = Some (code, out, w) /\ Represents w b
  end.

Lemma one_link_countable n l h : countable (ESignal (mkSignal n [l] [] h)).
Proof. split; done. Qed.

Lemma run_ok io json w b c : reliable io -> Represents w b -> same_run (run io json w c) (console json b c).
Proof.
  intros Hio Hw. assert (forall code out, same_run (Some (code, out, w)) (Some (code, out, b))) as Hsame by (intros code out; by exists w).
  unfold run. rewrite (represents_opens io w b Hio Hw). cbn [mbind option_bind]. destruct c as [| | |dim key|dim|neuron from to token amount valence|neuron h0 scope| | |dim key]; cbn [console].
  - destruct (compute_root _) as [[root s]|]; [apply Hsame|done].
  - apply Hsame.
  - apply Hsame.
  - destruct (cmd_get b dim key json). apply Hsame.
  - apply Hsame.
  - destruct (h32 neuron) as [n|]; [|apply Hsame]. destruct (h32 from) as [f|]; [|apply Hsame]. destruct (h32 to) as [t|]; [|apply Hsame]. destruct (h32 token) as [tok|]; [|apply Hsame].
    set (sg := mkSignal n _ _ _). destruct (bbg_insert b sg) as [[r b']|] eqn:Ei; [|done]. cbn [mbind option_bind]. destruct r as [[]|e]; [|apply Hsame].
    destruct (compute_root (bbg_state b')) as [[root s]|]; [|done]. cbn [mbind option_bind same_run]. eexists. split; [done|].
    apply (represents_push io w b (ESignal sg) b'); [done..|apply one_link_countable|]. cbn [replay]. by rewrite Ei.
  - destruct (h32 neuron) as [n|]; [|apply Hsame]. destruct (h32 scope) as [s|]; [|apply Hsame]. set (i := mkIntentRecord n h0 s _). destruct (bbg_apply_intent b i) as [key b'] eqn:Ei.
    cbn [same_run]. eexists. split; [done|]. apply (represents_push io w b (EIntent i) b'); [done..|]. cbn [replay]. by rewrite Ei.
  - destruct (finalize_block b) as [b'|] eqn:Ef; [|done]. cbn [mbind option_bind]. destruct (compute_root (bbg_state b')) as [[root s]|]; [|done]. cbn [mbind option_bind same_run].
    eexists. split; [done|]. apply (represents_push io w b EFinalize b'); [done..|]. cbn [replay]. by rewrite Ef.
  - destruct (prune _ _ _ _) as [[s ps]|]; [apply Hsame|done].
  - destruct (cmd_prove b dim key json) as [[code out]|]; [apply Hsame|done].
Qed.


(** An append that fails is not an error of the run: a signal is applied, its root printed and the exit
    code 0, and the store is what it was. *)
Lemma failed_append_reported_as_success io json w neuron from to token amount valence code out w' : (forall frame, io_append io frame = None) ->
  run io json w (CApply neuron from to token amount valence) = Some (code, out, w') -> w' = w.
Proof.
  intros Ha. unfold run. destruct (open_store io w) as [[b|e]|]; [..|done]; cbn [mbind option_bind]; [|by intros [= _ _ ->]].
  destruct (h32 neuron), (h32 from), (h32 to), (h32 token); try (by intros [= _ _ ->]). destruct (bbg_insert _ _) as [[[]]|]; [..|done]; cbn [mbind option_bind]; [|by intros [= _ _ ->]].
  destruct (compute_root _) as [[root s]|]; [|done]. cbn [mbind option_bind]. intros [= _ _ <-]. unfold append. rewrite Ha. by destruct w.
Qed.

(** Pruning by hand never reaches the store. *)
Lemma prune_forgotten io json w code out w' : run io json w CPrune = Some (code, out, w') -> w' = w.
Proof.
  unfold run. destruct (open_store io w) as [[b|e]|]; [..|done]; cbn [mbind option_bind]; [|by intros [= _ _ ->]].
  destruct (prune _ _ _ _) as [[s ps]|]; [|done]. by intros [= _ _ <-].
Qed.

(** ** Proving *)

(** The leaf of the root of a state for a dimension. *)
Definition root_leaf (s : BbgState) (d : Dim) (leaf : Digest) : Prop :=
  exists leaves s', root_leaves s = Some (leaves, s') /\ ordered leaves !! Z.to_nat (dim_index d) = Some leaf.

(** What a certificate of one dimension attests. *)
Lemma certificate_leaf s d c s' : certificate_from_state s [of_Z 64 (dim_index d)] = Some (Ok c, s') ->
  exists leaf, root_leaf s d leaf /\ blist (commit_fields (map g_new (map g_as_u64 (dim_serialize (dim_entries s d))))) = words_bytes (quad_list (quad_map g_as_u64 leaf)).
Proof.
  unfold certificate_from_state. destruct (_ || _); [done|]. change (merge_sort u64_le [of_Z 64 (dim_index d)]) with [of_Z 64 (dim_index d)]. cbn [adjacent_equal dimension_tables].
  assert (dim_from_u64 (of_Z 64 (dim_index d)) = Some d) as -> by by destruct d. cbn [mbind option_bind]. destruct (2 ^ 64 <=? _); [done|]. destruct (MAX_FIELDS <? _); [done|]. cbn [mbind option_bind result_bind].
  destruct (root_leaves s) as [[leaves s1]|] eqn:El; [|done]. cbn [mbind option_bind]. set (cert := mkStateCertificate _ _ _ _). destruct (certificate_root cert) as [[root|e]|] eqn:Er; [|done..].
  intros _. apply certificate_root_ok in Er as [_ Hatt]. destruct (Hatt _ ltac:(by left)) as [_ _ _ (leaf & Hleaf & _ & Ecommit)]. cbn [dt_namespace dt_fields sc_leaves cert] in *.
  assert (uval (of_Z 64 (dim_index d)) = dim_index d) as Ed by by destruct d. rewrite Ed in Hleaf. unfold leaf_words in Hleaf. rewrite vec_to_list_map, vec_to_list_app in Hleaf.
  change (map ?f ?l) with (f <$> l) in Hleaf. rewrite list_lookup_fmap in Hleaf. destruct (_ !! Z.to_nat (dim_index d)) as [q|] eqn:Eq in Hleaf; [|done]. injection Hleaf as <-.
  exists q. split; [|done]. by exists leaves, s1.
Qed.

Lemma open_cell_leaf s d idx proof s' : d <> DBalances -> open_cell s d idx = Some (Some proof, s') ->
  exists leaf, root_leaf s d leaf /\ blist (commit_fields (map g_new (map g_as_u64 (dim_serialize (dim_entries s d))))) = words_bytes (quad_list (quad_map g_as_u64 leaf)).
Proof.
  intros Hd. unfold open_cell. assert (dim_index d <=? 9 = true) as -> by by destruct d. destruct (_ && _); [done|]. destruct (open_cell_from_entries _ _) as [p|]; [|done].
  unfold context_from_state. destruct (certificate_from_state _ _) as [[[c|e] s1]|] eqn:Ec; [|done..]. intros _. by eapply certificate_leaf.
Qed.


End Runs.

(** ** Examples *)

Section Witnesses.
Import Toy QueryToy.

(** Frames that escape each byte of the payload. *)
Definition toy_frame (c : Chunk) : list u8 := c_sigil c :: c_render c :: flat_map (fun b => [of_Z 8 1; b]) (c_payload c) ++ [of_Z 8 0].

(** Parsing an escaped payload, and the chunk it belongs to. *)
Fixpoint toy_payload (sigil render : u8) (acc : list u8) (chunk : list u8 -> list Chunk) (bytes : list u8) : list Chunk :=
  match bytes with
  | tag :: rest =>
      if uval tag =? 0 then mkChunk sigil render (rev acc) :: chunk rest
      else match rest with b :: rest => toy_payload sigil render (b :: acc) chunk rest | [] => [] end
  | [] => []
  end.

Fixpoint toy_read (fuel : nat) (bytes : list u8) : list Chunk :=
  match fuel, bytes with
  | S fuel, sigil :: render :: rest => toy_payload sigil render [] (toy_read fuel) rest
  | _, _ => []
  end.

#[local] Instance toy_tape : Tape := {|
  ZAP := of_Z 8 33;
  KET := of_Z 8 94;
  tape_encode := toy_frame;
  tape_chunks bytes := toy_read (length bytes) bytes;
|}.

Lemma toy_payload_ok sigil render acc chunk payload rest :
  toy_payload sigil render acc chunk (flat_map (fun b => [of_Z 8 1; b]) payload ++ [of_Z 8 0] ++ rest) = mkChunk sigil render (rev acc ++ payload) :: chunk rest.
Proof.
  revert acc. induction payload as [|b payload IH]; intros acc; [cbn; by rewrite app_nil_r|]. cbn [flat_map app toy_payload]. change (uval (of_Z 8 1) =? 0) with false. cbn match.
  cbn [app] in IH. rewrite IH. cbn [rev]. by rewrite <- app_assoc.
Qed.

Lemma toy_read_ok cs fuel : (length cs <= fuel)%nat -> toy_read fuel (flat_map toy_frame cs) = cs.
Proof.
  revert fuel. induction cs as [|c cs IH]; intros fuel Hf; [by destruct fuel|]. destruct fuel as [|fuel]; [simpl in Hf; lia|]. cbn [flat_map]. unfold toy_frame at 1. cbn [app toy_read].
  rewrite <- app_assoc. rewrite toy_payload_ok. cbn [rev app]. rewrite IH by (simpl in Hf; lia). by destruct c.
Qed.

#[local] Instance toy_tape_laws : TapeLaws.
Proof.
  split; [split_and!; by intros [=]%(f_equal uval)|]. intros cs. apply toy_read_ok. induction cs as [|c cs IH]; [done|]. cbn [flat_map length]. rewrite length_app.
  assert (1 <= length (toy_frame c))%nat by (unfold toy_frame; cbn [length]; lia). cbn [tape_encode toy_tape] in *. lia.
Qed.

Definition toy_events : list Event :=
  [ESignal (mkSignal (id32 1) [mkCyberlink (id32 2) (id32 3) (id32 0) (of_Z 64 4) (as_i8 (of_Z 8 255))] [mkBoxMove (id32 5) (Some (id32 6, of_Z 64 9))] (of_Z 64 7)); EFinalize].

Lemma log_roundtrip_witness : decode_events (flat_map encode_event toy_events) = toy_events.
Proof. apply log_roundtrip. apply Forall_cons; split; [split; done|]. apply Forall_cons; split; [done|apply Forall_nil; exact I]. Defined.

Definition toy_io : Io := mkIo true Some.

Lemma toy_reliable : reliable toy_io.
Proof. by split. Qed.

(** An apply and a block, then a proof of the particle the link points to: it is not found. *)
Definition toy_session : list Command := [CApply "1" "2" "3" "0" (of_Z 64 4) (as_i8 (of_Z 8 1)); CFinalize; CGet "particles" "3"; CProve "particles" "3"].

Lemma prove_of_present_particle_not_found : (fun r => map fst r.1) <$> session toy_io false (Some None) toy_session = Some [0; 0; 0; 1].
Proof. vm_compute. reflexivity. Qed.



Lemma toy_query : exists proof s', bbg_query QueryToy.state DNeurons (id32 1) = Some (Some proof, s').
Proof.
  assert (match bbg_query QueryToy.state DNeurons (id32 1) with Some (Some _, _) => true | _ => false end = true) as E by (vm_compute; reflexivity).
  revert E. generalize (bbg_query QueryToy.state DNeurons (id32 1)). intros [[[proof|] s']|]; [|done..]. by exists proof, s'.
Qed.


End Witnesses.
